(* ===== verification/_CoqProject ===== *)
-Q . S2P
Prelude.v
GoStrings.v
GoRegexp.v
GoPath.v
GoSort.v
GoMap.v
GoChan.v
GoFlag.v
GoTime.v
GoHttp.v
GoUrl.v
GoJson.v
GoJsonSpec.v
Config.v
ConfigSpec.v
JsonFrame.v
Scanner.v
Query.v
QuerySpec.v
Search.v
Api.v
SearchSpec.v
Backend.v
Diff.v
DiffSpec.v
GitLog.v
GitLogSpec.v
Blame.v
BlameSpec.v
GitShow.v
DirTree.v
DirTreeSpec.v
Listing.v
ListingSpec.v
Templates.v
TemplatesSpec.v
StyleSheet.v
ReqId.v
Pages.v
PagesSpec.v
Server.v
ServerSpec.v
Start.v
StartSpec.v
LoadConfig.v
Running.v
Routes.v
Site.v
Composite.v
CompositeSpec.v
Iap.v
LgIap.v
Fetch.v
FetchSpec.v
Checkout.v
CheckoutSpec.v
Reindex.v
Lg.v
SiteSpec.v
GithubIndex.v
GithubIndexSpec.v
GithubConfigSpec.v
Metrics.v
MetricsSpec.v
Tools.v
