(* ===== verification/Prelude.v ===== *)
(** * livegrep: a verification development of its Go programs

    livegrep is a code search engine with a web front end.  The C++ engine
    ([src/src/]) answers queries over gRPC; the Go programs around it serve the
    web pages, browse repositories through [git], and keep the index fresh.
    This development models the Go programs and proves what makes them correct.
    Paths below are relative to [src/].

    ** The program and its model

    A request enters the web server through the multiplexer of the process, the
    identity-aware proxy and the reverse-proxy wrapper; the routes take it to a
    handler, whose data become a page or JSON.

    - [Site]: the whole way of a request, from the process to what is written;
      it composes the files below, and [SiteSpec] states what the composition
      promises.
    - [Start]: [cmd/livegrep/livegrep.go], [New] and the pages about backends in
      [server/server.go], [NewBackend] in [server/backend.go].  Starting is a
      list of events (connections, polling goroutines) next to a result.
      [LoadConfig]: what the configuration file changes of the flags.
    - [Routes]: the patterns of [New], in their order, over an interface for the
      package that matches them.
    - [Server]: the other handlers of [server/server.go] and
      [server/middleware]; each is a function from the parameters of the URL to
      an error page, a text or the data of a page.
    - [Running]: the server after any interleaving of the turns of its polling
      goroutines.  [Pages]: templates and asset hashes, loaded again by requests
      that run at the same time, a step relation with the mutex.  [ReqId]:
      request ids and the log.
    - [Query]: [ParseQuery] of [server/query.go].  [Search]: both search APIs,
      [server/api.go] and [server/api/types.go], on top of [Query].  [Api]: the
      JSON of its replies, written by the server and read by the clients.
    - [Backend]: the polling loop of [server/backend.go], one step per turn.
    - The file viewer, [server/fileviewer/fileview.go], over the text that git
      prints: [Scanner] ([bufio.Scanner] with its limit), [Diff] (unified diffs
      and the rows of the split view), [GitLog], [Blame] (both maps as explicit
      state), [GitShow], [DirTree] (a store of nodes, parent pointers as
      addresses), [Listing] (files, directories, branches, tags).
    - [Templates]: what the templates call, [server/templates/templates.go], and
      [StyleSheet], the rules for highlighted code.
    - [Config]: the configuration files of the server
      ([server/config/config.go]) and of the indexing programs
      ([src/proto/config.proto]), with their JSON.

    The programs that build the index:

    - [GithubIndex]: [cmd/livegrep-github-reindex] finds repositories, filters
      and sorts them and writes the configuration; its two concurrent loaders
      are step relations over the state of the goroutines and the channels.
    - [Reindex]: the flags and the order of work of that program and of
      [cmd/livegrep-fetch-reindex], which it runs.  [Fetch]: the pool of workers
      of the latter, a step relation.  [Checkout]: the update of one repository,
      in a state and error monad over an abstract world.
    - [GithubConfigSpec]: the file that the first writes, read by the second and
      by the server.
    - [Metrics]: [cmd/livegrep-metrics-exporter], with the dump of the indexer
      that it reads, [src/lib/metrics.cc].

    The clients: [Lg] ([cmd/lg]); [Composite] ([cmd/lgiap], queries that exclude
    the results of others), [Iap] (its credentials and tokens, a state of files
    and of requests sent) and [LgIap] (its commands, from their files to what
    they print).  [JsonFrame]: the messages of [jsonframe].  [Tools]:
    [cmd/livegrep-reload] and [web/cmd/build-web].

    The parts of Go's standard library that the programs use are written once:
    [GoStrings] (strings, UTF-8, integers), [GoRegexp] (a leftmost-first
    backtracking matcher over runes, proved sound and complete for a declared
    language), [GoPath], [GoSort] (an interface: an ordered permutation, and no
    promise about equal elements), [GoMap] (an interface for the order of
    [range] over a map; URL values), [GoFlag], [GoTime] ([ParseDuration] with
    its rounding), [GoUrl] (URLs parsed and printed), [GoJson] (JSON text, and the
    encoding and decoding of structs, with the laws in [GoJsonSpec]), [GoHttp]
    ([ServeMux]) and [GoChan] (what it means that every
    run of a step relation ends in a state with a property).  Theorems about
    sorting and ranging are proved for every instance of these interfaces.

    ** Conventions

    Strings and byte slices are lists of bytes ([str]).  A call gives [Ok], [Err]
    or [Panic] ([res]); a nil dereference, an index or a slice out of range is a
    [Panic].  Machine integers are [Z], wrapped where the code converts them or
    counts with them ([int32], [int64]); a conversion to a double rounds as Go's
    ([float64_of]); times are seconds.  The file [X] has the data and the operations of
    a component and [XSpec] its theorems, in the larger cases.

    ** What the theorems show

    - Parsers: what git prints for a well-formed value is read back as that
      value (diffs, logs, commits, blame, trees, the dump of metrics), and the
      parsers return on every input or fail in the way stated.
    - Queries: which fields a query sets, in which order, which combinations are
      refused, and the bounds of [max_matches]; the parser returns on every
      query, and its slices are in range; the client, the URL and the "show more"
      link carry the query as typed.
    - Results: every match is shown once, under the key of its file, in order;
      the counts of extensions, by key as well; the fall-back to the backup backend.  A composite query is
      the set it describes, in whatever order its searches end.
    - Pages: the rows of a diff are its two sides; the tree page is complete;
      highlighted code adds no markup; URLs and routes find the repository that
      was configured.
    - Start and polling: every backend is dialed, listed and polled; the server
      stays well formed and each backend up or down as its own turns say, in
      every interleaving; what the proxy guards.
    - The whole site: a page that a handler makes has its template, also where
      each request loads the templates again; the links that the file viewer
      makes lead to the handler that shows what they name; what is
      typed at the client comes out of URL, wrappers, routes, search and JSON as
      the matches it prints.
    - Files: the configuration that one program writes is read by the others as
      it was meant; the configuration of the server has what its file says in
      the fields that the file names, and is unchanged in the others; a message is received as it was sent.
    - Concurrency: the pools and loaders end in every interleaving, without
      leaving a goroutine, with the result that the code means; the one that
      can block does so exactly when stated.
    - Reindexing: the order of work, the command lines that one program builds
      and the other parses, the head of a mirror after an update.

    Where the code does not do what it means to, the theorem states what it
    does; the theorems named in the manifest under findings are of this kind.

    ** Fuel

    Loops without a structural measure take fuel, and for each of them enough
    fuel is proved or supplied: the query parser and the scanners take the
    length of the text, and every round reads some of it; regular expressions
    take the length of the remaining text ([star_fuel] shows that more changes
    nothing); the directory tree is drawn with the number of its nodes.  In
    [Blame] running out of fuel is a result of its own ([None]), since the
    loop of the code may not end; the theorem on well-formed output gives the
    fuel it needs.

    ** Not modelled

    Input and output proper (sockets, files, processes, gRPC, statsd), HTML
    templates, syntax highlighting, the pattern matcher of the routes ([pat])
    and the GitHub client are parameters or left out, of [cmd/lg] the transport.
    The C++ engine, the JavaScript client and the build files are outside, and
    so are the helpers of the client tests.  The text of error pages and the
    headers of answers are left out.  Data races (the pages read the state of a
    backend without its lock) are not modelled: a turn of polling is one step.

    ** Next

    A request as steps of its own between the turns of polling, with the locks
    that it takes; the templates as functions of the data of a page. *)
From stdpp Require Export base gmap strings list numbers sorting.
From Stdlib Require Export Ascii.

#[export] Set Default Proof Using "Type".
#[global] Open Scope Z_scope.

(** ** Go strings and byte slices

    A Go [string] or [[]byte] is a sequence of bytes; it is modelled as a
    list of 8-bit characters.  The scope [str] reads string literals at this
    type, so ["file:"%str] is the list of its five bytes. *)
Abbreviation str := (list ascii).
Declare Scope str_scope.
Delimit Scope str_scope with str.

(** Literals of [str] go through this copy of the list type. *)
Inductive str_lit := lit_nil | lit_cons (c : ascii) (s : str_lit).

Fixpoint str_lit_of_bytes (l : list Byte.byte) : str_lit :=
  match l with
  | [] => lit_nil
  | b :: l => lit_cons (ascii_of_byte b) (str_lit_of_bytes l)
  end.

Fixpoint bytes_of_str_lit (s : str_lit) : list Byte.byte :=
  match s with
  | lit_nil => []
  | lit_cons c s => byte_of_ascii c :: bytes_of_str_lit s
  end.

#[warnings="-via-type-mismatch"]
String Notation list str_lit_of_bytes bytes_of_str_lit
  (via str_lit mapping [[nil] => lit_nil, [cons] => lit_cons]) : str_scope.

(** ** Outcomes of a Go call

    [Ok a] is a normal return, [Err e] a returned non-nil error, [Panic] a
    run-time panic (index out of range, nil dereference, explicit [panic]). *)
Inductive res (E A : Type) : Type :=
  | Ok (a : A)
  | Err (e : E)
  | Panic.
Arguments Ok {E A} a.
Arguments Err {E A} e.
Arguments Panic {E A}.

#[export] Instance res_ret E : MRet (res E) := fun A a => Ok a.
#[export] Instance res_bind E : MBind (res E) := fun A B k m =>
  match m with Ok a => k a | Err e => Err e | Panic => Panic end.
#[export] Instance res_fmap E : FMap (res E) := fun A B f m =>
  match m with Ok a => Ok (f a) | Err e => Err e | Panic => Panic end.

(** A nil-able pointer or a slice index that the code dereferences. *)
Definition deref {E A} (o : option A) : res E A :=
  match o with Some a => Ok a | None => Panic end.

(** A call whose error value the code tests and returns. *)
Definition or_err {E A} (e : E) (o : option A) : res E A :=
  match o with Some a => Ok a | None => Err e end.

Definition is_ok {E A} (r : res E A) : bool :=
  match r with Ok _ => true | _ => false end.

(** [for _, x := range l] with a body that can return early. *)
Fixpoint foldM {E S A} (f : S -> A -> res E S) (l : list A) (s : S) : res E S :=
  match l with
  | [] => Ok s
  | x :: l => s' ← f s x; foldM f l s'
  end.

(** [for i, x := range l { out[i] = f(x) }]. *)
Fixpoint mapR {E A B} (f : A -> res E B) (l : list A) : res E (list B) :=
  match l with
  | [] => Ok []
  | x :: l => y ← f x; ys ← mapR f l; Ok (y :: ys)
  end.

(** ** Machine integers *)

(** Conversion to a signed [w]-bit integer: two's complement wrap-around. *)
Definition wrap_signed (w : Z) (z : Z) : Z :=
  (z + 2 ^ (w - 1)) `mod` 2 ^ w - 2 ^ (w - 1).
Definition int32 (z : Z) : Z := wrap_signed 32 z.
Definition int64 (z : Z) : Z := wrap_signed 64 z.
Definition in_signed (w : Z) (z : Z) : Prop := - 2 ^ (w - 1) <= z < 2 ^ (w - 1).
#[export] Instance in_signed_dec w z : Decision (in_signed w z).
Proof. unfold in_signed. apply _. Defined.

(** [float64(z)] of an integer: rounded to 53 significant bits, to the nearest,
    and to the even one of two. *)
Definition float64_of (z : Z) : Z :=
  let a := Z.abs z in
  let ulp := 2 ^ Z.max 0 (Z.log2 a - 52) in
  let q := a `div` ulp in
  let r := a `mod` ulp in
  Z.sgn z * ((if (ulp <? 2 * r) || ((2 * r =? ulp) && Z.odd q) then q + 1 else q) * ulp).

(** ** Hint databases *)
Create HintDb livegrep.
Create Rewrite HintDb livegrep.

(** ** Tactics *)

(** Case on every boolean test and option match of the goal. *)
Ltac case_tests :=
  repeat (case_match || case_bool_decide || case_decide); simplify_eq/=.

(** Split a successful run in the result monad into its steps. *)
Ltac inv_ok :=
  repeat match goal with
  | H : Ok _ = Ok _ |- _ => injection H as H; subst
  | H : Err _ = Err _ |- _ => injection H as H; subst
  | H : Ok _ = Err _ |- _ => discriminate H
  | H : Ok _ = Panic |- _ => discriminate H
  | H : Err _ = Ok _ |- _ => discriminate H
  | H : Err _ = Panic |- _ => discriminate H
  | H : Panic = _ |- _ => discriminate H
  | H : mbind _ ?m = Ok _ |- _ =>
      let E := fresh "E" in destruct m eqn:E; simpl in H
  | H : _ <$> ?m = Ok _ |- _ =>
      let E := fresh "E" in destruct m eqn:E; simpl in H
  end.

(** Prove a closed decidable goal by computing its decision. *)
Ltac by_decide :=
  match goal with |- ?P => apply (bool_decide_unpack P); vm_compute; exact I end.

(** ** Generic lemmas *)

Lemma foldM_app {E S A} (f : S -> A -> res E S) l1 l2 s :
  foldM f (l1 ++ l2) s = (s' ← foldM f l1 s; foldM f l2 s').
Proof.
  revert s. induction l1 as [|x l1 IH]; intros s; [done|]. simpl.
  destruct (f s x); simpl; auto.
Qed.

Lemma foldM_pure {E S A} (f : S -> A -> S) l (s : S) :
  foldM (E:=E) (fun s x => Ok (f s x)) l s = Ok (foldl f s l).
Proof. revert s. by induction l; intros s; simpl. Qed.

(** An invariant of the loop body is an invariant of the loop. *)
Lemma foldM_inv {E S A} (P : S -> Prop) (f : S -> A -> res E S) l s s' :
  (forall s x s', P s -> f s x = Ok s' -> P s') ->
  P s -> foldM f l s = Ok s' -> P s'.
Proof.
  intros Hf. revert s. induction l as [|x l IH]; intros s Hs Hl; simpl in Hl.
  - by simplify_eq.
  - destruct (f s x) eqn:E1; simplify_eq/=. eauto.
Qed.

Lemma mapR_Ok {E A B} (f : A -> res E B) (g : A -> B) l :
  (forall x, x ∈ l -> f x = Ok (g x)) -> mapR f l = Ok (g <$> l).
Proof.
  induction l as [|x l IH]; intros Hf; [done|]. simpl.
  rewrite Hf by left. simpl. rewrite IH; [done|]. intros. apply Hf. by right.
Qed.

Lemma mapR_length {E A B} (f : A -> res E B) l l' :
  mapR f l = Ok l' -> length l' = length l.
Proof.
  revert l'. induction l as [|x l IH]; intros l' H; simpl in H; inv_ok; simpl; auto.
Qed.
Lemma mapR_Forall {E A B} (f : A -> res E B) (P : A -> Prop) (Q : B -> Prop) l ys :
  (forall x y, P x -> f x = Ok y -> Q y) -> Forall P l -> mapR f l = Ok ys -> Forall Q ys.
Proof.
  intros Hf Hl. revert ys. induction Hl as [|x l Hx Hl IH]; intros ys H; cbn in H; [by inv_ok|].
  destruct (f x) as [z| |] eqn:Ez; cbn in H; [|done..].
  destruct (mapR f l) as [zs| |]; cbn in H; [|done..]. inv_ok. constructor; eauto.
Qed.
Lemma filter_sorted {A} (R : A -> A -> Prop) (P : A -> Prop) `{!forall x, Decision (P x)} (l : list A) :
  StronglySorted R l -> StronglySorted R (filter P l).
Proof.
  induction 1 as [|x l Hl IH Hx]; [constructor|]. rewrite filter_cons. case_decide; [|done].
  constructor; [done|]. apply Forall_forall. intros y [_ Hy]%list_elem_of_filter.
  by eapply Forall_forall in Hx.
Qed.
Lemma mapR_total {E A B} (f : A -> res E B) l : Forall (fun x => exists y, f x = Ok y) l -> exists ys, mapR f l = Ok ys.
Proof.
  induction 1 as [|x l [y Hy] _ [ys IH]]; [by exists []|]. exists (y :: ys). cbn [mapR]. by rewrite Hy; cbn; rewrite IH.
Qed.
Lemma mapR_no_err {E A B} (f : A -> res E B) l e : (forall a e, f a <> Err e) -> mapR f l <> Err e.
Proof.
  intros Hf. induction l as [|a l IH]; [done|]. cbn [mapR]. specialize (Hf a).
  destruct (f a) as [b|e'|] eqn:Ea; cbn [mbind res_bind]; [|by destruct (Hf e')|done].
  by destruct (mapR f l).
Qed.

Lemma forallb_Forall {A} (f : A -> bool) l : forallb f l = true <-> Forall (fun x => f x = true) l.
Proof.
  induction l as [|x l IH]; cbn; [by split; [intros; constructor|]|].
  by rewrite andb_true_iff, IH, Forall_cons.
Qed.

Lemma list_bind_cons {A B} (f : A -> list B) x l : (x :: l) ≫= f = f x ++ (l ≫= f).
Proof. reflexivity. Qed.

Lemma bind_fmap_eq {A B C} (f : B -> list C) (g : A -> B) (h : A -> list C) ls :
  Forall (fun x => f (g x) = h x) ls -> (g <$> ls) ≫= f = ls ≫= h.
Proof.
  induction 1 as [|x ls Hx _ IH]; [done|]. rewrite fmap_cons, !list_bind_cons.
  by rewrite Hx, IH.
Qed.

Lemma bind_none {A C} (f : A -> list C) ls : Forall (fun x => f x = []) ls -> ls ≫= f = [].
Proof.
  induction 1 as [|x ls Hx _ IH]; [done|]. by rewrite list_bind_cons, Hx, IH.
Qed.

(** Filters that agree on the elements agree. *)
Lemma filter_ext_in {A} (P Q : A -> Prop) `{!forall x, Decision (P x), !forall x, Decision (Q x)} (l : list A) :
  (forall x, x ∈ l -> P x <-> Q x) -> filter P l = filter Q l.
Proof.
  induction l as [|x l IH]; intros HPQ; [done|]. rewrite !filter_cons.
  pose proof (HPQ x ltac:(by left)) as Hx.
  rewrite IH by (intros y Hy; apply HPQ; by right).
  destruct (decide (P x)), (decide (Q x)); tauto.
Qed.

Lemma wrap_signed_range w z : 0 < w -> in_signed w (wrap_signed w z).
Proof.
  intros Hw. unfold in_signed, wrap_signed.
  assert (2 ^ w = 2 * 2 ^ (w - 1)) as Hp.
  { rewrite <- Z.pow_succ_r by lia. f_equal. lia. }
  pose proof (Z.mod_pos_bound (z + 2 ^ (w - 1)) (2 ^ w) ltac:(lia)). lia.
Qed.

Lemma wrap_signed_id w z : 0 < w -> in_signed w z -> wrap_signed w z = z.
Proof.
  intros Hw [H1 H2]. unfold wrap_signed.
  assert (2 ^ w = 2 * 2 ^ (w - 1)) as Hp.
  { rewrite <- Z.pow_succ_r by lia. f_equal. lia. }
  rewrite Z.mod_small by lia. lia.
Qed.

(** Wrapping early does not change a sum. *)
Lemma wrap_signed_add_l w a b : 0 < w -> wrap_signed w (wrap_signed w a + b) = wrap_signed w (a + b).
Proof.
  intros Hw. unfold wrap_signed. f_equal.
  replace ((a + 2 ^ (w - 1)) `mod` 2 ^ w - 2 ^ (w - 1) + b + 2 ^ (w - 1))
    with ((a + 2 ^ (w - 1)) `mod` 2 ^ w + b) by lia.
  rewrite Zplus_mod_idemp_l. f_equal. lia.
Qed.

(** It is off by half of the last bit at most, and exact up to [2^53]. *)
Lemma float64_of_error z : 0 <= z -> 2 ^ 53 * Z.abs (float64_of z - z) <= z.
Proof.
  intros Hz. unfold float64_of. rewrite (Z.abs_eq z) by done. set (e := Z.max 0 (Z.log2 z - 52)).
  assert (0 < 2 ^ e) as He by (apply Z.pow_pos_nonneg; lia).
  pose proof (Z.div_mod z (2 ^ e) ltac:(lia)) as Hd. pose proof (Z.mod_pos_bound z (2 ^ e) He) as Hr.
  set (q := z `div` 2 ^ e) in *. set (r := z `mod` 2 ^ e) in *.
  destruct (decide (z = 0)) as [->|Hnz].
  { replace (Z.sgn 0) with 0 by done. lia. }
  rewrite Z.sgn_pos, Z.mul_1_l by lia.
  set (b := (2 ^ e <? 2 * r) || _).
  assert (2 * Z.abs ((if b then q + 1 else q) * 2 ^ e - z) <= 2 ^ e /\ (e = 0 -> b = false /\ r = 0))
    as [Habs H0].
  { split.
    - subst b. destruct (Z.ltb_spec (2 ^ e) (2 * r)); cbn [orb]; [lia|].
      destruct (Z.eqb_spec (2 * r) (2 ^ e)); cbn [andb]; [destruct (Z.odd q); lia|lia].
    - intros E. assert (2 ^ e = 1) as E1 by by rewrite E. assert (r = 0) as Hr0 by lia.
      split; [|done]. unfold b. by rewrite E1, Hr0. }
  destruct (decide (e = 0)) as [E|E].
  - destruct (H0 E) as [-> Hr0]. assert (2 ^ e = 1) as E1 by by rewrite E. rewrite E1 in *.
    replace (q * 1 - z) with 0 by lia. lia.
  - pose proof (Z.log2_spec z ltac:(lia)) as [Hl _].
    assert (2 ^ 52 * 2 ^ e <= z).
    { rewrite <- Z.pow_add_r by lia. replace (52 + e) with (Z.log2 z) by lia. done. }
    change (2 ^ 53) with (2 ^ 52 * 2). nia.
Qed.

Lemma float64_of_exact z : 0 <= z <= 2 ^ 53 -> float64_of z = z.
Proof.
  intros Hz. destruct (decide (z = 2 ^ 53)) as [->|]; [by vm_compute|].
  pose proof (float64_of_error z ltac:(lia)). lia.
Qed.

Lemma int32_range z : in_signed 32 (int32 z).
Proof. by apply wrap_signed_range. Qed.

#[export] Hint Resolve wrap_signed_range int32_range : livegrep.
