(* ===== verification/GoStrings.v ===== *)
(** * The parts of Go's [strings], [bytes], [strconv] and [unicode/utf8]
      packages the program uses, on byte strings. *)
From S2P Require Import Prelude.

(** ** Bytes *)
Definition byte_val (c : ascii) : Z := Z.of_N (N_of_ascii c).
Definition byte_of (z : Z) : ascii := ascii_of_N (Z.to_N z).
Abbreviation NUL := (byte_of 0).
Abbreviation TAB := (byte_of 9).
Abbreviation LF := (byte_of 10).
Abbreviation CR := (byte_of 13).

Lemma byte_val_range c : 0 <= byte_val c < 256.
Proof.
  unfold byte_val. pose proof (N_ascii_bounded c). lia.
Qed.

Lemma byte_of_val c : byte_of (byte_val c) = c.
Proof. unfold byte_of, byte_val. by rewrite N2Z.id, ascii_N_embedding. Qed.

Lemma byte_val_of z : 0 <= z < 256 -> byte_val (byte_of z) = z.
Proof. intros. unfold byte_of, byte_val. rewrite N_ascii_embedding; lia. Qed.

Lemma byte_val_inj c d : byte_val c = byte_val d -> c = d.
Proof. intros H. by rewrite <- (byte_of_val c), H, byte_of_val. Qed.

(** ** Prefixes, suffixes, cutting *)
Fixpoint has_prefix (p s : str) : bool :=
  match p, s with
  | [], _ => true
  | a :: p, b :: s => if decide (a = b) then has_prefix p s else false
  | _ :: _, [] => false
  end.

Definition has_suffix (p s : str) : bool := has_prefix (reverse p) (reverse s).

Definition trim_prefix (p s : str) : str :=
  if has_prefix p s then drop (length p) s else s.

(** [s[i:j]]: Go panics unless [i <= j <= len(s)]. *)
Definition slice {E} (s : str) (i j : nat) : res E str :=
  if decide (i <= j <= length s)%nat then Ok (take (j - i) (drop i s)) else Panic.

(** [s[i:j]] with [int] bounds. *)
Definition zslice {E} (s : str) (i j : Z) : res E str :=
  if decide (0 <= i /\ i <= j /\ j <= Z.of_nat (length s))
  then Ok (take (Z.to_nat (j - i)) (drop (Z.to_nat i) s)) else Panic.

(** [strings.IndexByte], [-1] as [None]. *)
Fixpoint index_byte (c : ascii) (s : str) : option nat :=
  match s with
  | [] => None
  | a :: s => if decide (a = c) then Some O else S <$> index_byte c s
  end.

(** [strings.Index] of a non-empty or empty substring. *)
Fixpoint index (sub s : str) : option nat :=
  if has_prefix sub s then Some O
  else match s with [] => None | _ :: s => S <$> index sub s end.

Definition contains (s sub : str) : bool := bool_decide (is_Some (index sub s)).

(** [strings.LastIndex] of a one-byte string. *)
Definition last_index_byte (c : ascii) (s : str) : option nat :=
  (fun i => (length s - 1 - i)%nat) <$> index_byte c (reverse s).

Definition count_byte (c : ascii) (s : str) : nat := length (filter (.= c) s).

(** [strings.Replace(s, old, new, 1)]. *)
Definition replace1 (s old new : str) : str :=
  match index old s with
  | None => s
  | Some i => take i s ++ new ++ drop (i + length old) s
  end.

(** Everything before the first [c], and everything after it. *)
Fixpoint cut (c : ascii) (s : str) : option (str * str) :=
  match s with
  | [] => None
  | a :: s => if decide (a = c) then Some ([], s)
              else '(x, y) ← cut c s; Some (a :: x, y)
  end.

(** [strings.Split] at a one-byte separator: never empty. *)
Fixpoint split (c : ascii) (s : str) : list str :=
  match s with
  | [] => [[]]
  | a :: s => if decide (a = c) then [] :: split c s
              else match split c s with
                   | [] => [[a]]
                   | w :: ws => (a :: w) :: ws
                   end
  end.

(** [strings.SplitN] at a one-byte separator, for a positive count. *)
Fixpoint splitn (c : ascii) (n : nat) (s : str) : list str :=
  match n with
  | O => []
  | S O => [s]
  | S n => match cut c s with
           | None => [s]
           | Some (w, s) => w :: splitn c n s
           end
  end.

Fixpoint join (sep : str) (l : list str) : str :=
  match l with
  | [] => []
  | [w] => w
  | w :: l => w ++ sep ++ join sep l
  end.

(** ** Ordering: Go compares strings byte by byte *)
Fixpoint str_ltb (s t : str) : bool :=
  match s, t with
  | _, [] => false
  | [], _ :: _ => true
  | a :: s, b :: t =>
      if decide (a = b) then str_ltb s t else byte_val a <? byte_val b
  end.

(** ** Case, as far as the program needs it *)
Definition is_upper (c : ascii) : bool := (65 <=? byte_val c) && (byte_val c <=? 90).
Definition is_digit (c : ascii) : bool := (48 <=? byte_val c) && (byte_val c <=? 57).
Definition lower_ascii (c : ascii) : ascii :=
  if is_upper c then byte_of (byte_val c + 32) else c.

(** [strings.IndexAny(s, "ABC...Z") == -1]. *)
Definition no_upper (s : str) : bool := forallb (fun c => negb (is_upper c)) s.

(** ** UTF-8 *)
Definition RuneError : Z := 65533.

Definition cont (lo hi : Z) (c : ascii) : bool :=
  (lo <=? byte_val c) && (byte_val c <=? hi).

(** The range of the second byte after a three- or four-byte lead. *)
Definition second_range (b : Z) : Z * Z :=
  if b =? 224 then (160, 191) else if b =? 237 then (128, 159)
  else if b =? 240 then (144, 191) else if b =? 244 then (128, 143)
  else (128, 191).

(** [utf8.DecodeRuneInString] on a non-empty string: the rune and its width;
    a malformed sequence is [RuneError] of width 1. *)
Definition decode_rune (a : ascii) (s : str) : Z * nat :=
  let b := byte_val a in
  if b <? 128 then (b, 1%nat)
  else if b <? 194 then (RuneError, 1%nat)
  else if b <? 224 then
    match s with
    | c1 :: _ => if cont 128 191 c1
                 then ((b - 192) * 64 + (byte_val c1 - 128), 2%nat)
                 else (RuneError, 1%nat)
    | _ => (RuneError, 1%nat)
    end
  else if b <? 240 then
    match s with
    | c1 :: c2 :: _ =>
        if cont (second_range b).1 (second_range b).2 c1 && cont 128 191 c2
        then ((b - 224) * 4096 + (byte_val c1 - 128) * 64 + (byte_val c2 - 128), 3%nat)
        else (RuneError, 1%nat)
    | _ => (RuneError, 1%nat)
    end
  else if b <? 245 then
    match s with
    | c1 :: c2 :: c3 :: _ =>
        if cont (second_range b).1 (second_range b).2 c1
           && cont 128 191 c2 && cont 128 191 c3
        then ((b - 240) * 262144 + (byte_val c1 - 128) * 4096
              + (byte_val c2 - 128) * 64 + (byte_val c3 - 128), 4%nat)
        else (RuneError, 1%nat)
    | _ => (RuneError, 1%nat)
    end
  else (RuneError, 1%nat).

(** [utf8.EncodeRune] (what [bytes.Buffer.WriteRune] appends) on a rune
    that [decode_rune] returned. *)
Definition encode_rune (r : Z) : str :=
  if r <? 128 then [byte_of r]
  else if r <? 2048 then [byte_of (192 + r / 64); byte_of (128 + r `mod` 64)]
  else if r <? 65536 then
    [byte_of (224 + r / 4096); byte_of (128 + (r / 64) `mod` 64); byte_of (128 + r `mod` 64)]
  else
    [byte_of (240 + r / 262144); byte_of (128 + (r / 4096) `mod` 64);
     byte_of (128 + (r / 64) `mod` 64); byte_of (128 + r `mod` 64)].

(** ** [strings.TrimSpace] *)

(** The UTF-8 encodings of the runes [unicode.IsSpace] accepts. *)
Definition space_runes : list Z :=
  [9; 10; 11; 12; 13; 32; 133; 160; 5760; 8192; 8193; 8194; 8195; 8196; 8197;
   8198; 8199; 8200; 8201; 8202; 8232; 8233; 8239; 8287; 12288].
Definition space_encodings : list str := Eval vm_compute in encode_rune <$> space_runes.

(** One leading space rune removed, if there is one. *)
Definition strip_space1 (encs : list str) (s : str) : option str :=
  match list_find (fun e => has_prefix e s = true) encs with
  | Some (_, e) => Some (drop (length e) s)
  | None => None
  end.

Fixpoint strip_spaces (fuel : nat) (encs : list str) (s : str) : str :=
  match fuel with
  | O => s
  | S fuel => match strip_space1 encs s with
              | Some s => strip_spaces fuel encs s
              | None => s
              end
  end.

Definition trim_left_space (s : str) : str := strip_spaces (length s) space_encodings s.
Definition trim_right_space (s : str) : str :=
  reverse (strip_spaces (length s) (reverse <$> space_encodings) (reverse s)).
Definition TrimSpace (s : str) : str := trim_right_space (trim_left_space s).

(** ** Integers *)
Definition digit_val (c : ascii) : option Z :=
  if is_digit c then Some (byte_val c - 48) else None.

Fixpoint digits_val (base : Z) (acc : Z) (s : str) : option Z :=
  match s with
  | [] => Some acc
  | c :: s => d ← digit_val c;
              if d <? base then digits_val base (acc * base + d) s else None
  end.

(** [strconv.ParseUint(s, base, bits)] for a base up to ten. *)
Definition ParseUint (base bits : Z) (s : str) : option Z :=
  match s with
  | [] => None
  | _ => n ← digits_val base 0 s; if n <? 2 ^ bits then Some n else None
  end.

(** [strconv.ParseInt(s, base, bits)] for a base up to ten. *)
Definition ParseInt (base bits : Z) (s : str) : option Z :=
  let '(neg, ds) := match s with
                    | "+"%char :: ds => (false, ds)
                    | "-"%char :: ds => (true, ds)
                    | _ => (false, s)
                    end in
  match ds with
  | [] => None
  | _ => n ← digits_val base 0 ds;
         let z := if (neg : bool) then - n else n in
         if bool_decide (in_signed bits z) then Some z else None
  end.

(** [strconv.Atoi], on a 64-bit platform. *)
Definition Atoi (s : str) : option Z := ParseInt 10 64 s.

(** Decimal digits of a non-negative number, in front of [acc]. *)
Fixpoint udec (fuel : nat) (n : Z) (acc : str) : str :=
  match fuel with
  | O => acc
  | S fuel => let acc := byte_of (48 + n `mod` 10) :: acc in
              if n <? 10 then acc else udec fuel (n / 10) acc
  end.

Definition uitoa (n : Z) : str := udec (S (Z.to_nat (Z.log2 n))) n [].

(** [strconv.Itoa], [%d]. *)
Definition Itoa (z : Z) : str := if z <? 0 then "-"%char :: uitoa (- z) else uitoa z.

(** * Lemmas *)

(** ** Prefixes and cutting *)
Lemma has_prefix_spec p s : has_prefix p s = true <-> exists t, s = p ++ t.
Proof.
  revert s. induction p as [|a p IH]; intros s; simpl.
  - split; eauto.
  - destruct s as [|b s]; [split; [done|by intros [t ?]]|].
    case_decide as Hab; subst.
    + rewrite IH. split; intros [t Ht]; exists t; by simplify_eq.
    + split; [done|]. intros [t Ht]; simplify_eq.
Qed.

Lemma has_prefix_app p s : has_prefix p (p ++ s) = true.
Proof. apply has_prefix_spec. eauto. Qed.

Lemma has_prefix_nil_r p : has_prefix p [] = true -> p = [].
Proof. by destruct p. Qed.

Lemma has_prefix_cons_ne a p b s : a <> b -> has_prefix (a :: p) (b :: s) = false.
Proof. intros. simpl. by case_decide. Qed.

Lemma trim_prefix_app p s : trim_prefix p (p ++ s) = s.
Proof. unfold trim_prefix. by rewrite has_prefix_app, drop_app_length. Qed.

Lemma trim_prefix_cons_ne a p b s : a <> b -> trim_prefix (a :: p) (b :: s) = b :: s.
Proof. intros. unfold trim_prefix. by rewrite has_prefix_cons_ne. Qed.

Lemma cut_app c a b : c ∉ a -> cut c (a ++ c :: b) = Some (a, b).
Proof.
  induction a as [|x a IH]; intros Hc; simpl.
  - by rewrite decide_True.
  - apply not_elem_of_cons in Hc as [? ?].
    rewrite decide_False by done. by rewrite IH.
Qed.

Lemma cut_None c s : c ∉ s -> cut c s = None.
Proof.
  induction s as [|x s IH]; intros Hc; [done|]. simpl.
  apply not_elem_of_cons in Hc as [? ?]. rewrite decide_False by done.
  by rewrite IH.
Qed.

Lemma cut_Some c s a b : cut c s = Some (a, b) -> s = a ++ c :: b /\ c ∉ a.
Proof.
  revert a. induction s as [|x s IH]; intros a Hs; simpl in Hs; [done|].
  case_decide; simplify_eq/=.
  - split; [done|]. apply not_elem_of_nil.
  - destruct (cut c s) as [[a' b']|] eqn:E; simplify_eq/=.
    destruct (IH a' eq_refl) as [-> ?]. split; [done|].
    by apply not_elem_of_cons.
Qed.

Lemma cut_length c s a b : cut c s = Some (a, b) -> (length b < length s)%nat.
Proof. intros [-> _]%cut_Some. rewrite length_app. simpl. lia. Qed.

Lemma index_byte_spec c s i :
  index_byte c s = Some i <->
  (exists a b, s = a ++ c :: b /\ (c ∉ a) /\ length a = i).
Proof.
  revert i. induction s as [|x s IH]; intros i; simpl.
  - split; [done|]. intros (a & b & ? & _). by destruct a.
  - case_decide as Hx; subst.
    + split.
      * intros [= <-]. exists [], s. split_and!; [done|apply not_elem_of_nil|done].
      * intros (a & b & Ha & Hn & <-). destruct a as [|y a]; [done|].
        simplify_eq/=. by destruct Hn; left.
    + rewrite fmap_Some. setoid_rewrite IH. split.
      * intros (j & (a & b & -> & Hn & <-) & ->). exists (x :: a), b.
        split_and!; [done| |done]. by apply not_elem_of_cons.
      * intros (a & b & Ha & Hn & <-). destruct a as [|y a]; simplify_eq/=.
        apply not_elem_of_cons in Hn as [_ Hn]. exists (length a).
        split; [|done]. by exists a, b.
Qed.

Lemma index_byte_None c s : index_byte c s = None <-> c ∉ s.
Proof.
  induction s as [|x s IH]; simpl.
  - split; [intros _; apply not_elem_of_nil|done].
  - rewrite not_elem_of_cons. case_decide; subst; [by split; [|intros []]|].
    rewrite fmap_None, IH. split; [by intros|by intros [_ ?]].
Qed.

(** ** Splitting and joining *)
Lemma split_app_sep c w s : c ∉ w -> split c (w ++ c :: s) = w :: split c s.
Proof.
  induction w as [|x w IH]; intros Hc; simpl.
  - by rewrite decide_True.
  - apply not_elem_of_cons in Hc as [? ?]. rewrite decide_False by done.
    by rewrite IH.
Qed.

Lemma split_nosep c w : c ∉ w -> split c w = [w].
Proof.
  induction w as [|x w IH]; intros Hc; [done|]. simpl.
  apply not_elem_of_cons in Hc as [? ?]. rewrite decide_False by done.
  by rewrite IH.
Qed.

Lemma split_not_nil c s : split c s <> [].
Proof. destruct s; simpl; [done|]. repeat case_match; done. Qed.

Lemma join_split c s : join [c] (split c s) = s.
Proof.
  induction s as [|x s IH]; [done|]. simpl. case_decide; subst.
  - destruct (split c s) eqn:E; [by apply split_not_nil in E|].
    simpl in *. by rewrite IH.
  - destruct (split c s) as [|w ws] eqn:E; [by apply split_not_nil in E|].
    destruct ws; simpl in *; by rewrite IH.
Qed.

Lemma split_join c l :
  l <> [] -> Forall (fun w => c ∉ w) l -> split c (join [c] l) = l.
Proof.
  intros Hl HF. induction HF as [|w l Hw HF IH]; [done|].
  destruct l as [|w' l]; simpl.
  - by apply split_nosep.
  - rewrite split_app_sep by done. f_equal. by apply IH.
Qed.

Lemma length_split c s : length (split c s) = S (count_byte c s).
Proof.
  induction s as [|x s IH]; [done|]. unfold count_byte in *. simpl.
  case_decide as Hx.
  - subst. rewrite filter_cons_True by done. simpl. by rewrite IH.
  - rewrite filter_cons_False by done.
    destruct (split c s) eqn:E; [by apply split_not_nil in E|].
    simpl in *. lia.
Qed.

Lemma split_pieces c s : Forall (fun w => c ∉ w) (split c s).
Proof.
  induction s as [|x s IH]; simpl.
  - repeat constructor. apply not_elem_of_nil.
  - case_decide.
    + constructor; [apply not_elem_of_nil|done].
    + destruct (split c s) as [|w ws].
      * repeat constructor. apply not_elem_of_cons. split; [done|].
        apply not_elem_of_nil.
      * inversion IH; subst. constructor; [|done]. by apply not_elem_of_cons.
Qed.

Lemma splitn_cut c n w s :
  c ∉ w -> splitn c (S (S n)) (w ++ c :: s) = w :: splitn c (S n) s.
Proof. intros. cbn [splitn]. by rewrite cut_app. Qed.

Lemma splitn_last c n w : c ∉ w -> splitn c (S n) w = [w].
Proof. intros. destruct n; [done|]. cbn [splitn]. by rewrite cut_None. Qed.

(** Splitting [n] terminated fields off a buffer leaves the rest as the last piece. *)
Lemma splitn_fields c (l : list str) rest :
  Forall (fun w => c ∉ w) l ->
  splitn c (S (length l)) (foldr (fun w s => w ++ c :: s) rest l) = l ++ [rest].
Proof.
  induction 1 as [|w l Hw HF IH]; [done|]. simpl length. simpl foldr.
  rewrite splitn_cut by done. by rewrite IH.
Qed.

(** ** Ordering of strings *)
(** Joining what [splitn] cut gives the text back. *)
Lemma join_splitn c n s : join [c] (splitn c (S n) s) = s.
Proof.
  revert s. induction n as [|n IH]; intros s; [done|].
  change (splitn c (S (S n)) s) with (match cut c s with
    | None => [s] | Some (w, s) => w :: splitn c (S n) s end).
  destruct (cut c s) as [[w s']|] eqn:E; [|done].
  apply cut_Some in E as [-> _]. pose proof (IH s') as IH'.
  destruct (splitn c (S n) s') as [|x l] eqn:E2.
  - cbn [splitn] in E2. destruct n; [done|]. by destruct (cut c s') as [[??]|].
  - change (join [c] (w :: x :: l)) with (w ++ [c] ++ join [c] (x :: l)). by rewrite IH'.
Qed.

(** Length of a joined list. *)
Lemma length_join c l :
  length (join [c] l) = (sum_list_with length l + (length l - 1))%nat.
Proof.
  induction l as [|w l IH]; [done|]. destruct l as [|w' l]; [simpl; lia|].
  change (join [c] (w :: w' :: l)) with (w ++ [c] ++ join [c] (w' :: l)).
  rewrite !length_app, IH. simpl. lia.
Qed.

Lemma join_cons c w ws : join [c] (w :: ws) = w ++ (ws ≫= fun w => c :: w).
Proof.
  revert w. induction ws as [|w' ws IH]; intros w; [by rewrite app_nil_r|].
  change (join [c] (w :: w' :: ws)) with (w ++ [c] ++ join [c] (w' :: ws)). by rewrite IH.
Qed.

Lemma length_last_split c s : (length (default [] (last (split c s))) <= length s)%nat.
Proof.
  induction s as [|a s IH]; [done|]. cbn [split].
  pose proof (split_not_nil c s). destruct (split c s) as [|w ws]; [done|].
  case_decide; [simpl in *; lia|]. destruct ws; simpl in *; lia.
Qed.

(** Terminated pieces in front are split off one by one. *)
Lemma split_terminated c l s :
  Forall (fun w => c ∉ w) l -> split c ((l ≫= fun w => w ++ [c]) ++ s) = l ++ split c s.
Proof.
  induction 1 as [|w l Hw _ IH]; [done|]. rewrite list_bind_cons, <- !app_assoc.
  cbn [app]. rewrite split_app_sep by done. by rewrite IH.
Qed.

Lemma length_trim_prefix p s : (length (trim_prefix p s) <= length s)%nat.
Proof. unfold trim_prefix. case_match; rewrite ?length_drop; lia. Qed.

Lemma str_ltb_irrefl s : str_ltb s s = false.
Proof. induction s as [|a s IH]; [done|]. simpl. by rewrite decide_True. Qed.

Lemma str_ltb_trans s t u :
  str_ltb s t = true -> str_ltb t u = true -> str_ltb s u = true.
Proof.
  revert t u. induction s as [|a s IH]; intros [|b t] [|c u]; simpl; try done.
  repeat case_decide; subst; try done; eauto;
    rewrite ?Z.ltb_lt; intros; lia.
Qed.

Lemma str_ltb_total s t : s = t \/ str_ltb s t = true \/ str_ltb t s = true.
Proof.
  revert t. induction s as [|a s IH]; intros [|b t]; simpl; auto.
  destruct (decide (a = b)) as [->|Hab].
  - destruct (IH t) as [->|[H|H]]; auto; rewrite decide_True by done; auto.
  - right. rewrite !(decide_False (P := b = a)) by done. rewrite !Z.ltb_lt.
    assert (byte_val a <> byte_val b) by (intros ?%byte_val_inj; done). lia.
Qed.

Lemma str_ltb_asym s t : str_ltb s t = true -> str_ltb t s = false.
Proof.
  intros H. destruct (str_ltb t s) eqn:E; [|done].
  by rewrite <- (str_ltb_irrefl s), (str_ltb_trans s t s).
Qed.

(** ** UTF-8 *)
Lemma decode_ascii a s : byte_val a < 128 -> decode_rune a s = (byte_val a, 1%nat).
Proof. intros H. unfold decode_rune. by apply Z.ltb_lt in H as ->. Qed.

(** The shapes of a decoded prefix [take w (a :: s)]. *)
Inductive decoded (a : ascii) (s : str) : Z -> nat -> Prop :=
  | decoded_ascii : byte_val a < 128 -> decoded a s (byte_val a) 1
  | decoded_bad : 128 <= byte_val a -> decoded a s RuneError 1
  | decoded2 c1 t : s = c1 :: t ->
      194 <= byte_val a < 224 -> 128 <= byte_val c1 <= 191 ->
      decoded a s ((byte_val a - 192) * 64 + (byte_val c1 - 128)) 2
  | decoded3 c1 c2 t : s = c1 :: c2 :: t ->
      224 <= byte_val a < 240 -> 128 <= byte_val c1 <= 191 ->
      (byte_val a = 224 -> 160 <= byte_val c1) -> 128 <= byte_val c2 <= 191 ->
      decoded a s ((byte_val a - 224) * 4096 + (byte_val c1 - 128) * 64
                   + (byte_val c2 - 128)) 3
  | decoded4 c1 c2 c3 t : s = c1 :: c2 :: c3 :: t ->
      240 <= byte_val a < 245 -> 128 <= byte_val c1 <= 191 ->
      (byte_val a = 240 -> 144 <= byte_val c1) ->
      128 <= byte_val c2 <= 191 -> 128 <= byte_val c3 <= 191 ->
      decoded a s ((byte_val a - 240) * 262144 + (byte_val c1 - 128) * 4096
                   + (byte_val c2 - 128) * 64 + (byte_val c3 - 128)) 4.

Lemma cont_spec lo hi c : cont lo hi c = true -> lo <= byte_val c <= hi.
Proof. unfold cont. by intros [?%Z.leb_le ?%Z.leb_le]%andb_true_iff. Qed.

Lemma second_range_spec b c :
  cont (second_range b).1 (second_range b).2 c = true ->
  128 <= byte_val c <= 191 /\ (b = 224 -> 160 <= byte_val c)
  /\ (b = 240 -> 144 <= byte_val c).
Proof.
  intros H%cont_spec. unfold second_range in H.
  repeat case_match; simpl in H; rewrite ?Z.eqb_eq, ?Z.eqb_neq in *; lia.
Qed.

Lemma decode_rune_decoded a s r w : decode_rune a s = (r, w) -> decoded a s r w.
Proof.
  unfold decode_rune. intros H.
  destruct (Z.ltb_spec (byte_val a) 128); [simplify_eq; by constructor|].
  assert (decoded a s RuneError 1) as Hbad by by constructor.
  destruct (Z.ltb_spec (byte_val a) 194); [by simplify_eq|].
  destruct (Z.ltb_spec (byte_val a) 224).
  { destruct s as [|c1 t]; [by simplify_eq|].
    destruct (cont 128 191 c1) eqn:E1; [|by simplify_eq].
    apply cont_spec in E1. simplify_eq. by econstructor. }
  destruct (Z.ltb_spec (byte_val a) 240).
  { destruct s as [|c1 [|c2 t]]; [by simplify_eq..|].
    destruct (_ && _) eqn:E; [|by simplify_eq]. apply andb_true_iff in E as [E1 E2].
    apply second_range_spec in E1 as (?&?&?). apply cont_spec in E2.
    simplify_eq. by econstructor. }
  destruct (Z.ltb_spec (byte_val a) 245); [|by simplify_eq].
  destruct s as [|c1 [|c2 [|c3 t]]]; [by simplify_eq..|].
  destruct (_ && _) eqn:E; [|by simplify_eq].
  apply andb_true_iff in E as [[E1 E2]%andb_true_iff E3].
  apply second_range_spec in E1 as (?&?&?). apply cont_spec in E2, E3.
  simplify_eq. by econstructor.
Qed.

Lemma decode_width a s r w :
  decode_rune a s = (r, w) -> (1 <= w <= S (length s))%nat.
Proof. intros []%decode_rune_decoded; subst; simpl; lia. Qed.

(** A rune outside ASCII consumes no ASCII byte. *)
Lemma decode_high a s r w :
  128 <= byte_val a -> decode_rune a s = (r, w) ->
  128 <= r /\ Forall (fun c => 128 <= byte_val c) (take (w - 1) s).
Proof.
  intros Ha []%decode_rune_decoded; subst; simpl;
    (split; [unfold RuneError in *; lia|repeat constructor; lia]).
Qed.

Lemma byte_of_eq z c : z = byte_val c -> byte_of z = c.
Proof. intros ->. apply byte_of_val. Qed.

(** Writing back a rune that was decoded restores its bytes; a malformed
    byte is replaced by the encoding of U+FFFD. *)
Lemma encode_decode a s r w :
  decode_rune a s = (r, w) -> r <> RuneError -> encode_rune r = take w (a :: s).
Proof.
  intros Hd%decode_rune_decoded Hr. pose proof (byte_val_range a).
  unfold encode_rune.
  destruct Hd as [Ha|Ha|c1 t ? Ha H1|c1 c2 t ? Ha H1 H1' H2|c1 c2 c3 t ? Ha H1 H1' H2 H3];
    subst; [..|]; simpl take; try done.
  - by rewrite (proj2 (Z.ltb_lt _ _) Ha), byte_of_val.
  - rewrite (proj2 (Z.ltb_ge _ 128)), (proj2 (Z.ltb_lt _ 2048)) by lia.
    repeat (f_equal; try (apply byte_of_eq; Z.div_mod_to_equations; lia)).
  - rewrite (proj2 (Z.ltb_ge _ 128)), (proj2 (Z.ltb_ge _ 2048)),
      (proj2 (Z.ltb_lt _ 65536)) by lia.
    repeat (f_equal; try (apply byte_of_eq; Z.div_mod_to_equations; lia)).
  - rewrite (proj2 (Z.ltb_ge _ 128)), (proj2 (Z.ltb_ge _ 2048)),
      (proj2 (Z.ltb_ge _ 65536)) by lia.
    repeat (f_equal; try (apply byte_of_eq; Z.div_mod_to_equations; lia)).
Qed.

(** ** Trimming *)

(** An ASCII byte that is not white space: no space rune starts or ends there. *)
Definition plain_byte (c : ascii) : bool :=
  (byte_val c <? 128) && negb (bool_decide (byte_val c ∈ [9; 10; 11; 12; 13; 32])).

Lemma plain_byte_no_prefix encs c s :
  forallb (fun e => match e with [] => false | a :: _ => negb (plain_byte a) end)
    encs = true ->
  plain_byte c = true -> Forall (fun e => ~ has_prefix e (c :: s) = true) encs.
Proof.
  intros Hall Hc. apply Forall_forall. intros e He Hp.
  rewrite forallb_forall in Hall. specialize (Hall e (proj1 (list_elem_of_In _ _) He)).
  destruct e as [|a e]; [done|]. simpl in Hp. case_decide; [subst|done].
  by rewrite Hc in Hall.
Qed.

Lemma plain_byte_first c s : plain_byte c = true ->
  Forall (fun e => ~ has_prefix e (c :: s) = true) space_encodings.
Proof. by apply plain_byte_no_prefix. Qed.

Lemma plain_byte_last c s : plain_byte c = true ->
  Forall (fun e => ~ has_prefix e (c :: s) = true) (reverse <$> space_encodings).
Proof. by apply plain_byte_no_prefix. Qed.

Lemma strip_spaces_none fuel encs s :
  Forall (fun e => ~ has_prefix e s = true) encs -> strip_spaces fuel encs s = s.
Proof.
  intros HF. destruct fuel; [done|]. simpl. unfold strip_space1.
  by rewrite (proj2 (list_find_None _ _)).
Qed.

Lemma space_encodings_nonempty :
  Forall (fun e => e <> []) space_encodings.
Proof. by repeat constructor. Qed.

Lemma strip_spaces_nil fuel encs :
  Forall (fun e => e <> []) encs -> strip_spaces fuel encs [] = [].
Proof.
  intros HF. apply strip_spaces_none. eapply Forall_impl; [done|].
  intros e He ?%has_prefix_nil_r. done.
Qed.

Lemma TrimSpace_nil : TrimSpace [] = [].
Proof. reflexivity. Qed.

(** A string that begins and ends with plain bytes is left alone. *)
Lemma TrimSpace_plain c m d :
  plain_byte c = true -> plain_byte d = true ->
  TrimSpace (c :: m ++ [d]) = c :: m ++ [d].
Proof.
  intros Hc Hd. unfold TrimSpace, trim_left_space.
  rewrite strip_spaces_none by by apply plain_byte_first.
  unfold trim_right_space.
  assert (reverse (c :: m ++ [d]) = d :: reverse (c :: m)) as Hr.
  { by rewrite app_comm_cons, reverse_app. }
  rewrite Hr, strip_spaces_none by by apply plain_byte_last.
  by rewrite <- Hr, reverse_involutive.
Qed.

Lemma TrimSpace_plain1 c : plain_byte c = true -> TrimSpace [c] = [c].
Proof.
  intros Hc. unfold TrimSpace, trim_left_space.
  rewrite strip_spaces_none by by apply plain_byte_first.
  unfold trim_right_space. rewrite reverse_singleton.
  by rewrite strip_spaces_none, reverse_singleton by by apply plain_byte_last.
Qed.

(** Text that begins and ends with plain bytes. *)
Definition ends_plain (s : str) : Prop :=
  (exists c, head s = Some c /\ plain_byte c = true) /\
  (exists d, head (reverse s) = Some d /\ plain_byte d = true).

Lemma ends_plain_app s t :
  (exists c, head s = Some c /\ plain_byte c = true) ->
  (exists d, head (reverse t) = Some d /\ plain_byte d = true) -> ends_plain (s ++ t).
Proof.
  intros (c & Hc & Hpc) (d & Hd & Hpd). split.
  - exists c. split; [|done]. by destruct s.
  - exists d. split; [|done]. rewrite reverse_app. by destruct (reverse t).
Qed.

Lemma trim_left_plain s c :
  head s = Some c -> plain_byte c = true -> trim_left_space s = s.
Proof.
  intros Hs Hc. destruct s as [|c' s]; simplify_eq/=. unfold trim_left_space.
  by rewrite strip_spaces_none by by apply plain_byte_first.
Qed.

Lemma strip_last_plain fuel s d :
  head s = Some d -> plain_byte d = true ->
  strip_spaces fuel (reverse <$> space_encodings) s = s.
Proof.
  intros Hs Hd. destruct s as [|d' s]; simplify_eq/=.
  by rewrite strip_spaces_none by by apply plain_byte_last.
Qed.

Lemma TrimSpace_ends s : ends_plain s -> TrimSpace s = s.
Proof.
  intros [(c & Hc & Hpc) (d & Hd & Hpd)]. unfold TrimSpace.
  rewrite (trim_left_plain s c) by done. unfold trim_right_space.
  rewrite (strip_last_plain _ _ d) by done. apply reverse_involutive.
Qed.

(** A trailing space is trimmed. *)
Lemma TrimSpace_space s : ends_plain s -> TrimSpace (s ++ [" "%char]) = s.
Proof.
  intros [(c & Hc & Hpc) (d & Hd & Hpd)]. unfold TrimSpace.
  rewrite (trim_left_plain _ c) by (by destruct s). unfold trim_right_space.
  rewrite reverse_app, reverse_singleton, length_app, Nat.add_comm. cbn [length Nat.add app].
  assert (forall r, strip_space1 (reverse <$> space_encodings) (" "%char :: r) = Some r) as Hs.
  { intros r. reflexivity. }
  cbn [strip_spaces]. rewrite Hs.
  rewrite (strip_last_plain _ _ d) by done. apply reverse_involutive.
Qed.

Lemma TrimSpace_all_plain s : forallb plain_byte s = true -> TrimSpace s = s.
Proof.
  destruct s as [|c s]; [done|]. simpl. intros [Hc Hs]%andb_true_iff.
  destruct s as [|s d _] using rev_ind.
  - by apply TrimSpace_plain1.
  - apply TrimSpace_plain; [done|]. rewrite forallb_app in Hs.
    apply andb_true_iff in Hs as [_ Hd]. simpl in Hd. by rewrite andb_true_r in Hd.
Qed.

(** ** Integers *)
Lemma is_digit_byte_of n : 0 <= n < 10 -> is_digit (byte_of (48 + n)) = true.
Proof.
  intros. unfold is_digit. rewrite !byte_val_of by lia.
  apply andb_true_iff. rewrite !Z.leb_le. lia.
Qed.

Lemma digit_val_byte_of n : 0 <= n < 10 -> digit_val (byte_of (48 + n)) = Some n.
Proof.
  intros. unfold digit_val. rewrite is_digit_byte_of by done.
  rewrite byte_val_of by lia. f_equal. lia.
Qed.

Lemma udec_digits fuel n acc :
  forallb is_digit acc = true -> 0 <= n -> forallb is_digit (udec fuel n acc) = true.
Proof.
  revert n acc. induction fuel as [|fuel IH]; intros n acc Hacc Hn; [done|]. simpl.
  assert (forallb is_digit (byte_of (48 + n `mod` 10) :: acc) = true) as Hc.
  { simpl. rewrite is_digit_byte_of; [done|]. apply Z.mod_pos_bound. lia. }
  case_match; [done|]. apply IH; [done|]. apply Z.div_pos; lia.
Qed.

Lemma uitoa_digits n : 0 <= n -> forallb is_digit (uitoa n) = true.
Proof. intros. by apply udec_digits. Qed.

Lemma udec_cons fuel n acc : exists d l, udec (S fuel) n acc = d :: l.
Proof.
  revert n acc. induction fuel as [|fuel IH]; intros n acc.
  - simpl. destruct (n <? 10); eauto.
  - cbn [udec]. destruct (n <? 10); [eauto|]. apply (IH (n / 10)).
Qed.

Lemma uitoa_not_nil n : uitoa n <> [].
Proof. unfold uitoa. destruct (udec_cons (Z.to_nat (Z.log2 n)) n []) as (?&?&->). done. Qed.

(** Reading [udec]'s digits from accumulator [v] multiplies [v] past them. *)
Lemma digits_val_udec fuel n acc v :
  0 <= n < 2 ^ Z.of_nat fuel -> 0 <= v ->
  (exists k, 0 <= k /\ digits_val 10 v (udec fuel n acc) =
             digits_val 10 (v * 10 ^ k + n) acc).
Proof.
  revert n acc v. induction fuel as [|fuel IH]; intros n acc v Hn Hv.
  - simpl in *. exists 0. split; [lia|]. f_equal. lia.
  - cbn [udec]. pose proof (Z.mod_pos_bound n 10 ltac:(lia)).
    case_match eqn:Hlt.
    + apply Z.ltb_lt in Hlt. exists 1. split; [lia|].
      cbn [digits_val]. rewrite digit_val_byte_of by lia. simpl.
      rewrite Z.mod_small by lia. apply Z.ltb_lt in Hlt as ->.
      f_equal.
    + apply Z.ltb_ge in Hlt.
      assert (0 <= n / 10 < 2 ^ Z.of_nat fuel).
      { rewrite Nat2Z.inj_succ, Z.pow_succ_r in Hn by lia.
        split; [apply Z.div_pos; lia|]. apply Z.div_lt_upper_bound; lia. }
      destruct (IH (n / 10) (byte_of (48 + n `mod` 10) :: acc) v) as (k & Hk & ->);
        [done..|].
      exists (k + 1). split; [lia|]. cbn [digits_val].
      rewrite digit_val_byte_of by lia. simpl.
      replace (n `mod` 10 <? 10) with true by (symmetry; apply Z.ltb_lt; lia).
      f_equal. rewrite Z.pow_add_r by lia.
      pose proof (Z.div_mod n 10). lia.
Qed.

Lemma digits_val_uitoa n : 0 <= n -> digits_val 10 0 (uitoa n) = Some n.
Proof.
  intros Hn. unfold uitoa.
  destruct (digits_val_udec (S (Z.to_nat (Z.log2 n))) n [] 0) as (k & _ & ->).
  - split; [done|]. rewrite Nat2Z.inj_succ, Z2Nat.id by apply Z.log2_nonneg.
    destruct (decide (n = 0)) as [->|]; [done|].
    apply Z.log2_spec; lia.
  - lia.
  - simpl. by rewrite Z.mul_0_l.
Qed.

Lemma digit_not_sign c : is_digit c = true -> c <> "+"%char /\ c <> "-"%char.
Proof. intros H. split; intros ->; by vm_compute in H. Qed.

Lemma ParseInt_Itoa bits z : in_signed bits z -> ParseInt 10 bits (Itoa z) = Some z.
Proof.
  intros Hz. unfold Itoa. case_match eqn:Hneg.
  - apply Z.ltb_lt in Hneg. unfold ParseInt.
    destruct (uitoa (- z)) as [|c l] eqn:E; [by apply uitoa_not_nil in E|].
    rewrite <- E, digits_val_uitoa by lia. simpl.
    rewrite Z.opp_involutive. by rewrite bool_decide_true.
  - apply Z.ltb_ge in Hneg. unfold ParseInt.
    pose proof (uitoa_digits z Hneg) as Hd.
    destruct (uitoa z) as [|c l] eqn:E; [by apply uitoa_not_nil in E|].
    assert (is_digit c = true) as Hc by (simpl in Hd; by apply andb_true_iff in Hd as [? _]).
    destruct (digit_not_sign c Hc) as [H1 H2].
    assert ((match c with "+"%char => (false, l) | "-"%char => (true, l) | _ => (false, c :: l) end)
            = (false, c :: l)) as ->.
    { destruct c as [[] [] [] [] [] [] [] []]; done. }
    rewrite <- E, digits_val_uitoa by done. simpl. by rewrite bool_decide_true.
Qed.

Lemma Atoi_Itoa z : in_signed 64 z -> Atoi (Itoa z) = Some z.
Proof. apply ParseInt_Itoa. Qed.

Lemma Atoi_uitoa n : 0 <= n < 2 ^ 63 -> Atoi (uitoa n) = Some n.
Proof.
  intros Hn. rewrite <- (Atoi_Itoa n) by (unfold in_signed; simpl; lia).
  unfold Itoa. by rewrite (proj2 (Z.ltb_ge n 0)) by lia.
Qed.

Lemma ParseInt_range base bits s z : ParseInt base bits s = Some z -> in_signed bits z.
Proof.
  unfold ParseInt. intros H. repeat case_match; simplify_eq/=;
    repeat match goal with
    | H : mbind _ ?m = Some _ |- _ => destruct m; simplify_eq/=
    | H : context [bool_decide ?P] |- _ => destruct (bool_decide_reflect P); simplify_eq/=
    end; done.
Qed.

#[export] Hint Resolve has_prefix_app uitoa_digits uitoa_not_nil ParseInt_range : livegrep.
#[export] Hint Rewrite @drop_app_length @take_app_length trim_prefix_app @reverse_involutive : livegrep.

(** * Searching for a text that holds a marker byte *)
Lemma index_None_marker c sub s : c ∈ sub -> c ∉ s -> index sub s = None.
Proof.
  intros Hc. induction s as [|d s IH]; intros Hs; cbn [index].
  - destruct (has_prefix sub []) eqn:E; [|done]. apply has_prefix_nil_r in E as ->. by apply elem_of_nil in Hc.
  - destruct (has_prefix sub (d :: s)) eqn:E.
    + apply has_prefix_spec in E as [t Ht]. rewrite Ht in Hs. by rewrite elem_of_app in Hs; naive_solver.
    + rewrite IH; [done|]. intros Hin. apply Hs. by right.
Qed.

(** The first occurrence of a text whose marker does not occur before. *)
Lemma index_marker c p d a t :
  c ∉ p -> c ∉ a -> index (p ++ c :: d) (a ++ (p ++ c :: d) ++ t) = Some (length a).
Proof.
  intros Hp. induction a as [|x a IH]; intros Ha.
  - cbn [app]. assert (forall u s, has_prefix u s = true -> index u s = Some 0%nat) as H0
      by (intros u s H; destruct s; simpl; by rewrite H).
    apply H0, has_prefix_app.
  - cbn [app index]. destruct (has_prefix _ _) eqn:E.
    + exfalso. apply has_prefix_spec in E as [u Hu].
      assert (cut c ((x :: a) ++ (p ++ c :: d) ++ t) = cut c ((p ++ c :: d) ++ u)) as Hc by (by rewrite <- Hu).
      rewrite <- !app_assoc in Hc. cbn [app] in Hc. rewrite (cut_app _ p) in Hc by done.
      rewrite app_comm_cons, app_assoc, cut_app in Hc.
      * injection Hc as Hc _. apply (f_equal length) in Hc. rewrite length_cons, length_app in Hc. lia.
      * rewrite not_elem_of_app. done.
    + rewrite IH; [done|]. intros Hin. apply Ha. by right.
Qed.

Lemma replace1_marker c p d a t new :
  c ∉ p -> c ∉ a ->
  replace1 (a ++ (p ++ c :: d) ++ t) (p ++ c :: d) new = a ++ new ++ t.
Proof.
  intros Hp Ha. unfold replace1. rewrite index_marker by done.
  rewrite take_app_length. f_equal. f_equal. by rewrite <- drop_drop, drop_app_length, drop_app_length.
Qed.

Lemma index_Some sub s i : index sub s = Some i -> exists a t, s = a ++ sub ++ t /\ length a = i.
Proof.
  revert i. induction s as [|c s IH]; intros i; cbn [index]; destruct (has_prefix sub _) eqn:E;
    try done; try (intros [= <-]; apply has_prefix_spec in E as [t Ht]; by exists [], t).
  destruct (index sub s) as [j|]; [|done]. intros [= <-]. destruct (IH j eq_refl) as (a & t & -> & Ha).
  exists (c :: a), t. split; [done|]. simpl. by rewrite Ha.
Qed.
