(* ===== verification/GoRegexp.v ===== *)
(** * Go's [regexp] package, as far as the program uses it

    Patterns are values of the type [re], written next to the literal they
    come from; [mt] is a backtracking matcher in continuation style with the
    leftmost-first (Perl) preference of Go's engine: earlier alternatives and,
    for greedy stars, longer repetitions are tried first.  It works on runes,
    as the engine does.  A position in the text is the suffix that remains. *)
From S2P Require Import Prelude GoStrings.

Inductive re : Type :=
  | REps                              (** the empty pattern *)
  | RChr (f : Z -> bool)              (** one rune of a class *)
  | RCat (a b : re)
  | RAlt (a b : re)
  | RStar (greedy : bool) (a : re)
  | RGroup (i : nat) (a : re)         (** capture group [i] *)
  | RBot                              (** [^] or [\A]: beginning of text *)
  | REot.                             (** [\z]: end of text *)

(** ** Derived forms *)
Definition rune_is (c : ascii) : Z -> bool := fun r => r =? byte_val c.
Definition RLit (s : str) : re := foldr (fun c r => RCat (RChr (rune_is c)) r) REps s.
Definition RPlus (a : re) : re := RCat a (RStar true a).
Definition ROpt (a : re) : re := RAlt a REps.
Definition RSeq (l : list re) : re := foldr RCat REps l.
Fixpoint RRep (n : nat) (a : re) : re :=
  match n with O => REps | S n => RCat a (RRep n a) end.
Definition RAlts (l : list re) : re :=
  match l with
  | [] => RChr (fun _ => false)
  | r :: l => foldl RAlt r l
  end.

(** ** Rune classes of Perl syntax *)
Definition in_range (lo hi : ascii) : Z -> bool :=
  fun r => (byte_val lo <=? r) && (r <=? byte_val hi).
Definition class_d : Z -> bool := in_range "0" "9".                  (** [\d] *)
Definition class_w : Z -> bool := fun r =>                            (** [\w] *)
  in_range "0" "9" r || in_range "A" "Z" r || in_range "a" "z" r || rune_is "_" r.
Definition class_s : Z -> bool := fun r =>                            (** [\s] *)
  bool_decide (r ∈ [9; 10; 12; 13; 32]).
Definition class_not (f : Z -> bool) : Z -> bool := fun r => negb (f r).
Definition class_dot : Z -> bool := class_not (rune_is LF).           (** [.] *)
Definition class_any : Z -> bool := fun _ => true.                    (** [[\s\S]] *)

(** ** Matching *)
Definition caps : Type := list (nat * (str * str)).

(** The text between a position and a later one. *)
Definition upto (s s' : str) : str := take (length s - length s') s.

Section matcher.
(** [n0] is the length of the whole text; [X] what a match yields. *)
Context (n0 : nat) {X : Type}.

Definition star_loop (greedy : bool)
    (ma : str -> caps -> (str -> caps -> option X) -> option X)
    (k : str -> caps -> option X) : nat -> str -> caps -> option X :=
  fix loop n s cs :=
    match n with
    | O => k s cs
    | S n =>
        let more := ma s cs (fun s' cs' =>
          if bool_decide (length s' < length s)%nat then loop n s' cs' else None) in
        if greedy
        then match more with Some x => Some x | None => k s cs end
        else match k s cs with Some x => Some x | None => more end
    end.

Fixpoint mt (r : re) (s : str) (cs : caps) (k : str -> caps -> option X)
    {struct r} : option X :=
  match r with
  | REps => k s cs
  | RChr f =>
      match s with
      | [] => None
      | a :: t => let '(c, w) := decode_rune a t in
                  if f c then k (drop w s) cs else None
      end
  | RCat a b => mt a s cs (fun s' cs' => mt b s' cs' k)
  | RAlt a b => match mt a s cs k with Some x => Some x | None => mt b s cs k end
  | RStar g a => star_loop g (fun s cs k => mt a s cs k) k (length s) s cs
  | RGroup i a => mt a s cs (fun s' cs' => k s' ((i, (s, s')) :: cs'))
  | RBot => if decide (length s = n0) then k s cs else None
  | REot => match s with [] => k s cs | _ :: _ => None end
  end.
End matcher.

(** A match: where it starts, where it ends, and its groups. *)
Record mtch := Mtch { m_start : str; m_end : str; m_caps : caps }.

Definition match_at (n0 : nat) (r : re) (s : str) : option mtch :=
  mt n0 r s [] (fun s' cs => Some (Mtch s s' cs)).

(** The leftmost match at or after [s]; the engine advances rune by rune. *)
Fixpoint search (fuel n0 : nat) (r : re) (s : str) : option mtch :=
  match match_at n0 r s with
  | Some m => Some m
  | None =>
      match fuel, s with
      | S fuel, a :: t => search fuel n0 r (drop (decode_rune a t).2 s)
      | _, _ => None
      end
  end.

(** [FindStringSubmatch], [FindSubmatch] and [FindStringSubmatchIndex]. *)
Definition find (r : re) (s : str) : option mtch := search (length s) (length s) r s.

(** [MatchString], [Match]. *)
Definition is_match (r : re) (s : str) : bool := bool_decide (is_Some (find r s)).

(** Group 0 is the whole match; a group that took no part is [None], which
    the code reads as the empty string. *)
Definition group_opt (m : mtch) (i : nat) : option str :=
  match i with
  | O => Some (upto (m_start m) (m_end m))
  | _ => '(_, (_, (s, s'))) ← list_find (fun c => c.1 = i) (m_caps m); Some (upto s s')
  end.
Definition group (m : mtch) (i : nat) : str := default [] (group_opt m i).

(** [FindStringSubmatchIndex]: where group [i] of a match in [q] begins and
    ends; [-1] twice for a group that took no part. *)
Definition offset (q s : str) : Z := Z.of_nat (length q) - Z.of_nat (length s).
Definition group_index (q : str) (m : mtch) (i : nat) : Z * Z :=
  match i with
  | O => (offset q (m_start m), offset q (m_end m))
  | _ => match list_find (fun c => c.1 = i) (m_caps m) with
         | Some (_, (_, (s, s'))) => (offset q s, offset q s')
         | None => (-1, -1)
         end
  end.

(** [FindAllSubmatch(text, -1)], for patterns that match no empty text. *)
Fixpoint find_all_from (fuel n0 : nat) (r : re) (s : str) : list mtch :=
  match fuel with
  | O => []
  | S fuel =>
      match search (length s) n0 r s with
      | None => []
      | Some m => m :: find_all_from fuel n0 r (m_end m)
      end
  end.
Definition find_all (r : re) (s : str) : list mtch :=
  find_all_from (S (length s)) (length s) r s.

(** ** [regexp.QuoteMeta] *)
Definition is_meta (c : ascii) : bool :=
  bool_decide (c ∈ ("\.+*?()|[]{}^$"%str : str)).
Definition QuoteMeta (s : str) : str :=
  s ≫= fun c => if is_meta c then ["\"%char; c] else [c].

(** ** The language of a pattern: the declarative counterpart of [mt] *)
Inductive lang (n0 : nat) : re -> str -> str -> Prop :=
  | lang_eps s : lang n0 REps s s
  | lang_chr f a t c w : decode_rune a t = (c, w) -> f c = true ->
      lang n0 (RChr f) (a :: t) (drop w (a :: t))
  | lang_cat a b s s' s'' :
      lang n0 a s s' -> lang n0 b s' s'' -> lang n0 (RCat a b) s s''
  | lang_alt_l a b s s' : lang n0 a s s' -> lang n0 (RAlt a b) s s'
  | lang_alt_r a b s s' : lang n0 b s s' -> lang n0 (RAlt a b) s s'
  | lang_star_nil g a s : lang n0 (RStar g a) s s
  | lang_star_cons g a s s' s'' :
      lang n0 a s s' -> (length s' < length s)%nat ->
      lang n0 (RStar g a) s' s'' -> lang n0 (RStar g a) s s''
  | lang_group i a s s' : lang n0 a s s' -> lang n0 (RGroup i a) s s'
  | lang_bot s : length s = n0 -> lang n0 RBot s s
  | lang_eot : lang n0 REot [] [].

#[export] Hint Constructors lang : livegrep.

(** * Lemmas *)

Lemma upto_app a b : upto (a ++ b) b = a.
Proof.
  unfold upto. rewrite length_app.
  replace (length a + length b - length b)%nat with (length a) by lia.
  apply take_app_length.
Qed.

Lemma upto_nil s : upto s [] = s.
Proof. unfold upto. simpl. rewrite Nat.sub_0_r. apply firstn_all. Qed.

Lemma upto_cons c s : upto (c :: s) s = [c].
Proof. apply (upto_app [c]). Qed.

Lemma offset_app a b : offset (a ++ b) b = Z.of_nat (length a).
Proof. unfold offset. rewrite length_app. lia. Qed.

Lemma zslice_mid {E} a b c :
  zslice (E := E) (a ++ b ++ c) (Z.of_nat (length a)) (Z.of_nat (length a + length b)) = Ok b.
Proof.
  unfold zslice. rewrite decide_True by (rewrite !length_app; lia).
  rewrite Nat2Z.id, drop_app_length. replace (Z.to_nat _) with (length b) by lia.
  by rewrite take_app_length.
Qed.

(** ** Soundness and completeness of the matcher *)
Section language.
Context (n0 : nat).

(** A match consumes a prefix. *)
Lemma lang_suffix r s s' : lang n0 r s s' -> exists p, s = p ++ s'.
Proof.
  induction 1 as [s|f a t c w|a b s s' s'' _ [p1 ->] _ [p2 ->]|a b s s' _ [p ->]
    |a b s s' _ [p ->]|g a s|g a s s' s'' _ [p1 ->] _ _ [p2 ->]
    |i a s s' _ [p ->]|s|];
    try (by exists []); try (by exists p); try (exists (p1 ++ p2); by rewrite app_assoc).
  exists (take w (a :: t)). by rewrite take_drop.
Qed.

Lemma lang_length r s s' : lang n0 r s s' -> (length s' <= length s)%nat.
Proof. intros [p ->]%lang_suffix. rewrite length_app. lia. Qed.

(** [sound r]: what the matcher returns is a continuation's answer after
    some match of [r]. *)
Definition sound {X} (r : re) : Prop :=
  forall s cs (k : str -> caps -> option X) x,
    mt n0 r s cs k = Some x ->
    exists s' cs', lang n0 r s s' /\ k s' cs' = Some x.

Lemma star_sound {X} g a : sound (X := X) a -> sound (X := X) (RStar g a).
Proof.
  intros Ha s cs k. cbn [mt]. generalize (length s) as n. intros n. revert s cs.
  induction n as [|n IH]; intros s cs x H; simpl in H.
  - exists s, cs. eauto with livegrep.
  - assert (forall x, mt n0 a s cs (fun s' cs' =>
        if bool_decide (length s' < length s)%nat
        then star_loop g (fun s cs k => mt n0 a s cs k) k n s' cs' else None) = Some x ->
      exists s' cs', lang n0 (RStar g a) s s' /\ k s' cs' = Some x) as Hmore.
    { intros x' Hx. apply Ha in Hx as (s' & cs' & Hl & Hx).
      case_bool_decide; [|done]. apply IH in Hx as (s'' & cs'' & Hl' & Hx).
      exists s'', cs''. eauto with livegrep. }
    destruct g; repeat case_match; simplify_eq; eauto with livegrep.
Qed.

Theorem mt_sound {X} r : sound (X := X) r.
Proof.
  induction r as [|f|a IHa b IHb|a IHa b IHb|g a IHa|i a IHa| |]; intros s cs k x H;
    simpl in H.
  - eauto with livegrep.
  - destruct s as [|c t]; [done|]. destruct (decode_rune c t) as [r w] eqn:E.
    destruct (f r) eqn:Hf; [|done]. eauto 6 with livegrep.
  - apply IHa in H as (s' & cs' & ? & H). apply IHb in H as (s'' & cs'' & ? & H).
    eauto 6 with livegrep.
  - destruct (mt n0 a s cs k) eqn:E; simplify_eq.
    + apply IHa in E as (?&?&?&?). eauto 6 with livegrep.
    + apply IHb in H as (?&?&?&?). eauto 6 with livegrep.
  - by apply (star_sound g a IHa s cs).
  - apply IHa in H as (?&?&?&?). eauto 6 with livegrep.
  - case_decide; [|done]. eauto with livegrep.
  - destruct s; [|done]. eauto with livegrep.
Qed.

(** The matcher uses its continuation as a function. *)
Lemma mt_ext {X} r s cs (k k' : str -> caps -> option X) :
  (forall s cs, k s cs = k' s cs) -> mt n0 r s cs k = mt n0 r s cs k'.
Proof.
  revert s cs k k'.
  induction r as [|f|a IHa b IHb|a IHa b IHb|g a IHa|i a IHa| |]; intros s cs k k' Hk;
    simpl; rewrite ?Hk; try done.
  - destruct s as [|c t]; [done|]. destruct (decode_rune c t). by rewrite Hk.
  - apply IHa. intros. by apply IHb.
  - by rewrite (IHa _ _ _ k'), (IHb _ _ _ k').
  - generalize (length s) as n. intros n. revert s cs.
    induction n as [|n IH]; intros s cs; simpl; [done|].
    rewrite Hk. erewrite IHa; [done|]. intros; simpl. by rewrite IH.
  - apply IHa. intros. apply Hk.
Qed.

(** A pattern without groups hands on the groups it was given. *)
Fixpoint no_groups (r : re) : bool :=
  match r with
  | RGroup _ _ => false
  | RCat a b | RAlt a b => no_groups a && no_groups b
  | RStar _ a => no_groups a
  | _ => true
  end.

Lemma mt_no_groups {X} r s cs (k : str -> caps -> option X) :
  no_groups r = true -> mt n0 r s cs k = mt n0 r s cs (fun s' _ => k s' cs).
Proof.
  revert s cs k.
  induction r as [|f|a IHa b IHb|a IHa b IHb|g a IHa|i a IHa| |]; intros s cs k Hr;
    cbn [no_groups] in Hr; try (apply andb_true_iff in Hr as [Ha Hb]); cbn [mt]; try done.
  - rewrite IHa by done. symmetry. rewrite IHa by done. apply mt_ext. intros s' _. symmetry. by apply IHb.
  - by rewrite (IHa s), (IHb s) by done.
  - generalize (length s) as n. intros n. revert s. induction n as [|n IH]; intros s; cbn [star_loop]; [done|].
    set (F := fun (k : str -> caps -> option X) s' cs' => if bool_decide (length s' < length s)%nat
      then star_loop g (fun s cs k => mt n0 a s cs k) k n s' cs' else None).
    assert (mt n0 a s cs (F k) = mt n0 a s cs (F (fun s' _ => k s' cs))) as E.
    { rewrite IHa by done. symmetry. rewrite IHa by done. apply mt_ext. intros s' _.
      unfold F. case_bool_decide; [|done]. symmetry. apply IH. }
    unfold F in E. by rewrite E.
Qed.

Lemma mt_bot_inv {X} s cs (k : str -> caps -> option X) x :
  mt n0 RBot s cs k = Some x -> k s cs = Some x.
Proof. cbn [mt]. by case_decide. Qed.

(** What a group without groups inside adds. *)
Lemma mt_group_sound {X} i a s cs (k : str -> caps -> option X) x :
  no_groups a = true -> mt n0 (RGroup i a) s cs k = Some x ->
  exists s', lang n0 a s s' /\ k s' ((i, (s, s')) :: cs) = Some x.
Proof.
  intros Ha H. cbn [mt] in H. rewrite mt_no_groups in H by done.
  apply mt_sound in H as (s' & _ & Hl & H). by exists s'.
Qed.

Lemma mt_alt_inv {X} a b s cs (k : str -> caps -> option X) x :
  mt n0 (RAlt a b) s cs k = Some x -> mt n0 a s cs k = Some x \/ mt n0 b s cs k = Some x.
Proof. cbn [mt]. destruct (mt n0 a s cs k); [intros; simplify_eq; by left|by right]. Qed.

(** A continuation that never answers makes the matcher fail. *)
Lemma mt_none {X} r s cs (k : str -> caps -> option X) :
  (forall s' cs', lang n0 r s s' -> k s' cs' = None) -> mt n0 r s cs k = None.
Proof.
  intros Hk. destruct (mt n0 r s cs k) eqn:E; [|done].
  apply mt_sound in E as (s' & cs' & Hl & Hx). by rewrite Hk in Hx.
Qed.

(** As much fuel as there is text is enough for a star. *)
Lemma star_fuel {X} g a (k : str -> caps -> option X) n m s cs :
  (length s <= n)%nat -> (length s <= m)%nat ->
  star_loop g (fun s cs k => mt n0 a s cs k) k n s cs =
  star_loop g (fun s cs k => mt n0 a s cs k) k m s cs.
Proof.
  assert (forall m (s : str) cs, length s = O -> k s cs =
    star_loop g (fun s cs k => mt n0 a s cs k) k m s cs) as H0.
  { clear. intros [|m] s cs Hs; simpl; [done|].
    rewrite mt_none; [by destruct g, (k s cs)|].
    intros. rewrite bool_decide_false by lia. done. }
  revert m s cs. induction n as [|n IH]; intros m s cs Hn Hm.
  - apply H0. lia.
  - destruct m as [|m]; [symmetry; apply H0; lia|]. simpl.
    erewrite (mt_ext a s cs); [done|]. intros s' cs'. simpl.
    case_bool_decide; [|done]. apply IH; lia.
Qed.

(** If the continuation accepts after one match, the matcher succeeds. *)
Theorem mt_complete {X} r s s' cs (k : str -> caps -> option X) :
  lang n0 r s s' -> (forall cs', is_Some (k s' cs')) -> is_Some (mt n0 r s cs k).
Proof.
  intros Hl. revert cs k.
  induction Hl as [s|f a t c w E Hf|a b s s' s'' _ IH1 _ IH2|a b s s' _ IH|a b s s' _ IH
    |g a s|g a s s' s'' Hl IH1 Hlt Hl2 IH2|i a s s' _ IH|s Hs|]; intros cs k Hk; simpl.
  - done.
  - by rewrite E, Hf.
  - apply IH1. intros. by apply IH2.
  - destruct (IH cs k Hk) as [x ->]. done.
  - destruct (mt n0 a s cs k); [done|]. by apply IH.
  - destruct (length s) eqn:En; simpl; [done|].
    destruct g; [case_match; [done|apply Hk]|]. destruct (Hk cs) as [x ->]. done.
  - assert (forall n, (length s <= n)%nat -> is_Some (star_loop g
      (fun s cs k => mt n0 a s cs k) k n s cs)) as Hgen; [|by apply Hgen].
    intros n Hn. destruct n as [|n]; [lia|]. simpl.
    match goal with |- context [mt n0 a s cs ?kk] =>
      assert (is_Some (mt n0 a s cs kk)) as [x Hx] end.
    { apply IH1. intros cs'. rewrite bool_decide_true by done.
      specialize (IH2 cs' k Hk). simpl in IH2.
      by rewrite (star_fuel g a k n (length s')) by lia. }
    rewrite Hx. destruct g; [done|]. by destruct (k s cs).
  - apply IH. intros. apply Hk.
  - by rewrite decide_True.
  - done.
Qed.
End language.

(** ** Matching known text *)
Definition is_ascii (c : ascii) : bool := byte_val c <? 128.

(** Text a greedy star over the class [f] runs through. *)
Definition spans (f : Z -> bool) (c : ascii) : Prop :=
  if is_ascii c then f (byte_val c) = true else forall r, 128 <= r -> f r = true.

(** Text such a star stops at. *)
Definition stops (f : Z -> bool) (s : str) : Prop :=
  match s with
  | [] => True
  | c :: _ => is_ascii c = true /\ f (byte_val c) = false
  end.

Section matching.
Context {X : Type} (n0 : nat).
Implicit Types (k : str -> caps -> option X).

Lemma mt_chr_ascii f c s cs k :
  is_ascii c = true ->
  mt n0 (RChr f) (c :: s) cs k = if f (byte_val c) then k s cs else None.
Proof. intros H%Z.ltb_lt. simpl. by rewrite decode_ascii. Qed.

Lemma mt_rune_is c s cs k :
  is_ascii c = true ->
  mt n0 (RChr (rune_is c)) s cs k =
  match s with a :: t => if decide (a = c) then k t cs else None | [] => None end.
Proof.
  intros Hc. destruct s as [|a t]; [done|].
  destruct (is_ascii a) eqn:Ha.
  - rewrite mt_chr_ascii by done. unfold rune_is. case_decide.
    + subst. by rewrite Z.eqb_refl.
    + case_match eqn:E; [|done]. by apply Z.eqb_eq, byte_val_inj in E.
  - apply Z.ltb_ge in Ha. apply Z.ltb_lt in Hc. simpl.
    destruct (decode_rune a t) as [r w] eqn:E.
    apply decode_high in E as [? _]; [|done].
    unfold rune_is. rewrite (proj2 (Z.eqb_neq _ _)) by lia.
    case_decide; [|done]. subst. lia.
Qed.

Lemma mt_lit w s cs k :
  forallb is_ascii w = true ->
  mt n0 (RLit w) s cs k =
  if has_prefix w s then k (drop (length w) s) cs else None.
Proof.
  revert s. induction w as [|c w IH]; intros s Hw; [done|].
  simpl in Hw. apply andb_true_iff in Hw as [Hc Hw].
  cbn [RLit foldr]. fold (RLit w). cbn [mt].
  pose proof (mt_rune_is c s cs (fun s' cs' => mt n0 (RLit w) s' cs' k) Hc) as E.
  cbn [mt] in E. rewrite E. clear E.
  destruct s as [|a t]; [done|]. simpl.
  case_decide; subst.
  - rewrite decide_True by done. by apply IH.
  - by rewrite decide_False.
Qed.

Lemma mt_lit_app w s cs k :
  forallb is_ascii w = true -> mt n0 (RLit w) (w ++ s) cs k = k s cs.
Proof.
  intros. by rewrite mt_lit, has_prefix_app, drop_app_length.
Qed.

(** The matcher's equations. *)
Lemma mt_cat a b s cs k :
  mt n0 (RCat a b) s cs k = mt n0 a s cs (fun s' cs' => mt n0 b s' cs' k).
Proof. done. Qed.

Lemma mt_group i a s cs k :
  mt n0 (RGroup i a) s cs k = mt n0 a s cs (fun s' cs' => k s' ((i, (s, s')) :: cs')).
Proof. done. Qed.

Lemma mt_bot s cs k : length s = n0 -> mt n0 RBot s cs k = k s cs.
Proof. intros. simpl. by rewrite decide_True. Qed.

(** An optional literal that is there, or is not. *)
Lemma mt_opt_lit w s cs k x :
  forallb is_ascii w = true -> k s cs = Some x ->
  mt n0 (ROpt (RLit w)) (w ++ s) cs k = Some x.
Proof. intros Hw Hk. cbn [ROpt mt]. by rewrite mt_lit_app, Hk. Qed.

Lemma mt_opt_none w s cs k :
  forallb is_ascii w = true -> has_prefix w s = false ->
  mt n0 (ROpt (RLit w)) s cs k = k s cs.
Proof. intros Hw Hp. cbn [ROpt mt]. by rewrite mt_lit, Hp. Qed.

Lemma mt_class_ascii f c s cs k :
  is_ascii c = true -> f (byte_val c) = true -> mt n0 (RChr f) (c :: s) cs k = k s cs.
Proof. intros Hc Hf. by rewrite mt_chr_ascii, Hf. Qed.

(** Decoding stays inside the spanned text when what follows is ASCII. *)
Lemma decode_span f a d s r w :
  spans f a -> stops f s -> decode_rune a (d ++ s) = (r, w) ->
  f r = true /\ exists d1 d2, d = d1 ++ d2 /\ w = S (length d1).
Proof.
  unfold spans. intros Ha Hs E. destruct (is_ascii a) eqn:Hasc.
  - apply Z.ltb_lt in Hasc. rewrite decode_ascii in E by done. simplify_eq.
    split; [done|]. by exists [], d.
  - apply Z.ltb_ge in Hasc. pose proof (decode_width _ _ _ _ E) as Hw.
    apply decode_high in E as [Hr HF]; [|done]. split; [by apply Ha|].
    destruct (decide (w - 1 <= length d)%nat) as [Hle|Hgt].
    + exists (take (w - 1) d), (drop (w - 1) d). rewrite take_drop.
      split; [done|]. rewrite length_take. lia.
    + destruct s as [|c t]; [rewrite app_nil_r in Hw; lia|].
      destruct Hs as [Hc%Z.ltb_lt _]. exfalso.
      assert (128 <= byte_val c); [|lia].
      rewrite Forall_lookup in HF. apply (HF (length d)).
      rewrite lookup_take_lt by lia. by apply list_lookup_middle.
Qed.

(** A greedy star over a class takes the longest run, if the rest accepts. *)
Lemma mt_star_class f d s cs k x :
  Forall (spans f) d -> stops f s -> k s cs = Some x ->
  mt n0 (RStar true (RChr f)) (d ++ s) cs k = Some x.
Proof.
  intros Hd Hs Hk. cbn [mt]. generalize (le_n (length (d ++ s))).
  generalize (length (d ++ s)) at 2 3 as n.
  intros n. revert d Hd. induction n as [|n IH]; intros d Hd Hn.
  - destruct d, s; simpl in *; try lia. done.
  - simpl. destruct d as [|a d]; simpl.
    + destruct s as [|c t]; [by rewrite Hk|]. destruct Hs as [Hc Hf].
      apply Z.ltb_lt in Hc. by rewrite decode_ascii, Hf.
    + destruct (decode_rune a (d ++ s)) as [r w] eqn:E.
      inversion Hd as [|?? Ha Hd']; subst.
      destruct (decode_span f a d s r w Ha Hs E) as (-> & d1 & d2 & -> & ->).
      simpl. rewrite <- app_assoc, drop_app_length.
      rewrite bool_decide_true by (rewrite !length_app; lia).
      apply Forall_app in Hd' as [_ Hd2].
      specialize (IH d2 Hd2). rewrite IH; [done|].
      simpl in Hn. rewrite !length_app in *. lia.
Qed.

Lemma mt_plus_class f d s cs k x :
  d <> [] -> Forall (spans f) d -> stops f s -> k s cs = Some x ->
  mt n0 (RPlus (RChr f)) (d ++ s) cs k = Some x.
Proof.
  intros Hne Hd Hs Hk. destruct d as [|a d]; [done|].
  inversion Hd as [|?? Ha Hd']; subst. simpl.
  destruct (decode_rune a (d ++ s)) as [r w] eqn:E.
  destruct (decode_span f a d s r w Ha Hs E) as (-> & d1 & d2 & -> & ->).
  simpl. rewrite <- app_assoc, drop_app_length.
  apply Forall_app in Hd' as [_ Hd2]. by apply mt_star_class.
Qed.

(** Up to the end of the text. *)
Lemma mt_plus_end f d cs k x :
  d <> [] -> Forall (spans f) d -> k [] cs = Some x -> mt n0 (RPlus (RChr f)) d cs k = Some x.
Proof.
  intros Hne Hd Hk. rewrite <- (app_nil_r d). by apply mt_plus_class.
Qed.

(** A greedy star tries one more first. *)
Lemma mt_star_unfold a s cs k :
  mt n0 (RStar true a) s cs k =
  match mt n0 a s cs (fun s' cs' =>
    if bool_decide (length s' < length s)%nat then mt n0 (RStar true a) s' cs' k else None) with
  | Some x => Some x
  | None => k s cs
  end.
Proof.
  cbn [mt]. destruct (length s) as [|n] eqn:En.
  - rewrite mt_none; [done|]. intros. by rewrite bool_decide_false by lia.
  - cbn [star_loop]. match goal with |- match ?l with _ => _ end = match ?r with _ => _ end =>
      enough (l = r) as E by (by rewrite E) end.
    rewrite <- En. apply mt_ext. intros s' cs'. cbn beta. case_bool_decide; [|done]. apply star_fuel; lia.
Qed.

(** It gives back what it took, up to the last place where the rest accepts. *)
Lemma mt_star_back f p q cs k x :
  Forall (fun c => is_ascii c = true /\ f (byte_val c) = true) (p ++ q) ->
  (forall q1 q2 cs', q = q1 ++ q2 -> q1 <> [] -> k q2 cs' = None) -> k q cs = Some x ->
  mt n0 (RStar true (RChr f)) (p ++ q) cs k = Some x.
Proof.
  intros Hf Hno Hk. induction p as [|c p IH].
  - rewrite mt_star_unfold. rewrite mt_none; [done|]. intros s' cs' Hl. case_bool_decide as Hlt; [|done].
    apply lang_suffix in Hl as [q1 Hq]. apply mt_none. intros s'' cs'' [q2 ->]%lang_suffix.
    apply (Hno (q1 ++ q2)); [by rewrite <- app_assoc|]. intros [-> ->]%app_nil.
    rewrite Hq in Hlt. cbn in Hlt. lia.
  - cbn [app] in Hf. apply Forall_cons in Hf as [[Hc Hfc] Hf]. rewrite mt_star_unfold. cbn [app].
    rewrite mt_class_ascii by done. rewrite bool_decide_true by (cbn; lia). by rewrite IH.
Qed.

(** A lazy star runs to the first [c], if only [c] lets the rest accept. *)
Lemma mt_lazy_until f c d s cs k x :
  is_ascii c = true -> c ∉ d -> Forall (spans f) d ->
  k (c :: s) cs = Some x -> (forall a t, a <> c -> k (a :: t) cs = None) ->
  mt n0 (RStar false (RChr f)) (d ++ c :: s) cs k = Some x.
Proof.
  intros Hc Hd Hf Hk Hn. cbn [mt].
  generalize (le_n (length (d ++ c :: s))). generalize (length (d ++ c :: s)) at 2 3 as n.
  intros n. revert d Hd Hf. induction n as [|n IH]; intros d Hd Hf Hl.
  { rewrite length_app in Hl. simpl in Hl. lia. }
  simpl. destruct d as [|a d]; simpl; [by rewrite Hk|].
  apply not_elem_of_cons in Hd as [Hac Hd]. apply Forall_cons in Hf as [Ha Hf].
  rewrite Hn by done. destruct (decode_rune a (d ++ c :: s)) as [r w] eqn:Ed.
  assert (f r = true /\ exists d1 d2, d = d1 ++ d2 /\ w = S (length d1))
    as (Hfr & d1 & d2 & -> & ->).
  { destruct (decode_span (fun r => f r && negb (rune_is c r)) a d (c :: s) r w)
      as [Hr Hd']; [| |done|].
    - unfold spans in *. destruct (is_ascii a) eqn:Haa.
      + rewrite Ha. unfold rune_is. destruct (byte_val a =? byte_val c) eqn:E2; [|done].
        by apply Z.eqb_eq, byte_val_inj in E2.
      + intros r' Hr'. rewrite Ha by done. unfold rune_is.
        apply Z.ltb_lt in Hc. by rewrite (proj2 (Z.eqb_neq _ _)) by lia.
    - split; [done|]. unfold rune_is. by rewrite Z.eqb_refl, andb_false_r.
    - split; [|done]. by apply andb_true_iff in Hr as [? _]. }
  rewrite Hfr. simpl. rewrite <- app_assoc, drop_app_length.
  rewrite bool_decide_true by (rewrite !length_app; simpl; lia).
  apply IH.
  - intros ?. apply Hd. apply elem_of_app. by right.
  - by apply Forall_app in Hf as [_ ?].
  - simpl in Hl. rewrite !length_app in *. simpl in *. lia.
Qed.
End matching.

(** The digits of a number are digits of [\d]. *)
Lemma uitoa_spans n : 0 <= n -> Forall (spans class_d) (uitoa n).
Proof.
  intros Hd%uitoa_digits. rewrite forallb_forall in Hd. apply Forall_forall.
  intros c Hc%list_elem_of_In%Hd. apply andb_true_iff in Hc as [H1%Z.leb_le H2%Z.leb_le].
  unfold spans, is_ascii. rewrite (proj2 (Z.ltb_lt _ _)) by lia.
  unfold class_d, in_range. change (byte_val "0") with 48. change (byte_val "9") with 57.
  by rewrite !(proj2 (Z.leb_le _ _)) by lia.
Qed.

(** ** Searching *)
Lemma search_here fuel n0 r s m :
  match_at n0 r s = Some m -> search fuel n0 r s = Some m.
Proof. intros H. destruct fuel; simpl; by rewrite H. Qed.

Lemma search_skip fuel n0 r c t :
  match_at n0 r (c :: t) = None -> is_ascii c = true ->
  search (S fuel) n0 r (c :: t) = search fuel n0 r t.
Proof. intros H Hc%Z.ltb_lt. simpl. by rewrite H, decode_ascii. Qed.

(** Text that cannot begin the pattern is skipped. *)
Lemma search_skip_text n0 c w r p s fuel :
  Forall (fun a => is_ascii a = true /\ a <> c) p -> forallb is_ascii (c :: w) = true ->
  search (length p + fuel) n0 (RCat (RLit (c :: w)) r) (p ++ s) = search fuel n0 (RCat (RLit (c :: w)) r) s.
Proof.
  intros Hp Hw. induction Hp as [|a p [Ha Hac] _ IH]; [done|]. cbn [length Nat.add app].
  rewrite search_skip; [exact IH| |done].
  unfold match_at. rewrite mt_cat, mt_lit by done. by rewrite has_prefix_cons_ne.
Qed.

Lemma match_at_lang n0 r s m :
  match_at n0 r s = Some m -> m_start m = s /\ lang n0 r s (m_end m).
Proof. intros (s' & cs' & Hl & [= <-])%mt_sound. done. Qed.

(** What a search returns is a match of the pattern inside the text. *)
Lemma search_lang fuel n0 r s m :
  search fuel n0 r s = Some m ->
  lang n0 r (m_start m) (m_end m) /\ exists p, s = p ++ m_start m.
Proof.
  revert s. induction fuel as [|fuel IH]; intros s H; simpl in H.
  - destruct (match_at n0 r s) as [m'|] eqn:E; simplify_eq.
    apply match_at_lang in E as [-> ?]. split; [done|]. by exists [].
  - destruct (match_at n0 r s) as [m'|] eqn:E; simplify_eq.
    { apply match_at_lang in E as [-> ?]. split; [done|]. by exists []. }
    destruct s as [|a t]; [done|]. apply IH in H as [? [p Hp]].
    split; [done|]. exists (take (decode_rune a t).2 (a :: t) ++ p).
    by rewrite <- app_assoc, <- Hp, take_drop.
Qed.

Lemma find_lang r s m :
  find r s = Some m ->
  lang (length s) r (m_start m) (m_end m) /\
  exists p, s = p ++ upto (m_start m) (m_end m) ++ m_end m
            /\ m_start m = upto (m_start m) (m_end m) ++ m_end m.
Proof.
  intros [Hl [p Hp]]%search_lang. split; [done|].
  destruct (lang_suffix _ _ _ _ Hl) as [q Hq]. exists p.
  assert (upto (m_start m) (m_end m) = q) as -> by by rewrite Hq, upto_app.
  split; [by rewrite <- Hq|done].
Qed.

(** What is found is a match at the place where it begins. *)
Lemma search_at fuel n0 r s m : search fuel n0 r s = Some m -> match_at n0 r (m_start m) = Some m.
Proof.
  revert s. induction fuel as [|fuel IH]; intros s H; simpl in H;
    (destruct (match_at n0 r s) as [m'|] eqn:E; [simplify_eq; by destruct (match_at_lang _ _ _ _ E) as [-> _]|]).
  - done.
  - destruct s as [|a t]; [done|]. by apply IH in H.
Qed.

(** Without a match there is nothing to find. *)
Lemma search_none fuel n0 r s :
  (forall p s' s'', s = p ++ s' -> ~ lang n0 r s' s'') -> search fuel n0 r s = None.
Proof.
  intros Hn. destruct (search fuel n0 r s) as [m|] eqn:E; [|done].
  apply search_lang in E as [Hl [p Hp]]. by apply (Hn p _ (m_end m)) in Hp.
Qed.

(** ** Quoting *)

(** Undo [QuoteMeta]: drop the backslash in front of a metacharacter; [None]
    if a metacharacter stands unescaped. *)
Fixpoint unquote (s : str) : option str :=
  match s with
  | [] => Some []
  | c :: s =>
      if decide (c = "\"%char) then
        match s with
        | d :: s => if is_meta d then cons d <$> unquote s else None
        | [] => None
        end
      else if is_meta c then None else cons c <$> unquote s
  end.

Lemma QuoteMeta_app s t : QuoteMeta (s ++ t) = QuoteMeta s ++ QuoteMeta t.
Proof. apply bind_app. Qed.

Lemma QuoteMeta_cons c s :
  QuoteMeta (c :: s) = (if is_meta c then ["\"%char; c] else [c]) ++ QuoteMeta s.
Proof. reflexivity. Qed.

Lemma unquote_QuoteMeta s : unquote (QuoteMeta s) = Some s.
Proof.
  induction s as [|c s IH]; [done|]. rewrite QuoteMeta_cons.
  destruct (is_meta c) eqn:Hm; cbn -[is_meta QuoteMeta].
  - by rewrite Hm, IH.
  - rewrite decide_False by (by intros ->; vm_compute in Hm).
    by rewrite Hm, IH.
Qed.

Lemma QuoteMeta_nil s : QuoteMeta s = [] <-> s = [].
Proof.
  split; [|by intros ->]. intros H. pose proof (unquote_QuoteMeta s) as Hu.
  rewrite H in Hu. by simplify_eq/=.
Qed.

#[export] Hint Resolve search_here match_at_lang : livegrep.
#[export] Hint Rewrite upto_app upto_nil upto_cons unquote_QuoteMeta : livegrep.

(** ** Inverting matches *)
Lemma lang_chr_inv n0 f s s' :
  lang n0 (RChr f) s s' ->
  exists a t r l, s = a :: t /\ decode_rune a t = (r, l) /\ f r = true
                  /\ s' = drop l (a :: t).
Proof. inversion 1; subst; eauto 10. Qed.

Lemma lang_cat_inv n0 a b s s'' :
  lang n0 (RCat a b) s s'' -> exists s', lang n0 a s s' /\ lang n0 b s' s''.
Proof. inversion 1; subst; eauto. Qed.

Lemma lang_alt_inv n0 a b s s' :
  lang n0 (RAlt a b) s s' -> lang n0 a s s' \/ lang n0 b s s'.
Proof. inversion 1; subst; auto. Qed.

Lemma lang_group_inv n0 i a s s' : lang n0 (RGroup i a) s s' -> lang n0 a s s'.
Proof. by inversion 1. Qed.

Lemma lang_bot_inv n0 s s' : lang n0 RBot s s' -> s' = s /\ length s = n0.
Proof. by inversion 1. Qed.

Lemma lang_eot_inv n0 s s' : lang n0 REot s s' -> s = [] /\ s' = [].
Proof. by inversion 1. Qed.

Lemma lang_eps_inv n0 s s' : lang n0 REps s s' -> s' = s.
Proof. by inversion 1. Qed.

Lemma lang_lit_inv n0 w s s' :
  forallb is_ascii w = true -> lang n0 (RLit w) s s' -> s = w ++ s'.
Proof.
  revert s. induction w as [|c w IH]; intros s Hw Hl; simpl in *.
  - by inversion Hl.
  - apply andb_true_iff in Hw as [Hc%Z.ltb_lt Hw].
    apply lang_cat_inv in Hl as (s1 & Hl1 & Hl2).
    apply lang_chr_inv in Hl1 as (a & t & r & l & -> & E & Hr & ->).
    apply Z.eqb_eq in Hr. destruct (decide (byte_val a < 128)) as [Ha|Ha].
    + rewrite decode_ascii in E by done. injection E as <- <-.
      apply byte_val_inj in Hr as ->. cbn [drop] in Hl2. f_equal. by apply IH.
    + apply decode_high in E as [? _]; lia.
Qed.

(** A star over an ASCII class runs over ASCII bytes of the class. *)
Lemma lang_star_ascii n0 g f s s' :
  (forall r, f r = true -> r < 128) -> lang n0 (RStar g (RChr f)) s s' ->
  exists p, s = p ++ s' /\ Forall (fun c => f (byte_val c) = true) p.
Proof.
  intros Hf. remember (RStar g (RChr f)) as r eqn:Er. intros Hl.
  induction Hl as [| | | | |g' a s|g' a s s1 s2 Hl1 _ Hlt Hl2 IH| | |];
    simplify_eq.
  - by exists [].
  - destruct (IH eq_refl) as (p & -> & Hp).
    apply lang_chr_inv in Hl1 as (a & t & r & l & -> & E & Hr & Hd).
    destruct (decide (byte_val a < 128)) as [Ha|Ha].
    + rewrite decode_ascii in E by done. injection E as <- <-. change (p ++ s2 = t) in Hd. subst.
      exists (a :: p). split; [done|by constructor].
    + apply decode_high in E as [? _]; [|lia]. apply Hf in Hr. lia.
Qed.

Lemma lang_chr_nonempty n0 f s s' :
  lang n0 (RChr f) s s' -> (length s' < length s)%nat.
Proof.
  intros (a & t & r & l & -> & E & _ & ->)%lang_chr_inv.
  apply decode_width in E. rewrite length_drop. simpl in *. lia.
Qed.

(** An anchored pattern is only found at the beginning. *)
Lemma find_bot r s :
  find (RCat RBot r) s = match_at (length s) (RCat RBot r) s.
Proof.
  unfold find. destruct (match_at _ _ s) as [m|] eqn:E; [by apply search_here|].
  destruct (search _ _ _ s) as [m|] eqn:E2; [|done]. exfalso.
  apply search_lang in E2 as [Hl [p Hp]]. pose proof Hl as Hl'.
  apply lang_cat_inv in Hl as (s1 & [-> Hlen]%lang_bot_inv & _).
  assert (p = []) as ->.
  { apply (f_equal length) in Hp. rewrite length_app in Hp. destruct p; [done|simpl in Hp; lia]. }
  simpl in Hp. rewrite <- Hp in Hl'.
  destruct (mt_complete (length s) (RCat RBot r) s (m_end m) []
    (fun s' cs => Some (Mtch s s' cs)) Hl' ltac:(by eexists)) as [x Hx].
  unfold match_at in E. congruence.
Qed.

(** A fixed number of bytes of an ASCII class. *)
Lemma lang_rep_ascii n0 f n s s' :
  (forall r, f r = true -> r < 128) -> lang n0 (RRep n (RChr f)) s s' ->
  exists p, s = p ++ s' /\ length p = n /\ Forall (fun c => f (byte_val c) = true) p.
Proof.
  intros Hf. revert s. induction n as [|n IH]; intros s Hl; cbn [RRep] in Hl.
  - apply lang_eps_inv in Hl as ->. by exists [].
  - apply lang_cat_inv in Hl as (s1 & (a & t & r & l & -> & E & Hr & ->)%lang_chr_inv & Hl).
    rewrite decode_ascii in E.
    2: { destruct (decide (byte_val a < 128)) as [|Hn]; [done|].
         apply decode_high in E as [? _]; [|lia]. apply Hf in Hr. lia. }
    injection E as <- <-. change (drop 1 (a :: t)) with t in Hl.
    destruct (IH t Hl) as (p & -> & Hp & Hall). exists (a :: p).
    split_and!; [done|simpl; by rewrite Hp|by constructor].
Qed.

Lemma mt_rep_ascii {X} n0 f p s cs (k : str -> caps -> option X) :
  Forall (fun c => is_ascii c && f (byte_val c) = true) p ->
  mt n0 (RRep (length p) (RChr f)) (p ++ s) cs k = k s cs.
Proof.
  induction 1 as [|c p [Ha Hc]%andb_true_iff _ IH]; [done|].
  cbn [length RRep]. rewrite mt_cat. cbn [app]. by rewrite mt_class_ascii, IH.
Qed.

(** A pattern that ends in a literal only matches text that has it. *)
Lemma lang_seq_last n0 l w s s' :
  forallb is_ascii w = true -> lang n0 (RSeq (l ++ [RLit w])) s s' -> exists p, s = p ++ w ++ s'.
Proof.
  intros Hw. revert s. induction l as [|r l IH]; intros s Hl.
  - apply lang_cat_inv in Hl as (s1 & Hl & ->%lang_eps_inv).
    apply lang_lit_inv in Hl; [|done]. by exists [].
  - apply lang_cat_inv in Hl as (s1 & [p1 ->]%lang_suffix & [p2 ->]%IH).
    exists (p1 ++ p2). by rewrite <- app_assoc.
Qed.

(** Take a match apart, one pattern constructor at a time. *)
Ltac lang_inv1 :=
  match goal with
  | H : lang _ (RAlt _ _) _ _ |- _ => apply lang_alt_inv in H as [H|H]
  | H : lang _ (RLit _) _ _ |- _ => apply lang_lit_inv in H; [|done]
  | H : lang _ (RCat _ _) _ _ |- _ => apply lang_cat_inv in H as (? & ? & ?)
  | H : lang _ (RPlus _) _ _ |- _ => apply lang_cat_inv in H as (? & ? & ?)
  | H : lang _ (ROpt _) _ _ |- _ => apply lang_alt_inv in H as [H|H]
  | H : lang _ (RGroup _ _) _ _ |- _ => apply lang_group_inv in H
  | H : lang _ RBot _ _ |- _ => apply lang_bot_inv in H as [-> ?]
  | H : lang _ REot _ _ |- _ => apply lang_eot_inv in H as [-> ->]
  | H : lang _ REps _ _ |- _ => apply lang_eps_inv in H as ->
  end.
Ltac lang_inv := repeat lang_inv1.

(** [length] facts of every sub-match in the context. *)
Ltac lang_lengths :=
  repeat match goal with
  | H : lang _ (RChr _) _ _ |- _ => apply lang_chr_nonempty in H
  | H : lang _ _ _ _ |- _ => apply lang_length in H
  end.
