(* ===== verification/GoPath.v ===== *)
(** * Go's [path] package (and [path/filepath] on Unix)

    [Clean] by components: empty components and [.] vanish, [..] removes the
    component before it unless there is none to remove. *)
From S2P Require Import Prelude GoStrings.

(** The components kept so far are in [acc], last one first. *)
Definition clean_step (rooted : bool) (acc : list str) (comp : str) : list str :=
  if bool_decide (comp = []) || bool_decide (comp = "."%str) then acc
  else if decide (comp = ".."%str) then
    match acc with
    | c :: acc' => if decide (c = ".."%str) then comp :: acc else acc'
    | [] => if rooted then [] else [comp]
    end
  else comp :: acc.

Definition rooted (path : str) : bool := has_prefix "/"%str path.

Definition Clean (path : str) : str :=
  let out := join "/"%str (reverse (foldl (clean_step (rooted path)) [] (split "/" path))) in
  if rooted path then "/"%char :: out
  else if decide (out = []) then "."%str else out.

(** [Join]: empty elements are ignored; nothing is joined to nothing. *)
Definition Join (elems : list str) : str :=
  match filter (.≠ []) elems with
  | [] => []
  | es => Clean (join "/"%str es)
  end.

(** [filepath.Ext]: from the last dot of the last component. *)
Definition Ext (path : str) : str :=
  let base := default [] (last (split "/" path)) in
  match last_index_byte "." base with
  | Some i => drop i base
  | None => []
  end.

(** [path.Base] of a path. *)
Fixpoint strip_slashes (rev_path : str) : str :=
  match rev_path with
  | "/"%char :: p => strip_slashes p
  | _ => rev_path
  end.
Definition Base (path : str) : str :=
  match path with
  | [] => "."%str
  | _ => match strip_slashes (reverse path) with
         | [] => "/"%str
         | p => default [] (last (split "/" (reverse p)))
         end
  end.

(** * Lemmas *)

(** A component that [Clean] keeps. *)
Definition normal_comp (c : str) : Prop :=
  c <> [] /\ c <> "."%str /\ c <> ".."%str /\ ("/"%char ∉ c).
#[export] Instance normal_comp_dec c : Decision (normal_comp c).
Proof. unfold normal_comp. apply _. Defined.

Lemma clean_normal r comps acc :
  Forall normal_comp comps -> foldl (clean_step r) acc comps = reverse comps ++ acc.
Proof.
  intros Hc. revert acc. induction Hc as [|c comps (H1 & H2 & H3 & _) _ IH]; intros acc; [done|].
  simpl. unfold clean_step at 2. rewrite !bool_decide_false by done. cbn [orb].
  rewrite decide_False by done. rewrite IH, reverse_cons. by rewrite <- app_assoc.
Qed.

(** A path of normal components is clean. *)
Lemma Clean_normal comps :
  comps <> [] -> Forall normal_comp comps -> Clean (join "/"%str comps) = join "/"%str comps.
Proof.
  intros Hne Hc. unfold Clean.
  assert (Forall (fun w => "/"%char ∉ w) comps) as Hns
    by (eapply Forall_impl; [exact Hc|]; by intros c (_&_&_&?)).
  assert (exists a t, join "/"%str comps = a :: t /\ a <> "/"%char) as (a & t & Hj & Ha).
  { destruct comps as [|c comps]; [done|]. apply Forall_cons in Hc as [(H1 & _ & _ & H4) _].
    destruct c as [|a c]; [done|]. apply not_elem_of_cons in H4 as [? _].
    destruct comps; by eexists a, _. }
  assert (rooted (join "/"%str comps) = false) as ->.
  { unfold rooted. rewrite Hj. by apply has_prefix_cons_ne. }
  rewrite (split_join "/" comps) by done. rewrite clean_normal, app_nil_r by done.
  rewrite reverse_involutive. by rewrite decide_False by by rewrite Hj.
Qed.

(** ** The extension of a path *)

(** The text after the last separator. *)
Definition base (c : ascii) (s : str) : str := default [] (last (split c s)).

Lemma split_app_mid c a s : split c (a ++ c :: s) = split c a ++ split c s.
Proof.
  induction a as [|x a IH]; cbn [app split]; [by rewrite decide_True|].
  rewrite IH. case_decide; [done|]. by destruct (split c a) eqn:E; [by destruct (split_not_nil c a)|].
Qed.

Lemma base_sep c a s : base c (a ++ c :: s) = base c s.
Proof.
  unfold base. rewrite split_app_mid, last_app.
  destruct (last (split c s)) eqn:E; [done|]. by apply last_None, split_not_nil in E.
Qed.

Lemma base_nosep c s : c ∉ s -> base c s = s.
Proof. intros Hs. unfold base. by rewrite split_nosep. Qed.

Lemma Ext_app a p : "."%char ∈ p \/ "/"%char ∈ p -> Ext (a ++ p) = Ext p.
Proof.
  intros Hp. unfold Ext. fold (base "/" (a ++ p)) (base "/" p).
  destruct (decide ("/"%char ∈ p)) as [Hs|Hs].
  { apply list_elem_of_split_r in Hs as (p1 & p2 & -> & Hs).
    by rewrite app_assoc, !base_sep. }
  destruct Hp as [Hd|]; [|done]. rewrite (base_nosep "/" p) by done.
  assert (exists b, base "/" (a ++ p) = b ++ p) as [b ->].
  { destruct (decide ("/"%char ∈ a)) as [Ha|Ha].
    - apply list_elem_of_split_r in Ha as (a1 & a2 & -> & Ha). exists a2.
      rewrite <- app_assoc. cbn [app]. rewrite base_sep, base_nosep; [done|]. by rewrite not_elem_of_app.
    - exists a. apply base_nosep. by rewrite not_elem_of_app. }
  apply list_elem_of_split_r in Hd as (p1 & p2 & -> & Hd).
  assert (forall b, last_index_byte "." (b ++ p1 ++ "."%char :: p2) = Some (length (b ++ p1))) as E.
  { intros b'. unfold last_index_byte. rewrite !reverse_app, reverse_cons, <- !app_assoc.
    cbn [app]. rewrite (proj2 (index_byte_spec "." _ (length p2))).
    - cbn. f_equal. rewrite !length_app. cbn. lia.
    - exists (reverse p2), (reverse p1 ++ reverse b'). split_and!; [done| |by rewrite length_reverse].
      by rewrite elem_of_reverse. }
  pose proof (E []) as E0. cbn [app] in E0. rewrite E, E0.
  by rewrite app_assoc, !drop_app_length.
Qed.
