(* ===== verification/GoSort.v ===== *)
(** * Go's [sort] package: an interface

    [sort.Sort] and [sort.Slice] promise an ordered permutation and nothing
    about elements that compare equal.  Clients are proved against this class;
    the instance is a merge sort. *)
From S2P Require Import Prelude.

(** [less] is a strict weak order. *)
Class StrictWeak {A} (less : A -> A -> bool) : Prop := {
  less_irrefl x : less x x = false;
  less_trans x y z : less x y = true -> less y z = true -> less x z = true;
  less_incomp x y z : less x y = false -> less y z = false -> less x z = false;
}.

(** [x] may stand before [y]. *)
Definition before {A} (less : A -> A -> bool) (x y : A) : Prop := less y x = false.
#[export] Instance before_dec {A} (less : A -> A -> bool) : RelDecision (before less).
Proof. intros x y. unfold before. apply _. Defined.

Class GoSort := {
  go_sort {A} : (A -> A -> bool) -> list A -> list A;
  go_sort_perm {A} (less : A -> A -> bool) l : go_sort less l ≡ₚ l;
  go_sort_sorted {A} (less : A -> A -> bool) l :
    StrictWeak less -> StronglySorted (before less) (go_sort less l);
}.

Lemma before_total {A} (less : A -> A -> bool) :
  StrictWeak less -> Total (before less).
Proof.
  intros H x y. unfold before. destruct (less y x) eqn:E; [|by left]. right.
  destruct (less x y) eqn:E2; [|done].
  pose proof (less_trans _ _ _ E E2) as E3. by rewrite less_irrefl in E3.
Qed.

Lemma before_trans {A} (less : A -> A -> bool) :
  StrictWeak less -> Transitive (before less).
Proof. intros H x y z Hxy Hyz. unfold before in *. by eapply less_incomp. Qed.

#[export] Instance merge_GoSort : GoSort.
Proof.
  refine {| go_sort A less l := merge_sort (before less) l |}.
  - intros A less l. apply merge_sort_Permutation.
  - intros A less l H. apply StronglySorted_merge_sort; [by apply before_trans|by apply before_total].
Defined.

(** Two sorted permutations agree when only equal elements compare equal. *)
Lemma sorted_unique {A} (less : A -> A -> bool) l1 l2 :
  (forall x y, x ∈ l1 -> y ∈ l1 -> less x y = false -> less y x = false -> x = y) ->
  StronglySorted (before less) l1 -> StronglySorted (before less) l2 -> l1 ≡ₚ l2 -> l1 = l2.
Proof.
  intros Hanti H1 H2 Hp. revert l2 H2 Hp Hanti.
  induction H1 as [|x l1 H1 IH Hx]; intros l2 H2 Hp Hanti.
  - by apply Permutation_nil_l in Hp.
  - destruct H2 as [|y l2 H2 Hy]; [by apply Permutation_nil_r in Hp|].
    rewrite Forall_forall in Hx, Hy.
    assert (x = y) as ->.
    { assert (y ∈ x :: l1) as Hyin by (rewrite Hp; by left).
      assert (x ∈ y :: l2) as Hxin by (rewrite <- Hp; by left).
      apply elem_of_cons in Hyin as [->|Hyin]; [done|].
      apply elem_of_cons in Hxin as [->|Hxin]; [done|].
      apply Hanti; [by left|by right| |]; [apply Hy in Hxin|apply Hx in Hyin]; done. }
    f_equal. apply IH; [done|by eapply Permutation_cons_inv|].
    intros a b Ha Hb. apply Hanti; by right.
Qed.
