(* ===== verification/GoMap.v ===== *)
(** * Ranging over a Go map, and [net/url]: interfaces and definitions

    [for k, v := range m] visits every key once, in an order of the runtime's
    choosing: clients are proved against this class. *)
From S2P Require Import Prelude GoStrings GoSort.

Class GoRange := {
  go_range {K A} `{Countable K} : gmap K A -> list (K * A);
  go_range_perm {K A} `{Countable K} (m : gmap K A) : go_range m ≡ₚ map_to_list m;
}.
#[export] Instance list_GoRange : GoRange.
Proof. by refine {| go_range K A _ _ m := map_to_list m |}. Defined.

(** ** [url.QueryEscape] and [url.Values] *)
Definition unreserved (c : ascii) : bool :=
  let b := byte_val c in
  ((97 <=? b) && (b <=? 122)) || ((65 <=? b) && (b <=? 90)) || is_digit c
  || bool_decide (c ∈ ("-_.~"%str : str)).

Definition hex_digit (n : Z) : ascii := if n <? 10 then byte_of (48 + n) else byte_of (55 + n).

Definition escape_byte (c : ascii) : str :=
  if decide (c = " "%char) then "+"%str
  else if unreserved c then [c]
  else ["%"%char; hex_digit (byte_val c `div` 16); hex_digit (byte_val c `mod` 16)].
Definition QueryEscape (s : str) : str := s ≫= escape_byte.

(** [unescape] of the query component; [None] is the error. *)
Definition hex_val (c : ascii) : option Z :=
  let b := byte_val c in
  if is_digit c then Some (b - 48)
  else if (97 <=? b) && (b <=? 102) then Some (b - 87)
  else if (65 <=? b) && (b <=? 70) then Some (b - 55)
  else None.
Fixpoint QueryUnescape (s : str) : option str :=
  match s with
  | "%"%char :: a :: b :: s =>
      x ← hex_val a; y ← hex_val b; t ← QueryUnescape s; Some (byte_of (16 * x + y) :: t)
  | "%"%char :: _ => None
  | "+"%char :: s => t ← QueryUnescape s; Some (" "%char :: t)
  | c :: s => t ← QueryUnescape s; Some (c :: t)
  | [] => Some []
  end.

Abbreviation values := (gmap str (list str)).
(** [v.Get(key)] *)
Definition values_get (v : values) (key : str) : str :=
  match v !! key with Some (x :: _) => x | _ => [] end.
Definition values_set (v : values) (key value : str) : values := <[key := [value]]> v.

Section encode.
Context `{!GoSort, !GoRange}.
(** [v.Encode()]: the keys in order, each with its values in order. *)
Definition Encode (v : values) : str :=
  join "&"%str
    (go_sort str_ltb (go_range v).*1 ≫= fun k =>
      (fun x => QueryEscape k ++ "="%str ++ QueryEscape x) <$> default [] (v !! k)).
End encode.

(** [r.URL.Query()]: malformed pieces are left out. *)
Definition add_piece (m : values) (piece : str) : values :=
  if bool_decide (";"%char ∈ piece) || bool_decide (piece = []) then m
  else
    let '(k, v) := default (piece, []) (cut "=" piece) in
    match QueryUnescape k, QueryUnescape v with
    | Some k, Some v => <[k := default [] (m !! k) ++ [v]]> m
    | _, _ => m
    end.
Definition query_values (rawQuery : str) : values := foldl add_piece ∅ (split "&" rawQuery).

(** * Lemmas *)
Lemma hex_val_digit n : 0 <= n < 16 -> hex_val (hex_digit n) = Some n.
Proof.
  intros Hn.
  assert (n ∈ [0;1;2;3;4;5;6;7;8;9;10;11;12;13;14;15]) as H by (rewrite !elem_of_cons; lia).
  repeat (apply elem_of_cons in H as [->|H]; [by vm_compute|]). by apply elem_of_nil in H.
Qed.

(** Escaping can be undone. *)
Lemma QueryUnescape_escape s : QueryUnescape (QueryEscape s) = Some s.
Proof.
  induction s as [|c s IH]; [done|]. unfold QueryEscape in *. rewrite list_bind_cons.
  unfold escape_byte at 1. destruct (decide (c = " "%char)) as [->|Hc].
  { cbn [app QueryUnescape]. by rewrite IH. }
  destruct (unreserved c) eqn:Hu.
  - destruct c as [[] [] [] [] [] [] [] []]; (try by vm_compute in Hu);
      cbn [app QueryUnescape]; by rewrite IH.
  - cbn [app QueryUnescape]. pose proof (byte_val_range c) as Hr.
    rewrite (hex_val_digit (_ `div` _)), (hex_val_digit (_ `mod` _));
      [|apply Z.mod_pos_bound; lia|split; [apply Z.div_pos; lia|apply Z.div_lt_upper_bound; lia]].
    cbn [mbind option_bind]. rewrite IH. cbn [mbind option_bind].
    by rewrite <- Z_div_mod_eq_full, byte_of_val.
Qed.

#[export] Instance str_ltb_weak : StrictWeak str_ltb.
Proof.
  split; [apply str_ltb_irrefl|apply str_ltb_trans|].
  intros x y z. destruct (str_ltb_total y x) as [->|[H|H]]; [done| |by rewrite H].
  destruct (str_ltb_total z y) as [->|[H'|H']]; [done| |by rewrite H'].
  intros _ _. apply str_ltb_asym. by eapply str_ltb_trans.
Qed.

(** Escaped text has no separators. *)
Definition separators : str := "&;="%str.
Lemma QueryEscape_chars s c : c ∈ QueryEscape s -> c ∉ separators.
Proof.
  unfold QueryEscape. intros (a & Hc & _)%list_elem_of_bind. revert Hc. unfold escape_byte.
  case_decide; [intros ->%list_elem_of_singleton; by_decide|].
  destruct (unreserved a) eqn:Hu.
  - intros ->%list_elem_of_singleton. intros Hs. unfold separators in Hs.
    repeat (apply elem_of_cons in Hs as [->|Hs]; [by vm_compute in Hu|]). by apply elem_of_nil in Hs.
  - pose proof (byte_val_range a) as Hr.
    assert (forall n, 0 <= n < 16 -> hex_digit n ∉ separators) as Hh.
    { intros n Hn Hs. pose proof (hex_val_digit n Hn) as E. unfold separators in Hs.
      repeat (apply elem_of_cons in Hs as [Hs|Hs]; [rewrite Hs in E; by vm_compute in E|]).
      by apply elem_of_nil in Hs. }
    rewrite !elem_of_cons, elem_of_nil. intros [-> |[-> |[-> |[]]]]; [by_decide| |]; apply Hh.
    + split; [apply Z.div_pos; lia|apply Z.div_lt_upper_bound; lia].
    + apply Z.mod_pos_bound; lia.
Qed.

(** A map with one value survives. *)
Lemma query_values_encode `{!GoSort, !GoRange} (k v : str) :
  query_values (Encode {[ k := [v] ]}) = {[ k := [v] ]}.
Proof.
  assert (Encode {[ k := [v] ]} = QueryEscape k ++ "="%char :: QueryEscape v) as ->.
  { unfold Encode. pose proof (go_range_perm ({[ k := [v] ]} : values)) as Hr.
    rewrite map_to_list_singleton in Hr. apply Permutation_singleton_r in Hr as ->. cbn [fmap list_fmap fst].
    pose proof (go_sort_perm str_ltb [k]) as Hs. apply Permutation_singleton_r in Hs as ->.
    cbn. by rewrite lookup_singleton_eq. }
  assert (forall c, c ∈ separators -> (c ∉ QueryEscape k) /\ (c ∉ QueryEscape v)) as Hsep.
  { intros c Hc. split; intros Hin%QueryEscape_chars; done. }
  unfold query_values. rewrite split_nosep.
  2:{ rewrite not_elem_of_app, not_elem_of_cons. destruct (Hsep "&"%char ltac:(by_decide)). done. }
  cbn [foldl]. unfold add_piece. rewrite (bool_decide_false (_ ∈ _)), (bool_decide_false (_ = _)).
  - cbn [orb]. destruct (Hsep "="%char ltac:(by_decide)). rewrite cut_app by done. cbn [default from_option id].
    rewrite !QueryUnescape_escape, lookup_empty. by rewrite insert_empty.
  - intros Hl%(f_equal length). rewrite length_app in Hl. cbn in Hl. lia.
  - rewrite not_elem_of_app, not_elem_of_cons. destruct (Hsep ";"%char ltac:(by_decide)). done.
Qed.

(** A map filled by a loop: the last element with a key stays. *)
Lemma foldl_insert_lookup {A B} (key : A -> str) (val : A -> B) (l : list A) (m : gmap str B) k :
  foldl (fun m x => <[key x := val x]> m) m l !! k
  = match last (filter (fun x => key x = k) l) with Some x => Some (val x) | None => m !! k end.
Proof.
  induction l as [|x l IH] using rev_ind; [done|].
  rewrite foldl_app, filter_app. cbn [foldl]. rewrite filter_cons, filter_nil.
  destruct (decide (key x = k)) as [<- |Hne].
  - by rewrite lookup_insert_eq, last_snoc.
  - by rewrite lookup_insert_ne, app_nil_r.
Qed.
