(* ===== verification/GoChan.v ===== *)
(** * Goroutines and channels: what the concurrent components share

    A component whose goroutines talk over channels is a step relation on a
    state that holds, among other things, the list of its goroutines.  This
    file has the reasoning on such systems (invariants, termination, what every
    complete run ends in) and the lemmas on lists of goroutines. *)
From S2P Require Import Prelude.
From stdpp Require Export relations.

Section system.
Context {S : Type} (step : relation S).

(** Every run of the system ends, and ends in a state of [final]. *)
Definition always_ends (final : S -> Prop) (s : S) : Prop :=
  sn step s /\ forall s', rtc step s s' -> nf step s' -> final s'.

Context (inv : S -> Prop) (inv_step : forall s s', inv s -> step s s' -> inv s').

Lemma rtc_inv s s' : inv s -> rtc step s s' -> inv s'.
Proof using inv_step. induction 2; eauto. Qed.

(** Each step does some of a finite amount of work. *)
Lemma sn_work (work : S -> nat) s :
  (forall s s', inv s -> step s s' -> (work s' < work s)%nat) -> inv s -> sn step s.
Proof using inv_step.
  intros Hwork. remember (work s) as n eqn:E. revert s E.
  induction n as [n IH] using lt_wf_ind; intros s -> Hs.
  constructor. intros s' Hs'. apply (IH (work s')); eauto.
Qed.

Lemma always_ends_intro (work : S -> nat) (final : S -> Prop) s :
  (forall s s', inv s -> step s s' -> (work s' < work s)%nat) ->
  (forall s, inv s -> final s \/ red step s) ->
  inv s -> always_ends final s.
Proof using inv_step.
  intros Hwork Hprogress Hs. split; [by apply (sn_work work)|].
  intros s' Hr Hnf. destruct (Hprogress s') as [|Hred]; [by eapply rtc_inv|done|done].
Qed.
End system.

(** ** Permutations by counting *)
Lemma sum_perm {A} (f : A -> nat) l1 l2 : l1 ≡ₚ l2 -> sum_list_with f l1 = sum_list_with f l2.
Proof. induction 1; simpl; lia. Qed.

Lemma perm_sum {A} `{!EqDecision A} (l1 l2 : list A) :
  (forall f, sum_list_with f l1 = sum_list_with f l2) -> l1 ≡ₚ l2.
Proof.
  intros H. apply (Permutation_count_occ (fun x y => decide (x = y))). intros x.
  assert (forall l, count_occ (fun x y => decide (x = y)) l x = sum_list_with (fun y => if decide (y = x) then 1 else 0)%nat l) as E.
  { induction l as [|y l IH]; simpl; [done|]. rewrite IH. by destruct (decide (y = x)). }
  by rewrite !E.
Qed.

(** Prove a permutation from the permutations in the context: both sides weigh
    the same, whatever the weight of an element is. *)
Ltac perm_with f :=
  repeat match goal with
  | H : ?l1 ≡ₚ ?l2 |- _ => apply (sum_perm f) in H
  end;
  repeat match goal with H : _ |- _ => rewrite !sum_list_with_app in H end;
  simpl in *; unfold omap in *; rewrite ?sum_list_with_app; simpl; lia.
Ltac perm := let f := fresh "f" in apply perm_sum; intros f; perm_with f.

(** ** Lists of goroutines *)
Section goroutines.
Context {W : Type}.
Implicit Types (ws : list W).

Lemma sum_list_insert (f : W -> nat) ws i x y :
  ws !! i = Some x -> (sum_list_with f (<[i := y]> ws) + f x = sum_list_with f ws + f y)%nat.
Proof.
  revert i. induction ws as [|a ws IH]; intros [|i] H; simpl in *; simplify_eq; [lia|].
  specialize (IH i H). lia.
Qed.

(** What the goroutines hold, after one of them has moved. *)
Lemma sum_omap_insert {A} (g : A -> nat) (f : W -> option A) ws i x y :
  ws !! i = Some x ->
  (sum_list_with g (option_list (f x)) + sum_list_with g (omap f (<[i := y]> ws)) =
   sum_list_with g (option_list (f y)) + sum_list_with g (omap f ws))%nat.
Proof.
  revert i. induction ws as [|a ws IH]; intros [|i] H; simpl in *; simplify_eq.
  - destruct (f x), (f y); simpl; lia.
  - specialize (IH i H). destruct (f a) as [b|]; cbn -[omap]; unfold omap in *; lia.
Qed.

Lemma Forall_insert_inv (P : W -> Prop) ws i x y :
  ws !! i = Some x -> Forall P ws -> P y -> Forall P (<[i := y]> ws).
Proof. intros _ Hws Hy. by apply Forall_insert. Qed.

(** Some goroutine is not of [P], or all are. *)
Lemma goroutine_dec (P : W -> Prop) `{!forall w, Decision (P w)} ws :
  Forall P ws \/ exists i w, ws !! i = Some w /\ ~ P w.
Proof.
  destruct (decide (Forall P ws)) as [|Hn]; [by left|right].
  apply not_Forall_Exists, Exists_exists in Hn as (w & [i Hi]%list_elem_of_lookup & Hw); [|apply _].
  by exists i, w.
Qed.

Lemma omap_lookup_elem {A} (f : W -> option A) ws i w a :
  ws !! i = Some w -> f w = Some a -> a ∈ omap f ws.
Proof. intros H Hf. apply list_elem_of_omap. exists w. split; [by eapply list_elem_of_lookup_2|done]. Qed.
End goroutines.
