(* ===== verification/GoFlag.v ===== *)
(** * Go's [flag] package, as far as the programs use it

    [Parse] over a list of arguments, for flags of the types [string], [bool]
    and [int].  [None] is an exit with a usage message. *)
From S2P Require Import Prelude GoStrings.

(** ** [strconv.ParseBool], and [strconv.ParseInt(s, 0, 64)] *)
Definition ParseBool (s : str) : option bool :=
  if decide (s ∈ ["1"%str; "t"%str; "T"%str; "TRUE"%str; "true"%str; "True"%str]) then Some true
  else if decide (s ∈ ["0"%str; "f"%str; "F"%str; "FALSE"%str; "false"%str; "False"%str]) then Some false
  else None.

(** The value of a digit of a base up to sixteen, letters in either case. *)
Definition hex_val (c : ascii) : option Z :=
  let b := byte_val c in
  if (48 <=? b) && (b <=? 57) then Some (b - 48)
  else if (97 <=? b) && (b <=? 122) then Some (b - 87)
  else if (65 <=? b) && (b <=? 90) then Some (b - 55)
  else None.

(** The base a literal states, and its digits. *)
Definition base_of (s : str) : Z * str :=
  match s with
  | "0"%char :: c :: _ :: _ =>
      if decide (lower_ascii c = "b"%char) then (2, drop 2 s)
      else if decide (lower_ascii c = "o"%char) then (8, drop 2 s)
      else if decide (lower_ascii c = "x"%char) then (16, drop 2 s)
      else (8, drop 1 s)
  | "0"%char :: _ => (8, drop 1 s)
  | _ => (10, s)
  end.

(** Underscores stand between digits, or between the base and a digit. *)
Inductive seen := SeenDigit | SeenUnderscore | SeenOther.
#[export] Instance seen_eq_dec : EqDecision seen.
Proof. solve_decision. Defined.
Fixpoint underscores (hex : bool) (last : seen) (s : str) : bool :=
  match s with
  | [] => negb (bool_decide (last = SeenUnderscore))
  | c :: s =>
      let l := byte_val (lower_ascii c) in
      if is_digit c || (hex && (97 <=? l) && (l <=? 102)) then underscores hex SeenDigit s
      else if decide (c = "_"%char) then bool_decide (last = SeenDigit) && underscores hex SeenUnderscore s
      else negb (bool_decide (last = SeenUnderscore)) && underscores hex SeenOther s
  end.
Definition underscoreOK (s : str) : bool :=
  match s with
  | "0"%char :: c :: t =>
      if decide (lower_ascii c ∈ ["b"%char; "o"%char; "x"%char])
      then underscores (bool_decide (lower_ascii c = "x"%char)) SeenDigit t
      else underscores false SeenOther s
  | _ => underscores false SeenOther s
  end.

Fixpoint literal_val (base acc : Z) (s : str) : option Z :=
  match s with
  | [] => Some acc
  | c :: s =>
      if decide (c = "_"%char) then literal_val base acc s
      else d ← hex_val c; if d <? base then literal_val base (acc * base + d) s else None
  end.

Definition ParseInt0 (s : str) : option Z :=
  let '(neg, ds) := match s with
                    | "+"%char :: ds => (false, ds)
                    | "-"%char :: ds => (true, ds)
                    | _ => (false, s)
                    end in
  match ds with
  | [] => None
  | _ =>
      let '(base, digits) := base_of ds in
      n ← literal_val base 0 digits;
      if bool_decide ("_"%char ∈ digits) && negb (underscoreOK ds) then None
      else let z := if (neg : bool) then - n else n in
           if bool_decide (in_signed 64 z) then Some z else None
  end.

(** ** Flags *)
Inductive flag_value := VString (s : str) | VBool (b : bool) | VInt (z : Z).
Definition flags := gmap str flag_value.

Definition set_value (old : flag_value) (text : str) : option flag_value :=
  match old with
  | VString _ => Some (VString text)
  | VBool _ => VBool <$> ParseBool text
  | VInt _ => VInt <$> ParseInt0 text
  end.
Definition is_bool_flag (v : flag_value) : bool := match v with VBool _ => true | _ => false end.

(** A flag's name and the value after the first [=], or [None] for an argument
    that is not a flag. *)
Definition flag_name (s : str) : option (str * option str) :=
  match s with
  | "-"%char :: c :: t =>
      let name := if decide (c = "-"%char) then t else c :: t in
      match name with
      | [] => None
      | _ => Some match cut "=" name with
                  | Some (n, v) => (n, Some v)
                  | None => (name, None)
                  end
      end
  | _ => None
  end.

Definition bad_syntax (name : str) : bool :=
  match name with [] => true | c :: _ => bool_decide (c = "-"%char) || bool_decide (c = "="%char) end.

(** The flags after parsing, and the arguments that remain. *)
Fixpoint Parse (fs : flags) (args : list str) : option (flags * list str) :=
  match args with
  | [] => Some (fs, [])
  | s :: rest =>
      if decide (s = "--"%str) then Some (fs, rest)
      else match flag_name s with
      | None => Some (fs, args)
      | Some (name, value) =>
          if bad_syntax name then None
          else old ← fs !! name;
               match value with
               | Some text => v ← set_value old text; Parse (<[name := v]> fs) rest
               | None =>
                   if is_bool_flag old then Parse (<[name := VBool true]> fs) rest
                   else match rest with
                        | text :: rest => v ← set_value old text; Parse (<[name := v]> fs) rest
                        | [] => None
                        end
               end
      end
  end.

Definition get_string (fs : flags) (name : str) : str :=
  match fs !! name with Some (VString s) => s | _ => [] end.
Definition get_bool (fs : flags) (name : str) : bool :=
  match fs !! name with Some (VBool b) => b | _ => false end.
Definition get_int (fs : flags) (name : str) : Z :=
  match fs !! name with Some (VInt z) => z | _ => 0 end.

(** ** Lemmas *)
Lemma Parse_value fs name s text rest old v :
  flag_name s = Some (name, None) -> s <> "--"%str -> bad_syntax name = false ->
  fs !! name = Some old -> is_bool_flag old = false -> set_value old text = Some v ->
  Parse fs (s :: text :: rest) = Parse (<[name := v]> fs) rest.
Proof.
  intros Hn Hs Hb Ho Hk Hv. cbn [Parse]. rewrite decide_False by done. rewrite Hn, Hb, Ho. cbn.
  by rewrite Hk, Hv.
Qed.

Lemma Parse_switch fs name s rest old :
  flag_name s = Some (name, None) -> s <> "--"%str -> bad_syntax name = false ->
  fs !! name = Some old -> is_bool_flag old = true ->
  Parse fs (s :: rest) = Parse (<[name := VBool true]> fs) rest.
Proof.
  intros Hn Hs Hb Ho Hk. cbn [Parse]. rewrite decide_False by done. rewrite Hn, Hb, Ho. cbn. by rewrite Hk.
Qed.

Lemma Parse_args fs s rest :
  flag_name s = None -> s <> "--"%str -> Parse fs (s :: rest) = Some (fs, s :: rest).
Proof. intros Hn Hs. cbn [Parse]. rewrite decide_False by done. by rewrite Hn. Qed.

Lemma flag_name_path s c : head s = Some c -> c <> "-"%char -> flag_name s = None.
Proof. destruct s as [|d s]; [done|]. intros [= ->] Hc. unfold flag_name. by destruct c as [[] [] [] [] [] [] [] []]. Qed.
