(* ===== verification/GoTime.v ===== *)
(** * Go's [time.ParseDuration]

    A duration is a number of nanoseconds.  The fraction of a component is
    scaled in [float64], so the arithmetic here rounds to 53 bits, to even, in
    the same places: [fl n d] is the rational [n/d] rounded. *)
From S2P Require Import Prelude GoStrings.

(** ** Rounding to 53 bits; positive, and far from overflow and underflow *)
Definition half_even (n d : Z) : Z :=
  let q := n `div` d in
  let r := n `mod` d in
  if 2 * r <? d then q else if d <? 2 * r then q + 1 else if Z.even q then q else q + 1.

(** The binary exponent of [n/d]. *)
Definition exponent (n d : Z) : Z :=
  let e := Z.log2 n - Z.log2 d in
  if n * 2 ^ Z.max 0 (- e) <? d * 2 ^ Z.max 0 e then e - 1 else e.

Definition fl (n d : Z) : Z * Z :=
  let s := 52 - exponent n d in
  if 0 <=? s then (half_even (n * 2 ^ s) d, 2 ^ s) else (half_even n (d * 2 ^ (- s)) * 2 ^ (- s), 1).

(** [uint64(float64(f) * (float64(unit) / scale))] *)
Definition scaled (f unit scale : Z) : Z :=
  let '(fn, fd) := fl f 1 in
  let '(qn, qd) := fl unit scale in
  let '(pn, pd) := fl (fn * qn) (fd * qd) in
  pn `div` pd.

(** ** The parser *)
Fixpoint leadingInt (x : Z) (s : str) : option (Z * str) :=
  match s with
  | c :: t =>
      if is_digit c then
        if 2 ^ 63 `div` 10 <? x then None
        else let x := x * 10 + (byte_val c - 48) in
             if 2 ^ 63 <? x then None else leadingInt x t
      else Some (x, s)
  | [] => Some (x, [])
  end.

(** Digits past the precision are read and dropped. *)
Fixpoint leadingFraction (x scale : Z) (overflow : bool) (s : str) : Z * Z * str :=
  match s with
  | c :: t =>
      if is_digit c then
        if overflow then leadingFraction x scale true t
        else if (2 ^ 63 - 1) `div` 10 <? x then leadingFraction x scale true t
        else let y := x * 10 + (byte_val c - 48) in
             if 2 ^ 63 <? y then leadingFraction x scale true t
             else leadingFraction y (scale * 10) false t
      else (x, scale, s)
  | [] => (x, scale, [])
  end.

Definition unit_char (c : ascii) : bool := negb (bool_decide (c = "."%char)) && negb (is_digit c).
Fixpoint unit_of (s : str) : str * str :=
  match s with
  | c :: t => if unit_char c then let '(u, r) := unit_of t in (c :: u, r) else ([], s)
  | [] => ([], [])
  end.
(** The micro sign and the Greek letter, both in UTF-8. *)
Definition unitMap : gmap str Z :=
  list_to_map [("ns"%str, 1); ("us"%str, 1000);
    (["194"%char; "181"%char; "s"%char], 1000); (["206"%char; "188"%char; "s"%char], 1000);
    ("ms"%str, 10 ^ 6); ("s"%str, 10 ^ 9); ("m"%str, 60 * 10 ^ 9); ("h"%str, 3600 * 10 ^ 9)].

(** One number with its unit. *)
Definition component (s : str) : option (Z * str) :=
  '(v, s1) ← leadingInt 0 s;
  let pre := negb (bool_decide (s1 = s)) in
  let '(f, scale, s2, post) :=
    match s1 with
    | "."%char :: t => let '(f, scale, s2) := leadingFraction 0 1 false t in
                       (f, scale, s2, negb (bool_decide (s2 = t)))
    | _ => (0, 1, s1, false)
    end in
  if negb (pre || post) then None
  else
    let '(u, s3) := unit_of s2 in
    if decide (u = []) then None
    else
      unit ← unitMap !! u;
      if 2 ^ 63 `div` unit <? v then None
      else
        let v := v * unit in
        if 0 <? f then
          let v := v + scaled f unit scale in
          if 2 ^ 63 <? v then None else Some (v, s3)
        else Some (v, s3).

Fixpoint components (fuel : nat) (d : Z) (s : str) : option Z :=
  match s, fuel with
  | [], _ => Some d
  | _, O => None
  | _, S fuel => '(v, s) ← component s; if 2 ^ 63 <? d + v then None else components fuel (d + v) s
  end.

Definition ParseDuration (s : str) : option Z :=
  let '(neg, s) := match s with
                   | "-"%char :: t => (true, t)
                   | "+"%char :: t => (false, t)
                   | _ => (false, s)
                   end in
  if decide (s = "0"%str) then Some 0
  else if decide (s = []) then None
  else d ← components (length s) 0 s;
       if neg : bool then Some (- d) else if 2 ^ 63 - 1 <? d then None else Some d.

(** [Duration.Milliseconds] truncates. *)
Definition Milliseconds (d : Z) : Z := Z.quot d (10 ^ 6).

Example parse_mixed : ParseDuration "1h15m30.918s"%str = Some 4530918000000.
Proof. vm_compute. reflexivity. Qed.
Example parse_small : ParseDuration "-.5ns"%str = Some 0 /\ ParseDuration "1.000000000000000000001us"%str = Some 1000.
Proof. vm_compute. done. Qed.
Example parse_bad : ParseDuration "5"%str = None /\ ParseDuration "s"%str = None /\ ParseDuration "9223372036854775808ns"%str = None.
Proof. vm_compute. done. Qed.

(** * Lemmas *)

(** ** Rounding is exact where nothing is lost *)
Lemma half_even_exact q d : 0 < d -> half_even (q * d) d = q.
Proof.
  intros Hd. unfold half_even. rewrite Z.mod_mul, Z.div_mul by lia.
  by rewrite (proj2 (Z.ltb_lt (2 * 0) d)) by lia.
Qed.

(** [2^e] is at most the quotient. *)
Lemma exponent_small k d : 0 < d -> 0 < k < 2 ^ 53 -> exponent (k * d) d <= 52.
Proof.
  intros Hd Hk. unfold exponent.
  assert (Z.log2 k <= 52) as Hl by (apply Z.lt_succ_r, Z.log2_lt_pow2; simpl; lia).
  pose proof (Z.log2_mul_above k d ltac:(lia) ltac:(lia)) as Ha.
  case_match eqn:E; [lia|]. apply Z.ltb_ge in E.
  destruct (Z_le_gt_dec (Z.log2 (k * d) - Z.log2 d) 52) as [?|Hg]; [done|]. exfalso.
  assert (Z.log2 (k * d) - Z.log2 d = 53) as He by lia. rewrite He in E.
  change (Z.max 0 (- (53))) with 0 in E. change (Z.max 0 53) with 53 in E. nia.
Qed.

Lemma fl_exact n d k :
  0 < d -> n = k * d -> 0 < k < 2 ^ 53 -> exists p, 0 < p /\ fl n d = (k * p, p).
Proof.
  intros Hd -> Hk. unfold fl. pose proof (exponent_small k d Hd Hk) as He.
  rewrite (proj2 (Z.leb_le 0 _)) by lia.
  set (p := 2 ^ (52 - exponent (k * d) d)).
  assert (0 < p) by (apply Z.pow_pos_nonneg; lia).
  exists p. split; [done|]. replace (k * d * p) with (k * p * d) by ring. by rewrite half_even_exact.
Qed.

Lemma scaled_exact f unit scale q :
  0 < scale -> unit = q * scale -> 0 < f -> 0 < q -> f * q < 2 ^ 53 -> scaled f unit scale = f * q.
Proof.
  intros Hs Hu Hf Hq Hb. unfold scaled.
  destruct (fl_exact f 1 f) as (p1 & Hp1 & ->); [lia|lia|nia|].
  destruct (fl_exact unit scale q) as (p2 & Hp2 & ->); [lia|done|nia|].
  destruct (fl_exact (f * p1 * (q * p2)) (p1 * p2) (f * q)) as (p3 & Hp3 & ->); [nia|ring|nia|].
  rewrite Z.div_mul; lia.
Qed.

(** ** Reading digits *)
Definition no_digit (s : str) : Prop := match s with c :: _ => is_digit c = false | [] => True end.

Lemma digits_val_le ds : forall x v, 0 <= x -> digits_val 10 x ds = Some v -> x <= v.
Proof.
  induction ds as [|c ds IH]; intros x v Hx; cbn [digits_val]; [intros [= <-]; lia|].
  unfold digit_val. destruct (is_digit c) eqn:Hc; [|done]. cbn [mbind option_bind].
  apply andb_true_iff in Hc as [H1%Z.leb_le H2%Z.leb_le].
  case_match; [|done]. intros H'%IH; lia.
Qed.

Lemma leadingInt_digits ds rest : forall x v,
  0 <= x -> no_digit rest -> forallb is_digit ds = true ->
  digits_val 10 x ds = Some v -> v < 2 ^ 62 -> leadingInt x (ds ++ rest) = Some (v, rest).
Proof.
  induction ds as [|c ds IH]; intros x v Hx Hr Hd Hv Hb.
  - cbn in Hv. simplify_eq. destruct rest as [|c rest]; [done|]. cbn in Hr |- *. by rewrite Hr.
  - cbn [forallb] in Hd. apply andb_true_iff in Hd as [Hc Hd]. cbn [digits_val] in Hv.
    unfold digit_val in Hv. rewrite Hc in Hv. cbn [mbind option_bind] in Hv.
    cbn [app leadingInt]. rewrite Hc. apply andb_true_iff in Hc as [H1%Z.leb_le H2%Z.leb_le].
    destruct (byte_val c - 48 <? 10); [|done].
    assert (0 <= x * 10 + (byte_val c - 48)) as Hx' by lia. pose proof (digits_val_le ds _ _ Hx' Hv).
    rewrite (proj2 (Z.ltb_ge _ x)) by (change (2 ^ 63 `div` 10) with 922337203685477580; lia).
    rewrite (proj2 (Z.ltb_ge _ _)) by lia. apply IH; auto; lia.
Qed.

Lemma leadingFraction_digits ds rest : forall x scale v,
  0 <= x -> no_digit rest -> forallb is_digit ds = true ->
  digits_val 10 x ds = Some v -> v < 2 ^ 59 ->
  leadingFraction x scale false (ds ++ rest) = (v, scale * 10 ^ Z.of_nat (length ds), rest).
Proof.
  induction ds as [|c ds IH]; intros x scale v Hx Hr Hd Hv Hb.
  - cbn in Hv. simplify_eq. rewrite Z.mul_1_r. destruct rest as [|c rest]; [done|].
    cbn in Hr |- *. by rewrite Hr.
  - cbn [forallb] in Hd. apply andb_true_iff in Hd as [Hc Hd]. cbn [digits_val] in Hv.
    unfold digit_val in Hv. rewrite Hc in Hv. cbn [mbind option_bind] in Hv.
    cbn [app leadingFraction]. rewrite Hc. apply andb_true_iff in Hc as [H1%Z.leb_le H2%Z.leb_le].
    destruct (byte_val c - 48 <? 10); [|done].
    assert (0 <= x * 10 + (byte_val c - 48)) as Hx' by lia. pose proof (digits_val_le ds _ _ Hx' Hv).
    rewrite (proj2 (Z.ltb_ge _ x)) by (change ((2 ^ 63 - 1) `div` 10) with 922337203685477580; lia).
    rewrite (proj2 (Z.ltb_ge _ _)) by lia. rewrite (IH _ _ v) by (assumption || lia).
    f_equal. f_equal. cbn [length]. rewrite Nat2Z.inj_succ, Z.pow_succ_r by lia. ring.
Qed.

(** ** Seconds with six decimals *)

(** [%06d] of a number that is not negative. *)
Definition pad6 (n : Z) : str := replicate (6 - length (uitoa n)) "0"%char ++ uitoa n.

Lemma udec_length fuel : forall n acc k,
  0 <= n < 10 ^ Z.of_nat k -> (0 < k)%nat -> (length (udec fuel n acc) <= k + length acc)%nat.
Proof.
  induction fuel as [|fuel IH]; intros n acc k Hn Hk; cbn [udec]; [lia|].
  destruct (n <? 10) eqn:E; [cbn; lia|]. apply Z.ltb_ge in E.
  destruct k as [|[|k]]; [lia|cbn in Hn; lia|].
  etransitivity; [apply (IH _ _ (S k))|cbn [length]; lia]; [|lia].
  rewrite (Nat2Z.inj_succ (S k)), Z.pow_succ_r in Hn by lia. split; [apply Z.div_pos; lia|].
  apply Z.div_lt_upper_bound; lia.
Qed.

Lemma pad6_length n : 0 <= n < 10 ^ 6 -> length (pad6 n) = 6%nat.
Proof.
  intros Hn. unfold pad6. rewrite length_app, length_replicate.
  pose proof (udec_length (S (Z.to_nat (Z.log2 n))) n [] 6 Hn ltac:(lia)) as H.
  fold (uitoa n) in H. cbn in H |- *. lia.
Qed.

Lemma pad6_digits n : 0 <= n -> forallb is_digit (pad6 n) = true /\ digits_val 10 0 (pad6 n) = Some n.
Proof.
  intros Hn. unfold pad6. rewrite forallb_app, uitoa_digits, andb_true_r by done.
  induction (6 - length (uitoa n))%nat as [|k [IH1 IH2]]; [cbn [replicate app]; by rewrite digits_val_uitoa|].
  split; [exact IH1|]. exact IH2.
Qed.

Lemma uitoa_no_sign n : 0 <= n -> exists c t, uitoa n = c :: t /\ is_digit c = true.
Proof.
  intros Hn. pose proof (uitoa_digits n Hn) as Hd. pose proof (uitoa_not_nil n) as Hne.
  destruct (uitoa n) as [|c t]; [done|]. exists c, t. split; [done|]. by apply andb_true_iff in Hd as [? _].
Qed.

Lemma component_seconds s us :
  0 <= s < 2 ^ 31 -> 0 <= us < 10 ^ 6 ->
  component (uitoa s ++ "."%str ++ pad6 us ++ "s"%str) = Some (s * 10 ^ 9 + us * 1000, []).
Proof.
  intros Hs Hu. unfold component.
  rewrite (leadingInt_digits _ _ 0 s) by (rewrite ?digits_val_uitoa, ?uitoa_digits; done || lia).
  destruct (pad6_digits us ltac:(lia)) as [Hd Hv]. cbn [mbind option_bind app].
  rewrite (leadingFraction_digits _ _ 0 1 us) by (done || lia). rewrite pad6_length by done.
  rewrite (bool_decide_false ("."%char :: _ = _)).
  2:{ destruct (uitoa_no_sign s) as (c & t & -> & _); [lia|]. generalize (pad6 us) as p.
      intros p H%(f_equal length). cbn [length app] in H. rewrite !length_app in H. cbn [length] in H.
      rewrite length_app in H. cbn [length] in H. lia. }
  cbn [negb orb].
  destruct (unit_of "s"%str) as [u s3] eqn:Eu. vm_compute in Eu. injection Eu as <- <-.
  rewrite decide_False by done.
  change (unitMap !! ["s"%char]) with (Some (10 ^ 9)). cbn [mbind option_bind].
  rewrite (proj2 (Z.ltb_ge _ s)) by (change (2 ^ 63 `div` 10 ^ 9) with 9223372036; lia).
  destruct (0 <? us) eqn:E.
  - apply Z.ltb_lt in E.
    rewrite (scaled_exact us (10 ^ 9) (1 * 10 ^ Z.of_nat 6) 1000) by (reflexivity || (cbn; lia)).
    by rewrite (proj2 (Z.ltb_ge _ _)) by lia.
  - apply Z.ltb_ge in E. do 2 f_equal. lia.
Qed.

(** A text that begins with a digit has no sign. *)
Lemma ParseDuration_digit c t :
  is_digit c = true ->
  ParseDuration (c :: t) =
  if decide (c :: t = "0"%str) then Some 0
  else d ← components (length (c :: t)) 0 (c :: t); if 2 ^ 63 - 1 <? d then None else Some d.
Proof. intros Hc. destruct c as [[] [] [] [] [] [] [] []]; (discriminate Hc || reflexivity). Qed.

Lemma ParseDuration_seconds s us :
  0 <= s < 2 ^ 31 -> 0 <= us < 10 ^ 6 ->
  ParseDuration (uitoa s ++ "."%str ++ pad6 us ++ "s"%str) = Some (s * 10 ^ 9 + us * 1000).
Proof.
  intros Hs Hu. pose proof (component_seconds s us Hs Hu) as Hc.
  destruct (uitoa_no_sign s) as (c & t & Et & Hdig); [lia|]. rewrite Et in *. cbn [app] in *.
  rewrite ParseDuration_digit by done. rewrite decide_False.
  2:{ intros [= _ H]. by apply app_nil in H as [_ ?]. }
  cbn [length components]. rewrite Hc. cbn [mbind option_bind]. rewrite (proj2 (Z.ltb_ge _ _)) by lia.
  assert (forall n d, components n d [] = Some d) as -> by by intros [].
  cbn [mbind option_bind]. by rewrite (proj2 (Z.ltb_ge _ _)) by lia.
Qed.
