(* ===== verification/GoHttp.v ===== *)
(** * Go's [net/http] multiplexer

    [ServeMux] without host patterns: the path of a request is cleaned, with a
    redirect if that changes it, and the handler is the one of the pattern that
    is the path, or else of the longest pattern ending in a slash that is a
    prefix of the path. *)
From S2P Require Import Prelude GoStrings GoPath.

(** The clean path keeps a final slash. *)
Definition cleanPath (p : str) : str :=
  let p := if has_prefix "/"%str p then p else "/"%char :: p in
  let np := Clean p in
  if has_suffix "/"%str p && negb (bool_decide (np = "/"%str)) then np ++ "/"%str else np.

Section mux.
Context {H : Type}.
Inductive muxed := Handled (h : H) | Redirect (path : str) | NotFound.

Definition longer (best : option (str * H)) (p : str * H) : option (str * H) :=
  match best with
  | Some b => if decide (length b.1 < length p.1)%nat then Some p else Some b
  | None => Some p
  end.
Definition mux_match (m : list (str * H)) (path : str) : option (str * H) :=
  match head (filter (fun p => p.1 = path) m) with
  | Some p => Some p
  | None => foldl longer None (filter (fun p => (has_suffix "/"%str p.1 && has_prefix p.1 path) = true) m)
  end.

(** A path that is a pattern but for the final slash is sent there. *)
Definition to_slash (m : list (str * H)) (path : str) : bool :=
  bool_decide (path <> [] /\ path ∉ m.*1 /\ (path ++ "/"%str) ∈ m.*1 /\ has_suffix "/"%str path = false).

(** [connect]: requests of that method are not cleaned. *)
Definition ServeMux (m : list (str * H)) (connect : bool) (path : str) : muxed :=
  let clean := if connect then path else cleanPath path in
  if to_slash m clean then Redirect (clean ++ "/"%str)
  else if bool_decide (clean <> path) then Redirect clean
  else match mux_match m path with Some p => Handled p.2 | None => NotFound end.
End mux.
Arguments muxed : clear implicits.

Example mux_longest :
  ServeMux [("/"%str, 1%nat); ("/a/"%str, 2%nat); ("/a/b/"%str, 3%nat)] false "/a/b/c"%str = Handled 3%nat.
Proof. reflexivity. Qed.
Example mux_redirect :
  ServeMux [("/"%str, 1%nat); ("/a/"%str, 2%nat)] false "/x/../a"%str = Redirect "/a/"%str.
Proof. reflexivity. Qed.
Example mux_cleans : ServeMux [("/"%str, 1%nat)] false "//x/"%str = Redirect "/x/"%str.
Proof. reflexivity. Qed.

(** The pattern [/] takes every path. *)
Lemma foldl_longer_some {H} (l : list (str * H)) best : is_Some best -> is_Some (foldl longer best l).
Proof.
  revert best. induction l as [|p l IH]; intros best Hb; [done|]. cbn [foldl]. apply IH.
  destruct Hb as [b ->]. cbn. case_decide; by eexists.
Qed.
