(* ===== verification/GoUrl.v ===== *)
(** * Go's [net/url]: parsing and printing URLs

    [Parse], [ParseRequestURI], [Hostname] and [String], with the escaping
    modes they use; query components are in [GoMap]. *)
From S2P Require Import Prelude GoStrings GoMap.

Inductive mode := encodePath | encodeUserPassword | encodeHost | encodeZone | encodeFragment.
#[export] Instance mode_eq_dec : EqDecision mode.
Proof. solve_decision. Defined.

Definition is_letter (c : ascii) : bool :=
  let b := byte_val c in ((97 <=? b) && (b <=? 122)) || ((65 <=? b) && (b <=? 90)).

Definition shouldEscape (c : ascii) (m : mode) : bool :=
  if is_letter c || is_digit c then false
  else if bool_decide (m = encodeHost \/ m = encodeZone) &&
          bool_decide (c = "034"%char \/ c ∈ ("!$&'()*+,;=:[]<>"%str : str)) then false
  else if bool_decide (c ∈ ("-_.~"%str : str)) then false
  else if bool_decide (c ∈ ("$&+,/:;=?@"%str : str)) then
    match m with
    | encodePath => bool_decide (c = "?"%char)
    | encodeUserPassword => bool_decide (c ∈ ("@/?:"%str : str))
    | encodeFragment => false
    | encodeHost | encodeZone => true
    end
  else if bool_decide (m = encodeFragment /\ c ∈ ("!()*"%str : str)) then false
  else true.

Definition percent (c : ascii) : str :=
  ["%"%char; hex_digit (byte_val c `div` 16); hex_digit (byte_val c `mod` 16)].
Definition escape (m : mode) (s : str) : str := s ≫= fun c => if shouldEscape c m then percent c else [c].

(** Is an escaped byte, or a byte that is not, allowed? *)
Definition escape_ok (m : mode) (h1 h2 : ascii) (x y : Z) : bool :=
  match m with
  | encodeHost => (8 <=? x) || bool_decide (h1 = "2"%char /\ h2 = "5"%char)
  | encodeZone =>
      let v := byte_of (16 * x + y) in
      bool_decide (h1 = "2"%char /\ h2 = "5"%char) || bool_decide (v = " "%char) || negb (shouldEscape v encodeHost)
  | _ => true
  end.
Definition byte_ok (m : mode) (c : ascii) : bool :=
  match m with
  | encodeHost | encodeZone => negb ((byte_val c <? 128) && shouldEscape c m)
  | _ => true
  end.
Fixpoint unescape (m : mode) (s : str) : option str :=
  match s with
  | [] => Some []
  | c :: t =>
      if decide (c = "%"%char) then
        match t with
        | h1 :: h2 :: t =>
            x ← hex_val h1; y ← hex_val h2;
            if escape_ok m h1 h2 x y then r ← unescape m t; Some (byte_of (16 * x + y) :: r) else None
        | _ => None
        end
      else if byte_ok m c then r ← unescape m t; Some (c :: r) else None
  end.

Record URL := mkURL {
  u_Scheme : str; u_Opaque : str; u_User : option (str * option str); u_Host : str;
  u_Path : str; u_RawPath : str; u_ForceQuery : bool; u_RawQuery : str;
  u_Fragment : str; u_RawFragment : str;
}.

(** A scheme and the rest; [None]: the text begins with a colon. *)
Fixpoint scheme_end (s : str) : option nat :=
  match s with
  | [] => None
  | c :: t => if decide (c = ":"%char) then Some 0%nat
              else if is_letter c || is_digit c || bool_decide (c ∈ ("+-."%str : str)) then S <$> scheme_end t
              else None
  end.
Definition getScheme (s : str) : option (str * str) :=
  match s with
  | [] => Some ([], [])
  | c :: _ =>
      if decide (c = ":"%char) then None
      else if is_letter c then
        match scheme_end s with Some i => Some (take i s, drop (S i) s) | None => Some ([], s) end
      else Some ([], s)
  end.

Definition validOptionalPort (port : str) : bool :=
  match port with [] => true | c :: t => bool_decide (c = ":"%char) && forallb is_digit t end.

(** The index of ["%25"]. *)
Definition parseHost (host : str) : option str :=
  if has_prefix "["%str host then
    i ← last_index_byte "]" host;
    if negb (validOptionalPort (drop (S i) host)) then None
    else match index "%25"%str (take i host) with
         | Some zone =>
             h1 ← unescape encodeHost (take zone host);
             h2 ← unescape encodeZone (take (i - zone) (drop zone host));
             h3 ← unescape encodeHost (drop i host);
             Some (h1 ++ h2 ++ h3)
         | None => unescape encodeHost host
         end
  else match last_index_byte ":" host with
       | Some i => if validOptionalPort (drop i host) then unescape encodeHost host else None
       | None => unescape encodeHost host
       end.

Definition validUserinfo (s : str) : bool :=
  forallb (fun c => is_letter c || is_digit c || bool_decide (c ∈ ("-._:~!$&'()*+,;=%@"%str : str))) s.
Definition parseAuthority (authority : str) : option (option (str * option str) * str) :=
  match last_index_byte "@" authority with
  | None => host ← parseHost authority; Some (None, host)
  | Some i =>
      host ← parseHost (drop (S i) authority);
      let userinfo := take i authority in
      if negb (validUserinfo userinfo) then None
      else match cut ":" userinfo with
           | None => user ← unescape encodeUserPassword userinfo; Some (Some (user, None), host)
           | Some (user, password) =>
               user ← unescape encodeUserPassword user; password ← unescape encodeUserPassword password;
               Some (Some (user, Some password), host)
           end
  end.

Definition has_ctl (s : str) : bool := existsb (fun c => (byte_val c <? 32) || (byte_val c =? 127)) s.

(** The text kept next to a decoded one: none if it is the usual encoding. *)
Definition raw_of (m : mode) (p decoded : str) : str := if decide (escape m decoded = p) then [] else p.

(** [scheme] with the rest of a text that has no fragment. *)
Definition parse_rest (viaRequest : bool) (scheme rest : str) (force : bool) (query : str) : option URL :=
  if negb (has_prefix "/"%str rest) && negb (bool_decide (scheme = [])) then
    Some (mkURL scheme rest None [] [] [] force query [] [])
  else if negb (has_prefix "/"%str rest) &&
          (viaRequest || bool_decide (":"%char ∈ (default (rest, []) (cut "/" rest)).1)) then None
  else
    '(user, host, path) ←
      (if (negb (bool_decide (scheme = [])) || negb viaRequest && negb (has_prefix "///"%str rest))
          && has_prefix "//"%str rest
       then
         let authority := drop 2 rest in
         let '(authority, path) := match index_byte "/" authority with
                                   | Some i => (take i authority, drop i authority)
                                   | None => (authority, [])
                                   end in
         '(user, host) ← parseAuthority authority; Some (user, host, path)
       else Some (None, [], rest));
    decoded ← unescape encodePath path;
    Some (mkURL scheme [] user host decoded (raw_of encodePath path decoded) force query [] []).

Definition parse (viaRequest : bool) (rawURL : str) : option URL :=
  if has_ctl rawURL then None
  else if decide (rawURL = [] /\ viaRequest = true) then None
  else if decide (rawURL = "*"%str) then Some (mkURL [] [] None [] "*"%str [] false [] [] [])
  else
    '(scheme, rest) ← getScheme rawURL;
    let scheme := lower_ascii <$> scheme in
    if has_suffix "?"%str rest && (count_byte "?" rest =? 1)%nat
    then parse_rest viaRequest scheme (take (length rest - 1) rest) true []
    else let '(rest, query) := default (rest, []) (cut "?" rest) in parse_rest viaRequest scheme rest false query.

Definition ParseRequestURI (rawURL : str) : option URL := parse true rawURL.
Definition Parse (rawURL : str) : option URL :=
  let '(u, frag) := default (rawURL, []) (cut "#" rawURL) in
  url ← parse false u;
  if decide (frag = []) then Some url
  else
    f ← unescape encodeFragment frag;
    Some (mkURL (u_Scheme url) (u_Opaque url) (u_User url) (u_Host url) (u_Path url) (u_RawPath url)
            (u_ForceQuery url) (u_RawQuery url) f (raw_of encodeFragment frag f)).

(** [u.Hostname()] *)
Definition Hostname (u : URL) : str :=
  let h := u_Host u in
  let h := match last_index_byte ":" h with
           | Some i => if validOptionalPort (drop i h) then take i h else h
           | None => h
           end in
  if has_prefix "["%str h && has_suffix "]"%str h then drop 1 (take (length h - 1) h) else h.

(** ** [u.String()] *)
Definition validEncoded (m : mode) (s : str) : bool :=
  forallb (fun c => bool_decide (c ∈ ("!$&'()*+,;=:@[]%"%str : str)) || negb (shouldEscape c m)) s.
Definition escaped_with (m : mode) (raw decoded : str) : str :=
  if negb (bool_decide (raw = [])) && validEncoded m raw && bool_decide (unescape m raw = Some decoded) then raw
  else if bool_decide (m = encodePath /\ decoded = "*"%str) then "*"%str
  else escape m decoded.

Definition show_user (u : str * option str) : str :=
  escape encodeUserPassword u.1 ++
  match u.2 with Some p => ":"%str ++ escape encodeUserPassword p | None => [] end.
Definition show_authority (u : URL) : str :=
  if decide (u_Scheme u = [] /\ u_Host u = [] /\ u_User u = None) then []
  else (if decide (u_Host u = [] /\ u_Path u = [] /\ u_User u = None) then [] else "//"%str)
       ++ match u_User u with Some ui => show_user ui ++ "@"%str | None => [] end
       ++ escape encodeHost (u_Host u).
Definition show_path (u : URL) (buf : str) : str :=
  let path := escaped_with encodePath (u_RawPath u) (u_Path u) in
  (if bool_decide (path <> [] /\ u_Host u <> []) && negb (has_prefix "/"%str path) then "/"%str
   else if bool_decide (buf = [] /\ ":"%char ∈ (default (path, []) (cut "/" path)).1) then "./"%str
   else []) ++ path.
Definition String (u : URL) : str :=
  let scheme := if decide (u_Scheme u = []) then [] else u_Scheme u ++ ":"%str in
  scheme
  ++ (if decide (u_Opaque u = []) then show_authority u ++ show_path u (scheme ++ show_authority u) else u_Opaque u)
  ++ (if u_ForceQuery u || negb (bool_decide (u_RawQuery u = [])) then "?"%str ++ u_RawQuery u else [])
  ++ (if decide (u_Fragment u = []) then []
      else "#"%str ++ escaped_with encodeFragment (u_RawFragment u) (u_Fragment u)).

Example Parse_sample :
  (fun u => (u_Scheme u, u_Host u, u_Path u, u_RawQuery u, Hostname u, String u)) <$>
  Parse "HTTPS://github.com:443/a%20b/?x=1#l"%str =
  Some ("https", "github.com:443", "/a b/", "x=1", "github.com", "https://github.com:443/a%20b/?x=1#l")%str.
Proof. reflexivity. Qed.
Example Parse_opaque : (fun u => (u_Scheme u, u_Opaque u)) <$> Parse "localhost:8910"%str = Some ("localhost", "8910")%str.
Proof. reflexivity. Qed.
Example Parse_bad : Parse <$> ["1.2.3.4:80"; ":x"; "http://a:b/"; "http://a b/"; "/%zz"]%str = replicate 5 None.
Proof. reflexivity. Qed.
Example ParseRequestURI_relative : ParseRequestURI "owner/repo"%str = None /\ Parse "owner/repo"%str <> None.
Proof. by split. Qed.
