(* ===== verification/GoJson.v ===== *)
(** * Go's [encoding/json]

    A text is read into a value ([json]), which is stored into a Go value by a
    decoder ([dec]): a function of the value that is there before, since a key
    that a text does not name leaves its field alone.  Writing is a function to
    [json] and one to text, compact as [Marshal] writes it or indented as
    [MarshalIndent] does.  What is written is read back. *)
From S2P Require Import Prelude GoStrings GoMap.

(** Values; a string is the bytes it stands for, a number its literal. *)
Inductive json :=
  | JNull | JBool (b : bool) | JNum (lit : str) | JStr (s : str)
  | JArr (l : list json) | JObj (l : list (str * json)).

Section json_ind.
Context (P : json -> Prop).
Context (Hnull : P JNull) (Hbool : forall b, P (JBool b)) (Hnum : forall l, P (JNum l)) (Hstr : forall s, P (JStr s)).
Context (Harr : forall l, Forall P l -> P (JArr l)) (Hobj : forall l, Forall (fun p => P p.2) l -> P (JObj l)).
Fixpoint json_ind' (v : json) : P v :=
  match v with
  | JNull => Hnull | JBool b => Hbool b | JNum l => Hnum l | JStr s => Hstr s
  | JArr l => Harr l ((fix go l : Forall P l :=
      match l with [] => Forall_nil_2 P | x :: l => Forall_cons_2 P x l (json_ind' x) (go l) end) l)
  | JObj l => Hobj l ((fix go l : Forall (fun p => P p.2) l :=
      match l with
      | [] => Forall_nil_2 _
      | p :: l => Forall_cons_2 (fun p => P p.2) p l (json_ind' p.2) (go l)
      end) l)
  end.
End json_ind.

(** How deep the brackets of a value go. *)
Fixpoint nesting (v : json) : nat :=
  match v with
  | JArr l => S (foldr Nat.max 0%nat (nesting <$> l))
  | JObj l => S (foldr Nat.max 0%nat ((fun p => nesting p.2) <$> l))
  | _ => 0%nat
  end.

(** ** Strings *)
Definition hex_lower (n : Z) : ascii := if n <? 10 then byte_of (48 + n) else byte_of (87 + n).

(** The ASCII bytes that are written as they are; [<], [>] and [&] are not. *)
Definition json_safe (c : ascii) : bool :=
  (32 <=? byte_val c) && (byte_val c <? 128) && negb (bool_decide (byte_val c ∈ [34; 38; 60; 62; 92])).
Definition escape_ascii (c : ascii) : str :=
  if json_safe c then [c]
  else "\"%char ::
    (if decide (c = "034"%char \/ c = "\"%char) then [c]
     else if decide (c = LF) then "n"%str
     else if decide (c = CR) then "r"%str
     else if decide (c = TAB) then "t"%str
     else "u00"%str ++ [hex_lower (byte_val c `div` 16); hex_lower (byte_val c `mod` 16)]).

(** A rune outside ASCII, of the bytes [bs]. *)
Definition escape_rune (r : Z) (bs : str) : str :=
  if decide (r = RuneError /\ length bs = 1%nat) then "\ufffd"%str
  else if decide (r = 8232 \/ r = 8233) then "\u202"%str ++ [hex_lower (r `mod` 16)]
  else bs.

(** [skip] bytes belong to a rune that is written. *)
Fixpoint quote_body (skip : nat) (s : str) : str :=
  match s with
  | [] => []
  | a :: t =>
      match skip with
      | S skip => quote_body skip t
      | O =>
          if byte_val a <? 128 then escape_ascii a ++ quote_body 0 t
          else let '(r, w) := decode_rune a t in escape_rune r (take w s) ++ quote_body (w - 1) t
      end
  end.
Definition quote (s : str) : str := "034"%char :: quote_body 0 s ++ ["034"%char].

(** [getu4] *)
Definition u4 (a b c d : ascii) : option Z :=
  a ← hex_val a; b ← hex_val b; c ← hex_val c; d ← hex_val d;
  Some (4096 * a + 256 * b + 16 * c + d).
Definition is_surrogate (r : Z) : bool := (55296 <=? r) && (r <? 57344).
Definition surrogates (r1 r2 : Z) : option Z :=
  if bool_decide (55296 <= r1 < 56320 /\ 56320 <= r2 < 57344)
  then Some ((r1 - 55296) * 1024 + (r2 - 56320) + 65536) else None.

(** The simple escapes: those the scanner lets through. *)
Definition escaped (c : ascii) : option ascii :=
  match c with
  | "034"%char | "\"%char | "/"%char => Some c
  | "b"%char => Some (byte_of 8) | "f"%char => Some (byte_of 12)
  | "n"%char => Some LF | "r"%char => Some CR | "t"%char => Some TAB
  | _ => None
  end.

Definition push (bs : str) (r : option (str * str)) : option (str * str) :=
  '(s, rest) ← r; Some (bs ++ s, rest).

(** A string after its opening quote, and what is after the closing one. *)
Fixpoint unquote (skip : nat) (s : str) : option (str * str) :=
  match s with
  | [] => None
  | c :: t =>
      match skip with
      | S skip => unquote skip t
      | O =>
          if decide (c = "034"%char) then Some ([], t)
          else if decide (c = "\"%char) then
            match t with
            | [] => None
            | e :: t =>
                if decide (e = "u"%char) then
                  match t with
                  | h1 :: h2 :: h3 :: h4 :: t =>
                      r ← u4 h1 h2 h3 h4;
                      if is_surrogate r then
                        match t with
                        | "\"%char :: "u"%char :: g1 :: g2 :: g3 :: g4 :: t' =>
                            match r2 ← u4 g1 g2 g3 g4; surrogates r r2 with
                            | Some r => push (encode_rune r) (unquote 0 t')
                            | None => push (encode_rune RuneError) (unquote 0 t)
                            end
                        | _ => push (encode_rune RuneError) (unquote 0 t)
                        end
                      else push (encode_rune r) (unquote 0 t)
                  | _ => None
                  end
                else x ← escaped e; push [x] (unquote 0 t)
            end
          else if byte_val c <? 32 then None
          else if byte_val c <? 128 then push [c] (unquote 0 t)
          else let '(r, w) := decode_rune c t in push (encode_rune r) (unquote (w - 1) t)
      end
  end.

(** ** Numbers *)
Fixpoint span (p : ascii -> bool) (s : str) : str * str :=
  match s with
  | [] => ([], [])
  | c :: t => if p c then let '(a, b) := span p t in (c :: a, b) else ([], s)
  end.
Definition digits (s : str) : option (str * str) :=
  let '(ds, r) := span is_digit s in if decide (ds = []) then None else Some (ds, r).
Definition is_e (c : ascii) : bool := bool_decide (c = "e"%char \/ c = "E"%char).
Definition is_sign (c : ascii) : bool := bool_decide (c = "+"%char \/ c = "-"%char).

Definition num_sign (s : str) : str * str :=
  match s with "-"%char :: t => ("-"%str, t) | _ => ([], s) end.
Definition num_int (s : str) : option (str * str) :=
  match s with "0"%char :: t => Some ("0"%str, t) | _ => digits s end.
Definition num_frac (s : str) : option (str * str) :=
  match s with
  | "."%char :: t => '(ds, r) ← digits t; Some ("."%char :: ds, r)
  | _ => Some ([], s)
  end.
Definition num_exp (s : str) : option (str * str) :=
  match s with
  | e :: t =>
      if is_e e then
        match t with
        | g :: t' => if is_sign g then '(ds, r) ← digits t'; Some (e :: g :: ds, r)
                     else '(ds, r) ← digits t; Some (e :: ds, r)
        | [] => None
        end
      else Some ([], s)
  | [] => Some ([], s)
  end.
Definition number (s : str) : option (str * str) :=
  let '(sg, s) := num_sign s in
  '(i, s) ← num_int s; '(f, s) ← num_frac s; '(e, s) ← num_exp s;
  Some (sg ++ i ++ f ++ e, s).

(** ** Values *)
Definition is_ws (c : ascii) : bool := bool_decide (byte_val c ∈ [9; 10; 13; 32]).
Fixpoint skip_ws (s : str) : str :=
  match s with c :: t => if is_ws c then skip_ws t else s | [] => [] end.

Definition maxNestingDepth : Z := 10000.

(** The text after the byte [c] and the spaces before it. *)
Definition after (c : ascii) (s : str) : option str :=
  match skip_ws s with a :: t => if decide (a = c) then Some t else None | [] => None end.

Fixpoint parse_value (fuel : nat) (depth : Z) (s : str) : option (json * str) :=
  match fuel with
  | O => None
  | S fuel =>
      match skip_ws s with
      | "{"%char :: t =>
          if maxNestingDepth <=? depth then None
          else match after "}"%char t with
               | Some r => Some (JObj [], r)
               | None => '(l, r) ← parse_members fuel (depth + 1) t; Some (JObj l, r)
               end
      | "["%char :: t =>
          if maxNestingDepth <=? depth then None
          else match after "]"%char t with
               | Some r => Some (JArr [], r)
               | None => '(l, r) ← parse_elements fuel (depth + 1) t; Some (JArr l, r)
               end
      | "034"%char :: t => '(x, r) ← unquote 0 t; Some (JStr x, r)
      | "t"%char :: "r"%char :: "u"%char :: "e"%char :: r => Some (JBool true, r)
      | "f"%char :: "a"%char :: "l"%char :: "s"%char :: "e"%char :: r => Some (JBool false, r)
      | "n"%char :: "u"%char :: "l"%char :: "l"%char :: r => Some (JNull, r)
      | t => '(n, r) ← number t; Some (JNum n, r)
      end
  end
with parse_elements (fuel : nat) (depth : Z) (s : str) : option (list json * str) :=
  match fuel with
  | O => None
  | S fuel =>
      '(v, r) ← parse_value fuel depth s;
      match after ","%char r with
      | Some r => '(l, r) ← parse_elements fuel depth r; Some (v :: l, r)
      | None => r ← after "]"%char r; Some ([v], r)
      end
  end
with parse_members (fuel : nat) (depth : Z) (s : str) : option (list (str * json) * str) :=
  match fuel with
  | O => None
  | S fuel =>
      t ← after "034"%char s; '(k, r) ← unquote 0 t;
      r ← after ":"%char r; '(v, r) ← parse_value fuel depth r;
      match after ","%char r with
      | Some r => '(l, r) ← parse_members fuel depth r; Some ((k, v) :: l, r)
      | None => r ← after "}"%char r; Some ([(k, v)], r)
      end
  end.

(** The value of a whole text, as [Unmarshal] reads it. *)
Definition parse_json (s : str) : option json :=
  '(v, r) ← parse_value (S (length s)) 0 s;
  if decide (skip_ws r = []) then Some v else None.
(** The first value of a stream, as [Decoder.Decode] reads it: a value that is
    not closed by a bracket ends at a space or with the stream. *)
Definition closed (v : json) : bool := match v with JArr _ | JObj _ => true | _ => false end.
Definition decode_first (s : str) : option (json * str) :=
  '(v, r) ← parse_value (S (length s)) 0 s;
  if closed v || match r with [] => true | c :: _ => is_ws c end then Some (v, r) else None.

(** ** Writing *)
Section show.
(** The line break and the indentation at a depth, and what is after a key. *)
Context (nl : nat -> str) (colon : str).
Definition bracket (o c : str) (d : nat) (items : list str) : str :=
  match items with
  | [] => o ++ c
  | _ => o ++ nl (S d) ++ join (","%char :: nl (S d)) items ++ nl d ++ c
  end.
Fixpoint show (d : nat) (v : json) : str :=
  match v with
  | JNull => "null"%str
  | JBool b => if b then "true"%str else "false"%str
  | JNum lit => lit
  | JStr s => quote s
  | JArr l => bracket "["%str "]"%str d (show (S d) <$> l)
  | JObj l => bracket "{"%str "}"%str d ((fun p => quote p.1 ++ colon ++ show (S d) p.2) <$> l)
  end.
End show.

(** [json.Marshal] *)
Definition Marshal (v : json) : str := show (fun _ => []) ":"%str 0 v.
(** [json.MarshalIndent] with the empty prefix. *)
Definition MarshalIndent (indent : str) (v : json) : str :=
  show (fun d => LF :: concat (replicate d indent)) ": "%str 0 v.
(** [Encoder.Encode], without and with [SetIndent]. *)
Definition Encode_stream (v : json) : str := Marshal v ++ [LF].
Definition EncodeIndent_stream (indent : str) (v : json) : str := MarshalIndent indent v ++ [LF].

(** ** Decoders *)
Definition dec (A : Type) : Type := A -> json -> option A.

(** A value that [null] leaves alone. *)
Definition dec_str : dec str := fun old v => match v with JStr s => Some s | JNull => Some old | _ => None end.
Definition dec_bool : dec bool := fun old v => match v with JBool b => Some b | JNull => Some old | _ => None end.
Definition dec_int (bits : Z) : dec Z := fun old v =>
  match v with JNum lit => ParseInt 10 bits lit | JNull => Some old | _ => None end.

(** [bytes.EqualFold] with a name in ASCII: the long s and the Kelvin sign are
    the two runes outside ASCII that fold to a letter. *)
Fixpoint fold_key (s : str) : str :=
  match s with
  | [] => []
  | a :: t =>
      match t with
      | b :: t' =>
          if decide (byte_val a = 197 /\ byte_val b = 191) then "s"%char :: fold_key t'
          else match t' with
               | c :: t'' => if decide (byte_val a = 226 /\ byte_val b = 132 /\ byte_val c = 170)
                             then "k"%char :: fold_key t'' else lower_ascii a :: fold_key t
               | [] => lower_ascii a :: fold_key t
               end
      | [] => [lower_ascii a]
      end
  end.
(** The field of a struct with the fields [names] that a key names. *)
Definition resolve (names : list str) (key : str) : option str :=
  if decide (key ∈ names) then Some key else head (filter (fun n => fold_key n = fold_key key) names).

(** The field [name] after the members of an object, and a struct. *)
Fixpoint dec_key {B} (names : list str) (l : list (str * json)) (name : str) (d : dec B) (old : B) : option B :=
  match l with
  | [] => Some old
  | (k, v) :: l =>
      b ← (if decide (resolve names k = Some name) then d old v else Some old);
      dec_key names l name d b
  end.
Definition dec_struct {A} (read : list (str * json) -> A -> option A) : dec A := fun old v =>
  match v with JObj l => read l old | JNull => Some old | _ => None end.

(** A struct of one string. *)
Definition dec_single (name : str) : dec str := dec_struct (fun l x => dec_key [name] l name dec_str x).

(** A pointer, and a slice: elements are decoded over those that are there. *)
Definition dec_ptr {A} (zero : A) (d : dec A) : dec (option A) := fun old v =>
  match v with JNull => Some None | _ => Some <$> d (default zero old) v end.
Fixpoint dec_elements {A} (zero : A) (d : dec A) (old : list A) (l : list json) : option (list A) :=
  match l with
  | [] => Some []
  | v :: l => a ← d (default zero (head old)) v; rest ← dec_elements zero d (tail old) l; Some (a :: rest)
  end.
Definition dec_slice {A} (zero : A) (d : dec A) : dec (list A) := fun old v =>
  match v with JArr l => dec_elements zero d old l | JNull => Some [] | _ => None end.
(** A [map[string]string]. *)
Definition dec_entry (m : gmap str str) (p : str * json) : option (gmap str str) :=
  x ← dec_str [] p.2; Some (<[p.1 := x]> m).
Fixpoint dec_entries (m : gmap str str) (l : list (str * json)) : option (gmap str str) :=
  match l with [] => Some m | p :: l => m ← dec_entry m p; dec_entries m l end.
Definition dec_map : dec (gmap str str) := fun old v =>
  match v with JObj l => dec_entries old l | JNull => Some ∅ | _ => None end.

(** ** Members of an object that is written *)
Definition JInt (z : Z) : json := JNum (Itoa z).
(** [omitempty] *)
Definition omit_str (name s : str) : list (str * json) := if decide (s = []) then [] else [(name, JStr s)].
Definition omit_int (name : str) (z : Z) : list (str * json) := if decide (z = 0) then [] else [(name, JInt z)].
Definition omit_bool (name : str) (b : bool) : list (str * json) := if b then [(name, JBool true)] else [].
Definition omit_list {A} (name : str) (f : A -> json) (l : list A) : list (str * json) :=
  if decide (length l = 0%nat) then [] else [(name, JArr (f <$> l))].
Definition omit_ptr {A} (name : str) (f : A -> json) (o : option A) : list (str * json) :=
  match o with Some a => [(name, f a)] | None => [] end.
(** A pointer. *)
Definition enc_ptr {A} (f : A -> json) (o : option A) : json := from_option f JNull o.

Definition Unmarshal {A} (d : dec A) (old : A) (text : str) : option A := v ← parse_json text; d old v.
Definition Decode {A} (d : dec A) (old : A) (text : str) : option A := '(v, _) ← decode_first text; d old v.

(** Examples write the quotation mark as an apostrophe. *)
Definition dq (s : str) : str := (fun c => if decide (c = "'"%char) then "034"%char else c) <$> s.

Example parse_sample :
  parse_json (dq " {'a' : [1, -2.5e+3, true,null],'\u00e9\ud83d\ude00\n':{} } "%str) =
  Some (JObj [("a"%str, JArr [JNum "1"%str; JNum "-2.5e+3"%str; JBool true; JNull]);
              (encode_rune 233 ++ encode_rune 128512 ++ [LF], JObj [])]).
Proof. reflexivity. Qed.
Example parse_json_bad :
  parse_json <$> [dq "[1,]"; dq "{'a' 1}"; dq "01"; dq "'\x'"; dq "1."; dq "{} {}"; dq ""]%str
  = replicate 7 None.
Proof. reflexivity. Qed.
Example Marshal_sample :
  Marshal (JObj [("a"%str, JArr [JNum "1"%str; JNull]); ("<b>"%str, JStr (dq "x'"))]%str)
  = dq "{'a':[1,null],'\u003cb\u003e':'x\'"%str ++ dq "'}"%str.
Proof. reflexivity. Qed.
Example MarshalIndent_sample :
  MarshalIndent "  "%str (JObj [("a"%str, JArr [JNum "1"%str; JObj []])]) =
  dq "{"%str ++ [LF] ++ dq "  'a': ["%str ++ [LF] ++ "    1,"%str ++ [LF] ++ "    {}"%str ++ [LF]
  ++ "  ]"%str ++ [LF] ++ "}"%str.
Proof. reflexivity. Qed.
