(* ===== verification/GoJsonSpec.v ===== *)
(** * What is written as JSON is read back

    For every value, compact or indented; bytes that are not UTF-8 come back as
    U+FFFD. *)
From S2P Require Import Prelude GoStrings GoMap GoJson.

(** ** Strings *)

(** A string whose malformed bytes are replaced. *)
Fixpoint to_valid (skip : nat) (s : str) : str :=
  match s with
  | [] => []
  | a :: t =>
      match skip with
      | S skip => to_valid skip t
      | O => let '(r, w) := decode_rune a t in encode_rune r ++ to_valid (w - 1) t
      end
  end.
Definition ToValidUTF8 (s : str) : str := to_valid 0 s.
(** [utf8.ValidString] *)
Definition Valid (s : str) : Prop := ToValidUTF8 s = s.
#[export] Instance Valid_dec s : Decision (Valid s).
Proof. unfold Valid. apply _. Defined.

Lemma to_valid_skip k s : to_valid k s = to_valid 0 (drop k s).
Proof. revert s. induction k as [|k IH]; intros [|a s]; [done..|]. cbn [to_valid drop]. apply IH. Qed.
Lemma quote_body_skip k s : quote_body k s = quote_body 0 (drop k s).
Proof. revert s. induction k as [|k IH]; intros [|a s]; [done..|]. cbn [quote_body drop]. apply IH. Qed.
Lemma unquote_skip k s : unquote k s = unquote 0 (drop k s).
Proof. revert s. induction k as [|k IH]; intros [|a s]; [done..|]. cbn [unquote drop]. apply IH. Qed.

Lemma unquote_escape_ascii c x :
  byte_val c < 128 -> unquote 0 (escape_ascii c ++ x) = push [c] (unquote 0 x).
Proof.
  intros Hc. destruct c as [[] [] [] [] [] [] [] []]; first [by vm_compute in Hc | reflexivity].
Qed.

(** The bytes of a rune are a rune whatever follows. *)
Lemma decode_rune_take a t r w x :
  128 <= byte_val a -> decode_rune a t = (r, w) -> ~ (r = RuneError /\ w = 1%nat) ->
  decode_rune a (take (w - 1) t ++ x) = (r, w).
Proof.
  intros Ha H Hbad. unfold decode_rune in *.
  repeat match type of H with
  | (if ?b then _ else _) = _ => destruct b eqn:?; [try (simplify_eq; by exfalso; auto)|try (simplify_eq; by exfalso; auto)]
  | (match ?l with [] => _ | _ => _ end) = _ => destruct l; [simplify_eq; by exfalso; auto|]
  end; simplify_eq; cbn [take app Nat.sub];
  repeat match goal with E : ?b = true |- context [if ?b then _ else _] => rewrite E end; try done.
Qed.

Lemma unquote_escape_rune a t r w x :
  128 <= byte_val a -> decode_rune a t = (r, w) ->
  unquote 0 (escape_rune r (take w (a :: t)) ++ x) = push (encode_rune r) (unquote 0 x).
Proof.
  intros Ha Hd. pose proof (decode_width _ _ _ _ Hd) as Hw. unfold escape_rune.
  case_decide as Hb.
  { destruct Hb as [-> _]. reflexivity. }
  case_decide as Hs.
  { destruct Hs as [-> | ->]; reflexivity. }
  destruct w as [|w]; [lia|]. cbn [take app].
  assert (decode_rune a (take w t ++ x) = (r, S w)) as Hd'.
  { pose proof (decode_rune_take a t r (S w) x Ha Hd) as H.
    replace (S w - 1)%nat with w in H by lia. apply H. intros [-> Hw1]. apply Hb. split; [done|].
    rewrite length_take. cbn [length]. injection Hw1 as ->. lia. }
  cbn [unquote].
  rewrite decide_False by (intros ->; by apply Ha).
  rewrite decide_False by (intros ->; by apply Ha).
  rewrite (proj2 (Z.ltb_ge _ 32)), (proj2 (Z.ltb_ge _ 128)) by lia.
  rewrite Hd'. f_equal. replace (S w - 1)%nat with w by lia. rewrite unquote_skip. f_equal.
  rewrite drop_app_length' by (rewrite length_take; cbn [length] in Hw; lia). done.
Qed.

(** What is quoted is unquoted. *)
Lemma unquote_quote s rest :
  unquote 0 (quote_body 0 s ++ "034"%char :: rest) = Some (ToValidUTF8 s, rest).
Proof.
  unfold ToValidUTF8. remember (length s) as n eqn:Hn. revert s Hn.
  induction n as [n IH] using lt_wf_ind. intros [|a t] ->; [done|].
  cbn [quote_body to_valid]. destruct (Z.ltb_spec (byte_val a) 128) as [Ha|Ha].
  - rewrite <- app_assoc, unquote_escape_ascii, (IH (length t)) by (cbn; done || lia).
    rewrite decode_ascii by done. cbn [push mbind option_bind]. f_equal. f_equal. unfold encode_rune.
    rewrite (proj2 (Z.ltb_lt _ _) Ha), byte_of_val. done.
  - destruct (decode_rune a t) as [r w] eqn:E. pose proof (decode_width _ _ _ _ E).
    rewrite <- app_assoc, (unquote_escape_rune a t r w), quote_body_skip, to_valid_skip by done.
    rewrite (IH (length (drop (w - 1) t))); [done| |done]. rewrite length_drop. cbn [length]. lia.
Qed.

Lemma to_valid_valid s : Valid s -> to_valid 0 s = s.
Proof. done. Qed.
Lemma Valid_ascii s : Forall (fun c => byte_val c < 128) s -> Valid s.
Proof.
  unfold Valid, ToValidUTF8. induction 1 as [|c s Hc _ IH]; [done|]. cbn [to_valid].
  rewrite decode_ascii by done. cbn [Nat.sub]. rewrite IH. unfold encode_rune.
  by rewrite (proj2 (Z.ltb_lt _ _) Hc), byte_of_val.
Qed.

(** ** Numbers *)
Definition stops (rest : str) : Prop :=
  match rest with [] => True | c :: _ => is_digit c = false /\ c <> "."%char /\ is_e c = false end.

Lemma span_app p s a b rest :
  span p s = (a, b) -> (b = [] -> match rest with [] => True | c :: _ => p c = false end) ->
  span p (s ++ rest) = (a, b ++ rest).
Proof.
  revert a b. induction s as [|c s IH]; intros a b H Hr; cbn [span app] in *.
  - simplify_eq. specialize (Hr eq_refl). destruct rest as [|c t]; [done|]. cbn. by rewrite Hr.
  - destruct (p c); [|by simplify_eq]. destruct (span p s) as [a' b'] eqn:E. simplify_eq.
    by rewrite (IH _ _ eq_refl Hr).
Qed.
Lemma stops_digits rest : stops rest -> match rest with [] => True | c :: _ => is_digit c = false end.
Proof. destruct rest; [done|]. by intros [? _]. Qed.
Lemma digits_app s a b rest : stops rest -> digits s = Some (a, b) -> digits (s ++ rest) = Some (a, b ++ rest).
Proof.
  unfold digits. intros Hr. destruct (span is_digit s) as [ds r] eqn:E. case_decide; [done|]. intros [= <- <-].
  rewrite (span_app _ _ _ _ _ E) by (intros _; by apply stops_digits). by rewrite decide_False.
Qed.
Lemma num_frac_app s a b rest : stops rest -> num_frac s = Some (a, b) -> num_frac (s ++ rest) = Some (a, b ++ rest).
Proof.
  intros Hr. destruct s as [|c s].
  - intros [= <- <-]. destruct rest as [|c t]; [done|]. destruct Hr as (_ & Hd & _).
    destruct c as [[] [] [] [] [] [] [] []]; first [done | by destruct Hd].
  - assert (num_frac (c :: s) = if decide (c = "."%char) then '(ds, r) ← digits s; Some ("."%char :: ds, r)
             else Some ([], c :: s)) as ->.
    { destruct c as [[] [] [] [] [] [] [] []]; reflexivity. }
    assert (num_frac ((c :: s) ++ rest) = if decide (c = "."%char)
       then '(ds, r) ← digits (s ++ rest); Some ("."%char :: ds, r) else Some ([], (c :: s) ++ rest)) as ->.
    { destruct c as [[] [] [] [] [] [] [] []]; reflexivity. }
    case_decide; [|by intros [= <- <-]].
    destruct (digits s) as [[ds r]|] eqn:E; [|done]. intros [= <- <-]. by rewrite (digits_app _ _ _ _ Hr E).
Qed.
Lemma num_exp_app s a b rest : stops rest -> num_exp s = Some (a, b) -> num_exp (s ++ rest) = Some (a, b ++ rest).
Proof.
  intros Hr. destruct s as [|e s].
  - intros [= <- <-]. destruct rest as [|c t]; [done|]. destruct Hr as (_ & _ & He). cbn. by rewrite He.
  - cbn [num_exp app]. destruct (is_e e); [|by intros [= <- <-]].
    destruct s as [|g s]; [done|]. cbn [app]. destruct (is_sign g).
    + destruct (digits s) as [[ds r]|] eqn:E; [|done]. intros [= <- <-]. by rewrite (digits_app _ _ _ _ Hr E).
    + destruct (digits (g :: s)) as [[ds r]|] eqn:E; [|done]. intros [= <- <-].
      pose proof (digits_app _ _ _ _ Hr E) as H. cbn [app] in H. by rewrite H.
Qed.
Lemma num_int_app s a b rest : stops rest -> num_int s = Some (a, b) -> num_int (s ++ rest) = Some (a, b ++ rest).
Proof.
  intros Hr. destruct s as [|c s]; [done|].
  assert (num_int (c :: s) = if decide (c = "0"%char) then Some ("0"%str, s) else digits (c :: s)) as ->.
  { destruct c as [[] [] [] [] [] [] [] []]; reflexivity. }
  assert (num_int ((c :: s) ++ rest) = if decide (c = "0"%char) then Some ("0"%str, s ++ rest)
     else digits ((c :: s) ++ rest)) as ->.
  { destruct c as [[] [] [] [] [] [] [] []]; reflexivity. }
  case_decide; [by intros [= <- <-]|]. by apply digits_app.
Qed.
Lemma num_sign_cons c s : num_sign (c :: s) = if decide (c = "-"%char) then ("-"%str, s) else ([], c :: s).
Proof. destruct c as [[] [] [] [] [] [] [] []]; reflexivity. Qed.

(** A number is read up to where it stops. *)
Lemma number_app s a b rest : stops rest -> number s = Some (a, b) -> number (s ++ rest) = Some (a, b ++ rest).
Proof.
  intros Hr. destruct s as [|c s]; [done|]. unfold number. cbn [app]. rewrite !num_sign_cons.
  assert (forall sg s, (fun '(sg, s) => '(i, s) ← num_int s; '(f, s) ← num_frac s; '(e, s) ← num_exp s;
            Some (sg ++ i ++ f ++ e, s)) (sg, s) = Some (a, b) ->
          (fun '(sg, s) => '(i, s) ← num_int s; '(f, s) ← num_frac s; '(e, s) ← num_exp s;
            Some (sg ++ i ++ f ++ e, s)) (sg, s ++ rest) = Some (a, b ++ rest)) as H.
  { intros sg t. destruct (num_int t) as [[i t1]|] eqn:Ei; [|done]. cbn.
    destruct (num_frac t1) as [[f t2]|] eqn:Ef; [|done]. cbn.
    destruct (num_exp t2) as [[e t3]|] eqn:Ee; [|done]. cbn. intros [= <- <-].
    rewrite (num_int_app _ _ _ _ Hr Ei). cbn. rewrite (num_frac_app _ _ _ _ Hr Ef). cbn.
    by rewrite (num_exp_app _ _ _ _ Hr Ee). }
  destruct (decide (c = "-"%char)); [apply (H _ s)|apply (H _ (c :: s))].
Qed.
Lemma number_head s a b : number s = Some (a, b) -> exists c t, s = c :: t /\ (is_digit c || bool_decide (c = "-"%char)) = true.
Proof.
  destruct s as [|c s]; [done|]. unfold number. rewrite num_sign_cons. intros H. exists c, s. split; [done|].
  destruct (decide (c = "-"%char)) as [->|Hc]; [done|].
  apply orb_true_iff. left. destruct (is_digit c) eqn:E; [done|]. exfalso.
  assert (num_int (c :: s) = if decide (c = "0"%char) then Some ("0"%str, s) else digits (c :: s)) as Hi.
  { destruct c as [[] [] [] [] [] [] [] []]; reflexivity. }
  rewrite Hi in H. case_decide as H0; [by subst c|]. unfold digits in H. cbn [span] in H. rewrite E in H. by cbn in H.
Qed.
Lemma parse_value_number fuel depth c t :
  (is_digit c || bool_decide (c = "-"%char)) = true ->
  parse_value (S fuel) depth (c :: t) = '(n, r) ← number (c :: t); Some (JNum n, r).
Proof.
  intros H. destruct c as [[] [] [] [] [] [] [] []]; first [by vm_compute in H | reflexivity].
Qed.

Lemma udec_head fuel n acc :
  0 < n -> Z.log2 n < Z.of_nat fuel -> exists c t, udec fuel n acc = c :: t /\ c <> "0"%char.
Proof.
  revert n acc. induction fuel as [|fuel IH]; intros n acc Hn Hf; [pose proof (Z.log2_nonneg n); lia|].
  cbn [udec]. destruct (Z.ltb_spec n 10).
  - eexists _, _. split; [reflexivity|]. intros Hc. apply (f_equal byte_val) in Hc.
    rewrite byte_val_of in Hc by (pose proof (Z.mod_pos_bound n 10); lia).
    rewrite Z.mod_small in Hc by lia. change (byte_val "0"%char) with 48 in Hc. lia.
  - apply IH; [apply Z.div_str_pos; lia|].
    assert (Z.log2 (n / 10) <= Z.log2 (n / 2)) by (apply Z.log2_le_mono, Z.div_le_compat_l; lia).
    assert (Z.log2 (n / 2) = Z.log2 n - 1); [|lia].
    rewrite <- Z.div2_div, Z.div2_spec, Z.log2_shiftr by lia.
    pose proof (Z.log2_le_mono 10 n ltac:(lia)) as Hl. change (Z.log2 10) with 3 in Hl. lia.
Qed.

Lemma span_all p s : forallb p s = true -> span p s = (s, []).
Proof. induction s as [|c s IH]; [done|]. cbn. intros [-> H]%andb_true_iff. by rewrite IH. Qed.
Lemma digits_uitoa n : 0 <= n -> digits (uitoa n) = Some (uitoa n, []).
Proof.
  intros Hn. unfold digits. rewrite span_all by by apply uitoa_digits.
  rewrite decide_False; [done|]. apply uitoa_not_nil.
Qed.
Lemma num_int_uitoa n : 0 <= n -> num_int (uitoa n) = Some (uitoa n, []).
Proof.
  intros Hn. destruct (decide (n = 0)) as [->|Hz]; [reflexivity|].
  destruct (udec_head (S (Z.to_nat (Z.log2 n))) n []) as (c & t & E & Hc); [lia|lia|].
  pose proof (digits_uitoa n Hn) as Hd. unfold uitoa in *. rewrite E in *.
  destruct c as [[] [] [] [] [] [] [] []]; first [done | by destruct Hc].
Qed.
(** What [Itoa] writes is a number. *)
Lemma number_Itoa z : number (Itoa z) = Some (Itoa z, []).
Proof.
  unfold Itoa. assert (forall n, 0 <= n -> number ("-"%char :: uitoa n) = Some ("-"%char :: uitoa n, [])) as Hneg.
  { intros n Hn. unfold number. rewrite num_sign_cons, decide_True by done.
    rewrite num_int_uitoa by done. cbn. by rewrite app_nil_r. }
  destruct (Z.ltb_spec z 0); [by apply Hneg; lia|].
  unfold number. pose proof (uitoa_digits z ltac:(lia)) as Hd. destruct (uitoa z) as [|c t] eqn:E; [by apply uitoa_not_nil in E|].
  rewrite num_sign_cons. rewrite decide_False by (intros ->; by cbn in Hd).
  rewrite <- E, num_int_uitoa by lia. cbn. by rewrite app_nil_r.
Qed.

(** ** Values *)
Lemma skip_ws_ws ws s : forallb is_ws ws = true -> skip_ws (ws ++ s) = skip_ws s.
Proof. induction ws as [|c ws IH]; [done|]. cbn. intros [-> H]%andb_true_iff. by apply IH. Qed.

Lemma after_ws c ws a t :
  forallb is_ws ws = true -> is_ws a = false -> after c (ws ++ a :: t) = if decide (a = c) then Some t else None.
Proof. intros Hws Ha. unfold after. rewrite skip_ws_ws by done. cbn [skip_ws]. by rewrite Ha. Qed.
Lemma after_cons c a t : is_ws a = false -> after c (a :: t) = if decide (a = c) then Some t else None.
Proof. apply (after_ws c [] a t eq_refl). Qed.

(** Numbers are literals. *)
Fixpoint json_okb (v : json) : bool :=
  match v with
  | JNum lit => bool_decide (number lit = Some (lit, []))
  | JArr l => forallb json_okb l
  | JObj l => forallb (fun p => json_okb p.2) l
  | _ => true
  end.
Definition json_ok (v : json) : Prop := json_okb v = true.
Lemma json_ok_arr l : json_ok (JArr l) <-> Forall json_ok l.
Proof. apply forallb_Forall. Qed.
Lemma json_ok_obj l : json_ok (JObj l) <-> Forall (fun p => json_ok p.2) l.
Proof. apply (forallb_Forall (fun p => json_okb p.2)). Qed.
(** Keys and strings in UTF-8. *)
Fixpoint coerce (v : json) : json :=
  match v with
  | JStr s => JStr (ToValidUTF8 s)
  | JArr l => JArr (coerce <$> l)
  | JObj l => JObj ((fun p => (ToValidUTF8 p.1, coerce p.2)) <$> l)
  | _ => v
  end.
Fixpoint json_size (v : json) : nat :=
  match v with
  | JArr l => S (sum_list_with (fun v => S (json_size v)) l)
  | JObj l => S (sum_list_with (fun p => S (json_size p.2)) l)
  | _ => 1%nat
  end.

Section show.
Context (nl : nat -> str) (colon_ws : str).
Context (Hnl : forall d, forallb is_ws (nl d) = true) (Hcolon : forallb is_ws colon_ws = true).
Local Abbreviation show := (GoJson.show nl (":"%char :: colon_ws)).

Lemma stops_ws ws c s : forallb is_ws ws = true -> stops (c :: s) -> stops (ws ++ c :: s).
Proof using.
  destruct ws as [|w ws]; [done|]. cbn [forallb app]. intros [H _]%andb_true_iff _.
  destruct w as [[] [] [] [] [] [] [] []]; first [by vm_compute in H | by split_and!].
Qed.

(** No value begins with a space, or with a bracket that closes. *)
Lemma show_head d v : json_ok v ->
  exists c t, show d v = c :: t /\ is_ws c = false /\ c <> "]"%char /\ c <> "}"%char.
Proof using.
  intros Hv. destruct v as [|[]|lit|s|[|x l]|[|p l]]; try by eexists _, _.
  apply bool_decide_eq_true, number_head in Hv as (c & t & -> & Hc). exists c, t.
  destruct c as [[] [] [] [] [] [] [] []]; first [by vm_compute in Hc | done].
Qed.

Lemma bracket_cons o c d x l rest :
  bracket nl o c d (x :: l) ++ rest = o ++ nl (S d) ++ join (","%char :: nl (S d)) (x :: l) ++ nl d ++ c ++ rest.
Proof using. cbn [bracket]. by rewrite <- !app_assoc. Qed.
Lemma join_cons2 (sep x y : str) l : join sep (x :: y :: l) = x ++ sep ++ join sep (y :: l).
Proof using. reflexivity. Qed.

Definition readable (v : json) : Prop := forall fuel depth d rest ws,
  json_ok v -> (json_size v <= fuel)%nat -> depth + Z.of_nat (nesting v) <= maxNestingDepth -> stops rest -> forallb is_ws ws = true ->
  parse_value fuel depth (ws ++ show d v ++ rest) = Some (coerce v, rest).

Lemma read_elements l : Forall readable l -> Forall json_ok l -> l <> [] ->
  forall fuel depth d d' rest ws, (sum_list_with (fun v => S (json_size v)) l <= fuel)%nat ->
  depth + Z.of_nat (foldr Nat.max 0%nat (nesting <$> l)) <= maxNestingDepth -> forallb is_ws ws = true ->
  parse_elements fuel depth (ws ++ join (","%char :: nl d) (show d <$> l) ++ nl d' ++ "]"%char :: rest)
  = Some (coerce <$> l, rest).
Proof using Hnl.
  induction 1 as [|v l Hv Hl IH]; [done|]. intros [Hok Hoks]%Forall_cons _ fuel depth d d' rest ws Hf Hd Hws.
  cbn [sum_list_with list_fmap fmap foldr] in Hf, Hd. destruct fuel as [|fuel]; [lia|].
  destruct l as [|v' l]; cbn [parse_elements fmap list_fmap]; [cbn [join]|rewrite join_cons2].
  - rewrite (Hv fuel depth d) by (done || lia || (apply stops_ws; [apply Hnl|done])).
    cbn [mbind option_bind]. by rewrite !after_ws by (apply Hnl || done).
  - rewrite <- !app_assoc. rewrite (Hv fuel depth d) by (done || lia).
    cbn [mbind option_bind]. rewrite <- app_comm_cons. rewrite after_cons, decide_True by done.
    specialize (IH Hoks ltac:(done) fuel depth d d' rest (nl d)). cbn [fmap list_fmap] in IH.
    rewrite IH; [done|lia|cbn in Hd |- *; lia|apply Hnl].
Qed.

Lemma read_members l : Forall (fun p => readable p.2) l -> Forall (fun p => json_ok p.2) l -> l <> [] ->
  forall fuel depth d d' rest ws, (sum_list_with (fun p => S (json_size p.2)) l <= fuel)%nat ->
  depth + Z.of_nat (foldr Nat.max 0%nat ((fun p => nesting p.2) <$> l)) <= maxNestingDepth -> forallb is_ws ws = true ->
  parse_members fuel depth (ws ++ join (","%char :: nl d)
      ((fun p => GoJson.quote p.1 ++ (":"%char :: colon_ws) ++ show d p.2) <$> l) ++ nl d' ++ "}"%char :: rest)
  = Some ((fun p => (ToValidUTF8 p.1, coerce p.2)) <$> l, rest).
Proof using Hcolon Hnl.
  induction 1 as [|[k v] l Hv Hl IH]; [done|]. intros [Hok Hoks]%Forall_cons _ fuel depth d d' rest ws Hf Hd Hws.
  cbn [sum_list_with list_fmap fmap foldr fst snd] in *. destruct fuel as [|fuel]; [lia|].
  assert (forall x, parse_members (S fuel) depth (ws ++ GoJson.quote k ++ (":"%char :: colon_ws) ++ show d v ++ x) =
    '(v, r) ← parse_value fuel depth (colon_ws ++ show d v ++ x);
     match after ","%char r with
     | Some r => '(l, r) ← parse_members fuel depth r; Some ((ToValidUTF8 k, v) :: l, r)
     | None => r ← after "}"%char r; Some ([(ToValidUTF8 k, v)], r)
     end) as Hstep.
  { intros x. cbn [parse_members]. unfold GoJson.quote. rewrite <- !app_comm_cons, <- !app_assoc.
    rewrite after_ws, decide_True by done. cbn [mbind option_bind app]. rewrite unquote_quote.
    cbn [mbind option_bind]. by rewrite after_cons, decide_True by done. }
  destruct l as [|[k' v'] l]; cbn [fmap list_fmap fst snd]; [cbn [join]|rewrite join_cons2].
  - rewrite <- !app_assoc, Hstep. rewrite (Hv fuel depth d) by (done || lia || (apply stops_ws; [apply Hnl|done])).
    cbn [mbind option_bind]. by rewrite !after_ws by (apply Hnl || done).
  - rewrite <- !app_assoc, Hstep. rewrite (Hv fuel depth d) by (done || lia).
    cbn [mbind option_bind]. rewrite <- app_comm_cons. rewrite after_cons, decide_True by done.
    specialize (IH Hoks ltac:(done) fuel depth d d' rest (nl d)). cbn [fmap list_fmap fst snd] in IH.
    rewrite IH; [done|lia|cbn in Hd |- *; lia|apply Hnl].
Qed.

Lemma parse_brackets fuel depth ws t :
  forallb is_ws ws = true -> depth < maxNestingDepth ->
  parse_value (S fuel) depth (ws ++ "["%char :: t) =
    match after "]"%char t with
    | Some r => Some (JArr [], r)
    | None => '(l, r) ← parse_elements fuel (depth + 1) t; Some (JArr l, r)
    end /\
  parse_value (S fuel) depth (ws ++ "{"%char :: t) =
    match after "}"%char t with
    | Some r => Some (JObj [], r)
    | None => '(l, r) ← parse_members fuel (depth + 1) t; Some (JObj l, r)
    end.
Proof using.
  intros Hws Hd. cbn [parse_value]. rewrite !skip_ws_ws by done. cbn [skip_ws].
  change (is_ws "["%char) with false. change (is_ws "{"%char) with false. cbn iota.
  by rewrite (proj2 (Z.leb_gt maxNestingDepth depth)) by lia.
Qed.

(** Every value is read as it was written. *)
Lemma parse_show v : readable v.
Proof using Hcolon Hnl.
  induction v as [|b|lit|s|l IH|l IH] using json_ind'; intros fuel depth d rest ws Hok Hf Hd Hr Hws;
    (destruct fuel as [|fuel]; [by cbn in Hf; lia|]); cbn [GoJson.show coerce].
  1-4: cbn [parse_value]; rewrite skip_ws_ws by done.
  - done.
  - by destruct b.
  - apply bool_decide_eq_true in Hok. destruct (number_head _ _ _ Hok) as (c & t & -> & Hc).
    pose proof (number_app _ _ _ rest Hr Hok) as Hn.
    pose proof (parse_value_number fuel depth c (t ++ rest) Hc) as Hp. cbn [app] in *. by rewrite Hn in Hp.
  - unfold GoJson.quote. cbn [app skip_ws]. change (is_ws "034"%char) with false. cbn iota.
    rewrite <- app_assoc. cbn [app]. by rewrite unquote_quote.
  - apply json_ok_arr in Hok. cbn [json_size] in Hf. cbn [nesting] in Hd.
    destruct l as [|v l].
    { cbn [fmap list_fmap bracket app]. rewrite (proj1 (parse_brackets fuel depth ws _ Hws ltac:(lia))). done. }
    change (fmap (M:=list) (show (S d)) (v :: l)) with (show (S d) v :: (show (S d) <$> l)).
    rewrite bracket_cons. cbn [app]. rewrite (proj1 (parse_brackets fuel depth ws _ Hws ltac:(lia))).
    pose proof (read_elements (v :: l) IH Hok ltac:(done) fuel (depth + 1) (S d) d rest (nl (S d))
      ltac:(lia) ltac:(lia) (Hnl _)) as He.
    cbn [fmap list_fmap] in He. rewrite He.
    apply Forall_cons in Hok as [Hv _]. destruct (show_head (S d) v Hv) as (c & t & E & Hc & Hc' & _).
    assert (exists t', join (","%char :: nl (S d)) (show (S d) v :: (show (S d) <$> l)) = c :: t') as [t' ->].
    { rewrite E. destruct l; [by eexists|]. cbn [fmap list_fmap]. rewrite join_cons2. by eexists. }
    rewrite <- app_comm_cons, after_ws, decide_False by (done || apply Hnl). done.
  - apply json_ok_obj in Hok. cbn [json_size] in Hf. cbn [nesting] in Hd.
    destruct l as [|[k v] l].
    { cbn [fmap list_fmap bracket app]. rewrite (proj2 (parse_brackets fuel depth ws _ Hws ltac:(lia))). done. }
    set (f := fun p : str * json => _).
    change (fmap (M:=list) f ((k, v) :: l)) with (f (k, v) :: (f <$> l)).
    rewrite bracket_cons. cbn [app]. rewrite (proj2 (parse_brackets fuel depth ws _ Hws ltac:(lia))).
    pose proof (read_members ((k, v) :: l) IH Hok ltac:(done) fuel (depth + 1) (S d) d rest (nl (S d))
      ltac:(lia) ltac:(lia) (Hnl _)) as He. fold f in He.
    change (fmap (M:=list) f ((k, v) :: l)) with (f (k, v) :: (f <$> l)) in He. rewrite He.
    assert (exists t', join (","%char :: nl (S d)) (f (k, v) :: (f <$> l)) = "034"%char :: t') as [t' ->].
    { destruct l; [by eexists|]. cbn [fmap list_fmap]. rewrite join_cons2. by eexists. }
    rewrite <- app_comm_cons, after_ws, decide_False by (done || apply Hnl). done.
Qed.
End show.

(** ** Texts *)
Lemma length_join_ge {A} (sep : ascii) (x : str) (f : A -> str) l :
  l <> [] -> (sum_list_with (fun a => S (length (f a))) l <= S (length (join (sep :: x) (f <$> l))))%nat.
Proof.
  induction l as [|a [|b l] IH]; intros Hl; [done|cbn; lia|]. cbn [fmap list_fmap]. rewrite join_cons2, !length_app.
  specialize (IH ltac:(done)). cbn [fmap list_fmap] in IH. cbn [sum_list_with length] in *. lia.
Qed.
Lemma length_bracket nl o c d x l :
  (length o + length c + length (join (","%char :: nl (S d)) (x :: l)) <= length (bracket nl o c d (x :: l)))%nat.
Proof. cbn [bracket]. rewrite !length_app. lia. Qed.
Lemma sum_le {A} (f g : A -> nat) l :
  Forall (fun a => (f a <= g a)%nat) l -> (sum_list_with f l <= sum_list_with g l)%nat.
Proof. induction 1; cbn; lia. Qed.

Lemma size_show nl colon v : json_ok v -> forall d, (json_size v <= length (GoJson.show nl colon d v))%nat.
Proof.
  induction v as [|b|lit|s|l IH|l IH] using json_ind'; intros Hok d; cbn [json_size GoJson.show].
  - cbn. lia.
  - destruct b; cbn; lia.
  - apply bool_decide_eq_true, number_head in Hok as (c & t & -> & _). cbn. lia.
  - cbn. lia.
  - apply json_ok_arr in Hok. destruct l as [|v l]; [cbn; lia|].
    cbn [fmap list_fmap]. etrans; [|apply length_bracket].
    pose proof (length_join_ge ","%char (nl (S d)) (GoJson.show nl colon (S d)) (v :: l) ltac:(done)) as H.
    assert (sum_list_with (fun v => S (json_size v)) (v :: l) <=
            sum_list_with (fun v => S (length (GoJson.show nl colon (S d) v))) (v :: l))%nat as Hs.
    2:{ cbn [fmap list_fmap] in H. cbn [length]. lia. }
    apply sum_le, Forall_forall. intros x Hx. rewrite Forall_forall in IH, Hok. specialize (IH x Hx (Hok x Hx) (S d)). lia.
  - apply json_ok_obj in Hok. destruct l as [|p l]; [cbn; lia|]. set (f := fun p : str * json => GoJson.quote p.1 ++ colon ++ GoJson.show nl colon (S d) p.2).
    change (fmap (M:=list) f (p :: l)) with (f p :: (f <$> l)). etrans; [|apply length_bracket].
    pose proof (length_join_ge ","%char (nl (S d)) f (p :: l) ltac:(done)) as H.
    assert (sum_list_with (fun p => S (json_size p.2)) (p :: l) <= sum_list_with (fun p => S (length (f p))) (p :: l))%nat as Hs.
    2:{ change (fmap (M:=list) f (p :: l)) with (f p :: (f <$> l)) in H. cbn [length]. lia. }
    apply sum_le, Forall_forall. intros x Hx. rewrite Forall_forall in IH, Hok. specialize (IH x Hx (Hok x Hx) (S d)).
    unfold f. rewrite !length_app. cbn [length]. lia.
Qed.

(** A text in some layout. *)
Definition layout (nl : nat -> str) (colon : str) : Prop :=
  (forall d, forallb is_ws (nl d) = true) /\ exists ws, colon = ":"%char :: ws /\ forallb is_ws ws = true.
Lemma compact_layout : layout (fun _ => []) ":"%str.
Proof. split; [done|]. by exists []. Qed.
Lemma indent_layout indent : forallb is_ws indent = true -> layout (fun d => LF :: concat (replicate d indent)) ": "%str.
Proof.
  intros Hi. split; [|by exists " "%str]. intros d. cbn. induction d as [|d IH]; [done|].
  cbn. by rewrite forallb_app, Hi.
Qed.

Lemma parse_value_show nl colon v fuel rest :
  layout nl colon -> json_ok v -> Z.of_nat (nesting v) <= maxNestingDepth -> stops rest ->
  (length (GoJson.show nl colon 0 v) <= fuel)%nat ->
  parse_value fuel 0 (GoJson.show nl colon 0 v ++ rest) = Some (coerce v, rest).
Proof.
  intros (Hnl & ws & -> & Hws) Hok Hh Hr Hf.
  apply (parse_show nl ws Hnl Hws v fuel 0 0%nat rest []); try done.
  etrans; [by apply (size_show nl (":"%char :: ws) v Hok 0)|done].
Qed.

(** What is written is read. *)
Theorem parse_json_show nl colon v :
  layout nl colon -> json_ok v -> Z.of_nat (nesting v) <= maxNestingDepth ->
  parse_json (GoJson.show nl colon 0 v) = Some (coerce v).
Proof.
  intros Hl Hok Hh. unfold parse_json.
  pose proof (parse_value_show nl colon v (S (length (GoJson.show nl colon 0 v))) [] Hl Hok Hh I ltac:(lia)) as H.
  rewrite app_nil_r in H. by rewrite H.
Qed.
Theorem decode_first_show nl colon v rest :
  layout nl colon -> json_ok v -> Z.of_nat (nesting v) <= maxNestingDepth ->
  decode_first (GoJson.show nl colon 0 v ++ LF :: rest) = Some (coerce v, LF :: rest).
Proof.
  intros Hl Hok Hh. unfold decode_first.
  rewrite (parse_value_show nl colon v) by (done || (rewrite length_app; cbn; lia)).
  cbn. by rewrite orb_true_r.
Qed.

Lemma Unmarshal_Marshal {A} (d : dec A) old v :
  json_ok v -> Z.of_nat (nesting v) <= maxNestingDepth -> Unmarshal d old (Marshal v) = d old (coerce v).
Proof. intros. unfold Unmarshal, Marshal. by rewrite (parse_json_show _ _ v compact_layout). Qed.
Lemma Unmarshal_MarshalIndent {A} (d : dec A) indent old v :
  forallb is_ws indent = true -> json_ok v -> Z.of_nat (nesting v) <= maxNestingDepth ->
  Unmarshal d old (MarshalIndent indent v) = d old (coerce v).
Proof. intros. unfold Unmarshal, MarshalIndent. by rewrite (parse_json_show _ _ v (indent_layout _ H)). Qed.
Lemma Decode_Encode {A} (d : dec A) old v :
  json_ok v -> Z.of_nat (nesting v) <= maxNestingDepth -> Decode d old (Encode_stream v) = d old (coerce v).
Proof. intros. unfold Decode, Encode_stream, Marshal. by rewrite (decode_first_show _ _ v [] compact_layout). Qed.
Lemma Decode_EncodeIndent {A} (d : dec A) indent old v :
  forallb is_ws indent = true -> json_ok v -> Z.of_nat (nesting v) <= maxNestingDepth ->
  Decode d old (EncodeIndent_stream indent v) = d old (coerce v).
Proof.
  intros. unfold Decode, EncodeIndent_stream, MarshalIndent. by rewrite (decode_first_show _ _ v [] (indent_layout _ H)).
Qed.

(** ** Decoders *)
Lemma dec_int_Itoa bits old z : in_signed bits z -> dec_int bits old (JNum (Itoa z)) = Some z.
Proof. apply ParseInt_Itoa. Qed.
Lemma dec_int_JInt bits old z : in_signed bits z -> dec_int bits old (coerce (JInt z)) = Some z.
Proof. apply ParseInt_Itoa. Qed.
Lemma JNum_ok z : json_ok (JNum (Itoa z)).
Proof. apply bool_decide_eq_true, number_Itoa. Qed.

(** A slice that was empty takes the elements of the text. *)
Lemma dec_elements_map {A B} (zero : A) (d : dec A) (f : B -> json) (g : B -> A) l :
  Forall (fun b => d zero (f b) = Some (g b)) l -> dec_elements zero d [] (f <$> l) = Some (g <$> l).
Proof. induction 1 as [|b l Hb _ IH]; [done|]. cbn. rewrite Hb. cbn. by rewrite IH. Qed.
Lemma dec_slice_map {A B} (zero : A) (d : dec A) (f : B -> json) (g : B -> A) l :
  Forall (fun b => d zero (coerce (f b)) = Some (g b)) l ->
  dec_slice zero d [] (coerce (JArr (f <$> l))) = Some (g <$> l).
Proof.
  intros H. cbn [coerce]. rewrite <- list_fmap_compose. by apply (dec_elements_map zero d (coerce ∘ f)).
Qed.
Lemma dec_strs_map l : dec_slice [] dec_str [] (coerce (JArr (JStr <$> l))) = Some (ToValidUTF8 <$> l).
Proof. apply dec_slice_map, Forall_forall. done. Qed.
Lemma dec_ptr_Some {A} (zero : A) (d : dec A) v a :
  v <> JNull -> d zero v = Some a -> dec_ptr zero d None v = Some (Some a).
Proof. intros Hv E. unfold dec_ptr. destruct v; [done|..]; cbn [default]; by rewrite E. Qed.

#[export] Hint Resolve compact_layout JNum_ok : livegrep.

(** A value that can be written, with brackets at most [k] deep. *)
Definition small (k : nat) (v : json) : Prop := json_ok v /\ (nesting v <= k)%nat.
Lemma small_null k : small k JNull.
Proof. split; [done|cbn; lia]. Qed.
Lemma small_bool k b : small k (JBool b).
Proof. split; [done|cbn; lia]. Qed.
Lemma small_str k s : small k (JStr s).
Proof. split; [done|cbn; lia]. Qed.
Lemma small_int k z : small k (JInt z).
Proof. split; [apply JNum_ok|cbn; lia]. Qed.
Lemma small_arr k l : Forall (small k) l -> small (S k) (JArr l).
Proof.
  intros H. split; [apply json_ok_arr; by eapply Forall_impl; [done|intros ? []]|].
  cbn [nesting]. apply le_n_S. induction H as [|v l [_ Hv] _ IH]; cbn; lia.
Qed.
Lemma small_obj k l : Forall (fun p => small k p.2) l -> small (S k) (JObj l).
Proof.
  intros H. split; [apply json_ok_obj; by eapply Forall_impl; [done|intros ? []]|].
  cbn [nesting]. apply le_n_S. induction H as [|v l [_ Hv] _ IH]; cbn; lia.
Qed.
Lemma small_map {A} k (f : A -> json) l : (forall a, small k (f a)) -> Forall (small k) (f <$> l).
Proof. intros H. apply Forall_fmap, Forall_forall. intros a _. apply H. Qed.
Lemma small_le k k' v : small k v -> (k <= k')%nat -> small k' v.
Proof. intros [? ?] ?. split; [done|lia]. Qed.

Create HintDb json.
#[export] Hint Resolve small_null small_bool small_str small_int small_arr small_obj small_map : json.
#[export] Hint Constructors Forall : json.

(** Prove that a value is small by its shape; facts about the parts are in the
    database. *)
Ltac json_small :=
  intros;
  lazymatch goal with
  | |- small _ JNull => apply small_null
  | |- small _ (JStr _) => apply small_str
  | |- small _ (JInt _) => apply small_int
  | |- small _ (JBool _) => apply small_bool
  | |- small (S _) (JObj _) => apply small_obj; json_small
  | |- small (S _) (JArr (_ <$> _)) => apply small_arr, small_map; json_small
  | |- small (S _) (JArr _) => apply small_arr; json_small
  | |- Forall _ [] => constructor
  | |- Forall _ (_ :: _) => constructor; [cbn [snd]; json_small|json_small]
  | |- Forall _ (_ ++ _) => apply Forall_app; split; json_small
  | |- small _ _ => solve [auto with json | eapply small_le; [solve [auto with json]|lia]]
  end.

Lemma Decode_small {A} (d : dec A) old k v :
  small k v -> bool_decide (Z.of_nat k <= maxNestingDepth) = true -> Decode d old (Encode_stream v) = d old (coerce v).
Proof. intros [? ?] Hk%bool_decide_eq_true. apply Decode_Encode; [done|lia]. Qed.
Lemma Unmarshal_small {A} (d : dec A) old k v :
  small k v -> bool_decide (Z.of_nat k <= maxNestingDepth) = true -> Unmarshal d old (Marshal v) = d old (coerce v).
Proof. intros [? ?] Hk%bool_decide_eq_true. apply Unmarshal_Marshal; [done|lia]. Qed.
Lemma Unmarshal_indent_small {A} (d : dec A) old indent k v :
  forallb is_ws indent = true -> small k v -> bool_decide (Z.of_nat k <= maxNestingDepth) = true ->
  Unmarshal d old (MarshalIndent indent v) = d old (coerce v).
Proof. intros ? [? ?] Hk%bool_decide_eq_true. apply Unmarshal_MarshalIndent; [done..|lia]. Qed.

(** *** Structs *)
Definition ascii_key (k : str) : bool := forallb (fun c => byte_val c <? 128) k.
Lemma Valid_ascii_key k : ascii_key k = true -> ToValidUTF8 k = k.
Proof.
  intros H%forallb_Forall. apply Valid_ascii. eapply Forall_impl; [done|]. by intros c ?%Z.ltb_lt.
Qed.
Lemma coerce_obj l : forallb (fun p : str * json => ascii_key p.1) l = true ->
  coerce (JObj l) = JObj ((fun p => (p.1, coerce p.2)) <$> l).
Proof.
  intros H. cbn [coerce]. f_equal. induction l as [|[k v] l IH]; [done|].
  cbn in H. apply andb_true_iff in H as [Hk H]. cbn. by rewrite Valid_ascii_key, IH.
Qed.

Lemma dec_key_hit {B} names k v l name (d : dec B) old b :
  bool_decide (resolve names k = Some name) = true -> d old v = Some b ->
  dec_key names ((k, v) :: l) name d old = dec_key names l name d b.
Proof. intros H%bool_decide_eq_true E. cbn [dec_key]. by rewrite decide_True, E. Qed.
Lemma dec_key_miss {B} names k v l name (d : dec B) old :
  bool_decide (resolve names k = Some name) = false ->
  dec_key names ((k, v) :: l) name d old = dec_key names l name d old.
Proof. intros H%bool_decide_eq_false. cbn [dec_key]. by rewrite decide_False. Qed.
Lemma dec_key_nil {B} names name (d : dec B) old : dec_key names [] name d old = Some old.
Proof. done. Qed.

(** A struct that was written as [l], with keys in ASCII. *)
Lemma dec_struct_obj {A} (read : list (str * json) -> A -> option A) old l :
  forallb (fun p : str * json => ascii_key p.1) l = true ->
  dec_struct read old (coerce (JObj l)) = read ((fun p => (p.1, coerce p.2)) <$> l) old.
Proof. intros H. by rewrite coerce_obj. Qed.

(** Decode the fields of an object one after the other; a field is decoded by
    computation or by a fact of the database [dec]. *)
Create HintDb dec.
#[export] Hint Resolve dec_int_JInt dec_strs_map : dec.
Ltac dec_field := first [reflexivity | solve [eauto with dec]].
Ltac dec_keys :=
  repeat first
    [ rewrite dec_key_nil; cbn [mbind option_bind]
    | erewrite dec_key_hit; [|vm_compute; reflexivity|dec_field]
    | rewrite dec_key_miss by (vm_compute; reflexivity) ].
Ltac dec_record :=
  match goal with |- ?d _ (coerce (?f _)) = _ => unfold d, f end;
  rewrite dec_struct_obj by (vm_compute; reflexivity);
  cbn [fmap list_fmap app fst snd]; dec_keys; try reflexivity.

(** *** Structs with fields that are left out when they are empty *)
Definition keyed (l : list (str * json)) : list (str * json) := (fun p => (p.1, coerce p.2)) <$> l.
Definition ascii_keys (l : list (str * json)) : bool := forallb (fun p => ascii_key p.1) l.
Lemma keyed_app l1 l2 : keyed (l1 ++ l2) = keyed l1 ++ keyed l2.
Proof. apply fmap_app. Qed.
Lemma ascii_keys_app l1 l2 : ascii_keys (l1 ++ l2) = ascii_keys l1 && ascii_keys l2.
Proof. apply forallb_app. Qed.
Lemma dec_struct_keyed {A} (read : list (str * json) -> A -> option A) old l :
  ascii_keys l = true -> dec_struct read old (coerce (JObj l)) = read (keyed l) old.
Proof. apply dec_struct_obj. Qed.

Lemma dec_key_app {B} names l1 l2 name (d : dec B) old :
  dec_key names (l1 ++ l2) name d old = b ← dec_key names l1 name d old; dec_key names l2 name d b.
Proof.
  revert old. induction l1 as [|[k v] l1 IH]; intros old; [done|]. cbn [app dec_key].
  destruct (if decide _ then _ else _) as [b|]; [apply IH|done].
Qed.

(** A part of an object under one key. *)
Definition only (k : str) (l : list (str * json)) : Prop := l = [] \/ exists v, l = [(k, v)].
Lemma only_ascii k l : only k l -> ascii_key k = true -> ascii_keys l = true.
Proof. intros [-> |[v ->]] H; [done|]. unfold ascii_keys. cbn [forallb fst]. by rewrite H. Qed.
Lemma only_miss {B} k l names name (d : dec B) old :
  only k l -> bool_decide (resolve names k = Some name) = false -> dec_key names (keyed l) name d old = Some old.
Proof. intros [-> |[v ->]] H; [done|]. cbn [keyed fmap list_fmap fst snd]. by rewrite dec_key_miss. Qed.
Lemma only_hit {B} names name (d : dec B) old v b :
  bool_decide (resolve names name = Some name) = true -> d old (coerce v) = Some b ->
  dec_key names (keyed [(name, v)]) name d old = Some b.
Proof. intros H E. cbn [keyed fmap list_fmap fst snd]. by erewrite dec_key_hit. Qed.

Lemma only_str k s : only k (omit_str k s).
Proof. unfold omit_str. case_decide; [by left|right; eauto]. Qed.
Lemma only_int k z : only k (omit_int k z).
Proof. unfold omit_int. case_decide; [by left|right; eauto]. Qed.
Lemma only_bool k b : only k (omit_bool k b).
Proof. destruct b; [right; eauto|by left]. Qed.
Lemma only_list {A} k (f : A -> json) l : only k (omit_list k f l).
Proof. unfold omit_list. case_decide; [by left|right; eauto]. Qed.
Lemma only_ptr {A} k (f : A -> json) o : only k (omit_ptr k f o).
Proof. destruct o; [right; eauto|by left]. Qed.
#[export] Hint Resolve only_str only_int only_bool only_list only_ptr : json.

Section omit.
Context (names : list str) (name : str) (Hname : bool_decide (resolve names name = Some name) = true).
Lemma omit_str_hit s : dec_key names (keyed (omit_str name s)) name dec_str [] = Some (ToValidUTF8 s).
Proof using Hname. unfold omit_str. destruct (decide (s = [])) as [->|Hs]; [done|]. by apply only_hit. Qed.
Lemma omit_int_hit bits z : in_signed bits z -> dec_key names (keyed (omit_int name z)) name (dec_int bits) 0 = Some z.
Proof using Hname.
  intros Hz. unfold omit_int. destruct (decide (z = 0)) as [->|Hz0]; [done|]. apply only_hit; [done|]. by apply dec_int_JInt.
Qed.
Lemma omit_bool_hit b : dec_key names (keyed (omit_bool name b)) name dec_bool false = Some b.
Proof using Hname. destruct b; [|done]. by apply only_hit. Qed.
Lemma omit_strs_hit l : dec_key names (keyed (omit_list name JStr l)) name (dec_slice [] dec_str) [] = Some (ToValidUTF8 <$> l).
Proof using Hname.
  unfold omit_list. destruct (decide (length l = 0%nat)) as [Hl|Hl]; [by destruct l|]. apply only_hit; [done|]. apply dec_strs_map.
Qed.
Lemma omit_list_hit {A B} (zero : A) (d : dec A) (f : B -> json) (g : B -> A) l :
  Forall (fun b => d zero (coerce (f b)) = Some (g b)) l ->
  dec_key names (keyed (omit_list name f l)) name (dec_slice zero d) [] = Some (g <$> l).
Proof using Hname.
  intros Hf. unfold omit_list. destruct (decide (length l = 0%nat)) as [Hl|Hl]; [by destruct l|]. apply only_hit; [done|]. by apply dec_slice_map.
Qed.
Lemma omit_ptr_hit {A B} (zero : A) (d : dec A) (f : B -> json) (g : B -> A) o :
  (forall b, o = Some b -> f b <> JNull /\ coerce (f b) <> JNull /\ d zero (coerce (f b)) = Some (g b)) ->
  dec_key names (keyed (omit_ptr name f o)) name (dec_ptr zero d) None = Some (g <$> o).
Proof using Hname.
  intros Hf. destruct o as [b|]; [|done]. destruct (Hf b eq_refl) as (_ & Hn & Hd). cbn [omit_ptr].
  apply only_hit; [done|]. by apply dec_ptr_Some.
Qed.
End omit.

Lemma bind_step {A B} (e : option A) (k : A -> option B) a r : e = Some a -> k a = r -> (e ≫= k) = r.
Proof. by intros ->. Qed.
Lemma dec_key_keyed_app {B} names l1 l2 name (d : dec B) old b c :
  dec_key names (keyed l1) name d old = Some b -> dec_key names (keyed l2) name d b = Some c ->
  dec_key names (keyed (l1 ++ l2)) name d old = Some c.
Proof. intros E1 E2. by rewrite keyed_app, dec_key_app, E1. Qed.

(** Decode a struct that was written as the parts of an object: each field from
    each part; facts about its own parts are in the database [dec]. *)
Ltac dec_part :=
  first
    [ eapply only_miss; [solve [auto with json]|vm_compute; reflexivity]
    | eapply omit_str_hit; vm_compute; reflexivity
    | eapply omit_strs_hit; vm_compute; reflexivity
    | eapply omit_int_hit; [vm_compute; reflexivity|done]
    | eapply omit_bool_hit; vm_compute; reflexivity
    | solve [eauto with dec] ].
Ltac dec_parts :=
  lazymatch goal with
  | |- dec_key _ (keyed (_ ++ _)) _ _ _ = _ => eapply dec_key_keyed_app; [dec_part|dec_parts]
  | _ => dec_part
  end.
Ltac ascii_parts :=
  rewrite ?ascii_keys_app; repeat (apply andb_true_iff; split);
  (eapply only_ascii; [solve [auto with json]|reflexivity]).
Ltac dec_omitted d f :=
  unfold d, f; rewrite dec_struct_keyed by ascii_parts; cbv beta zeta;
  repeat (eapply bind_step; [dec_parts|cbv beta]); reflexivity.
