(* ===== verification/Config.v ===== *)
(** * Configurations: [server/config/config.go] and [src/proto/config.proto]

    The configuration of the web server, and the one of the index, which
    [livegrep-github-reindex] writes and the indexer, [livegrep-fetch-reindex]
    and the web server read.  Each struct is a record, its zero value, and a
    decoder with the names of its JSON fields. *)
From S2P Require Import Prelude GoStrings GoMap GoJson.

(** ** The configuration of the server *)
Inductive BackendConfig := mkBackendConfig {
  cb_Id : str; cb_Addr : str; cb_MaxMessageSize : Z; cb_Backup : option BackendConfig;
}.
Record StatsD := mkStatsD { Address : str; Prefix : str; Tags : list str; TagsFormat : str }.
Record GoogleIAPConfig := mkIAP { ProjectID : str; ProjectNumber : str; BackendServiceID : str }.
Record RepoConfig := mkRepoConfig {
  repo_Name : str; repo_Path : str; repo_Revisions : list str; repo_Metadata : gmap str str; repo_WalkSubmodules : bool;
}.
Record IndexConfig := mkIndexConfig { ic_Name : str; ic_Repositories : list RepoConfig }.
Record LinkConfig := mkLinkConfig { Label : str; UrlTemplate : str; WhitelistPattern : str }.
Record Config := mkConfig {
  c_DocRoot : str; c_Feedback : str; c_GoogleAnalyticsId : str; c_IAP : GoogleIAPConfig;
  c_ReverseProxy : bool; c_Backends : list BackendConfig; c_Listen : str;
  c_HeaderHTML : str; c_FooterHTML : str; c_Sentry : str; c_Reload : bool; c_StatsD : StatsD;
  c_DefaultMaxMatches : Z; c_IndexConfig : IndexConfig; c_DefaultSearchRepos : list str;
  c_LinkConfigs : list LinkConfig; c_ZoektRepoCache : str; c_FileviewerOnly : bool;
}.
Definition c_Repositories (c : Config) : list RepoConfig := ic_Repositories (c_IndexConfig c).

Definition set_IndexConfig (x : IndexConfig) (c : Config) : Config :=
  mkConfig (c_DocRoot c) (c_Feedback c) (c_GoogleAnalyticsId c) (c_IAP c) (c_ReverseProxy c) (c_Backends c)
    (c_Listen c) (c_HeaderHTML c) (c_FooterHTML c) (c_Sentry c) (c_Reload c) (c_StatsD c) (c_DefaultMaxMatches c)
    x (c_DefaultSearchRepos c) (c_LinkConfigs c) (c_ZoektRepoCache c) (c_FileviewerOnly c).

Definition zero_Backend : BackendConfig := mkBackendConfig [] [] 0 None.
Definition zero_StatsD : StatsD := mkStatsD [] [] [] [].
Definition zero_RepoConfig : RepoConfig := mkRepoConfig [] [] [] ∅ false.
Definition zero_IndexConfig : IndexConfig := mkIndexConfig [] [].
Definition zero_LinkConfig : LinkConfig := mkLinkConfig [] [] [].
Definition zero_Config : Config :=
  mkConfig [] [] [] (mkIAP [] [] []) false [] [] [] [] [] false zero_StatsD 0 zero_IndexConfig [] [] [] false.

(** A backup can have a backup: [n] bounds how deep the text goes. *)
Definition Backend_fields : list str := ["id"; "addr"; "maxMessageSize"; "backup_addr"]%str.
Definition dec_Backend_with (dec_backup : dec BackendConfig) : dec BackendConfig :=
  dec_struct (fun l b => let names := Backend_fields in
    id ← dec_key names l "id"%str dec_str (cb_Id b);
    addr ← dec_key names l "addr"%str dec_str (cb_Addr b);
    size ← dec_key names l "maxMessageSize"%str (dec_int 64) (cb_MaxMessageSize b);
    backup ← dec_key names l "backup_addr"%str (dec_ptr zero_Backend dec_backup) (cb_Backup b);
    Some (mkBackendConfig id addr size backup)).
Fixpoint dec_Backend_n (n : nat) : dec BackendConfig :=
  match n with O => fun _ _ => None | S n => dec_Backend_with (dec_Backend_n n) end.
Definition dec_Backend : dec BackendConfig := fun old v => dec_Backend_n (S (nesting v)) old v.

Definition dec_StatsD : dec StatsD :=
  dec_struct (fun l s => let names := ["address"; "prefix"; "tags"; "tags_format"]%str in
    address ← dec_key names l "address"%str dec_str (Address s);
    prefix ← dec_key names l "prefix"%str dec_str (Prefix s);
    tags ← dec_key names l "tags"%str (dec_slice [] dec_str) (Tags s);
    format ← dec_key names l "tags_format"%str dec_str (TagsFormat s);
    Some (mkStatsD address prefix tags format)).
Definition dec_IAP : dec GoogleIAPConfig :=
  dec_struct (fun l c => let names := ["project_number"; "backend_service_id"; "project_id"]%str in
    number ← dec_key names l "project_number"%str dec_str (ProjectNumber c);
    service ← dec_key names l "backend_service_id"%str dec_str (BackendServiceID c);
    id ← dec_key names l "project_id"%str dec_str (ProjectID c);
    Some (mkIAP id number service)).
Definition dec_RepoConfig : dec RepoConfig :=
  dec_struct (fun l r => let names := ["path"; "name"; "revisions"; "metadata"; "walk_submodules"]%str in
    path ← dec_key names l "path"%str dec_str (repo_Path r);
    name ← dec_key names l "name"%str dec_str (repo_Name r);
    revisions ← dec_key names l "revisions"%str (dec_slice [] dec_str) (repo_Revisions r);
    metadata ← dec_key names l "metadata"%str dec_map (repo_Metadata r);
    walk ← dec_key names l "walk_submodules"%str dec_bool (repo_WalkSubmodules r);
    Some (mkRepoConfig name path revisions metadata walk)).
Definition dec_IndexConfig : dec IndexConfig :=
  dec_struct (fun l c => let names := ["name"; "repositories"]%str in
    name ← dec_key names l "name"%str dec_str (ic_Name c);
    repositories ← dec_key names l "repositories"%str (dec_slice zero_RepoConfig dec_RepoConfig) (ic_Repositories c);
    Some (mkIndexConfig name repositories)).
Definition dec_LinkConfig : dec LinkConfig :=
  dec_struct (fun l c => let names := ["label"; "url_template"; "whitelist_pattern"]%str in
    label ← dec_key names l "label"%str dec_str (Label c);
    url ← dec_key names l "url_template"%str dec_str (UrlTemplate c);
    pattern ← dec_key names l "whitelist_pattern"%str dec_str (WhitelistPattern c);
    Some (mkLinkConfig label url pattern)).

Definition Config_fields : list str :=
  ["docroot"; "feedback"; "google_analytics_id"; "google_iap_config"; "reverse_proxy"; "backends"; "listen";
   "header_html"; "footer_html"; "sentry"; "reload"; "statsd"; "default_max_matches"; "index_config";
   "default_search_repos"; "file_links"; "ZoektRepoCache"; "FileviewerOnly"]%str.
Definition dec_Config : dec Config :=
  dec_struct (fun l c => let names := Config_fields in
    docroot ← dec_key names l "docroot"%str dec_str (c_DocRoot c);
    feedback ← dec_key names l "feedback"%str (dec_single "mailto"%str) (c_Feedback c);
    analytics ← dec_key names l "google_analytics_id"%str dec_str (c_GoogleAnalyticsId c);
    iap ← dec_key names l "google_iap_config"%str dec_IAP (c_IAP c);
    proxy ← dec_key names l "reverse_proxy"%str dec_bool (c_ReverseProxy c);
    backends ← dec_key names l "backends"%str (dec_slice zero_Backend dec_Backend) (c_Backends c);
    listen ← dec_key names l "listen"%str dec_str (c_Listen c);
    header ← dec_key names l "header_html"%str dec_str (c_HeaderHTML c);
    footer ← dec_key names l "footer_html"%str dec_str (c_FooterHTML c);
    sentry ← dec_key names l "sentry"%str (dec_single "uri"%str) (c_Sentry c);
    reload ← dec_key names l "reload"%str dec_bool (c_Reload c);
    statsd ← dec_key names l "statsd"%str dec_StatsD (c_StatsD c);
    matches ← dec_key names l "default_max_matches"%str (dec_int 32) (c_DefaultMaxMatches c);
    index ← dec_key names l "index_config"%str dec_IndexConfig (c_IndexConfig c);
    search ← dec_key names l "default_search_repos"%str (dec_slice [] dec_str) (c_DefaultSearchRepos c);
    links ← dec_key names l "file_links"%str (dec_slice zero_LinkConfig dec_LinkConfig) (c_LinkConfigs c);
    zoekt ← dec_key names l "ZoektRepoCache"%str dec_str (c_ZoektRepoCache c);
    viewer ← dec_key names l "FileviewerOnly"%str dec_bool (c_FileviewerOnly c);
    Some (mkConfig docroot feedback analytics iap proxy backends listen header footer sentry reload statsd
            matches index search links zoekt viewer)).

(** ** The configuration of the index *)
Record CloneOptions := mkCloneOptions { Depth : Z; Username : str; PasswordEnv : str }.
Record RepoMetadata := mkRepoMetadata { UrlPattern : str; Remote : str; Github : str; Labels : list str }.
Record PathSpec := mkPathSpec {
  ps_Path : str; ps_Name : str; OrderedContents : str; ps_Metadata : option RepoMetadata;
}.
Record RepoSpec := mkRepoSpec {
  rs_Path : str; rs_Name : str; Revisions : list str; rs_Metadata : option RepoMetadata;
  rs_WalkSubmodules : bool; rs_CloneOptions : option CloneOptions;
}.
(** The elements of the slices are pointers. *)
Record IndexSpec := mkIndexSpec {
  is_Name : str; is_Paths : list (option PathSpec); Repositories : list (option RepoSpec);
}.
Definition zero_Metadata : RepoMetadata := mkRepoMetadata [] [] [] [].
Definition zero_CloneOptions : CloneOptions := mkCloneOptions 0 [] [].
Definition zero_PathSpec : PathSpec := mkPathSpec [] [] [] None.
Definition zero_RepoSpec : RepoSpec := mkRepoSpec [] [] [] None false None.
Definition zero_IndexSpec : IndexSpec := mkIndexSpec [] [] [].

Definition enc_Metadata (m : RepoMetadata) : json :=
  JObj (omit_str "url_pattern"%str (UrlPattern m) ++ omit_str "remote"%str (Remote m)
        ++ omit_str "github"%str (Github m) ++ omit_list "labels"%str JStr (Labels m)).
Definition enc_CloneOptions (o : CloneOptions) : json :=
  JObj (omit_int "depth"%str (Depth o) ++ omit_str "username"%str (Username o)
        ++ omit_str "password_env"%str (PasswordEnv o)).
Definition enc_PathSpec (p : PathSpec) : json :=
  JObj (omit_str "path"%str (ps_Path p) ++ omit_str "name"%str (ps_Name p)
        ++ omit_str "ordered_contents"%str (OrderedContents p) ++ omit_ptr "metadata"%str enc_Metadata (ps_Metadata p)).
Definition enc_RepoSpec (r : RepoSpec) : json :=
  JObj (omit_str "path"%str (rs_Path r) ++ omit_str "name"%str (rs_Name r)
        ++ omit_list "revisions"%str JStr (Revisions r) ++ omit_ptr "metadata"%str enc_Metadata (rs_Metadata r)
        ++ omit_bool "walk_submodules"%str (rs_WalkSubmodules r)
        ++ omit_ptr "clone_options"%str enc_CloneOptions (rs_CloneOptions r)).
Definition enc_IndexSpec (s : IndexSpec) : json :=
  JObj (omit_str "name"%str (is_Name s) ++ omit_list "paths"%str (enc_ptr enc_PathSpec) (is_Paths s)
        ++ omit_list "repositories"%str (enc_ptr enc_RepoSpec) (Repositories s)).

Definition dec_Metadata : dec RepoMetadata :=
  dec_struct (fun l m => let names := ["url_pattern"; "remote"; "github"; "labels"]%str in
    pattern ← dec_key names l "url_pattern"%str dec_str (UrlPattern m);
    remote ← dec_key names l "remote"%str dec_str (Remote m);
    github ← dec_key names l "github"%str dec_str (Github m);
    labels ← dec_key names l "labels"%str (dec_slice [] dec_str) (Labels m);
    Some (mkRepoMetadata pattern remote github labels)).
Definition dec_CloneOptions : dec CloneOptions :=
  dec_struct (fun l o => let names := ["depth"; "username"; "password_env"]%str in
    depth ← dec_key names l "depth"%str (dec_int 32) (Depth o);
    username ← dec_key names l "username"%str dec_str (Username o);
    password ← dec_key names l "password_env"%str dec_str (PasswordEnv o);
    Some (mkCloneOptions depth username password)).
Definition dec_PathSpec : dec PathSpec :=
  dec_struct (fun l p => let names := ["path"; "name"; "ordered_contents"; "metadata"]%str in
    path ← dec_key names l "path"%str dec_str (ps_Path p);
    name ← dec_key names l "name"%str dec_str (ps_Name p);
    contents ← dec_key names l "ordered_contents"%str dec_str (OrderedContents p);
    metadata ← dec_key names l "metadata"%str (dec_ptr zero_Metadata dec_Metadata) (ps_Metadata p);
    Some (mkPathSpec path name contents metadata)).
Definition dec_RepoSpec : dec RepoSpec :=
  dec_struct (fun l r =>
    let names := ["path"; "name"; "revisions"; "metadata"; "walk_submodules"; "clone_options"]%str in
    path ← dec_key names l "path"%str dec_str (rs_Path r);
    name ← dec_key names l "name"%str dec_str (rs_Name r);
    revisions ← dec_key names l "revisions"%str (dec_slice [] dec_str) (Revisions r);
    metadata ← dec_key names l "metadata"%str (dec_ptr zero_Metadata dec_Metadata) (rs_Metadata r);
    walk ← dec_key names l "walk_submodules"%str dec_bool (rs_WalkSubmodules r);
    options ← dec_key names l "clone_options"%str (dec_ptr zero_CloneOptions dec_CloneOptions) (rs_CloneOptions r);
    Some (mkRepoSpec path name revisions metadata walk options)).
Definition dec_IndexSpec : dec IndexSpec :=
  dec_struct (fun l s => let names := ["name"; "paths"; "repositories"]%str in
    name ← dec_key names l "name"%str dec_str (is_Name s);
    paths ← dec_key names l "paths"%str (dec_slice None (dec_ptr zero_PathSpec dec_PathSpec)) (is_Paths s);
    repositories ← dec_key names l "repositories"%str (dec_slice None (dec_ptr zero_RepoSpec dec_RepoSpec)) (Repositories s);
    Some (mkIndexSpec name paths repositories)).

(** The file, as [json.MarshalIndent] prints it. *)
Definition index_text (s : IndexSpec) : str := MarshalIndent "  "%str (enc_IndexSpec s).

#[export] Instance Metadata_eq_dec : EqDecision RepoMetadata.
Proof. solve_decision. Defined.
#[export] Instance CloneOptions_eq_dec : EqDecision CloneOptions.
Proof. solve_decision. Defined.
#[export] Instance RepoSpec_eq_dec : EqDecision RepoSpec.
Proof. solve_decision. Defined.

(** A repository of which only the name and the directory are given. *)
Definition plain_repo (name path : str) : RepoConfig := mkRepoConfig name path [] ∅ false.
