(* ===== verification/ConfigSpec.v ===== *)
(** * One file, three readers

    The configuration of the index that one program writes is the one the
    others read. *)
From S2P Require Import Prelude GoStrings GoMap GoJson GoJsonSpec Config.

(** Strings come back in UTF-8. *)
Definition clean_Metadata (m : RepoMetadata) : RepoMetadata :=
  mkRepoMetadata (ToValidUTF8 (UrlPattern m)) (ToValidUTF8 (Remote m)) (ToValidUTF8 (Github m)) (ToValidUTF8 <$> Labels m).
Definition clean_CloneOptions (o : CloneOptions) : CloneOptions :=
  mkCloneOptions (Depth o) (ToValidUTF8 (Username o)) (ToValidUTF8 (PasswordEnv o)).
Definition clean_PathSpec (p : PathSpec) : PathSpec :=
  mkPathSpec (ToValidUTF8 (ps_Path p)) (ToValidUTF8 (ps_Name p)) (ToValidUTF8 (OrderedContents p))
    (clean_Metadata <$> ps_Metadata p).
Definition clean_RepoSpec (r : RepoSpec) : RepoSpec :=
  mkRepoSpec (ToValidUTF8 (rs_Path r)) (ToValidUTF8 (rs_Name r)) (ToValidUTF8 <$> Revisions r)
    (clean_Metadata <$> rs_Metadata r) (rs_WalkSubmodules r) (clean_CloneOptions <$> rs_CloneOptions r).
Definition clean_IndexSpec (s : IndexSpec) : IndexSpec :=
  mkIndexSpec (ToValidUTF8 (is_Name s)) (option_map clean_PathSpec <$> is_Paths s) (option_map clean_RepoSpec <$> Repositories s).

Lemma dec_Metadata_enc m : dec_Metadata zero_Metadata (coerce (enc_Metadata m)) = Some (clean_Metadata m).
Proof. dec_omitted dec_Metadata enc_Metadata. Qed.

Lemma dec_CloneOptions_enc o : in_signed 32 (Depth o) ->
  dec_CloneOptions zero_CloneOptions (coerce (enc_CloneOptions o)) = Some (clean_CloneOptions o).
Proof. intros H. dec_omitted dec_CloneOptions enc_CloneOptions. Qed.

Lemma dec_Metadata_ptr names o : bool_decide (resolve names "metadata"%str = Some "metadata"%str) = true ->
  dec_key names (keyed (omit_ptr "metadata"%str enc_Metadata o)) "metadata"%str (dec_ptr zero_Metadata dec_Metadata) None
  = Some (clean_Metadata <$> o).
Proof. intros H. apply omit_ptr_hit; [done|]. intros m _. split_and!; [done..|apply dec_Metadata_enc]. Qed.
#[local] Hint Extern 1 (dec_key _ _ "metadata"%str _ _ = _) => eapply dec_Metadata_ptr; vm_compute; reflexivity : dec.

Lemma dec_PathSpec_enc p : dec_PathSpec zero_PathSpec (coerce (enc_PathSpec p)) = Some (clean_PathSpec p).
Proof. dec_omitted dec_PathSpec enc_PathSpec. Qed.

(** Depths are 32-bit integers. *)
Definition int_RepoSpec (r : RepoSpec) : Prop :=
  match rs_CloneOptions r with Some o => in_signed 32 (Depth o) | None => True end.
#[export] Instance int_RepoSpec_dec r : Decision (int_RepoSpec r).
Proof. unfold int_RepoSpec. destruct (rs_CloneOptions r); apply _. Defined.
Definition int_IndexSpec (s : IndexSpec) : Prop :=
  Forall (fun o => match o with Some r => int_RepoSpec r | None => True end) (Repositories s).

Lemma dec_RepoSpec_enc r : int_RepoSpec r -> dec_RepoSpec zero_RepoSpec (coerce (enc_RepoSpec r)) = Some (clean_RepoSpec r).
Proof.
  intros Hr. assert (dec_key ["path"; "name"; "revisions"; "metadata"; "walk_submodules"; "clone_options"]%str
    (keyed (omit_ptr "clone_options"%str enc_CloneOptions (rs_CloneOptions r))) "clone_options"%str
    (dec_ptr zero_CloneOptions dec_CloneOptions) None = Some (clean_CloneOptions <$> rs_CloneOptions r)).
  { apply omit_ptr_hit; [vm_compute; reflexivity|]. intros o Ho. unfold int_RepoSpec in Hr. rewrite Ho in Hr.
    split_and!; [done..|by apply dec_CloneOptions_enc]. }
  dec_omitted dec_RepoSpec enc_RepoSpec.
Qed.

(** ** The configuration of the index *)
Lemma dec_pointers {A B} (zero : A) (d : dec A) (f : B -> json) (g : B -> A) (P : B -> Prop) l :
  (forall b, P b -> coerce (f b) <> JNull /\ d zero (coerce (f b)) = Some (g b)) ->
  Forall (fun o => match o with Some b => P b | None => True end) l ->
  Forall (fun o => dec_ptr zero d None (coerce (enc_ptr f o)) = Some (option_map g o)) l.
Proof.
  intros Hf Hl. eapply Forall_impl; [exact Hl|]. intros [b|] Hb; [|done]. destruct (Hf b Hb) as [Hn E].
  cbn [enc_ptr from_option option_map]. by apply dec_ptr_Some.
Qed.

Lemma dec_IndexSpec_enc s : int_IndexSpec s -> dec_IndexSpec zero_IndexSpec (coerce (enc_IndexSpec s)) = Some (clean_IndexSpec s).
Proof.
  intros Hs. set (names := ["name"; "paths"; "repositories"]%str).
  assert (dec_key names (keyed (omit_list "paths"%str (enc_ptr enc_PathSpec) (is_Paths s))) "paths"%str
    (dec_slice None (dec_ptr zero_PathSpec dec_PathSpec)) [] = Some (option_map clean_PathSpec <$> is_Paths s)).
  { apply omit_list_hit; [vm_compute; reflexivity|]. apply (dec_pointers _ _ _ _ (fun _ => True)).
    - intros p _. split; [done|apply dec_PathSpec_enc].
    - apply Forall_true. by intros []. }
  assert (dec_key names (keyed (omit_list "repositories"%str (enc_ptr enc_RepoSpec) (Repositories s))) "repositories"%str
    (dec_slice None (dec_ptr zero_RepoSpec dec_RepoSpec)) [] = Some (option_map clean_RepoSpec <$> Repositories s)).
  { apply omit_list_hit; [vm_compute; reflexivity|]. apply (dec_pointers _ _ _ _ int_RepoSpec); [|exact Hs].
    intros r Hr. split; [done|by apply dec_RepoSpec_enc]. }
  dec_omitted dec_IndexSpec enc_IndexSpec.
Qed.

Lemma small_omit_str k n s : Forall (fun p => small k p.2) (omit_str n s).
Proof. unfold omit_str. case_decide; json_small. Qed.
Lemma small_omit_int k n z : Forall (fun p => small k p.2) (omit_int n z).
Proof. unfold omit_int. case_decide; json_small. Qed.
Lemma small_omit_bool k n b : Forall (fun p => small k p.2) (omit_bool n b).
Proof. unfold omit_bool. destruct b; json_small. Qed.
Lemma small_omit_list {A} k n (f : A -> json) l :
  (forall a, small k (f a)) -> Forall (fun p => small (S k) p.2) (omit_list n f l).
Proof. intros Hf. unfold omit_list. case_decide; [constructor|]. constructor; [|constructor]. by apply small_arr, small_map. Qed.
Lemma small_omit_ptr {A} k n (f : A -> json) o : (forall a, small k (f a)) -> Forall (fun p => small k p.2) (omit_ptr n f o).
Proof. intros Hf. destruct o; [|constructor]. constructor; [apply Hf|constructor]. Qed.
#[local] Hint Resolve small_omit_str small_omit_int small_omit_bool small_omit_list small_omit_ptr Forall_app_2 : json.
Lemma small_le_S k v : small k v -> small (S k) v.
Proof. intros H. eapply small_le; [done|lia]. Qed.

Lemma small_Metadata m : small 2 (enc_Metadata m).
Proof. unfold enc_Metadata. auto 10 with json. Qed.
#[local] Hint Resolve small_Metadata : json.
Lemma small_CloneOptions o : small 2 (enc_CloneOptions o).
Proof. unfold enc_CloneOptions. auto 10 with json. Qed.
#[local] Hint Resolve small_CloneOptions : json.
Lemma small_PathSpec p : small 3 (enc_PathSpec p).
Proof. unfold enc_PathSpec. auto 10 with json. Qed.
Lemma small_RepoSpec r : small 3 (enc_RepoSpec r).
Proof. unfold enc_RepoSpec. auto 12 with json. Qed.
Lemma small_enc_ptr {A} k (f : A -> json) o : (forall a, small k (f a)) -> small k (enc_ptr f o).
Proof. intros Hf. destruct o; [apply Hf|apply small_null]. Qed.
#[local] Hint Resolve small_PathSpec small_RepoSpec small_enc_ptr : json.
Lemma small_IndexSpec s : small 5 (enc_IndexSpec s).
Proof. unfold enc_IndexSpec. auto 10 with json. Qed.

(** ** The same file, read by the server *)
Definition put (k s : str) (m : gmap str str) : gmap str str := if decide (s = []) then m else <[k := ToValidUTF8 s]> m.
Definition metadata_map (m : RepoMetadata) : gmap str str :=
  put "github"%str (Github m) (put "remote"%str (Remote m) (put "url_pattern"%str (UrlPattern m) ∅)).
Definition repo_config_of (r : RepoSpec) : RepoConfig :=
  mkRepoConfig (ToValidUTF8 (rs_Name r)) (ToValidUTF8 (rs_Path r)) (ToValidUTF8 <$> Revisions r)
    (from_option metadata_map ∅ (rs_Metadata r)) (rs_WalkSubmodules r).
Definition index_config_of (s : IndexSpec) : IndexConfig :=
  mkIndexConfig (ToValidUTF8 (is_Name s)) (from_option repo_config_of zero_RepoConfig <$> Repositories s).
(** A repository whose metadata have labels. *)
Definition labelled (o : option RepoSpec) : Prop :=
  match o with Some r => match rs_Metadata r with Some m => Labels m <> [] | None => False end | None => False end.
#[export] Instance labelled_dec o : Decision (labelled o).
Proof. unfold labelled. destruct o as [r|]; [destruct (rs_Metadata r)|]; apply _. Defined.

Lemma dec_entries_app m l1 l2 : dec_entries m (l1 ++ l2) = m ← dec_entries m l1; dec_entries m l2.
Proof. revert m. induction l1 as [|p l1 IH]; intros m; [done|]. cbn. destruct (dec_entry m p); [apply IH|done]. Qed.
Lemma dec_entries_put m k s : ascii_key k = true -> dec_entries m (keyed (omit_str k s)) = Some (put k s m).
Proof. intros Hk. unfold omit_str, put. by destruct (decide (s = [])). Qed.

Lemma coerce_keyed l : ascii_keys l = true -> coerce (JObj l) = JObj (keyed l).
Proof. apply coerce_obj. Qed.

Lemma dec_map_Metadata m :
  dec_map ∅ (coerce (enc_Metadata m)) = if decide (Labels m = []) then Some (metadata_map m) else None.
Proof.
  unfold enc_Metadata. rewrite coerce_keyed by ascii_parts. cbn [dec_map]. rewrite !keyed_app.
  do 3 (rewrite dec_entries_app, dec_entries_put by done; cbn [mbind option_bind]). unfold omit_list.
  destruct (Labels m); [done|]. by rewrite !decide_False.
Qed.

Definition RepoConfig_names : list str := ["path"; "name"; "revisions"; "metadata"; "walk_submodules"]%str.
Lemma metadata_key o : match o with Some m => Labels m = [] | None => True end ->
  dec_key RepoConfig_names (keyed (omit_ptr "metadata"%str enc_Metadata o)) "metadata"%str dec_map ∅
  = Some (from_option metadata_map ∅ o).
Proof.
  destruct o as [m|]; [|done]. intros Hm. apply only_hit; [vm_compute; reflexivity|].
  rewrite dec_map_Metadata. by rewrite decide_True.
Qed.
Lemma dec_RepoConfig_enc r : ~ labelled (Some r) ->
  dec_RepoConfig zero_RepoConfig (coerce (enc_RepoSpec r)) = Some (repo_config_of r).
Proof.
  intros Hr. assert (dec_key RepoConfig_names (keyed (omit_ptr "metadata"%str enc_Metadata (rs_Metadata r)))
    "metadata"%str dec_map ∅ = Some (from_option metadata_map ∅ (rs_Metadata r))).
  { apply metadata_key. unfold labelled in Hr. destruct (rs_Metadata r) as [m|]; [|done].
    destruct (decide (Labels m = [])); [done|by destruct Hr]. }
  unfold dec_RepoConfig. fold RepoConfig_names. dec_omitted dec_RepoConfig enc_RepoSpec.
Qed.
Lemma dec_RepoConfig_labelled r : labelled (Some r) -> dec_RepoConfig zero_RepoConfig (coerce (enc_RepoSpec r)) = None.
Proof.
  intros Hr. assert (dec_key RepoConfig_names (keyed (omit_ptr "metadata"%str enc_Metadata (rs_Metadata r)))
    "metadata"%str dec_map ∅ = None) as Hm.
  { unfold labelled in Hr. destruct (rs_Metadata r) as [m|]; [|done]. cbn [omit_ptr keyed fmap list_fmap fst snd dec_key].
    rewrite decide_True by (vm_compute; reflexivity). rewrite dec_map_Metadata. by rewrite decide_False. }
  unfold dec_RepoConfig, enc_RepoSpec. fold RepoConfig_names. rewrite dec_struct_keyed by ascii_parts. cbv beta zeta.
  do 3 (eapply bind_step; [dec_parts|cbv beta]).
  assert (dec_key RepoConfig_names
    (keyed (omit_str "path"%str (rs_Path r) ++ omit_str "name"%str (rs_Name r)
            ++ omit_list "revisions"%str JStr (Revisions r) ++ omit_ptr "metadata"%str enc_Metadata (rs_Metadata r)
            ++ omit_bool "walk_submodules"%str (rs_WalkSubmodules r)
            ++ omit_ptr "clone_options"%str enc_CloneOptions (rs_CloneOptions r)))
    "metadata"%str dec_map (repo_Metadata zero_RepoConfig) = None) as ->; [|done].
  rewrite !keyed_app. do 3 (rewrite dec_key_app; erewrite only_miss by (auto with json || (vm_compute; reflexivity));
    cbn [mbind option_bind]). change (repo_Metadata zero_RepoConfig) with (∅ : gmap str str). by rewrite dec_key_app, Hm.
Qed.

Lemma index_text_read {A} (d : dec A) old s : Unmarshal d old (index_text s) = d old (coerce (enc_IndexSpec s)).
Proof. eapply Unmarshal_indent_small; [reflexivity|apply small_IndexSpec|reflexivity]. Qed.

Lemma fetch_reads s : int_IndexSpec s -> Unmarshal dec_IndexSpec zero_IndexSpec (index_text s) = Some (clean_IndexSpec s).
Proof. intros Hs. rewrite index_text_read. by apply dec_IndexSpec_enc. Qed.

Definition IndexConfig_names : list str := ["name"; "repositories"]%str.
Lemma server_reads s : Forall (fun o => ~ labelled o) (Repositories s) ->
  Unmarshal dec_IndexConfig zero_IndexConfig (index_text s) = Some (index_config_of s).
Proof.
  intros Hs. rewrite index_text_read.
  assert (dec_key IndexConfig_names (keyed (omit_list "repositories"%str (enc_ptr enc_RepoSpec) (Repositories s)))
    "repositories"%str (dec_slice zero_RepoConfig dec_RepoConfig) []
    = Some (from_option repo_config_of zero_RepoConfig <$> Repositories s)).
  { apply omit_list_hit; [vm_compute; reflexivity|]. eapply Forall_impl; [exact Hs|].
    intros [r|] Hr; [by apply dec_RepoConfig_enc|done]. }
  unfold dec_IndexConfig. fold IndexConfig_names. dec_omitted dec_IndexConfig enc_IndexSpec.
Qed.

Lemma dec_elements_None {A} (zero : A) (d : dec A) (f : option RepoSpec -> json) l :
  Exists (fun b => d zero (f b) = None) l -> dec_elements zero d [] (f <$> l) = None.
Proof.
  induction 1 as [b l Hb|b l _ IH]; cbn; [by rewrite Hb|]. destruct (d zero (f b)); cbn; [by rewrite IH|done].
Qed.

(** Labels are a list, and the server expects a string: it does not start with
    such a file. *)
Lemma server_refuses s : Exists labelled (Repositories s) ->
  Unmarshal dec_IndexConfig zero_IndexConfig (index_text s) = None.
Proof.
  intros Hs. rewrite index_text_read. unfold dec_IndexConfig, enc_IndexSpec. fold IndexConfig_names.
  rewrite dec_struct_keyed by ascii_parts. cbv beta zeta. eapply bind_step; [dec_parts|cbv beta].
  assert (dec_key IndexConfig_names (keyed (omit_list "repositories"%str (enc_ptr enc_RepoSpec) (Repositories s)))
    "repositories"%str (dec_slice zero_RepoConfig dec_RepoConfig) [] = None) as Hr.
  { unfold omit_list. destruct (decide (length (Repositories s) = 0%nat)) as [Hl|Hl].
    { destruct (Repositories s); [by inversion Hs|done]. }
    cbn [keyed fmap list_fmap fst snd dec_key]. rewrite decide_True by (vm_compute; reflexivity).
    cbn [coerce dec_slice]. rewrite <- list_fmap_compose.
    rewrite (dec_elements_None _ _ (coerce ∘ enc_ptr enc_RepoSpec)); [done|].
    eapply Exists_impl; [exact Hs|]. intros [r|] Hr; [|done]. by apply dec_RepoConfig_labelled. }
  rewrite !keyed_app. do 2 (rewrite dec_key_app; erewrite only_miss by (auto with json || (vm_compute; reflexivity));
    cbn [mbind option_bind]). change (ic_Repositories zero_IndexConfig) with (@nil RepoConfig). by rewrite Hr.
Qed.
