(* ===== verification/JsonFrame.v ===== *)
(** * Messages that name their type: [jsonframe/jsonframe.go]

    A frame is an object with an opcode and a body.  The marshaler is a map from
    opcodes to prototypes; a frame is read into a new value of the type of the
    prototype.  The types that can be sent are those that implement [Op]: a
    class. *)
From S2P Require Import Prelude GoStrings GoMap GoJson GoJsonSpec.

(** The values that implement [Op], their dynamic types, and what the packages
    [reflect] and [encoding/json] do with them: a new value of the type that a
    pointer type points to, the value written, and a value read over another. *)
Class OpTypes (Op ty : Type) := {
  Opcode : Op -> str;
  type_of : Op -> ty;
  new : ty -> option Op;
  encode : Op -> option json;
  decode : dec Op;
}.

Inductive FrameErr := UnknownOpcode (opcode : str) | BadJSON.
Definition UnknownOpcode_Error (opcode : str) : str := "unknown opcode '"%str ++ opcode ++ "'"%str.

(** [wFrame], and [Frame] with the raw body. *)
Definition enc_wFrame (opcode : str) (body : json) : json := JObj [("opcode"%str, JStr opcode); ("body"%str, body)].
Record Frame := mkFrame { f_Opcode : str; f_Body : option json }.
Definition dec_raw : dec (option json) := fun _ v => Some (Some v).
Definition dec_Frame : dec Frame :=
  dec_struct (fun l f => let names := ["opcode"; "body"]%str in
    opcode ← dec_key names l "opcode"%str dec_str (f_Opcode f);
    body ← dec_key names l "body"%str dec_raw (f_Body f);
    Some (mkFrame opcode body)).
Definition zero_Frame : Frame := mkFrame [] None.

Section frames.
Context {Op ty : Type} `{!OpTypes Op ty}.

(** The marshaler is its map [ops]. *)
Definition Register (m : gmap str Op) (o : Op) : res FrameErr (gmap str Op) :=
  match m !! Opcode o with Some _ => Panic | None => Ok (<[Opcode o := o]> m) end.

Definition frame_of (op : Op) : res FrameErr json :=
  body ← or_err BadJSON (encode op); Ok (enc_wFrame (Opcode op) body).
(** What [Encode] writes to its stream, and the result of [Marshal]. *)
Definition Frame_Encode (op : Op) : res FrameErr str := v ← frame_of op; Ok (Encode_stream v).
Definition Frame_Marshal (op : Op) : res FrameErr str := v ← frame_of op; Ok (Marshal v).

(** A body that is missing is an empty text, which is not JSON. *)
Definition unpack (m : gmap str Op) (f : Frame) : res FrameErr Op :=
  prototype ← or_err (UnknownOpcode (f_Opcode f)) (m !! f_Opcode f);
  op ← deref (new (type_of prototype));
  body ← or_err BadJSON (f_Body f);
  or_err BadJSON (decode op body).
Definition Frame_Decode (m : gmap str Op) (stream : str) : res FrameErr Op :=
  f ← or_err BadJSON (Decode dec_Frame zero_Frame stream); unpack m f.
Definition Frame_Unmarshal (m : gmap str Op) (buf : str) : res FrameErr Op :=
  f ← or_err BadJSON (Unmarshal dec_Frame zero_Frame buf); unpack m f.

(** ** Registration *)
Definition Opcodes (l : list Op) : list str := Opcode <$> l.

Lemma register_spec l m :
  match foldM Register l m with
  | Ok m' => NoDup (Opcodes l) /\ Forall (fun o => m !! Opcode o = None) l /\
      (forall o, o ∈ l -> m' !! Opcode o = Some o) /\ (forall k, k ∉ Opcodes l -> m' !! k = m !! k)
  | Err _ => False
  | Panic => ~ (NoDup (Opcodes l) /\ Forall (fun o => m !! Opcode o = None) l)
  end.
Proof using.
  revert m. induction l as [|o l IH]; intros m; cbn [foldM].
  { split_and!; [constructor..| |done]. by intros o ?%elem_of_nil. }
  change (Register m o) with (match m !! Opcode o with Some _ => @Panic FrameErr (gmap str Op) | None => Ok (<[Opcode o := o]> m) end).
  destruct (m !! Opcode o) eqn:Eo; cbn [mbind res_bind].
  { intros [_ [H _]%Forall_cons]. congruence. }
  specialize (IH (<[Opcode o := o]> m)). destruct (foldM Register l _) as [m'|e|]; [|done|].
  - destruct IH as (Hn & Hf & Hin & Hout).
    assert (Opcode o ∉ Opcodes l) as Ho.
    { intros (o' & Eo' & Ho')%list_elem_of_fmap. eapply Forall_forall in Hf; [|exact Ho'].
      rewrite <- Eo', lookup_insert_eq in Hf. done. }
    split_and!.
    + by constructor.
    + constructor; [done|]. eapply Forall_impl; [exact Hf|]. cbn. intros o' [? ?]%lookup_insert_None. done.
    + intros o' [-> |H]%elem_of_cons; [|by apply Hin]. by rewrite (Hout _ Ho), lookup_insert_eq.
    + intros k Hk. cbn in Hk. rewrite not_elem_of_cons in Hk. destruct Hk as [Hk1 Hk2].
      rewrite (Hout _ Hk2). by apply lookup_insert_ne.
  - intros [Hn Hf]. apply IH. cbn in Hn. apply NoDup_cons in Hn as [Ho Hn]. apply Forall_cons in Hf as [_ Hf].
    split; [done|]. apply Forall_forall. intros o' Ho'. eapply Forall_forall in Hf; [|exact Ho'].
    rewrite lookup_insert_ne; [done|]. intros E. apply Ho. rewrite E. apply list_elem_of_fmap. by exists o'.
Qed.

(** ** What is sent is received *)
Lemma frame_read opcode body :
  Valid opcode ->
  dec_Frame zero_Frame (coerce (enc_wFrame opcode body)) = Some (mkFrame opcode (Some (coerce body))).
Proof using.
  intros Hv. unfold enc_wFrame. rewrite coerce_obj by done. unfold dec_Frame. cbn [fmap list_fmap fst snd dec_struct].
  cbn [coerce]. rewrite Hv. reflexivity.
Qed.
Lemma frame_json opcode body : json_ok body -> json_ok (enc_wFrame opcode body).
Proof using. intros Hb. unfold json_ok in *. cbn. by rewrite Hb. Qed.

(** C21: a marshaler takes any prototypes with different opcodes, and only
    those; a message that was encoded is then decoded as a new value of the type
    registered under its opcode, from the body that was sent; a message with
    another opcode is the error that names it. *)
Theorem frame_received (prototypes : list Op) (op : Op) (body : json) :
  encode op = Some body -> json_ok body -> Z.of_nat (S (nesting body)) <= maxNestingDepth -> Valid (Opcode op) ->
  match foldM Register prototypes ∅ with
  | Ok m =>
      NoDup (Opcodes prototypes) /\
      exists text, Frame_Marshal op = Ok text /\ Frame_Encode op = Ok (text ++ [LF]) /\
        Frame_Decode m (text ++ [LF]) = Frame_Unmarshal m text /\
        (Opcode op ∉ Opcodes prototypes -> Frame_Unmarshal m text = Err (UnknownOpcode (Opcode op))) /\
        (forall p fresh, p ∈ prototypes -> Opcode p = Opcode op -> new (type_of p) = Some fresh ->
           Frame_Unmarshal m text = or_err BadJSON (decode fresh (coerce body)))
  | Err _ => False
  | Panic => ~ NoDup (Opcodes prototypes)
  end.
Proof using.
  intros He Hb Hd Hv. pose proof (register_spec prototypes ∅) as H.
  destruct (foldM Register prototypes ∅) as [m|e|]; [|done|].
  2:{ intros Hn. apply H. split; [done|]. by apply Forall_forall. }
  destruct H as (Hn & _ & Hin & Hout). split; [done|]. exists (Marshal (enc_wFrame (Opcode op) body)).
  assert (json_ok (enc_wFrame (Opcode op) body)) as Hj by by apply frame_json.
  assert (Z.of_nat (nesting (enc_wFrame (Opcode op) body)) <= maxNestingDepth) as Hd'.
  { cbn [enc_wFrame nesting fmap list_fmap foldr snd]. by rewrite Nat.max_0_l, Nat.max_0_r. }
  assert (Frame_Unmarshal m (Marshal (enc_wFrame (Opcode op) body))
          = unpack m (mkFrame (Opcode op) (Some (coerce body)))) as Hu.
  { unfold Frame_Unmarshal. rewrite Unmarshal_Marshal, frame_read by done. done. }
  split_and!.
  - unfold Frame_Marshal, frame_of. by rewrite He.
  - unfold Frame_Encode, frame_of. by rewrite He.
  - rewrite Hu. unfold Frame_Decode. change (Marshal ?v ++ [LF]) with (Encode_stream v).
    by rewrite Decode_Encode, frame_read by done.
  - intros Ho. rewrite Hu. unfold unpack. cbn [f_Opcode]. by rewrite Hout, lookup_empty by done.
  - intros p fresh Hp Ho Hf. rewrite Hu. unfold unpack. cbn [f_Opcode f_Body]. rewrite <- Ho, (Hin p Hp).
    cbn [or_err mbind res_bind]. by rewrite Hf.
Qed.
End frames.

(** ** A message type *)
Inductive sample_op := Hello (name : str) | Count (n : Z).
Inductive sample_ty := THello | TCount | TPlain.
#[export] Instance sample_ops : OpTypes sample_op sample_ty := {
  Opcode o := match o with Hello _ => "hello"%str | Count _ => "count"%str end;
  type_of o := match o with Hello _ => THello | Count _ => TCount end;
  new t := match t with THello => Some (Hello []) | TCount => Some (Count 0) | TPlain => None end;
  encode o := Some (match o with Hello s => JObj [("Name"%str, JStr s)] | Count n => JObj [("N"%str, JInt n)] end);
  decode := fun o v => match o with
    | Hello old => Hello <$> dec_single "Name"%str old v
    | Count old => Count <$> dec_struct (fun l n => dec_key ["N"%str] l "N"%str (dec_int 64) n) old v
    end;
}.
Lemma frame_received_witness :
  exists m text,
    foldM Register [Hello []; Count 7] ∅ = Ok m /\ Frame_Marshal (Count (-3)) = Ok text /\
    text = dq "{'opcode':'count','body':{'N':-3}}"%str /\ Frame_Unmarshal m text = Ok (Count (-3)).
Proof.
  pose proof (frame_received [Hello []; Count 7] (Count (-3)) (JObj [("N"%str, JInt (-3))]) eq_refl eq_refl
    ltac:(vm_compute; discriminate) eq_refl) as H.
  destruct (foldM Register [Hello []; Count 7] ∅) as [m|e|] eqn:Em; [|done|discriminate Em].
  destruct H as (_ & text & Ht & _ & _ & _ & Hr). exists m, text. split_and!; [done..| |].
  - injection Ht as <-. vm_compute. reflexivity.
  - rewrite (Hr (Count 7) (Count 0)); [vm_compute; reflexivity|right; left|reflexivity..].
Defined.
(** A frame without a body, and one with an unknown opcode. *)
Example frame_errors :
  Frame_Unmarshal {[ "hello"%str := Hello [] ]} (dq "{'opcode':'hello'}"%str) = Err BadJSON /\
  Frame_Unmarshal {[ "hello"%str := Hello [] ]} (dq "{'opcode':'x','body':1}"%str) = Err (UnknownOpcode "x"%str) /\
  Frame_Unmarshal {[ "hello"%str := Hello [] ]} (dq "{'Opcode':'hello','body':null}"%str) = Ok (Hello []) /\
  UnknownOpcode_Error "x"%str = "unknown opcode 'x'"%str.
Proof. vm_compute. done. Qed.
