(* ===== verification/Scanner.v ===== *)
(** * Go's [bufio.Scanner] with the default split function

    [bufio.ScanLines]: a token is a line without its end marker, [\n] or
    [\r\n]; a final line need not be terminated.  A scanner refuses a line
    that does not fit its buffer: [Scan] returns false and [Err] is set.  After
    a [Scan] that returned false, [Bytes] is empty. *)
From S2P Require Import Prelude GoStrings.

(** The raw lines of a text: what stands between its [\n]s; a text that ends
    in [\n] has no last empty line. *)
Fixpoint raw_lines (s : str) : list str :=
  match s with
  | [] => []
  | a :: s =>
      if decide (a = LF) then [] :: raw_lines s
      else match raw_lines s with
           | [] => [[a]]
           | w :: ws => (a :: w) :: ws
           end
  end.

Definition dropCR (s : str) : str :=
  if decide (head (reverse s) = Some CR) then take (length s - 1) s else s.

Record Scanner := mkScanner {
  sc_max : Z;         (** size of the buffer *)
  sc_rest : list str;   (** raw lines not read yet *)
  sc_bytes : str;       (** [Bytes()], [Text()] *)
  sc_err : bool;        (** [Err() != nil] *)
}.

Definition newScanner (max : Z) (text : str) : Scanner :=
  mkScanner max (raw_lines text) [] false.

(** [bufio.MaxScanTokenSize], the buffer of a scanner without [Buffer]. *)
Definition MaxScanTokenSize : Z := 64 * 1024.

Definition Scan (sc : Scanner) : bool * Scanner :=
  let '(mkScanner max rest _ err) := sc in
  match rest with
  | [] => (false, mkScanner max [] [] err)
  | l :: rest =>
      if decide (Z.of_nat (length l) < max) then (true, mkScanner max rest (dropCR l) err)
      else (false, mkScanner max [] [] true)
  end.

(** * Lemmas *)

(** A line that is one token as it stands. *)
Definition clean_line (max : Z) (l : str) : Prop :=
  (LF ∉ l) /\ head (reverse l) <> Some CR /\ Z.of_nat (length l) < max.
#[export] Instance clean_line_dec max l : Decision (clean_line max l).
Proof. unfold clean_line. apply _. Defined.

Lemma raw_lines_app l s : LF ∉ l -> raw_lines (l ++ LF :: s) = l :: raw_lines s.
Proof.
  induction l as [|a l IH]; intros Hl; cbn [app raw_lines].
  - by rewrite decide_True.
  - apply not_elem_of_cons in Hl as [Ha Hl]. rewrite decide_False by done.
    by rewrite IH.
Qed.

Lemma raw_lines_last l : l <> [] -> LF ∉ l -> raw_lines l = [l].
Proof.
  induction l as [|a l IH]; intros Hne Hl; [done|]. cbn [raw_lines].
  apply not_elem_of_cons in Hl as [Ha Hl]. rewrite decide_False by done.
  destruct l as [|b l]; [done|]. by rewrite IH.
Qed.

(** The text git prints for a list of lines. *)
Definition unlines (ls : list str) : str := ls ≫= fun l => l ++ [LF].

Lemma raw_lines_unlines ls :
  Forall (fun l => LF ∉ l) ls -> raw_lines (unlines ls) = ls.
Proof.
  induction 1 as [|l ls Hl _ IH]; [done|]. unfold unlines in *. cbn [mbind list_bind].
  rewrite <- app_assoc. cbn [app]. rewrite raw_lines_app by done. by f_equal.
Qed.

(** Scanning a clean line yields it. *)
Lemma Scan_clean max l rest b e :
  clean_line max l ->
  Scan (mkScanner max (l :: rest) b e) = (true, mkScanner max rest l e).
Proof.
  intros (_ & Hc & Hl). simpl. rewrite decide_True by done.
  unfold dropCR. by rewrite decide_False.
Qed.

(** A successful [Scan] uses up a line. *)
Lemma Scan_true sc sc' :
  Scan sc = (true, sc') -> length (sc_rest sc) = S (length (sc_rest sc')).
Proof. destruct sc as [max [|l rest] b e]; simpl; [done|]. case_decide; by intros [= <-]. Qed.

Lemma Scan_false sc sc' :
  Scan sc = (false, sc') -> sc_rest sc' = [] /\ sc_bytes sc' = [].
Proof. destruct sc as [max [|l rest] b e]; simpl; [|case_decide]; by intros [= <-]. Qed.

Lemma clean_no_lf max ls : Forall (clean_line max) ls -> Forall (fun l => LF ∉ l) ls.
Proof. intros H. eapply Forall_impl; [exact H|]. by intros l [? _]. Qed.

#[export] Hint Resolve clean_no_lf : livegrep.
