(* ===== verification/Query.v ===== *)
(** * The search-box query language: [server/query.go]

    [ParseQuery] cuts the query at brackets, escapes, spaces and operator
    keys ([pq_step] is one turn of its loop), collects the terms in a map,
    and builds the backend's [pb.Query] from the map ([build_query]).  The text is
    cut with Go's slices, which panic out of range ([pq_piece]). *)
From S2P Require Import Prelude GoStrings GoRegexp.

(** [pb.Query], the message of [src/proto/livegrep.proto]. *)
Record Query := mkQuery {
  Line : str; File : str; Repo : str; Tags : str;
  FoldCase : bool;
  NotFile : str; NotRepo : str; NotTags : str;
  MaxMatches : Z;             (** int32 *)
  FilenameOnly : bool; TreenameOnly : bool;
}.
Definition emptyQuery : Query := mkQuery [] [] [] [] false [] [] [] 0 false false.

(** The errors: two synonyms (line 33), a term given twice (56, 75), bare text
    in two places (133), two patterns (172), a limit that is no number (209). *)
Inductive QueryErr :=
  | ErrBothSynonyms (op1 op2 : str)
  | ErrTermTwice (key : str)
  | ErrNotContiguous
  | ErrMultipleTerms
  | ErrMaxMatches.
#[export] Instance QueryErr_eq_dec : EqDecision QueryErr.
Proof. solve_decision. Defined.

(** [[a-zA-Z0-9-_]] *)
Definition class_key : Z -> bool := fun r =>
  in_range "a" "z" r || in_range "A" "Z" r || in_range "0" "9" r
  || rune_is "-" r || rune_is "_" r.

(** [\[|\(|(?:^([a-zA-Z0-9-_]+):|\\.)| ] *)
Definition pieceRE : re :=
  RAlts [RLit "["%str; RLit "("%str;
         RAlt (RSeq [RBot; RGroup 1 (RPlus (RChr class_key)); RLit ":"%str])
              (RSeq [RLit "\"%str; RChr class_dot]);
         RLit " "%str].

Definition knownTags : list str :=
  ["file"; "-file"; "path"; "-path"; "repo"; "-repo"; "tags"; "-tags";
   "case"; "lit"; "max_matches"]%str.

Abbreviation opmap := (gmap str str).

(** Reading a missing key of a Go map gives the zero value. *)
Definition get_op (ops : opmap) (k : str) : str := default [] (ops !! k).

Definition onlyOneSynonym (ops : opmap) (op1 op2 : str) : res QueryErr str :=
  if bool_decide (get_op ops op1 <> []) && bool_decide (get_op ops op2 <> [])
  then Err (ErrBothSynonyms op1 op2)
  else if bool_decide (get_op ops op1 <> []) then Ok (get_op ops op1)
  else Ok (get_op ops op2).

(** ** The parsing loop *)
Record pq := mkPq {
  pq_ops : opmap;
  pq_key : str;
  pq_term : str;
  pq_q : str;
  pq_inRegex : bool;
  pq_justGotSpace : bool;
}.

(** [if _, alreadySet := ops[key]; alreadySet { return err }; ops[key] = term] *)
Definition set_op (e : QueryErr) (ops : opmap) (key term : str) : res QueryErr opmap :=
  match ops !! key with
  | Some _ => Err e
  | None => Ok (<[key := term]> ops)
  end.

(** The bracket scanner: copies runes from [q] to [w] until the bracket
    depth [p] falls to 0 or [q] ends. *)
Fixpoint scan_group (fuel : nat) (open close : ascii) (p : Z) (esc : bool)
    (w q : str) : str * str :=
  match fuel, q with
  | S fuel, a :: t =>
      let '(r, l) := decode_rune a t in
      let q := drop l q in
      let '(esc, p) :=
        if esc then (false, p)
        else if rune_is "\" r then (true, p)
        else if rune_is open r then (false, p + 1)
        else if rune_is close r then (false, p - 1)
        else (false, p) in
      let w := w ++ encode_rune r in
      if p =? 0 then (w, q) else scan_group fuel open close p esc w q
  | _, _ => (w, q)
  end.

(** The branch [match == "(" || match == "["]. *)
Definition pq_bracket (st : pq) (mt q : str) (space : bool) : str * str :=
  if negb (pq_inRegex st || space) then (mt, q)
  else let '(open, close) := if decide (mt = "("%str) then ("("%char, ")"%char)
                             else ("["%char, "]"%char) in
       let '(w, q) := scan_group (length q) open close 1 false [] q in
       (mt ++ w, q).

(** The branches on the piece [mt] that was found; [term] ends in the text in
    front of it, [q] is the text behind it, [space] the new [justGotSpace], and
    [m2], [m3] the bounds of group 1, counted from the beginning of the piece. *)
Definition pq_piece (globalRegex : bool) (st : pq) (term mt q : str) (space : bool) (m2 m3 : Z)
    : res QueryErr (pq + opmap) :=
  let '(mkPq ops key _ _ inRegex _) := st in
  let next ops key term q inRegex :=
    Ok (inl (mkPq ops key term q inRegex (bool_decide (mt = " "%str)))) in
  if decide (mt = " "%str) then
    if decide (key = []) then next ops key (term ++ " "%str) q inRegex
    else
      ops ← set_op (ErrTermTwice key) ops key term;
      next ops [] [] q globalRegex
  else if decide (mt = "("%str \/ mt = "["%str) then
    let '(t, q) := pq_bracket st mt q space in
    next ops key (term ++ t) q inRegex
  else
    c ← deref (head mt);                                    (** [match[0]] *)
    if decide (c = "\"%char) then next ops key (term ++ mt) q inRegex
    else
      newKey ← zslice mt m2 m3;
      '(ops, key, term) ←
        (if bool_decide (key = []) && bool_decide (newKey ∈ knownTags) then
           ops ← (if decide (TrimSpace term = []) then Ok ops
                  else set_op ErrNotContiguous ops key term);
           Ok (ops, newKey, [])
         else Ok (ops, key, term ++ mt));
      next ops key term q (if decide (key = "lit"%str) then false else inRegex).

(** One turn of the loop: the next state, or the finished map.  [m] is the
    index array of the match, whose slices may be out of range. *)
Definition pq_step (globalRegex : bool) (st : pq) : res QueryErr (pq + opmap) :=
  let '(mkPq ops key term q inRegex justGotSpace) := st in
  match find pieceRE q with
  | None =>
      ops ← set_op (ErrTermTwice key) ops key (term ++ q);
      Ok (inr ops)
  | Some m =>
      let '(m0, m1) := group_index q m 0 in
      let '(m2, m3) := group_index q m 1 in
      before ← zslice q 0 m0;
      mt ← zslice q m0 m1;
      rest ← zslice q m1 (Z.of_nat (length q));
      pq_piece globalRegex st (term ++ before) mt rest
        (justGotSpace && bool_decide (m0 = 0)) (m2 - m0) (m3 - m0)
  end.

(** The loop; [None] when the fuel runs out. *)
Fixpoint pq_loop (fuel : nat) (globalRegex : bool) (st : pq)
    : option (res QueryErr opmap) :=
  match fuel with
  | O => None
  | S fuel =>
      match pq_step globalRegex st with
      | Ok (inl st) => pq_loop fuel globalRegex st
      | Ok (inr ops) => Some (Ok ops)
      | Err e => Some (Err e)
      | Panic => Some Panic
      end
  end.

Definition pq_init (query : str) (globalRegex : bool) : pq :=
  mkPq ∅ [] [] (TrimSpace query) globalRegex true.

(** ** From the map of terms to the query *)

(** [int32(i)] for the value of [max_matches:], or the error. *)
Definition max_matches_of (ops : opmap) : res QueryErr Z :=
  match ops !! "max_matches"%str with
  | Some v => if decide (v = []) then Ok 0
              else match Atoi v with
                   | Some i => Ok (int32 i)
                   | None => Err ErrMaxMatches
                   end
  | None => Ok 0
  end.

(** The bare term, [case:] and [lit:], quoted where they are literals. *)
Definition query_bits (ops : opmap) (globalRegex : bool) : list str :=
  List.filter (fun bit => negb (bool_decide (bit = [])))
    ((fun k => let bit := TrimSpace (get_op ops k) in
               if bool_decide (k = "lit"%str) || negb globalRegex
               then QuoteMeta bit else bit) <$> [""; "case"; "lit"]%str).

Definition quote_unless (globalRegex : bool) (s : str) : str :=
  if globalRegex then s else QuoteMeta s.

Definition build_query (ops : opmap) (globalRegex : bool) : Query * option QueryErr :=
  match onlyOneSynonym ops "file" "path" with
  | Err e => (emptyQuery, Some e)
  | Panic => (emptyQuery, None)
  | Ok file =>
  let repo := get_op ops "repo" in
  let tags := get_op ops "tags" in
  let out := mkQuery [] file repo tags false [] [] [] 0 false false in
  match onlyOneSynonym ops "-file" "-path" with
  | Err e => (out, Some e)
  | Panic => (out, None)
  | Ok notFile =>
  let notRepo := get_op ops "-repo" in
  let notTags := get_op ops "-tags" in
  let out := mkQuery [] file repo tags false notFile notRepo notTags 0 false false in
  let bits := query_bits ops globalRegex in
  if (1 <? Z.of_nat (length bits)) then (out, Some ErrMultipleTerms)
  else
  let line := default [] (head bits) in
  let file := quote_unless globalRegex file in
  let notFile := quote_unless globalRegex notFile in
  let repo := quote_unless globalRegex repo in
  let notRepo := quote_unless globalRegex notRepo in
  let '(line, file, repo, fileOnly, treeOnly) :=
    if bool_decide (line = []) && bool_decide (file <> [])
    then (file, [], repo, true, false)
    else if bool_decide (line = []) && bool_decide (repo <> [])
    then (repo, file, [], false, true)
    else (line, file, repo, false, false) in
  let fold :=
    match ops !! "case"%str, ops !! "lit"%str with
    | Some _, _ => false
    | None, Some _ => false
    | None, None => no_upper line
    end in
  let out := mkQuery line file repo tags fold notFile notRepo notTags 0
               fileOnly treeOnly in
  match max_matches_of ops with
  | Ok i => (mkQuery line file repo tags fold notFile notRepo notTags i
               fileOnly treeOnly, None)
  | Err e => (out, Some e)
  | Panic => (out, None)
  end
  end
  end%str.

(** [ParseQuery]: the query so far and the error, as the Go function returns
    both.  The fuel is one more than the length of the trimmed query. *)
Definition ParseQuery (query : str) (globalRegex : bool)
    : option (Query * option QueryErr) :=
  match pq_loop (S (length (TrimSpace query))) globalRegex (pq_init query globalRegex) with
  | Some (Ok ops) => Some (build_query ops globalRegex)
  | Some (Err e) => Some (emptyQuery, Some e)
  | _ => None
  end.

(** The texts of the errors. *)
Definition query_error (e : QueryErr) : str :=
  match e with
  | ErrBothSynonyms op1 op2 =>
      "Cannot provide both "%str ++ op1 ++ ": and "%str ++ op2 ++ ":, because they are synonyms"%str
  | ErrTermTwice key => "got term twice: "%str ++ key
  | ErrNotContiguous => "main search term must be contiguous"%str
  | ErrMultipleTerms => "You cannot provide multiple of case:, lit:, and a bare regex"%str
  | ErrMaxMatches => "Value given to max_matches: must be a valid integer"%str
  end.

(** ** The table of [server/query_test.go] *)
Definition test_query line file repo fold max fileOnly :=
  mkQuery line file repo [] fold [] [] [] max fileOnly false.

Definition regex_cases : list (str * Query) := [
  ("hello", test_query "hello" "" "" true 0 false);
  ("a b c", test_query "a b c" "" "" true 0 false);
  ("line file:.rb", test_query "line" ".rb" "" true 0 false);
  (" a  ", test_query "a" "" "" true 0 false);
  ("( a  )", test_query "( a  )" "" "" true 0 false);
  ("Aa", test_query "Aa" "" "" false 0 false);
  ("case:abc", test_query "abc" "" "" false 0 false);
  ("case:abc file:^kernel/", test_query "abc" "^kernel/" "" false 0 false);
  ("case:abc file:( )", test_query "abc" "( )" "" false 0 false);
  ("(  () (   ", test_query "(  () (" "" "" true 0 false);
  ("a file:\(", test_query "a" "\(" "" true 0 false);
  ("a file:(\()", test_query "a" "(\()" "" true 0 false);
  ("(file:)", test_query "(file:)" "" "" true 0 false);
  ("case:foo:", test_query "foo:" "" "" false 0 false);
  ("lit:.", test_query "\." "" "" false 0 false);
  ("std::string", test_query "std::string" "" "" true 0 false);
  ("a max_matches:100", test_query "a" "" "" true 100 false);
  ("a max_matches:", test_query "a" "" "" true 0 false);
  ("file:hello", test_query "hello" "" "" true 0 true);
  ("file:HELLO", test_query "HELLO" "" "" false 0 true);
  ("lit:a(b file:c", test_query "a\(b" "c" "" false 0 false);
  ("[ \]] file:\.c", test_query "[ \]]" "\.c" "" true 0 false)]%str.

Definition literal_cases : list (str * Query) := [
  ("a( file:b", test_query "a\(" "b" "" true 0 false);
  ("a (file:b", test_query "a \(file:b" "" "" true 0 false);
  ("(file:a) repo:b", test_query "\(file:a\)" "" "b" true 0 false);
  ("(file:a) (repo:b)", test_query "\(file:a\) \(repo:b\)" "" "" true 0 false);
  ("file:a( b", test_query "b" "a\(" "" true 0 false)]%str.

#[export] Instance Query_eq_dec : EqDecision Query.
Proof. solve_decision. Defined.

Example regex_cases_pass :
  forallb (fun c => bool_decide (ParseQuery c.1 true = Some (c.2, None))) regex_cases = true.
Proof. vm_compute. reflexivity. Qed.

Example literal_cases_pass :
  forallb (fun c => bool_decide (ParseQuery c.1 false = Some (c.2, None))) literal_cases = true.
Proof. vm_compute. reflexivity. Qed.

(** * Termination *)

(** Every piece is a non-empty part of the query. *)
Lemma piece_nonempty n0 s s' : lang n0 pieceRE s s' -> (length s' < length s)%nat.
Proof.
  intros Hl. change pieceRE with (RAlt (RAlt (RAlt (RLit "["%str) (RLit "("%str))
    (RAlt (RCat RBot (RCat (RGroup 1 (RPlus (RChr class_key))) (RCat (RLit ":"%str) REps)))
          (RCat (RLit "\"%str) (RCat (RChr class_dot) REps)))) (RLit " "%str)) in Hl.
  lang_inv; lang_lengths; subst; simpl in *; lia.
Qed.

(** What the code finds: the text in front, the piece and the text behind. *)
Record piece_at (q : str) (m : mtch) (a mt : str) : Prop := {
  pa_text : q = a ++ mt ++ m_end m;
  pa_start : m_start m = mt ++ m_end m;
  pa_nonempty : mt <> [];
  pa_key : (mt = " "%str \/ mt = "("%str \/ mt = "["%str \/ head mt = Some "\"%char) \/
           exists k, mt = k ++ ":"%str /\ m_caps m = [(1%nat, (m_start m, ":"%char :: m_end m))];
}.

Lemma mt_piece_lit {X} n0 w s (k : str -> caps -> option X) x :
  forallb is_ascii w = true -> mt n0 (RLit w) s [] k = Some x ->
  exists t, s = w ++ t /\ k t [] = Some x.
Proof.
  intros Hw. rewrite mt_lit by done. destruct (has_prefix w s) eqn:E; [|done].
  apply has_prefix_spec in E as [t ->]. rewrite drop_app_length. by exists t.
Qed.

Lemma piece_caps n0 s m :
  match_at n0 pieceRE s = Some m ->
  exists mt, s = mt ++ m_end m /\ m_start m = s /\
    ((mt = " "%str \/ mt = "("%str \/ mt = "["%str \/ head mt = Some "\"%char) \/
     exists k, mt = k ++ ":"%str /\ m_caps m = [(1%nat, (s, ":"%char :: m_end m))]).
Proof.
  unfold match_at.
  change pieceRE with (RAlt (RAlt (RAlt (RLit "["%str) (RLit "("%str))
    (RAlt (RCat RBot (RCat (RGroup 1 (RPlus (RChr class_key))) (RCat (RLit ":"%str) REps)))
          (RCat (RLit "\"%str) (RCat (RChr class_dot) REps)))) (RLit " "%str)).
  intros [[[H|H]%mt_alt_inv|[H|H]%mt_alt_inv]%mt_alt_inv|H]%mt_alt_inv.
  1,2,5: apply mt_piece_lit in H as (t & -> & [= <-]); [|done]; eexists; split_and!; [done|done|];
    left; by auto.
  - rewrite mt_cat in H. apply mt_bot_inv in H. rewrite mt_cat in H.
    apply mt_group_sound in H as (s' & Hl & H); [|done].
    rewrite mt_cat, mt_lit in H by done. destruct (has_prefix ":"%str s') eqn:E; [|done].
    apply has_prefix_spec in E as [t ->]. injection H as <-. cbn [m_end m_caps m_start].
    apply lang_suffix in Hl as [k Hk]. exists (k ++ ":"%str). rewrite <- app_assoc.
    split_and!; [done|done|]. right. by exists k.
  - rewrite mt_cat in H. apply mt_piece_lit in H as (t & -> & H); [|done].
    apply mt_sound in H as (s' & cs & Hl & [= <-]). cbn [m_end m_start].
    apply lang_suffix in Hl as [p ->]. exists ("\"%str ++ p). rewrite <- app_assoc.
    split_and!; [done|done|]. left. by auto.
Qed.

Lemma find_piece q m : find pieceRE q = Some m -> exists a mt, piece_at q m a mt.
Proof.
  unfold find. intros H. pose proof (search_lang _ _ _ _ _ H) as [Hl [a Ha]].
  apply search_at in H. apply piece_caps in H as (mt & Hs & _ & Hk). exists a, mt. split; [|done| |done].
  - by rewrite <- Hs.
  - intros ->. apply piece_nonempty in Hl. rewrite Hs in Hl. simpl in Hl. lia.
Qed.

(** The branches, with the key a piece has. *)
Definition piece_key (mt : str) : str := removelast mt.

(** No slice of a turn is out of range, and group 1 is there when it is
    read. *)
Lemma pq_step_piece b ops key term q inR sp m a mt :
  find pieceRE q = Some m -> piece_at q m a mt ->
  exists m2 m3,
    pq_step b (mkPq ops key term q inR sp) =
    pq_piece b (mkPq ops key term q inR sp) (term ++ a) mt (m_end m)
      (sp && bool_decide (a = [])) m2 m3 /\
    (~ (mt = " "%str \/ mt = "("%str \/ mt = "["%str \/ head mt = Some "\"%char) ->
     forall E, zslice (E := E) mt m2 m3 = Ok (piece_key mt)).
Proof.
  intros Hm [Hq Hs Hne Hk].
  set (m0 := offset q (m_start m)). set (p := group_index q m 1).
  exists (p.1 - m0), (p.2 - m0).
  assert (m0 = Z.of_nat (length a)) as Hm0 by (unfold m0; rewrite Hs, Hq; apply offset_app).
  split.
  - unfold pq_step. rewrite Hm. change (group_index q m 0) with (m0, offset q (m_end m)). fold p. destruct p as [m2 m3].
    assert (offset q (m_end m) = Z.of_nat (length a + length mt)) as Hm1
      by (rewrite Hq, app_assoc, offset_app, length_app; done).
    assert (forall E, zslice (E := E) q 0 m0 = Ok a) as Hz1
      by (intros E; rewrite Hm0, Hq; apply (zslice_mid [] a)).
    assert (forall E, zslice (E := E) q m0 (offset q (m_end m)) = Ok mt) as Hz2
      by (intros E; rewrite Hm0, Hm1, Hq; apply zslice_mid).
    assert (forall E, zslice (E := E) q (offset q (m_end m)) (Z.of_nat (length q)) = Ok (m_end m)) as Hz3.
    { intros E. rewrite Hm1, Hq. pose proof (zslice_mid (E := E) (a ++ mt) (m_end m) []) as H.
      rewrite app_nil_r, <- app_assoc, <- length_app in H. rewrite <- H. f_equal; by rewrite !length_app, ?Nat.add_assoc. }
    rewrite Hz1, Hz2, Hz3. cbn [mbind res_bind fst snd].
    replace (bool_decide (m0 = 0)) with (bool_decide (a = [])); [done|].
    apply bool_decide_ext. rewrite Hm0, <- length_zero_iff_nil. lia.
  - intros Hn E. destruct Hk as [Hk|(k & -> & Hc)]; [done|].
    assert (p = (m0, Z.of_nat (length (a ++ k)))) as ->.
    { unfold p, group_index. rewrite Hc. cbn [list_find fst]. rewrite decide_True by done. cbn.
      f_equal. rewrite Hq, <- !app_assoc. cbn [app]. rewrite app_assoc. apply offset_app. }
    cbn [fst snd]. rewrite Hm0, Z.sub_diag, length_app.
    replace (_ - _) with (Z.of_nat (length k)) by lia. unfold piece_key. rewrite removelast_last.
    apply (zslice_mid [] k).
Qed.

Lemma scan_group_shorter fuel open close p esc w q w' q' :
  scan_group fuel open close p esc w q = (w', q') -> (length q' <= length q)%nat.
Proof.
  revert p esc w q. induction fuel as [|fuel IH]; intros p esc w q H; simpl in H;
    [by simplify_eq|].
  destruct q as [|a t]; [by simplify_eq|].
  destruct (decode_rune a t) as [r l] eqn:E. apply decode_width in E.
  destruct (if esc then _ else _) as [esc' p'].
  assert (length (drop l (a :: t)) <= length (a :: t))%nat.
  { rewrite length_drop. lia. }
  case_match; [by simplify_eq|]. apply IH in H. lia.
Qed.

Lemma pq_bracket_shorter st mt q space t q' :
  pq_bracket st mt q space = (t, q') -> (length q' <= length q)%nat.
Proof.
  unfold pq_bracket. intros H. case_match; [by simplify_eq|].
  case_match. case_match. simplify_eq. by eapply scan_group_shorter.
Qed.

(** A branch never gives back more text than it was given. *)
Lemma pq_piece_shorter b st term mt q sp m2 m3 st' :
  pq_piece b st term mt q sp m2 m3 = Ok (inl st') -> (length (pq_q st') <= length q)%nat.
Proof.
  destruct st as [ops key t0 q0 inR sp0]. intros H. unfold pq_piece in H.
  destruct (decide (mt = " "%str)).
  { destruct (decide (key = [])); inv_ok; simplify_eq/=; lia. }
  destruct (decide (_ \/ _)).
  { destruct (pq_bracket _ _ _ _) as [t q'] eqn:E. apply pq_bracket_shorter in E.
    inv_ok; simplify_eq/=; lia. }
  destruct (deref (head mt)) as [c| |]; cbn [mbind res_bind] in H; [|done|done].
  destruct (decide (c = _)); [inv_ok; simplify_eq/=; lia|].
  destruct (zslice mt m2 m3) as [k| |]; cbn [mbind res_bind] in H; [|done|done].
  match goal with H : mbind _ ?x = _ |- _ => destruct x as [[[? ?] ?]| |] end;
    simplify_eq/=; lia.
Qed.

(** No branch panics on a piece whose key can be sliced out. *)
Lemma pq_piece_no_panic b st term mt q sp m2 m3 :
  mt <> [] ->
  (~ (mt = " "%str \/ mt = "("%str \/ mt = "["%str \/ head mt = Some "\"%char) ->
   zslice (E := QueryErr) mt m2 m3 <> Panic) ->
  pq_piece b st term mt q sp m2 m3 <> Panic.
Proof.
  intros Hne Hk. destruct st as [ops key t0 q0 inR sp0]. unfold pq_piece.
  destruct (decide (mt = " "%str)) as [|Hsp]; [unfold set_op; by repeat case_match|].
  destruct (decide (mt = "("%str \/ mt = "["%str)) as [|Hbr]; [by case_match|].
  destruct mt as [|c mt]; [done|]. cbn [head deref mbind res_bind].
  destruct (decide (c = "\"%char)) as [|Hc]; [done|].
  destruct (zslice (c :: mt) m2 m3) as [k| |] eqn:E; cbn [mbind res_bind]; [|done|].
  - unfold set_op. repeat case_match; simplify_eq/=; done.
  - exfalso. apply Hk; [|done]. simpl. intros [?|[?|[?|?]]]; naive_solver.
Qed.

(** A turn of the loop that does not end it shortens the query. *)
Lemma pq_step_shorter b st st' :
  pq_step b st = Ok (inl st') -> (length (pq_q st') < length (pq_q st))%nat.
Proof.
  destruct st as [ops key term q inR sp]. intros H. cbn [pq_q].
  destruct (find pieceRE q) as [m|] eqn:Hm.
  - destruct (find_piece q m Hm) as (a & mt & Hp).
    destruct (pq_step_piece b ops key term q inR sp m a mt Hm Hp) as (m2 & m3 & E & _).
    rewrite E in H. apply pq_piece_shorter in H. destruct Hp as [-> _ Hne _].
    rewrite !length_app. destruct mt; [done|]. simpl. lia.
  - unfold pq_step in H. rewrite Hm in H. destruct (set_op _ _ _ _) in H; inv_ok; simplify_eq.
Qed.

Lemma pq_step_no_panic b st : pq_step b st <> Panic.
Proof.
  destruct st as [ops key term q inR sp]. destruct (find pieceRE q) as [m|] eqn:Hm.
  - destruct (find_piece q m Hm) as (a & mt & Hp).
    destruct (pq_step_piece b ops key term q inR sp m a mt Hm Hp) as (m2 & m3 & -> & Hz).
    apply pq_piece_no_panic; [apply Hp|]. intros Hn. by rewrite Hz.
  - unfold pq_step. rewrite Hm. unfold set_op. by repeat case_match.
Qed.

Lemma pq_loop_total b st fuel :
  (length (pq_q st) < fuel)%nat ->
  exists r, pq_loop fuel b st = Some r /\ r <> Panic.
Proof.
  revert st. induction fuel as [|fuel IH]; intros st Hf; [lia|]. simpl.
  destruct (pq_step b st) as [[st'|ops]|e|] eqn:E.
  - apply IH. apply pq_step_shorter in E. lia.
  - by eexists.
  - by eexists.
  - by apply pq_step_no_panic in E.
Qed.

(** C36: [ParseQuery] returns on every input: its loop shortens the query at
    every turn, so it ends within one turn more than the query has bytes; and
    it never panics: every slice it takes by the indices of a match is in
    range, the pieces found are not empty, and group 1 took part in the match
    whenever the code slices it out. *)
Theorem ParseQuery_total query b :
  is_Some (ParseQuery query b) /\
  exists r, pq_loop (S (length (TrimSpace query))) b (pq_init query b) = Some r /\ r <> Panic.
Proof.
  unfold ParseQuery.
  destruct (pq_loop_total b (pq_init query b) (S (length (TrimSpace query))))
    as (r & -> & Hr); [simpl; lia|].
  split; [by destruct r|by exists r].
Qed.

(** * What a successful parse promises *)
Lemma quote_unless_nil b s : quote_unless b s = [] <-> s = [].
Proof. destruct b; [done|]. apply QuoteMeta_nil. Qed.

(** The shape of the final stage, on success. *)
Lemma build_query_Ok ops b out :
  build_query ops b = (out, None) ->
  exists file notFile line,
    onlyOneSynonym ops "file"%str "path"%str = Ok file /\
    onlyOneSynonym ops "-file"%str "-path"%str = Ok notFile /\
    line = default [] (head (query_bits ops b)) /\
    (length (query_bits ops b) <= 1)%nat /\
    NotFile out = quote_unless b notFile /\
    NotRepo out = quote_unless b (get_op ops "-repo"%str) /\
    max_matches_of ops = Ok (MaxMatches out) /\
    let f := quote_unless b file in
    let r := quote_unless b (get_op ops "repo"%str) in
    (line <> [] /\ Line out = line /\ File out = f /\ Repo out = r
       /\ FilenameOnly out = false /\ TreenameOnly out = false
     \/ line = [] /\ f <> [] /\ Line out = f /\ File out = [] /\ Repo out = r
       /\ FilenameOnly out = true /\ TreenameOnly out = false
     \/ line = [] /\ f = [] /\ r <> [] /\ Line out = r /\ File out = [] /\ Repo out = []
       /\ FilenameOnly out = false /\ TreenameOnly out = true
     \/ line = [] /\ f = [] /\ r = [] /\ Line out = [] /\ File out = [] /\ Repo out = []
       /\ FilenameOnly out = false /\ TreenameOnly out = false).
Proof.
  unfold build_query. intros H.
  destruct (onlyOneSynonym ops "file"%str "path"%str) as [file| |] eqn:E1; try done.
  2: { unfold onlyOneSynonym in E1. by repeat case_match. }
  destruct (onlyOneSynonym ops "-file"%str "-path"%str) as [nf| |] eqn:E2; try done.
  2: { unfold onlyOneSynonym in E2. by repeat case_match. }
  destruct (1 <? _) eqn:E3; [done|]. apply Z.ltb_ge in E3.
  exists file, nf, (default [] (head (query_bits ops b))).
  set (line := default [] (head (query_bits ops b))) in *.
  set (f := quote_unless b file) in *.
  set (r := quote_unless b (get_op ops "repo"%str)) in *.
  destruct (max_matches_of ops) as [i| |] eqn:E4.
  - split_and!; [done|done|done|lia|..];
      repeat case_bool_decide; simplify_eq/=; naive_solver.
  - by repeat case_bool_decide.
  - unfold max_matches_of in E4. by repeat case_match.
Qed.
