(* ===== verification/QuerySpec.v ===== *)
(** * What a parse of the query language promises

    The theorems about [Query.v]: what a successful parse guarantees, and how
    the loop of [ParseQuery] reads a query written as words and [key:value]
    operators. *)
From S2P Require Import Prelude GoStrings GoRegexp Query.

(** * Queries made of words and operators *)

(** Text in which the only piece the loop cuts at is a space. *)
Definition word_byte (c : ascii) : bool :=
  plain_byte c && negb (bool_decide (c ∈ ("[(\:"%str : str))).

(** An operator term, as it is typed. *)
Definition op_text (kv : str * str) : str := kv.1 ++ ":"%str ++ kv.2.

Definition is_word (w : str) : Prop := w <> [] /\ Forall (fun c => word_byte c = true) w.
Definition is_op (kv : str * str) : Prop :=
  kv.1 ∈ knownTags /\ Forall (fun c => word_byte c = true) kv.2.

#[export] Instance is_word_dec w : Decision (is_word w).
Proof. unfold is_word. apply _. Defined.
#[export] Instance is_op_dec kv : Decision (is_op kv).
Proof. unfold is_op. apply _. Defined.

(** What a list of words leaves in the loop's [term]. *)
Definition words_text (ws : list str) : str := ws ≫= fun w => w ++ " "%str.

Section pieces.
Lemma word_byte_spec c : word_byte c = true ->
  is_ascii c = true /\ plain_byte c = true /\ c <> " "%char /\
  c <> "["%char /\ c <> "("%char /\ c <> "\"%char /\ c <> ":"%char.
Proof.
  intros [Hp Hc]%andb_true_iff. pose proof Hp as [Ha Hs]%andb_true_iff.
  apply negb_true_iff, bool_decide_eq_false in Hc, Hs. rewrite !not_elem_of_cons in Hc.
  split_and!; try done; try tauto. intros ->. apply Hs. vm_compute. repeat constructor.
Qed.

Lemma piece_lang_inv n0 s s' : lang n0 pieceRE s s' ->
  (exists c t, s = c :: t /\ c ∈ ("[(\ "%str : str)) \/
  (length s = n0 /\ exists p, s = p ++ ":"%char :: s' /\ p <> [] /\
     Forall (fun c => class_key (byte_val c) = true) p).
Proof.
  intros Hl. change pieceRE with (RAlt (RAlt (RAlt (RLit "["%str) (RLit "("%str))
    (RAlt (RCat RBot (RCat (RGroup 1 (RPlus (RChr class_key))) (RCat (RLit ":"%str) REps)))
          (RCat (RLit "\"%str) (RCat (RChr class_dot) REps)))) (RLit " "%str)) in Hl.
  assert (forall r, class_key r = true -> r < 128) as Hasc.
  { intros r. unfold class_key, in_range, rune_is. simpl.
    change (byte_val "a") with 97. change (byte_val "z") with 122.
    change (byte_val "A") with 65. change (byte_val "Z") with 90.
    change (byte_val "0") with 48. change (byte_val "9") with 57.
    change (byte_val "-") with 45. change (byte_val "_") with 95.
    rewrite !orb_true_iff, !andb_true_iff, !Z.leb_le, !Z.eqb_eq. lia. }
  lang_inv; subst; simpl; try (left; eexists _, _; split; [done|];
    rewrite !elem_of_cons; by auto 8).
  right. split; [done|].
  match goal with H : lang _ (RStar _ _) _ _ |- _ =>
    apply lang_star_ascii in H as (p & -> & Hp); [|done] end.
  match goal with H : lang _ (RChr _) _ _ |- _ =>
    apply lang_chr_inv in H as (a & t & r & l & -> & Ed & Hr & Hd) end.
  rewrite decode_ascii in Ed.
  2: { destruct (decide (byte_val a < 128)) as [|Hn]; [done|].
       apply decode_high in Ed as [? _]; [|lia]. apply Hasc in Hr. lia. }
  injection Ed as <- <-. change (drop 1 (a :: t)) with t in Hd. subst t.
  exists (a :: p). split_and!; [done|done|by constructor].
Qed.

(** No piece begins at a word byte, unless it is the operator key. *)
Lemma no_piece n0 c t :
  word_byte c = true ->
  (length (c :: t) = n0 -> forall p r, c :: t = p ++ ":"%char :: r ->
     ~ Forall (fun c => class_key (byte_val c) = true) p) ->
  match_at n0 pieceRE (c :: t) = None.
Proof.
  intros Hc Hn. apply word_byte_spec in Hc as (?&?&?&?&?&?&?).
  destruct (match_at _ _ _) as [m|] eqn:E; [|done]. exfalso.
  apply match_at_lang in E as [_ E].
  apply piece_lang_inv in E as [(c' & t' & [= -> ->] & Hc)|(Hl & p & Hp & _ & Hf)].
  - rewrite !elem_of_cons, elem_of_nil in Hc. tauto.
  - by eapply Hn.
Qed.

Lemma piece_space n0 rest :
  match_at n0 pieceRE (" "%char :: rest) = Some (Mtch (" "%char :: rest) rest []).
Proof.
  unfold match_at, pieceRE. cbn -[length]. case_decide; reflexivity.
Qed.

(** Before the first space or end of a word, there is no piece. *)
Lemma search_word fuel n0 w rest :
  Forall (fun c => word_byte c = true) w -> (length (w ++ rest) <= fuel)%nat ->
  (length (w ++ rest) = n0 -> forall p r, w ++ rest = p ++ ":"%char :: r ->
     ~ Forall (fun c => class_key (byte_val c) = true) p) ->
  (length (w ++ rest) <= n0)%nat ->
  search fuel n0 pieceRE (w ++ rest) = search (fuel - length w) n0 pieceRE rest.
Proof.
  intros Hw. revert fuel. induction Hw as [|c w Hc Hw IH]; intros fuel Hf Hn Hl; simpl in *.
  { by rewrite Nat.sub_0_r. }
  destruct fuel as [|fuel]; [lia|]. rewrite search_skip.
  - rewrite IH; [done|lia| |lia]. intros; lia.
  - by apply no_piece.
  - by apply word_byte_spec in Hc as [? _].
Qed.

Lemma no_key_in_word w rest p r :
  Forall (fun c => word_byte c = true) w -> rest = [] \/ head rest = Some " "%char ->
  w ++ rest = p ++ ":"%char :: r ->
  ~ Forall (fun c => class_key (byte_val c) = true) p.
Proof.
  intros Hw Hr. revert p. induction Hw as [|c w Hc Hw IH]; intros p Hp HF; simpl in *.
  - destruct Hr as [->|Hr]; [by destruct p|]. destruct p as [|d p]; simplify_eq/=.
    apply Forall_cons in HF as [HF _]. by vm_compute in HF.
  - apply word_byte_spec in Hc as (?&?&?&?&?&?&?). destruct p as [|d p]; simplify_eq/=.
    apply Forall_cons in HF as [_ HF]. by eapply IH.
Qed.

Lemma find_word w :
  Forall (fun c => word_byte c = true) w -> find pieceRE w = None.
Proof.
  intros Hw. unfold find. rewrite <- (app_nil_r w).
  rewrite search_word; [|done|lia| |lia].
  - rewrite app_nil_r, Nat.sub_diag. simpl.
    destruct (match_at _ _ _) as [m|] eqn:E; [|done]. exfalso.
    apply match_at_lang in E as [_ E].
    apply piece_lang_inv in E as [(? & ? & ? & _)|(_ & p & ? & _)]; [done|by destruct p].
  - intros _ p r Hp. eapply no_key_in_word; [done| |exact Hp]. simpl; auto.
Qed.

Lemma find_word_space w rest :
  Forall (fun c => word_byte c = true) w ->
  find pieceRE (w ++ " "%char :: rest) = Some (Mtch (" "%char :: rest) rest []).
Proof.
  intros Hw. unfold find. rewrite search_word; [|done|lia| |lia].
  - apply search_here, piece_space.
  - intros _ p r Hp. eapply no_key_in_word; [done| |exact Hp]. simpl; auto.
Qed.

Lemma knownTags_key k : k ∈ knownTags ->
  k <> [] /\ Forall (fun c => class_key (byte_val c) = true /\ plain_byte c = true
                              /\ is_ascii c = true) k.
Proof.
  intros Hk.
  assert (forallb (fun k => negb (bool_decide (k = [])) && forallb (fun c =>
    class_key (byte_val c) && plain_byte c && is_ascii c) k) knownTags = true) as Hall
    by reflexivity.
  rewrite forallb_forall in Hall. apply list_elem_of_In, Hall in Hk.
  apply andb_true_iff in Hk as [Hne Hk]. split; [by destruct k|].
  rewrite forallb_forall in Hk. apply Forall_forall. intros c Hc.
  apply list_elem_of_In, Hk in Hc. rewrite !andb_true_iff in Hc. tauto.
Qed.

Lemma find_key k rest : k ∈ knownTags ->
  find pieceRE (k ++ ":"%char :: rest) =
  Some (Mtch (k ++ ":"%char :: rest) rest
             [(1%nat, (k ++ ":"%char :: rest, ":"%char :: rest))]).
Proof.
  intros [Hne Hk]%knownTags_key. unfold find. apply search_here. unfold match_at.
  set (s := k ++ ":"%char :: rest).
  change pieceRE with (RAlt (RAlt (RAlt (RLit "["%str) (RLit "("%str))
    (RAlt (RCat RBot (RCat (RGroup 1 (RPlus (RChr class_key))) (RCat (RLit ":"%str) REps)))
          (RCat (RLit "\"%str) (RCat (RChr class_dot) REps)))) (RLit " "%str)).
  set (kk := fun s' cs => Some (Mtch s s' cs)).
  assert (has_prefix "["%str s = false /\ has_prefix "("%str s = false) as [H1 H2].
  { destruct k as [|c k]; [done|]. apply Forall_cons in Hk as [(Hc & _) _].
    subst s. simpl. split; rewrite decide_False; try done; intros <-; by vm_compute in Hc. }
  cbn [mt]. rewrite !mt_lit, H1, H2 by done. cbn [mt]. rewrite decide_True by done.
  subst s. erewrite mt_plus_class; [reflexivity|done| |done|].
  - eapply Forall_impl; [exact Hk|]. intros c (Hc & _ & Ha). unfold spans. by rewrite Ha.
  - cbn -[RLit]. rewrite mt_lit by done. reflexivity.
Qed.
End pieces.

(** * Turns of the loop on words and operators *)
Section turns.
Context (b : bool).
Implicit Types (ops : opmap) (w v rest : str).

Lemma step_last ops key term w inR sp :
  Forall (fun c => word_byte c = true) w ->
  pq_step b (mkPq ops key term w inR sp) =
  (ops ← set_op (ErrTermTwice key) ops key (term ++ w); Ok (inr ops)).
Proof. intros Hw. unfold pq_step. by rewrite find_word. Qed.

Lemma step_space ops key term w rest inR sp :
  Forall (fun c => word_byte c = true) w ->
  pq_step b (mkPq ops key term (w ++ " "%char :: rest) inR sp) =
  if decide (key = []) then
    Ok (inl (mkPq ops [] (term ++ w ++ " "%str) rest inR true))
  else
    ops ← set_op (ErrTermTwice key) ops key (term ++ w);
    Ok (inl (mkPq ops [] [] rest b true)).
Proof.
  intros Hw.
  destruct (pq_step_piece b ops key term (w ++ " "%char :: rest) inR sp
    (Mtch (" "%char :: rest) rest []) w " "%str) as (m2 & m3 & -> & _);
    [by apply find_word_space|by split; auto|].
  unfold pq_piece. cbn [m_end]. rewrite decide_True, bool_decide_true by done.
  case_decide; subst; [|done]. by rewrite <- app_assoc.
Qed.

Lemma step_key ops term k rest inR sp :
  k ∈ knownTags ->
  (TrimSpace term = [] \/ ops !! [] = None) ->
  pq_step b (mkPq ops [] term (k ++ ":"%char :: rest) inR sp) =
  Ok (inl (mkPq (if decide (TrimSpace term = []) then ops else <[[] := term]> ops)
                k [] rest (if decide (k = "lit"%str) then false else inR) false)).
Proof.
  intros Hk Hterm. destruct (knownTags_key k Hk) as [Hne HF].
  set (m := Mtch (k ++ ":"%char :: rest) rest [(1%nat, (k ++ ":"%char :: rest, ":"%char :: rest))]).
  assert (piece_at (k ++ ":"%char :: rest) m [] (k ++ ":"%str)) as Hp.
  { split; cbn; [by rewrite <- app_assoc..|by destruct k|right]. by exists k. }
  destruct (pq_step_piece b ops [] term (k ++ ":"%char :: rest) inR sp m [] (k ++ ":"%str))
    as (m2 & m3 & -> & Hz); [by apply find_key|done|]. clear Hp.
  assert (forall c, c ∈ (" ([\"%str : str) -> head (k ++ ":"%str) <> Some c) as Hh.
  { intros c Hc. destruct k as [|a k]; [done|]. intros [= ->]. apply Forall_cons in HF as [(HF & _) _].
    rewrite !elem_of_cons, elem_of_nil in Hc. destruct_or? Hc; try done; subst; by vm_compute in HF. }
  assert (~ (k ++ ":"%str = " "%str \/ k ++ ":"%str = "("%str \/ k ++ ":"%str = "["%str \/
    head (k ++ ":"%str) = Some "\"%char)) as Hno.
  { intros [E|[E|[E|E]]].
    4: by apply (Hh "\"%char); [by_decide|].
    all: rewrite E in Hh; by eapply Hh; [|reflexivity]; by_decide. }
  specialize (Hz Hno). unfold pq_piece.
  rewrite decide_False by (by intros ?; apply Hno; left).
  rewrite decide_False by (by intros [?|?]; apply Hno; auto).
  rewrite (bool_decide_false (k ++ ":"%str = " "%str)) by (by intros ?; apply Hno; left).
  destruct (head (k ++ ":"%str)) as [c|] eqn:Ec; [|by destruct k]. cbn [deref mbind res_bind].
  rewrite decide_False by (intros ->; apply Hno; auto).
  rewrite Hz. unfold piece_key. rewrite removelast_last, app_nil_r. cbn [mbind res_bind m_end m].
  rewrite (bool_decide_true (@nil ascii = [])), (bool_decide_true (k ∈ knownTags)) by done. cbn [andb].
  destruct (decide (TrimSpace term = [])) as [Ht|Ht]; [done|].
  unfold set_op. destruct Hterm as [|Hn]; [done|]. by rewrite Hn.
Qed.

Lemma words_text_cons w ws : words_text (w :: ws) = w ++ " "%char :: words_text ws.
Proof. unfold words_text. cbn. by rewrite <- app_assoc. Qed.

(** Reading the words in front accumulates them in [term]. *)
Lemma loop_words fuel ops term ws rest inR :
  Forall is_word ws -> (length (words_text ws ++ rest) < fuel)%nat ->
  exists fuel', (length rest < fuel')%nat /\
  pq_loop fuel b (mkPq ops [] term (words_text ws ++ rest) inR true) =
  pq_loop fuel' b (mkPq ops [] (term ++ words_text ws) rest inR true).
Proof.
  intros Hws. revert fuel term. induction Hws as [|w ws [_ Hw] _ IH];
    intros fuel term Hf.
  { exists fuel. by rewrite app_nil_r. }
  rewrite words_text_cons in *. destruct fuel as [|fuel]; [lia|].
  destruct (IH fuel (term ++ w ++ " "%str)) as (f & Hf' & E).
  { rewrite length_app. repeat rewrite length_app in Hf. cbn [length] in Hf. lia. }
  exists f. split; [done|]. cbn [pq_loop]. rewrite <- app_assoc. cbn [app].
  rewrite step_space, decide_True by done. rewrite E. by rewrite <- !app_assoc.
Qed.

Definition ops_text (kvs : list (str * str)) : str := kvs ≫= fun kv => op_text kv ++ " "%str.

Lemma ops_text_cons k v kvs :
  ops_text ((k, v) :: kvs) = k ++ ":"%char :: v ++ " "%char :: ops_text kvs.
Proof. unfold ops_text, op_text. cbn. by rewrite <- !app_assoc. Qed.

(** Reading operators with distinct keys stores them. *)
Lemma loop_ops fuel ops kvs rest inR sp :
  Forall is_op kvs -> NoDup kvs.*1 -> (forall k, k ∈ kvs.*1 -> ops !! k = None) ->
  (length (ops_text kvs ++ rest) < fuel)%nat ->
  exists fuel' inR' sp', (length rest < fuel')%nat /\
  pq_loop fuel b (mkPq ops [] [] (ops_text kvs ++ rest) inR sp) =
  pq_loop fuel' b (mkPq (list_to_map kvs ∪ ops) [] [] rest inR' sp').
Proof.
  intros Hkvs. revert fuel ops inR sp.
  induction Hkvs as [|[k v] kvs [Hk Hv] _ IH]; intros fuel ops inR sp Hnd Hops Hf.
  { exists fuel, inR, sp. split; [done|]. simpl. by rewrite (left_id_L ∅ (∪) ops). }
  rewrite ops_text_cons in *. cbn [fmap list_fmap fst] in *.
  apply NoDup_cons in Hnd as [Hnk Hnd]. simpl in Hk, Hv.
  rewrite <- !app_assoc, <- !app_comm_cons, <- !app_assoc, <- !app_comm_cons in *.
  rewrite length_app in Hf. cbn [length] in Hf. rewrite length_app in Hf. cbn [length] in Hf.
  destruct fuel as [|[|fuel]]; [lia|lia|]. cbn [pq_loop].
  rewrite step_key by auto using TrimSpace_nil. rewrite decide_True by done.
  rewrite step_space by done.
  rewrite decide_False by (by destruct (knownTags_key k Hk)).
  unfold set_op. rewrite Hops by left. cbn [mbind res_bind].
  destruct (IH fuel (<[k:=v]> ops) b true Hnd) as (f & i & s & Hf' & E).
  - intros k' Hk'. rewrite lookup_insert_ne by (intros ->; done). apply Hops. by right.
  - lia.
  - exists f, i, s. split; [done|]. cbn [app] in *. rewrite E.
    f_equal. f_equal. simpl. rewrite <- insert_union_r; [by rewrite insert_union_l|].
    by apply not_elem_of_list_to_map.
Qed.

(** Bare text in front of an operator is stored under the empty key. *)
Lemma loop_bare fuel term k rest inR sp :
  k ∈ knownTags ->
  pq_loop fuel b (mkPq ∅ [] term (k ++ ":"%char :: rest) inR sp) =
  pq_loop fuel b (mkPq (if decide (TrimSpace term = []) then ∅ else {[ [] := term ]})
                       [] [] (k ++ ":"%char :: rest) inR sp).
Proof.
  intros Hk. destruct fuel as [|fuel]; [done|]. cbn [pq_loop].
  rewrite !step_key by auto using TrimSpace_nil.
  by rewrite (decide_True (P := TrimSpace [] = [])) by done.
Qed.

Lemma ops_text_head kvs k v :
  Forall is_op (kvs ++ [(k, v)]) ->
  exists k' rest, k' ∈ knownTags /\ ops_text kvs ++ op_text (k, v) = k' ++ ":"%char :: rest.
Proof.
  intros Hf. destruct kvs as [|[k' v'] kvs]; simpl in Hf.
  - apply Forall_cons in Hf as [[Hk _] _]. by exists k, v.
  - apply Forall_cons in Hf as [[Hk _] _]. rewrite ops_text_cons.
    exists k', (v' ++ " "%char :: ops_text kvs ++ op_text (k, v)). split; [done|].
    by rewrite <- !app_assoc, <- !app_comm_cons, <- app_assoc.
Qed.

(** The whole loop, on words followed by operators; the last one has key
    [k] and may repeat an earlier key. *)
Lemma loop_query ws kvs k v :
  let q := words_text ws ++ ops_text kvs ++ op_text (k, v) in
  let bare : opmap :=
    if decide (TrimSpace (words_text ws) = []) then ∅ else {[ [] := words_text ws ]} in
  Forall is_word ws -> Forall is_op (kvs ++ [(k, v)]) -> NoDup kvs.*1 ->
  pq_loop (S (length q)) b (mkPq ∅ [] [] q b true) =
  Some (set_op (ErrTermTwice k) (list_to_map kvs ∪ bare) k v).
Proof.
  intros q bare Hws Hkvs Hnd. subst q.
  destruct (loop_words (S (length (words_text ws ++ ops_text kvs ++ op_text (k, v))))
              ∅ [] ws (ops_text kvs ++ op_text (k, v)) b Hws ltac:(lia)) as (f & Hf & ->).
  destruct (ops_text_head kvs k v Hkvs) as (k0 & r0 & Hk0 & Heq).
  rewrite Heq, loop_bare by done. rewrite <- Heq. cbn [app]. fold bare.
  apply Forall_app in Hkvs as [Hkvs [[Hk Hv] _]%Forall_cons]. simpl in Hk, Hv.
  assert (forall k, k ∈ knownTags -> bare !! k = None) as Hb.
  { intros k' [? _]%knownTags_key. subst bare. case_decide; [done|].
    by rewrite lookup_singleton_ne. }
  destruct (loop_ops f bare kvs (op_text (k, v)) b true Hkvs Hnd)
    as (f' & i & s & Hf' & ->); [|done|].
  { intros k' (kv & -> & Hkv)%list_elem_of_fmap. apply Hb.
    rewrite Forall_forall in Hkvs. by apply Hkvs. }
  unfold op_text in *. simpl in *. rewrite length_app in Hf'. simpl in Hf'.
  destruct f' as [|[|f']]; [lia|lia|]. cbn [pq_loop].
  rewrite step_key by auto using TrimSpace_nil.
  rewrite decide_True, step_last by done. cbn [app].
  by destruct (set_op _ _ _ _).
Qed.
End turns.

Lemma words_text_ends ws w :
  Forall is_word (ws ++ [w]) -> ends_plain (words_text ws ++ w).
Proof.
  intros Hws. assert (forall u, is_word u -> ends_plain u) as Hu.
  { intros u [Hne Hu]. rewrite Forall_forall in Hu. split.
    - destruct u as [|c u]; [done|]. exists c. split; [done|].
      apply word_byte_spec, Hu. by left.
    - destruct (reverse u) as [|d r] eqn:E.
      { apply (f_equal reverse) in E. by rewrite reverse_involutive in E. }
      exists d. split; [done|]. apply word_byte_spec, Hu.
      apply elem_of_reverse. rewrite E. by left. }
  destruct ws as [|w0 ws]; [by apply Hu; inversion Hws|].
  apply Forall_cons in Hws as [H0 Hws]. apply Forall_app in Hws as [_ [Hw _]%Forall_cons].
  apply ends_plain_app; [|by apply Hu].
  destruct (Hu w0 H0) as [(c & Hc & Hp) _]. exists c. split; [|done].
  rewrite words_text_cons. by destruct w0.
Qed.

Lemma words_text_snoc ws w : words_text (ws ++ [w]) = (words_text ws ++ w) ++ " "%str.
Proof. unfold words_text. rewrite bind_app. cbn. by rewrite app_nil_r, <- app_assoc. Qed.

Lemma TrimSpace_words ws w :
  Forall is_word (ws ++ [w]) -> TrimSpace (words_text (ws ++ [w])) = words_text ws ++ w.
Proof. intros. rewrite words_text_snoc. by apply TrimSpace_space, words_text_ends. Qed.

Lemma TrimSpace_query ws kvs k v :
  Forall is_word ws -> Forall is_op (kvs ++ [(k, v)]) ->
  TrimSpace (words_text ws ++ ops_text kvs ++ op_text (k, v)) =
  words_text ws ++ ops_text kvs ++ op_text (k, v).
Proof.
  intros Hws Hkvs. apply TrimSpace_ends.
  destruct (ops_text_head kvs k v Hkvs) as (k0 & r0 & [Hne Hk0]%knownTags_key & Heq).
  split.
  - rewrite Heq. destruct ws as [|w ws].
    + destruct k0 as [|c k0]; [done|]. apply Forall_cons in Hk0 as [(_ & ? & _) _].
      by exists c.
    + apply Forall_cons in Hws as [[Hw HF] _]. rewrite words_text_cons.
      destruct w as [|c w]; [done|]. apply Forall_cons in HF as [HF _].
      exists c. split; [done|]. by apply word_byte_spec.
  - rewrite app_assoc. rewrite reverse_app. unfold op_text. cbn [fst snd].
    apply Forall_app in Hkvs as [_ [[Hk Hv] _]%Forall_cons]. simpl in Hv.
    destruct (reverse v) as [|d r] eqn:E.
    + apply (f_equal reverse) in E. rewrite reverse_involutive in E. subst.
      rewrite app_nil_r, reverse_app. by exists ":"%char.
    + rewrite reverse_app, reverse_app, E. exists d. split; [done|].
      rewrite Forall_forall in Hv. apply word_byte_spec, Hv.
      apply elem_of_reverse. rewrite E. by left.
Qed.

(** * The theorems *)

(** The terms a query of words and operators stands for. *)
Definition query_ops (ws : list str) (kvs : list (str * str)) : opmap :=
  list_to_map kvs ∪ (if decide (ws = []) then ∅ else {[ [] := words_text ws ]}).

Lemma bare_words ws : Forall is_word ws ->
  (if decide (TrimSpace (words_text ws) = []) then ∅ else {[ [] := words_text ws ]} : opmap)
  = (if decide (ws = []) then ∅ else {[ [] := words_text ws ]}).
Proof.
  intros Hws. destruct ws as [|w ws _] using rev_ind; [done|].
  rewrite (decide_False (P := ws ++ [w] = [])) by by destruct ws.
  rewrite decide_False; [done|]. rewrite TrimSpace_words by done.
  apply Forall_app in Hws as [_ [[Hw _] _]%Forall_cons]. by destruct (words_text ws), w.
Qed.

(** The parse of words followed by operators. *)
Lemma parse_words_ops b ws kvs k v :
  Forall is_word ws -> Forall is_op (kvs ++ [(k, v)]) -> NoDup (kvs ++ [(k, v)]).*1 ->
  ParseQuery (words_text ws ++ ops_text kvs ++ op_text (k, v)) b =
  Some (build_query (query_ops ws (kvs ++ [(k, v)])) b).
Proof.
  intros Hws Hkvs Hnd. unfold ParseQuery, pq_init.
  rewrite fmap_app in Hnd. pose proof Hnd as (Hnd1 & Hdj & _)%NoDup_app.
  rewrite TrimSpace_query, loop_query by done. rewrite bare_words by done.
  assert (k ∉ kvs.*1) as Hk.
  { intros Hin. eapply Hdj; [exact Hin|]. by left. }
  assert (query_ops ws kvs !! k = None) as Hnone.
  { apply lookup_union_None. split; [by apply not_elem_of_list_to_map|].
    case_decide; [done|]. apply lookup_singleton_ne. intros <-.
    apply Forall_app in Hkvs as [_ [[[? _]%knownTags_key _] _]%Forall_cons]. done. }
  fold (query_ops ws kvs). unfold set_op. rewrite Hnone. unfold query_ops. f_equal. f_equal.
  rewrite list_to_map_app. simpl.
  rewrite <- insert_union_r by by apply not_elem_of_list_to_map.
  by rewrite (right_id_L ∅ (∪)), insert_union_l.
Qed.

(** C1: a query of words followed by operators with distinct known keys is
    read back as exactly those terms: the map handed to the final stage holds
    every operator's text under its key, and the words under the empty key. *)
Theorem ParseQuery_words_ops b ws kvs k v :
  Forall is_word ws -> Forall is_op (kvs ++ [(k, v)]) -> NoDup (kvs ++ [(k, v)]).*1 ->
  ParseQuery (words_text ws ++ ops_text kvs ++ op_text (k, v)) b =
  Some (build_query (query_ops ws (kvs ++ [(k, v)])) b).
Proof. apply parse_words_ops. Qed.

(** An operator key that occurs twice is refused with the error that
    names the key, whatever stands between the two. *)
Theorem ParseQuery_repeated b ws kvs k v :
  Forall is_word ws -> Forall is_op (kvs ++ [(k, v)]) -> NoDup kvs.*1 -> k ∈ kvs.*1 ->
  ParseQuery (words_text ws ++ ops_text kvs ++ op_text (k, v)) b =
  Some (emptyQuery, Some (ErrTermTwice k)).
Proof.
  intros Hws Hkvs Hnd Hk. unfold ParseQuery, pq_init.
  rewrite TrimSpace_query, loop_query by done. unfold set_op.
  destruct ((list_to_map kvs : opmap) !! k) as [v'|] eqn:E.
  - by erewrite lookup_union_Some_l.
  - by apply not_elem_of_list_to_map in E.
Qed.

(** The final stage when there is bare text and neither [case:] nor [lit:]. *)
Lemma build_query_line ops b f nf i :
  ops !! "case"%str = None -> ops !! "lit"%str = None ->
  TrimSpace (get_op ops []) <> [] ->
  onlyOneSynonym ops "file"%str "path"%str = Ok f ->
  onlyOneSynonym ops "-file"%str "-path"%str = Ok nf ->
  max_matches_of ops = Ok i ->
  build_query ops b =
  (let l := quote_unless b (TrimSpace (get_op ops [])) in
   mkQuery l (quote_unless b f) (quote_unless b (get_op ops "repo"%str))
     (get_op ops "tags"%str) (no_upper l) (quote_unless b nf)
     (quote_unless b (get_op ops "-repo"%str)) (get_op ops "-tags"%str) i false false, None).
Proof.
  intros Hc Hl Ht Hf Hnf Hm.
  set (l := quote_unless b (TrimSpace (get_op ops []))).
  assert (l <> []) as Hne by by unfold l; rewrite quote_unless_nil.
  assert (query_bits ops b = [l]) as Hb.
  { unfold query_bits. cbn [fmap list_fmap].
    assert (get_op ops "case"%str = [] /\ get_op ops "lit"%str = []) as [-> ->]
      by (unfold get_op; by rewrite Hc, Hl).
    rewrite TrimSpace_nil. cbn [orb]. rewrite bool_decide_false by done.
    unfold l in *. destruct b; simpl in *; by rewrite bool_decide_false. }
  unfold build_query. rewrite Hf, Hnf, Hb, Hm, Hc, Hl. cbn -[quote_unless].
  by rewrite !bool_decide_false by done.
Qed.

(** The parse of words. *)
Lemma parse_words b ws w :
  Forall is_word (ws ++ [w]) ->
  let line := quote_unless b (words_text ws ++ w) in
  ParseQuery (words_text ws ++ w) b =
  Some (mkQuery line [] [] [] (no_upper line) [] [] [] 0 false false, None).
Proof.
  intros Hws line. unfold ParseQuery, pq_init.
  assert (TrimSpace (words_text ws ++ w) = words_text ws ++ w) as Ht
    by by apply TrimSpace_ends, words_text_ends.
  rewrite Ht. pose proof Hws as [Hws1 [[Hw Hw2] _]%Forall_cons]%Forall_app.
  destruct (loop_words b (S (length (words_text ws ++ w))) ∅ [] ws w b Hws1 ltac:(lia))
    as (f & Hf & ->).
  destruct f as [|f]; [lia|]. cbn [pq_loop]. rewrite step_last by done. simpl.
  assert (set_op (ErrTermTwice []) ∅ [] (words_text ws ++ w) = Ok {[ [] := words_text ws ++ w ]}) as -> by done. cbn [mbind res_bind].
  rewrite (build_query_line _ b [] [] 0); unfold get_op;
    rewrite ?lookup_singleton_eq, ?lookup_singleton_ne by done; try done; simpl; rewrite Ht.
  - by destruct b.
  - by destruct (words_text ws), w.
Qed.

(** A query of words only is the line pattern, as typed in regular
    expression mode and quoted in literal mode; it is case-insensitive exactly
    when it has no upper-case letter, and nothing else is set. *)
Theorem ParseQuery_words b ws w :
  Forall is_word (ws ++ [w]) ->
  let line := quote_unless b (words_text ws ++ w) in
  ParseQuery (words_text ws ++ w) b =
  Some (mkQuery line [] [] [] (no_upper line) [] [] [] 0 false false, None).
Proof. apply parse_words. Qed.

Lemma max_matches_range ops i : max_matches_of ops = Ok i -> in_signed 32 i.
Proof.
  unfold max_matches_of. assert (in_signed 32 0) as H0 by by unfold in_signed.
  destruct (ops !! _) as [v|]; [|intros; by inv_ok].
  destruct (decide (v = [])); [intros; by inv_ok|].
  destruct (Atoi v); [|done]. intros; inv_ok. apply int32_range.
Qed.

Lemma ParseQuery_build query b out :
  ParseQuery query b = Some (out, None) -> exists ops, build_query ops b = (out, None).
Proof.
  unfold ParseQuery. intros H. destruct (pq_loop _ _ _) as [[ops|e|]|]; simplify_eq. eauto.
Qed.

(** C35: a query accepted without error searches one thing: not both file
    names and tree names; a file-name (or tree-name) search has its pattern in
    [Line] and leaves no file (or repo) filter behind; and without a line
    pattern there is no file or repo filter and no special mode. *)
Theorem ParseQuery_exclusive query b out :
  ParseQuery query b = Some (out, None) ->
  ~ (FilenameOnly out = true /\ TreenameOnly out = true) /\
  (FilenameOnly out = true -> Line out <> [] /\ File out = []) /\
  (TreenameOnly out = true -> Line out <> [] /\ Repo out = [] /\ File out = []) /\
  (Line out = [] -> File out = [] /\ Repo out = [] /\
                    FilenameOnly out = false /\ TreenameOnly out = false) /\
  in_signed 32 (MaxMatches out).
Proof.
  intros (ops & H)%ParseQuery_build.
  apply build_query_Ok in H as (file & nf & line & _ & _ & _ & _ & _ & _ & Hm & Hcases).
  assert (in_signed 32 (MaxMatches out)) as Hr.
  { by eapply max_matches_range. }
  simpl in Hcases. destruct_and?. destruct_or?; destruct_and?; split_and!; try done;
    try congruence; intros; try (split_and!; congruence); intros [??]; congruence.
Qed.

(** In literal mode every pattern sent to the backend is the quotation of
    a literal text: [Line], [File], [Repo] and their negations contain no
    unescaped metacharacter. *)
Theorem ParseQuery_literal query out :
  ParseQuery query false = Some (out, None) ->
  Forall (fun p => is_Some (unquote p))
    [Line out; File out; Repo out; NotFile out; NotRepo out].
Proof.
  intros (ops & H)%ParseQuery_build.
  apply build_query_Ok in H as (file & nf & line & _ & _ & Hl & Hlen & Hnf & Hnr & _ & Hcases).
  assert (forall s, is_Some (unquote (quote_unless false s))) as Hq.
  { intros s. simpl. rewrite unquote_QuoteMeta. by eexists. }
  assert (is_Some (unquote line)) as Hline.
  { subst line. unfold query_bits in *.
    destruct (List.filter _ _) as [|p l] eqn:E; simpl; [by eexists|].
    assert (In p (p :: l)) as Hin by by left. rewrite <- E in Hin.
    apply filter_In in Hin as [Hin _]. rewrite <- list_elem_of_In in Hin.
    apply list_elem_of_fmap in Hin as (k & -> & _). cbn [negb]. rewrite orb_true_r.
    rewrite unquote_QuoteMeta. by eexists. }
  rewrite Hnf, Hnr. simpl in Hcases.
  destruct_or?; destruct_and?;
    repeat match goal with H : _ out = _ |- _ => rewrite H end;
    repeat constructor; try done; try apply Hq; by eexists.
Qed.

(** A number is a word. *)
Lemma Itoa_word n : 0 <= n -> Forall (fun c => word_byte c = true) (Itoa n).
Proof.
  intros Hn. unfold Itoa. rewrite (proj2 (Z.ltb_ge n 0)) by lia.
  pose proof (uitoa_digits n Hn) as Hd. rewrite forallb_forall in Hd.
  apply Forall_forall. intros c Hc%list_elem_of_In%Hd.
  destruct c as [[] [] [] [] [] [] [] []]; try done.
Qed.

Definition max_key : str := "max_matches"%str.
Lemma max_key_op n : 0 <= n -> is_op (max_key, Itoa n).
Proof.
  intros Hn. split; [|by apply Itoa_word].
  apply (list_elem_of_lookup_2 knownTags 10%nat). reflexivity.
Qed.

(** The query of words and a limit on the matches. *)
Lemma parse_words_max b ws w n :
  Forall is_word (ws ++ [w]) -> 0 <= n < 2 ^ 63 ->
  let line := quote_unless b (words_text ws ++ w) in
  ParseQuery (words_text ws ++ w ++ " max_matches:"%str ++ Itoa n) b =
  Some (mkQuery line [] [] [] (no_upper line) [] [] [] (int32 n) false false, None).
Proof.
  intros Hw Hn line.
  pose proof (max_key_op n ltac:(lia)) as Hop.
  pose proof (parse_words_ops b (ws ++ [w]) [] max_key (Itoa n) Hw
    ltac:(by apply Forall_singleton) ltac:(apply NoDup_singleton)) as E.
  assert (words_text (ws ++ [w]) = (words_text ws ++ w) ++ " "%str) as Hwt
    by (unfold words_text; rewrite bind_app; cbn; by rewrite app_nil_r, app_assoc).
  assert (words_text ws ++ w ++ " max_matches:"%str ++ Itoa n =
          words_text (ws ++ [w]) ++ ops_text [] ++ op_text (max_key, Itoa n)) as ->
    by by rewrite Hwt, <- !app_assoc.
  rewrite E. set (ops := query_ops (ws ++ [w]) ([] ++ [(max_key, Itoa n)])).
  assert (forall k, ops !! k = if decide (k = max_key) then Some (Itoa n)
    else if decide (k = []) then Some (words_text (ws ++ [w])) else None) as Hops.
  { intros k. unfold ops, query_ops. rewrite (decide_False (P := ws ++ [w] = [])) by by destruct ws.
    cbn [app list_to_map]. destruct (decide (k = max_key)) as [->|Hk].
    - erewrite lookup_union_Some_l; [done|]. simpl. by rewrite lookup_insert_eq.
    - rewrite lookup_union_r by by simpl; rewrite lookup_insert_ne.
      destruct (decide (k = [])) as [->|]; [by rewrite lookup_singleton_eq|].
      by rewrite lookup_singleton_ne. }
  assert (TrimSpace (get_op ops []) = words_text ws ++ w) as Ht.
  { unfold get_op. rewrite Hops. rewrite decide_False, decide_True by done. cbn [default].
    rewrite Hwt. apply TrimSpace_space. by apply words_text_ends. }
  clearbody ops.
  rewrite (build_query_line ops b [] [] (int32 n));
    unfold onlyOneSynonym, max_matches_of, get_op in *; rewrite ?Hops in *; try done; simpl in *.
  - rewrite Ht. by destruct b.
  - rewrite Ht. apply Forall_app in Hw as [_ [[Hw _] _]%Forall_cons].
    by destruct (words_text ws), w.
  - rewrite decide_False.
    + rewrite Atoi_Itoa; [done|]. split; [|by destruct Hn]. lia.
    + unfold Itoa. rewrite (proj2 (Z.ltb_ge n 0)) by lia. apply uitoa_not_nil.
Qed.

(** C40: [max_matches:] keeps the low 32 bits of the number typed: the value
    is exact up to [2^31 - 1] and wraps around above. *)
Theorem ParseQuery_max_matches b w n :
  is_word w -> 0 <= n < 2 ^ 63 ->
  exists out, ParseQuery (w ++ " max_matches:"%str ++ Itoa n) b = Some (out, None)
    /\ MaxMatches out = int32 n /\ Line out = quote_unless b w.
Proof.
  intros Hw Hn. pose proof (parse_words_max b [] w n ltac:(by apply Forall_singleton) Hn) as E.
  eexists. split; [exact E|done].
Qed.

(** * Witnesses *)
Lemma ParseQuery_words_ops_witness :
  ParseQuery "foo bar file:baz max_matches:7"%str true =
  Some (build_query (query_ops ["foo"; "bar"]%str
    ([("file", "baz")] ++ [("max_matches", "7")])%str) true).
Proof.
  apply (ParseQuery_words_ops true ["foo"; "bar"]%str [("file", "baz")]%str
           "max_matches"%str "7"%str); by_decide.
Defined.

Lemma ParseQuery_repeated_witness :
  ParseQuery "foo file:a repo:b file:c"%str true =
  Some (emptyQuery, Some (ErrTermTwice "file"%str)).
Proof.
  apply (ParseQuery_repeated true ["foo"]%str [("file", "a"); ("repo", "b")]%str
           "file"%str "c"%str); by_decide.
Defined.

Lemma ParseQuery_words_witness :
  ParseQuery "a.b Foo"%str false =
  Some (mkQuery "a\.b Foo"%str [] [] [] false [] [] [] 0 false false, None).
Proof. apply (ParseQuery_words false ["a.b"]%str "Foo"%str). by_decide. Defined.

Lemma ParseQuery_exclusive_witness :
  let out := mkQuery "hello"%str [] [] [] true [] [] [] 0 true false in
  ParseQuery "file:hello"%str true = Some (out, None) /\
  (FilenameOnly out = true -> Line out <> [] /\ File out = []).
Proof.
  assert (ParseQuery "file:hello"%str true =
    Some (mkQuery "hello"%str [] [] [] true [] [] [] 0 true false, None)) as H
    by (vm_compute; reflexivity).
  split; [exact H|]. apply (ParseQuery_exclusive _ _ _ H).
Defined.

Lemma ParseQuery_literal_witness :
  let out := mkQuery "a\("%str "b"%str [] [] true [] [] [] 0 false false in
  ParseQuery "a( file:b"%str false = Some (out, None) /\
  Forall (fun p => is_Some (unquote p))
    [Line out; File out; Repo out; NotFile out; NotRepo out].
Proof.
  assert (ParseQuery "a( file:b"%str false =
    Some (mkQuery "a\("%str "b"%str [] [] true [] [] [] 0 false false, None)) as H
    by (vm_compute; reflexivity).
  split; [exact H|]. apply (ParseQuery_literal _ _ H).
Defined.

Lemma ParseQuery_max_matches_witness :
  exists out, ParseQuery "x max_matches:4294967296"%str true = Some (out, None)
    /\ MaxMatches out = 0 /\ Line out = "x"%str.
Proof.
  apply (ParseQuery_max_matches true "x"%str 4294967296); [by_decide|split; lia].
Defined.
