(* ===== verification/Search.v ===== *)
(** * Searching: [server/api.go]

    A request is turned into a query ([extractQuery]), sent to a backend and
    perhaps to its backup, and the matches are put together per file with
    their context lines ([dedupe]); [getNextPageUrl] makes the link to more
    results.  The backends are parameters: functions from a query to the
    answer of the gRPC call. *)
From S2P Require Import Prelude GoStrings GoRegexp GoPath GoSort GoMap Query.

(** ** Messages: [src/proto/livegrep.proto] *)
Record SearchResult := mkSearchResult {
  sr_Tree : str; sr_Version : str; sr_Path : str; sr_LineNumber : Z;
  sr_ContextBefore : list str; sr_ContextAfter : list str;
  sr_Bounds : list (Z * Z); sr_Line : str; sr_NumMatches : Z;
}.
(** A nil message field is [None]. *)
Record pbFileResult := mkPbFile {
  pf_Tree : str; pf_Version : str; pf_Path : str; pf_Bounds : option (Z * Z);
}.
Record pbMetadata := mkPbMetadata { pm_Labels : list str; pm_Github : str }.
Record pbTreeResult := mkPbTree {
  pt_Name : str; pt_Version : str; pt_Metadata : option pbMetadata; pt_Bounds : option (Z * Z);
}.
Inductive ExitReason := NONE | TIMEOUT | MATCH_LIMIT.
#[export] Instance ExitReason_eq_dec : EqDecision ExitReason.
Proof. solve_decision. Defined.
Definition exit_string (e : ExitReason) : str :=
  match e with NONE => "NONE" | TIMEOUT => "TIMEOUT" | MATCH_LIMIT => "MATCH_LIMIT" end%str.
Record SearchStats := mkPbStats {
  ps_Re2Time : Z; ps_GitTime : Z; ps_SortTime : Z; ps_IndexTime : Z; ps_AnalyzeTime : Z;
  ps_ExitReason : ExitReason; ps_NumMatches : Z;
}.
Record CodeSearchResult := mkPbResult {
  cs_Stats : option SearchStats; cs_Results : list SearchResult;
  cs_FileResults : list pbFileResult; cs_TreeResults : list pbTreeResult; cs_IndexTime : Z;
}.

(** The answer of a gRPC call: a result, or a status code and description. *)
Inductive rpc (A : Type) := RpcOk (a : A) | RpcErr (code : Z) (desc : str).
Arguments RpcOk {A} a.
Arguments RpcErr {A} code desc.
Definition InvalidArgument : Z := 3.
Definition Unavailable : Z := 14.

(** [Backend]: its calls, and its backup. *)
Inductive Backend := mkBackend {
  bk_Id : str;
  bk_Search : Query -> rpc CodeSearchResult;
  BackupBackend : option Backend;
}.

(** ** Replies: [server/api/types.go] *)
Record Stats := mkStats {
  RE2Time : Z; GitTime : Z; SortTime : Z; IndexTime : Z; AnalyzeTime : Z; TotalTime : Z;
  st_ExitReason : str; st_NumMatches : Z;
}.
Record Metadata := mkMetadata { Labels : list str; ExternalUrl : str }.
Record Result := mkResult {
  r_Tree : str; r_Version : str; r_Path : str; r_LineNumber : Z;
  r_ContextBefore : list str; r_ContextAfter : list str; r_Bounds : list (Z * Z); r_Line : str;
}.
Record ResultLine := mkResultLine { LineNumber : Z; Bounds : list (Z * Z); rl_Line : str }.
Record ResultV2 := mkResultV2 {
  Tree : str; Version : str; rv_Path : str; Lines : list ResultLine;
  ContextLines : gmap Z ResultLine; NumMatches : Z;
}.
Record FileResult := mkFileResult {
  fr_Tree : str; fr_Version : str; fr_Path : str; fr_Bounds : Z * Z;
}.
Record TreeResult := mkTreeResult {
  tr_Name : str; tr_Version : str; tr_Metadata : Metadata; tr_Bounds : Z * Z;
}.
Record FileExtension := mkFileExtension { fe_Ext : str; Count : Z }.
Record ReplySearch := mkReply {
  rs_Info : Stats; rs_Results : list Result; rs_FileResults : list FileResult;
  rs_TreeResults : list TreeResult; rs_SearchType : str;
}.
Record ReplySearchV2 := mkReplyV2 {
  Info : Stats; Results : list ResultV2; FileResults : list FileResult;
  TreeResults : list TreeResult; SearchType : str; PopExts : list FileExtension;
  IndexAge : str; LastIndexed : str; BackupIdxUsed : bool;
  CurrMaxMatches : Z; NextMaxMatches : Z; NextUrl : str;
}.

(** ** The query of a request *)

(** [params[key]] and its first value; an empty list of values would panic. *)
Definition first_param {E : Type} (params : values) (key : str) : res E (option str) :=
  match params !! key with
  | None => Ok None
  | Some l => x ← deref (head l); Ok (Some x)
  end.

(** A parameter replaces a field, quoted in literal mode. *)
Definition old_style (regex : bool) (p : option str) (field : str) : str :=
  match p with Some v => if regex then v else QuoteMeta v | None => field end.

Definition extractQuery (params : values) : res unit (Query * bool * option QueryErr) :=
  re ← first_param params "regex"%str;
  let regex := negb (bool_decide (re = Some "false"%str)) in
  q ← first_param params "q"%str;
  let '(query, err) := match q with
                       | Some q => default (emptyQuery, None) (ParseQuery q regex)
                       | None => (emptyQuery, None)
                       end in
  line ← first_param params "line"%str;
  file ← first_param params "file"%str;
  repo ← first_param params "repo"%str;
  let Line' := old_style regex line (Line query) in
  fc ← first_param params "fold_case"%str;
  let FoldCase' := match fc with
                   | Some v => if decide (v = "false"%str) then false
                               else if decide (v = "true"%str) then true else no_upper Line'
                   | None => FoldCase query
                   end in
  Ok (mkQuery Line' (old_style regex file (File query)) (old_style regex repo (Repo query))
        (Tags query) FoldCase' (NotFile query) (NotRepo query) (NotTags query)
        (MaxMatches query) (FilenameOnly query) (TreenameOnly query), regex, err).

Definition set_MaxMatches (q : Query) (n : Z) : Query :=
  let '(mkQuery a b c d e f g h _ j k) := q in mkQuery a b c d e f g h n j k.

(** ** Matches *)
Definition reverse_strings (strings : list str) : list str :=
  omap (fun i => strings !! i) (reverse (seq 0 (length strings))).

(** [int32] bounds as [int] pairs. *)
Definition convertBounds (bounds : list (Z * Z)) : list (Z * Z) := (fun b => (b.1, b.2)) <$> bounds.

(** The lines around a match, with their numbers. *)
Definition contextLinesInit (r : SearchResult) : list (Z * str) :=
  imap (fun idx line =>
      (int64 (Z.of_nat idx + sr_LineNumber r - Z.of_nat (length (sr_ContextBefore r))), line))
    (reverse_strings (sr_ContextBefore r) ++ sr_Line r :: sr_ContextAfter r).

(** The body of the loop over them. *)
Definition add_line (r : SearchResult) (present : bool) (m : gmap Z ResultLine) (p : Z * str)
    : gmap Z ResultLine :=
  let '(contexLno, line) := p in
  let bounds := if decide (contexLno = sr_LineNumber r) then convertBounds (sr_Bounds r) else [] in
  let bounds :=
    if present then
      match m !! contexLno with
      | Some existing => if decide (length bounds < length (Bounds existing))%nat
                         then Bounds existing else bounds
      | None => bounds
      end
    else bounds in
  <[contexLno := mkResultLine contexLno bounds line]> m.

Definition result_key (r : SearchResult) : str := sr_Tree r ++ "-"%str ++ sr_Path r.

(** The body of the loop over the matches; the map holds pointers, and a
    result is changed in place: storing it again under its key is the same. *)
Definition add_result (m : gmap str ResultV2) (r : SearchResult) : gmap str ResultV2 :=
  let key := result_key r in
  let present := bool_decide (is_Some (m !! key)) in
  let existing := default (mkResultV2 (sr_Tree r) (sr_Version r) (sr_Path r) [] ∅ 0) (m !! key) in
  <[key := mkResultV2 (Tree existing) (Version existing) (rv_Path existing) (Lines existing)
             (foldl (add_line r present) (ContextLines existing) (contextLinesInit r))
             (int64 (NumMatches existing + sr_NumMatches r))]> m.

Definition dedupe (rs : list SearchResult) : gmap str ResultV2 := foldl add_result ∅ rs.

(** By tree, then by path. *)
Definition result_less (a b : ResultV2) : bool :=
  if bool_decide (Tree a = Tree b) then str_ltb (rv_Path a) (rv_Path b)
  else str_ltb (Tree a) (Tree b).
Definition result_less1 (a b : Result) : bool :=
  if bool_decide (r_Tree a = r_Tree b) then str_ltb (r_Path a) (r_Path b)
  else str_ltb (r_Tree a) (r_Tree b).
Definition line_less (a b : ResultLine) : bool := LineNumber a <? LineNumber b.
Definition count_greater (a b : FileExtension) : bool := Count b <? Count a.

Definition file_result {E : Type} (r : pbFileResult) : res E FileResult :=
  b ← deref (pf_Bounds r); Ok (mkFileResult (pf_Tree r) (pf_Version r) (pf_Path r) (b.1, b.2)).
Definition tree_result {E : Type} (r : pbTreeResult) : res E TreeResult :=
  b ← deref (pt_Bounds r);
  md ← deref (pt_Metadata r);
  Ok (mkTreeResult (pt_Name r) (pt_Version r)
        (mkMetadata (pm_Labels md) (pm_Github md ++ "/tree/"%str ++ pt_Version r)) (b.1, b.2)).
Definition stats {E : Type} (s : option SearchStats) (elapsed : Z) : res E Stats :=
  s ← deref s;
  Ok (mkStats (ps_Re2Time s) (ps_GitTime s) (ps_SortTime s) (ps_IndexTime s) (ps_AnalyzeTime s)
        elapsed (exit_string (ps_ExitReason s)) (ps_NumMatches s)).

Definition search_type (q : Query) : str :=
  if FilenameOnly q then "filename_only"%str
  else if TreenameOnly q then "treename_only"%str else "normal"%str.

(** ** More results *)
Definition max_matches_op (n : Z) : str := " max_matches:"%str ++ Itoa n.

Definition next_query (currQuery : str) (maxMatches : Z) : str :=
  let nextMaxMatches := maxMatches * 3 in
  if contains currQuery " max_matches:"%str
  then replace1 currQuery (max_matches_op maxMatches) (max_matches_op nextMaxMatches)
  else currQuery ++ max_matches_op nextMaxMatches.

Section search.
Context `{!GoSort, !GoRange}.
(** The clock: the time a search took, and how the age and the date of an
    index are shown; the text of a gRPC error. *)
Context (elapsed : Z) (show_age show_date : Z -> str) (rpc_error : Z -> str -> str).

Definition getNextPageUrl (searchQ : values) (q : Query) (exitReason : str) : str :=
  if decide (exitReason = "NONE"%str) then []
  else "?"%str ++ Encode (values_set searchQ "q"%str
                            (next_query (values_get searchQ "q"%str) (MaxMatches q))).

Definition search_results (rs : list SearchResult) : list Result :=
  go_sort result_less1
    ((fun r => mkResult (sr_Tree r) (sr_Version r) (sr_Path r) (sr_LineNumber r)
                 (sr_ContextBefore r) (sr_ContextAfter r) (convertBounds (sr_Bounds r))
                 (sr_Line r)) <$> rs).

Definition doSearch (backend : Backend) (q : Query) : res (Z * str) ReplySearch :=
  match bk_Search backend q with
  | RpcErr code desc => Err (code, desc)
  | RpcOk search =>
      files ← mapR file_result (cs_FileResults search);
      trees ← mapR tree_result (cs_TreeResults search);
      info ← stats (cs_Stats search) elapsed;
      Ok (mkReply info (search_results (cs_Results search)) files trees (search_type q))
  end.

(** The lines of a file as a slice, in order. *)
Definition finish_lines (r : ResultV2) : ResultV2 :=
  mkResultV2 (Tree r) (Version r) (rv_Path r) (go_sort line_less (go_range (ContextLines r)).*2)
    (ContextLines r) (NumMatches r).

Definition results_V2 (deduped : gmap str ResultV2) : list ResultV2 :=
  go_sort result_less (finish_lines <$> (go_range deduped).*2).

(** [extensionCounts[ext] += 1] *)
Definition count_ext (m : gmap str Z) (treeAndPath : str) : gmap str Z :=
  let ext := Ext treeAndPath in <[ext := int64 (default 0 (m !! ext) + 1)]> m.

Definition extension_array (deduped : gmap str ResultV2) : list FileExtension :=
  (fun p => mkFileExtension p.1 p.2) <$>
    filter (fun p => p.1 <> []) (go_range (foldl count_ext ∅ (go_range deduped).*1)).

(** At most five extensions, and none when there are fewer than two. *)
Definition pop_exts (exts : list FileExtension) : list FileExtension :=
  let c := (if decide (length exts < 5) then length exts else 5)%nat in
  let c := (if decide (c < 2) then 0 else c)%nat in
  take c (go_sort count_greater exts).

(** The call of the backend, then of its backup if the backend is unavailable. *)
Definition search_with_backup (backend : Backend) (q : Query) : rpc CodeSearchResult * bool :=
  match bk_Search backend q with
  | RpcErr code desc =>
      if decide (code = Unavailable) then
        match BackupBackend backend with
        | Some backup => (bk_Search backup q, true)
        | None => (RpcErr code desc, false)
        end
      else (RpcErr code desc, false)
  | r => (r, false)
  end.

Definition doSearchV2 (backend : Backend) (q : Query) : res (Z * str) ReplySearchV2 :=
  let '(search, backendIdxUsed) := search_with_backup backend q in
  match search with
  | RpcErr code desc => Err (code, desc)
  | RpcOk search =>
      let dedupedResults := dedupe (cs_Results search) in
      files ← mapR file_result (cs_FileResults search);
      trees ← mapR tree_result (cs_TreeResults search);
      info ← stats (cs_Stats search) elapsed;
      Ok (mkReplyV2 info (results_V2 dedupedResults) files trees (search_type q)
            (pop_exts (extension_array dedupedResults))
            (show_age (cs_IndexTime search)) (show_date (cs_IndexTime search)) backendIdxUsed
            (MaxMatches q) (MaxMatches q * 3) [])
  end.

(** ** The handlers *)
Record server := mkServer { s_bk : gmap str Backend; DefaultMaxMatches : Z }.

(** The named backend, or any when the request names none. *)
Definition getBackendFromQuery (s : server) (params : values) : str * option Backend :=
  let backendName := values_get params ":backend"%str in
  (backendName, if decide (backendName = []) then snd <$> head (go_range (s_bk s))
                else s_bk s !! backendName).

Definition getQueryError (err : Z * str) : Z * str * str :=
  if decide (err.1 = InvalidArgument) then (400, "query"%str, err.2)
  else (500, "internal_error"%str, "Talking to backend: "%str ++ rpc_error err.1 err.2).

Definition must_specify (is_regex : bool) : str :=
  "You must specify a "%str ++ (if is_regex then "regex"%str else "string"%str) ++ " to match"%str.

Definition with_default (s : server) (q : Query) : Query :=
  if decide (MaxMatches q = 0) then set_MaxMatches q (DefaultMaxMatches s) else q.

(** [reply, errCode, errorMsg, errorMsgLong]; [None] is a nil reply. *)
Definition ServerSideAPISearchV2 (s : server) (params : values)
    : res unit (option ReplySearchV2 * Z * str * str) :=
  let '(backendName, backend) := getBackendFromQuery s params in
  match backend with
  | None => Ok (None, 400, "bad_backend"%str, "Unknown backend: "%str ++ backendName)
  | Some backend =>
      '(q, is_regex, err) ← extractQuery params;
      match err with
      | Some e => Ok (None, 400, "bad_query"%str, query_error e)
      | None =>
          if decide (Line q = []) then Ok (None, 400, "bad_query"%str, must_specify is_regex)
          else
            let q := with_default s q in
            match doSearchV2 backend q with
            | Err e => let '(code, msg, long) := getQueryError e in Ok (None, code, msg, long)
            | Panic => Panic
            | Ok r =>
                let url := getNextPageUrl params q (st_ExitReason (Info r)) in
                Ok (Some (mkReplyV2 (Info r) (Results r) (FileResults r) (TreeResults r)
                            (SearchType r) (PopExts r) (IndexAge r) (LastIndexed r)
                            (BackupIdxUsed r) (CurrMaxMatches r) (NextMaxMatches r) url),
                    200, [], [])
            end
      end
  end.

(** What is written to the client. *)
Inductive response (A : Type) :=
  | replyJSON (status : Z) (obj : A)
  | writeError (status : Z) (code message : str).
Arguments replyJSON {A} status obj.
Arguments writeError {A} status code message.

Definition writeQueryError {A} (err : Z * str) : response A :=
  if decide (err.1 = InvalidArgument) then writeError 400 "query"%str err.2
  else writeError 500 "internal_error"%str
         ("Talking to backend: "%str ++ rpc_error err.1 err.2).

(** A server without backends has a nil backend to search. *)
Definition ServeAPISearch (s : server) (params : values) : res unit (response ReplySearch) :=
  let '(backendName, backend) := getBackendFromQuery s params in
  if bool_decide (backendName <> []) && bool_decide (backend = None)
  then Ok (writeError 400 "bad_backend"%str ("Unknown backend: "%str ++ backendName))
  else
  '(q, is_regex, err) ← extractQuery params;
  match err with
  | Some e => Ok (writeError 400 "bad_query"%str (query_error e))
  | None =>
      if decide (Line q = []) then Ok (writeError 400 "bad_query"%str (must_specify is_regex))
      else
        backend ← deref backend;
        match doSearch backend (with_default s q) with
        | Err e => Ok (writeQueryError e)
        | Panic => Panic
        | Ok reply => Ok (replyJSON 200 reply)
        end
  end.
End search.
Arguments replyJSON {A} status obj.
Arguments writeError {A} status code message.
