(* ===== verification/Api.v ===== *)
(** * The replies of the search API on the wire: [server/api/types.go], and
      [replyJSON], [writeError] of [server/api.go], [server/json.go]

    What the server writes, and what the clients [lg] and [lgiap] decode. *)
From S2P Require Import Prelude GoStrings GoMap GoJson Query Search.

(** ** Writing *)
Definition enc_pair (p : Z * Z) : json := JArr [JInt p.1; JInt p.2].
Definition enc_strs (l : list str) : json := JArr (JStr <$> l).

Definition enc_Stats (s : Stats) : json :=
  JObj [("re2_time", JInt (RE2Time s)); ("git_time", JInt (GitTime s)); ("sort_time", JInt (SortTime s));
        ("index_time", JInt (IndexTime s)); ("analyze_time", JInt (AnalyzeTime s));
        ("total_time", JInt (TotalTime s)); ("why", JStr (st_ExitReason s));
        ("num_matches", JInt (st_NumMatches s))]%str.
(** A message without labels has a nil slice. *)
Definition enc_Metadata (m : Metadata) : json :=
  JObj [("labels"%str, if decide (length (Labels m) = 0%nat) then JNull else enc_strs (Labels m));
        ("external_url"%str, JStr (ExternalUrl m))].
Definition enc_Result (r : Result) : json :=
  JObj [("tree", JStr (r_Tree r)); ("version", JStr (r_Version r)); ("path", JStr (r_Path r));
        ("lno", JInt (r_LineNumber r)); ("context_before", enc_strs (r_ContextBefore r));
        ("context_after", enc_strs (r_ContextAfter r)); ("bounds", JArr (enc_pair <$> r_Bounds r));
        ("line", JStr (r_Line r))]%str.
Definition enc_FileResult (r : FileResult) : json :=
  JObj [("tree", JStr (fr_Tree r)); ("version", JStr (fr_Version r)); ("path", JStr (fr_Path r));
        ("bounds", enc_pair (fr_Bounds r))]%str.
Definition enc_TreeResult (r : TreeResult) : json :=
  JObj [("name", JStr (tr_Name r)); ("version", JStr (tr_Version r)); ("metadata", enc_Metadata (tr_Metadata r));
        ("bounds", enc_pair (tr_Bounds r))]%str.
Definition enc_ReplySearch (r : ReplySearch) : json :=
  JObj [("info", enc_Stats (rs_Info r)); ("results", JArr (enc_Result <$> rs_Results r));
        ("file_results", JArr (enc_FileResult <$> rs_FileResults r));
        ("tree_results", JArr (enc_TreeResult <$> rs_TreeResults r)); ("search_type", JStr (rs_SearchType r))]%str.
Definition enc_ReplyError (code message : str) : json :=
  JObj [("error"%str, JObj [("code", JStr code); ("message", JStr message)]%str)].

(** The status and the body of an answer. *)
Definition http_response {A} (enc : A -> json) (r : response A) : Z * str :=
  match r with
  | replyJSON status obj => (status, Encode_stream (enc obj))
  | writeError status code message => (status, Encode_stream (enc_ReplyError code message))
  end.

(** [asJSON.String] *)
Definition asJSON_String (v : json) : str := Marshal v.

(** ** Reading

    The elements of the slices, the statistics and the metadata are pointers. *)

(** An array of two: missing elements are zero, others are dropped. *)
Definition dec_pair : dec (Z * Z) := fun old v =>
  match v with
  | JArr l =>
      '(a, l) ← match l with [] => Some (0, []) | v :: l => a ← dec_int 64 old.1 v; Some (a, l) end;
      b ← match l with [] => Some 0 | v :: _ => dec_int 64 old.2 v end;
      Some (a, b)
  | JNull => Some old
  | _ => None
  end.
Definition dec_strs : dec (list str) := dec_slice [] dec_str.

Definition zero_Stats : Stats := mkStats 0 0 0 0 0 0 [] 0.
Definition zero_Metadata : Metadata := mkMetadata [] [].
Definition zero_Result : Result := mkResult [] [] [] 0 [] [] [] [].
Definition zero_FileResult : FileResult := mkFileResult [] [] [] (0, 0).
Record TreeResult_in := mkTreeIn { ti_Name : str; ti_Version : str; ti_Metadata : option Metadata; ti_Bounds : Z * Z }.
Definition zero_TreeResult : TreeResult_in := mkTreeIn [] [] None (0, 0).
Record ReplySearch_in := mkReplyIn {
  ri_Info : option Stats; ri_Results : list (option Result); ri_FileResults : list (option FileResult);
  ri_TreeResults : list (option TreeResult_in); ri_SearchType : str;
}.
Definition zero_ReplySearch : ReplySearch_in := mkReplyIn None [] [] [] [].

Definition dec_Stats : dec Stats :=
  dec_struct (fun l s => let names := ["re2_time"; "git_time"; "sort_time"; "index_time"; "analyze_time"; "total_time";
                                       "why"; "num_matches"]%str in
    re2 ← dec_key names l "re2_time"%str (dec_int 64) (RE2Time s);
    git ← dec_key names l "git_time"%str (dec_int 64) (GitTime s);
    sort ← dec_key names l "sort_time"%str (dec_int 64) (SortTime s);
    index ← dec_key names l "index_time"%str (dec_int 64) (IndexTime s);
    analyze ← dec_key names l "analyze_time"%str (dec_int 64) (AnalyzeTime s);
    total ← dec_key names l "total_time"%str (dec_int 64) (TotalTime s);
    why ← dec_key names l "why"%str dec_str (st_ExitReason s);
    num ← dec_key names l "num_matches"%str (dec_int 64) (st_NumMatches s);
    Some (mkStats re2 git sort index analyze total why num)).
Definition dec_Metadata : dec Metadata :=
  dec_struct (fun l m => let names := ["labels"; "external_url"]%str in
    labels ← dec_key names l "labels"%str dec_strs (Labels m);
    url ← dec_key names l "external_url"%str dec_str (ExternalUrl m);
    Some (mkMetadata labels url)).
Definition dec_Result : dec Result :=
  dec_struct (fun l r => let names := ["tree"; "version"; "path"; "lno"; "context_before"; "context_after"; "bounds";
                                       "line"]%str in
    tree ← dec_key names l "tree"%str dec_str (r_Tree r);
    version ← dec_key names l "version"%str dec_str (r_Version r);
    path ← dec_key names l "path"%str dec_str (r_Path r);
    lno ← dec_key names l "lno"%str (dec_int 64) (r_LineNumber r);
    before ← dec_key names l "context_before"%str dec_strs (r_ContextBefore r);
    after ← dec_key names l "context_after"%str dec_strs (r_ContextAfter r);
    bounds ← dec_key names l "bounds"%str (dec_slice (0, 0) dec_pair) (r_Bounds r);
    line ← dec_key names l "line"%str dec_str (r_Line r);
    Some (mkResult tree version path lno before after bounds line)).
Definition dec_FileResult : dec FileResult :=
  dec_struct (fun l r => let names := ["tree"; "version"; "path"; "bounds"]%str in
    tree ← dec_key names l "tree"%str dec_str (fr_Tree r);
    version ← dec_key names l "version"%str dec_str (fr_Version r);
    path ← dec_key names l "path"%str dec_str (fr_Path r);
    bounds ← dec_key names l "bounds"%str dec_pair (fr_Bounds r);
    Some (mkFileResult tree version path bounds)).
Definition dec_TreeResult : dec TreeResult_in :=
  dec_struct (fun l r => let names := ["name"; "version"; "metadata"; "bounds"]%str in
    name ← dec_key names l "name"%str dec_str (ti_Name r);
    version ← dec_key names l "version"%str dec_str (ti_Version r);
    metadata ← dec_key names l "metadata"%str (dec_ptr zero_Metadata dec_Metadata) (ti_Metadata r);
    bounds ← dec_key names l "bounds"%str dec_pair (ti_Bounds r);
    Some (mkTreeIn name version metadata bounds)).
Definition dec_ReplySearch : dec ReplySearch_in :=
  dec_struct (fun l r => let names := ["info"; "results"; "file_results"; "tree_results"; "search_type"]%str in
    info ← dec_key names l "info"%str (dec_ptr zero_Stats dec_Stats) (ri_Info r);
    results ← dec_key names l "results"%str (dec_slice None (dec_ptr zero_Result dec_Result)) (ri_Results r);
    files ← dec_key names l "file_results"%str
              (dec_slice None (dec_ptr zero_FileResult dec_FileResult)) (ri_FileResults r);
    trees ← dec_key names l "tree_results"%str
              (dec_slice None (dec_ptr zero_TreeResult dec_TreeResult)) (ri_TreeResults r);
    type ← dec_key names l "search_type"%str dec_str (ri_SearchType r);
    Some (mkReplyIn info results files trees type)).

(** [api.ReplyError]: the code and the message. *)
Definition dec_InnerError : dec (str * str) :=
  dec_struct (fun l e => let names := ["code"; "message"]%str in
    code ← dec_key names l "code"%str dec_str e.1;
    message ← dec_key names l "message"%str dec_str e.2;
    Some (code, message)).
Definition dec_ReplyError : dec (str * str) :=
  dec_struct (fun l e => dec_key ["error"%str] l "error"%str dec_InnerError e).

(** ** What is written is read

    A client has the reply of the server, with bytes that are not UTF-8
    replaced. *)
From S2P Require Import GoJsonSpec.

Definition clean_Stats (s : Stats) : Stats :=
  mkStats (RE2Time s) (GitTime s) (SortTime s) (IndexTime s) (AnalyzeTime s) (TotalTime s)
    (ToValidUTF8 (st_ExitReason s)) (st_NumMatches s).
Definition clean_Metadata (m : Metadata) : Metadata :=
  mkMetadata (ToValidUTF8 <$> Labels m) (ToValidUTF8 (ExternalUrl m)).
Definition clean_Result (r : Result) : Result :=
  mkResult (ToValidUTF8 (r_Tree r)) (ToValidUTF8 (r_Version r)) (ToValidUTF8 (r_Path r)) (r_LineNumber r)
    (ToValidUTF8 <$> r_ContextBefore r) (ToValidUTF8 <$> r_ContextAfter r) (r_Bounds r) (ToValidUTF8 (r_Line r)).
Definition clean_FileResult (r : FileResult) : FileResult :=
  mkFileResult (ToValidUTF8 (fr_Tree r)) (ToValidUTF8 (fr_Version r)) (ToValidUTF8 (fr_Path r)) (fr_Bounds r).
Definition tree_received (r : TreeResult) : TreeResult_in :=
  mkTreeIn (ToValidUTF8 (tr_Name r)) (ToValidUTF8 (tr_Version r)) (Some (clean_Metadata (tr_Metadata r))) (tr_Bounds r).
Definition received (r : ReplySearch) : ReplySearch_in :=
  mkReplyIn (Some (clean_Stats (rs_Info r))) ((Some ∘ clean_Result) <$> rs_Results r)
    ((Some ∘ clean_FileResult) <$> rs_FileResults r) ((Some ∘ tree_received) <$> rs_TreeResults r)
    (ToValidUTF8 (rs_SearchType r)).

(** Go's integers. *)
Definition int_pair (p : Z * Z) : Prop := in_signed 64 p.1 /\ in_signed 64 p.2.
#[export] Instance int_pair_dec p : Decision (int_pair p).
Proof. unfold int_pair. apply _. Defined.
Definition int_Stats (s : Stats) : Prop :=
  Forall (in_signed 64) [RE2Time s; GitTime s; SortTime s; IndexTime s; AnalyzeTime s; TotalTime s; st_NumMatches s].
Definition int_Reply (r : ReplySearch) : Prop :=
  int_Stats (rs_Info r) /\
  Forall (fun x => in_signed 64 (r_LineNumber x) /\ Forall int_pair (r_Bounds x)) (rs_Results r) /\
  Forall (fun x => int_pair (fr_Bounds x)) (rs_FileResults r) /\
  Forall (fun x => int_pair (tr_Bounds x)) (rs_TreeResults r).

#[export] Instance int_Reply_dec r : Decision (int_Reply r).
Proof. unfold int_Reply, int_Stats. apply _. Defined.

Lemma dec_pair_enc p old : int_pair p -> dec_pair old (coerce (enc_pair p)) = Some p.
Proof.
  intros [H1 H2]. destruct p as [a b]. unfold dec_pair, enc_pair. change (coerce (JArr [JInt (a, b).1; JInt (a, b).2])) with (JArr [coerce (JInt a); coerce (JInt b)]).
  cbn [fst snd]. rewrite (dec_int_JInt 64 _ a) by done. cbn [mbind option_bind]. by rewrite (dec_int_JInt 64 _ b).
Qed.
Lemma dec_pairs_enc l : Forall int_pair l -> dec_slice (0, 0) dec_pair [] (coerce (JArr (enc_pair <$> l))) = Some l.
Proof.
  intros H. rewrite (dec_slice_map _ _ _ id), list_fmap_id; [done|].
  eapply Forall_impl; [done|]. intros p Hp. by apply dec_pair_enc.
Qed.
#[local] Hint Resolve dec_pair_enc dec_pairs_enc : dec.

Lemma dec_Stats_enc s : int_Stats s -> dec_Stats zero_Stats (coerce (enc_Stats s)) = Some (clean_Stats s).
Proof.
  unfold int_Stats. rewrite !Forall_cons. intros (? & ? & ? & ? & ? & ? & ? & _). dec_record.
Qed.
Lemma dec_tree_metadata m : dec_Metadata zero_Metadata (coerce (enc_Metadata m)) = Some (clean_Metadata m).
Proof.
  unfold enc_Metadata. destruct (Labels m) as [|x l] eqn:E; unfold clean_Metadata, dec_Metadata; rewrite E; cbn [length].
  - rewrite decide_True by done. rewrite dec_struct_obj by (vm_compute; reflexivity).
    cbn [fmap list_fmap app fst snd]. dec_keys. reflexivity.
  - rewrite decide_False by done. rewrite dec_struct_obj by (vm_compute; reflexivity).
    cbn [fmap list_fmap app fst snd]. rewrite (dec_key_hit _ _ _ _ _ _ _ (ToValidUTF8 <$> (x :: l)));
      [|vm_compute; reflexivity|apply dec_strs_map]. dec_keys. reflexivity.
Qed.
Lemma dec_Result_enc r :
  in_signed 64 (r_LineNumber r) -> Forall int_pair (r_Bounds r) ->
  dec_Result zero_Result (coerce (enc_Result r)) = Some (clean_Result r).
Proof. intros. dec_record. Qed.
Lemma dec_FileResult_enc r :
  int_pair (fr_Bounds r) -> dec_FileResult zero_FileResult (coerce (enc_FileResult r)) = Some (clean_FileResult r).
Proof. intros. dec_record. Qed.
Lemma dec_TreeResult_enc r :
  int_pair (tr_Bounds r) -> dec_TreeResult zero_TreeResult (coerce (enc_TreeResult r)) = Some (tree_received r).
Proof.
  intros. assert (dec_ptr zero_Metadata dec_Metadata None (coerce (enc_Metadata (tr_Metadata r)))
    = Some (Some (clean_Metadata (tr_Metadata r)))).
  { apply dec_ptr_Some; [done|apply dec_tree_metadata]. }
  dec_record.
Qed.

Lemma small_enc_strs l : small 1 (enc_strs l).
Proof. unfold enc_strs. json_small. Qed.
Lemma small_enc_pair p : small 1 (enc_pair p).
Proof. unfold enc_pair. json_small. Qed.
#[local] Hint Resolve small_enc_strs small_enc_pair : json.
Lemma small_enc_Stats s : small 1 (enc_Stats s).
Proof. unfold enc_Stats. json_small. Qed.
Lemma small_enc_Metadata m : small 2 (enc_Metadata m).
Proof. unfold enc_Metadata. case_decide; json_small. Qed.
#[local] Hint Resolve small_enc_Stats small_enc_Metadata : json.
Lemma small_enc_Result r : small 3 (enc_Result r).
Proof. unfold enc_Result. json_small. Qed.
Lemma small_enc_FileResult r : small 2 (enc_FileResult r).
Proof. unfold enc_FileResult. json_small. Qed.
Lemma small_enc_TreeResult r : small 3 (enc_TreeResult r).
Proof. unfold enc_TreeResult. json_small. Qed.
#[local] Hint Resolve small_enc_Result small_enc_FileResult small_enc_TreeResult : json.
Lemma small_enc_ReplySearch r : small 5 (enc_ReplySearch r).
Proof. unfold enc_ReplySearch. json_small. Qed.

(** The reply to a search, and an error, as a client decodes them. *)
Lemma reply_received r :
  int_Reply r -> Decode dec_ReplySearch zero_ReplySearch (Encode_stream (enc_ReplySearch r)) = Some (received r).
Proof.
  intros (Hs & Hr & Hf & Ht). rewrite (Decode_small _ _ 5) by (apply small_enc_ReplySearch || done).
  assert (dec_ptr zero_Stats dec_Stats None (coerce (enc_Stats (rs_Info r))) = Some (Some (clean_Stats (rs_Info r)))).
  { apply dec_ptr_Some; [done|by apply dec_Stats_enc]. }
  assert (dec_slice None (dec_ptr zero_Result dec_Result) [] (coerce (JArr (enc_Result <$> rs_Results r)))
    = Some ((Some ∘ clean_Result) <$> rs_Results r)).
  { apply dec_slice_map. eapply Forall_impl; [exact Hr|]. intros x []. apply dec_ptr_Some; [done|by apply dec_Result_enc]. }
  assert (dec_slice None (dec_ptr zero_FileResult dec_FileResult) [] (coerce (JArr (enc_FileResult <$> rs_FileResults r)))
    = Some ((Some ∘ clean_FileResult) <$> rs_FileResults r)).
  { apply dec_slice_map. eapply Forall_impl; [exact Hf|]. intros x ?. apply dec_ptr_Some; [done|by apply dec_FileResult_enc]. }
  assert (dec_slice None (dec_ptr zero_TreeResult dec_TreeResult) [] (coerce (JArr (enc_TreeResult <$> rs_TreeResults r)))
    = Some ((Some ∘ tree_received) <$> rs_TreeResults r)).
  { apply dec_slice_map. eapply Forall_impl; [exact Ht|]. intros x ?. apply dec_ptr_Some; [done|by apply dec_TreeResult_enc]. }
  dec_record.
Qed.
Lemma error_received code message :
  Decode dec_ReplyError ([], []) (Encode_stream (enc_ReplyError code message))
  = Some (ToValidUTF8 code, ToValidUTF8 message).
Proof.
  rewrite (Decode_small _ _ 2) by (done || (unfold enc_ReplyError; json_small)).
  assert (dec_InnerError ([], []) (coerce (JObj [("code", JStr code); ("message", JStr message)]%str))
    = Some (ToValidUTF8 code, ToValidUTF8 message)).
  { unfold dec_InnerError. rewrite dec_struct_obj by (vm_compute; reflexivity). cbn [fmap list_fmap fst snd]. dec_keys. reflexivity. }
  unfold dec_ReplyError, enc_ReplyError. rewrite dec_struct_obj by (vm_compute; reflexivity).
  cbn [fmap list_fmap fst snd]. dec_keys. reflexivity.
Qed.
