(* ===== verification/SearchSpec.v ===== *)
(** * Searching: what the search page shows *)
From S2P Require Import Prelude GoStrings GoRegexp GoPath GoSort GoMap Query QuerySpec Search.

(** * Orders *)
#[export] Instance line_less_weak : StrictWeak line_less.
Proof. split; unfold line_less; intros *; rewrite ?Z.ltb_lt, ?Z.ltb_ge; try lia. Qed.
#[export] Instance count_greater_weak : StrictWeak count_greater.
Proof. split; unfold count_greater; intros *; rewrite ?Z.ltb_lt, ?Z.ltb_ge; try lia. Qed.

#[export] Instance result_less_weak : StrictWeak result_less.
Proof.
  split; unfold result_less; intros *.
  - rewrite bool_decide_true by done. apply str_ltb_irrefl.
  - repeat case_bool_decide; simplify_eq/=; try (intros; congruence).
    + apply str_ltb_trans.
    + intros Hxy Hyz. pose proof (str_ltb_trans _ _ _ Hxy Hyz) as Hxz.
      destruct x, z; simplify_eq/=. by rewrite str_ltb_irrefl in Hxz.
    + apply str_ltb_trans.
  - repeat case_bool_decide; simplify_eq/=; try (intros; congruence).
    + apply less_incomp.
    + destruct x, y, z; simplify_eq/=. intros H1 H2.
      match goal with H : ?a <> ?b |- _ =>
        destruct (str_ltb_total a b) as [->|[H'|H']]; congruence end.
    + apply less_incomp.
Qed.

(** * The lines of a file *)

(** The lines a list of matches asks to show, with the match. *)
Definition events (ms : list SearchResult) : list (SearchResult * (Z * str)) :=
  ms ≫= fun r => pair r <$> contextLinesInit r.

(** What a map of lines shows of the events so far. *)
Definition shows (evs : list (SearchResult * (Z * str))) (m : gmap Z ResultLine) : Prop :=
  forall n,
    match m !! n with
    | None => forall e, e ∈ evs -> e.2.1 <> n
    | Some l =>
        LineNumber l = n /\ (exists e, e ∈ evs /\ e.2 = (n, rl_Line l)) /\
        (Bounds l = [] \/ exists e, e ∈ evs /\ sr_LineNumber e.1 = n /\ Bounds l = sr_Bounds e.1) /\
        (forall e, e ∈ evs -> e.2.1 = n -> sr_LineNumber e.1 = n ->
           (length (sr_Bounds e.1) <= length (Bounds l))%nat)
    end.

Lemma convertBounds_id bs : convertBounds bs = bs.
Proof. unfold convertBounds. induction bs as [|[] bs IH]; [done|]. cbn. by f_equal. Qed.

(** Adding a line: bounds that were there are kept when they are longer, and a
    new file has only the lines of the same match. *)
Lemma shows_add r present evs m p :
  shows evs m -> (present = true \/ Forall (fun e => e.1 = r) evs) ->
  shows (evs ++ [(r, p)]) (add_line r present m p).
Proof.
  destruct p as [k line]. intros Hm Hp n. unfold add_line. rewrite convertBounds_id.
  specialize (Hm n). destruct (decide (k = n)) as [->|Hk].
  2: { rewrite lookup_insert_ne by done.
       assert (forall e, e ∈ evs ++ [(r, (k, line))] -> e.2.1 = n -> e ∈ evs) as Hin.
       { intros e [He|He%list_elem_of_singleton]%elem_of_app; [done|]. by subst e. }
       destruct (m !! n) as [l|].
       - destruct Hm as (Hn & (e & He & Het) & Hb & Hl). split_and!; [done| | |].
         + exists e. split; [|done]. apply elem_of_app. by left.
         + destruct Hb as [Hb|(e' & He' & Hb)]; [by left|right]. exists e'. split; [|done].
           apply elem_of_app. by left.
         + intros e' He' Hn'. apply Hl; [by apply Hin|done].
       - intros e He Hn. apply (Hm e); [by apply Hin|done]. }
  rewrite lookup_insert_eq. cbn [LineNumber rl_Line Bounds].
  set (bs := if decide (n = sr_LineNumber r) then sr_Bounds r else []).
  assert ((r, (n, line)) ∈ evs ++ [(r, (n, line))]) as Hlast
    by (apply elem_of_app; right; by apply list_elem_of_singleton).
  assert (bs = [] \/ exists e, e ∈ evs ++ [(r, (n, line))] /\ sr_LineNumber e.1 = n /\ bs = sr_Bounds e.1)
    as Hbs.
  { unfold bs. case_decide; [right|by left]. by exists (r, (n, line)). }
  set (bounds := if present then _ else bs).
  assert ((length bs <= length bounds)%nat /\ (bounds = bs \/ present = true /\
    exists l, m !! n = Some l /\ bounds = Bounds l /\ (length bs < length (Bounds l))%nat)) as [Hle Hb].
  { unfold bounds. destruct present; [|by auto]. destruct (m !! n) as [l|]; [|by auto].
    case_decide; [|by auto]. split; [lia|]. right. split; [done|]. by exists l. }
  split_and!; [done|by exists (r, (n, line))| |].
  - destruct Hb as [->|(_ & l & Hml & -> & _)]; [done|]. rewrite Hml in Hm.
    destruct Hm as (_ & _ & [Hb|(e & He & Hb)] & _); [by left|right]. exists e.
    split; [|done]. apply elem_of_app. by left.
  - intros e [He|He%list_elem_of_singleton]%elem_of_app Hen Hln; cbn [fst] in *.
    2: { subst e. cbn [fst] in *. unfold bs in Hle. by rewrite decide_True in Hle. }
    destruct Hp as [->|Hp].
    + destruct (m !! n) as [l|] eqn:Hml; [|by eapply Hm in Hen].
      destruct Hm as (_ & _ & _ & Hmax). specialize (Hmax e He Hen Hln).
      unfold bounds. case_decide; lia.
    + rewrite Forall_forall in Hp. specialize (Hp e He). subst r.
      unfold bs in Hle. by rewrite decide_True in Hle.
Qed.

Lemma shows_match r present evs m ps :
  shows evs m -> (present = true \/ Forall (fun e => e.1 = r) evs) ->
  shows (evs ++ (pair r <$> ps)) (foldl (add_line r present) m ps).
Proof.
  revert evs m. induction ps as [|p ps IH]; intros evs m Hm Hp; cbn [foldl fmap list_fmap].
  - by rewrite app_nil_r.
  - rewrite cons_middle, app_assoc. apply IH; [by apply shows_add|].
    destruct Hp as [->|Hp]; [by left|right]. apply Forall_app. split; [done|]. by apply Forall_singleton.
Qed.

(** * The results per file *)
Definition total_matches (ms : list SearchResult) : Z := foldr (fun r n => sr_NumMatches r + n) 0 ms.

Lemma total_matches_snoc ms r : total_matches (ms ++ [r]) = total_matches ms + sr_NumMatches r.
Proof. induction ms as [|r' ms IH]; simpl; [lia|]. rewrite IH. lia. Qed.

Lemma events_snoc ms r : events (ms ++ [r]) = events ms ++ (pair r <$> contextLinesInit r).
Proof. unfold events. rewrite bind_app. cbn. by rewrite app_nil_r. Qed.

(** What the result of a file owes to its matches. *)
Definition merged (ms : list SearchResult) (x : ResultV2) : Prop :=
  (exists r, head ms = Some r /\ Tree x = sr_Tree r /\ Version x = sr_Version r /\ rv_Path x = sr_Path r) /\
  NumMatches x = int64 (total_matches ms) /\ shows (events ms) (ContextLines x).

Definition with_key (k : str) (rs : list SearchResult) : list SearchResult :=
  filter (fun r => result_key r = k) rs.

Definition deduped (rs : list SearchResult) (m : gmap str ResultV2) : Prop :=
  forall k, match m !! k with
            | None => with_key k rs = []
            | Some x => merged (with_key k rs) x
            end.

Lemma merged_nil x : ~ merged [] x.
Proof. intros [(r & ? & _) _]. done. Qed.

Lemma add_result_deduped rs r m : deduped rs m -> deduped (rs ++ [r]) (add_result m r).
Proof.
  intros Hm k. unfold with_key. rewrite filter_app. specialize (Hm k). unfold with_key in Hm.
  unfold add_result. destruct (decide (result_key r = k)) as [<-|Hk].
  2: { rewrite lookup_insert_ne by done. rewrite (filter_cons_False _ r) by done.
       rewrite filter_nil, app_nil_r. done. }
  rewrite lookup_insert_eq, (filter_cons_True _ r), filter_nil by done.
  set (ms := filter _ rs) in *. destruct (m !! result_key r) as [x|].
  - rewrite bool_decide_true by by eexists. cbn [default id].
    destruct Hm as [(r0 & Hh & Hi) [Hn Hs]]. split; [|split].
    + exists r0. split; [|done]. by destruct ms.
    + cbn [NumMatches]. rewrite Hn, total_matches_snoc. by apply wrap_signed_add_l.
    + cbn [ContextLines]. rewrite events_snoc. apply shows_match; [done|by left].
  - rewrite bool_decide_false by by intros [? ?]. cbn [default id]. rewrite Hm.
    split; [|split]; cbn [app].
    + by exists r.
    + cbn [NumMatches total_matches foldr]. by rewrite (Z.add_comm 0).
    + cbn [ContextLines]. rewrite <- (app_nil_l [r]), events_snoc. apply shows_match; [|by right].
      intros n. rewrite lookup_empty. intros e He. by apply elem_of_nil in He.
Qed.

Lemma dedupe_deduped rs : deduped rs (dedupe rs).
Proof.
  unfold dedupe. induction rs as [|r rs IH] using rev_ind; [by intros k|].
  rewrite foldl_app. cbn [foldl]. by apply add_result_deduped.
Qed.

(** Two matches with one key are in one file. *)
Definition keys_injective (rs : list SearchResult) : Prop :=
  forall r1 r2, r1 ∈ rs -> r2 ∈ rs -> result_key r1 = result_key r2 ->
    sr_Tree r1 = sr_Tree r2 /\ sr_Path r1 = sr_Path r2.

(** The matches in a file. *)
Definition in_file (tree path : str) (rs : list SearchResult) : list SearchResult :=
  filter (fun r => sr_Tree r = tree /\ sr_Path r = path) rs.

Lemma with_key_in_file rs r :
  keys_injective rs -> r ∈ rs ->
  with_key (result_key r) rs = in_file (sr_Tree r) (sr_Path r) rs.
Proof.
  intros Hinj Hr. apply filter_ext_in. intros r' Hr'. split.
  - intros Hk. by apply Hinj.
  - intros [Ht Hp]. unfold result_key. by rewrite Ht, Hp.
Qed.

Lemma elem_of_with_key k rs r : r ∈ with_key k rs <-> result_key r = k /\ r ∈ rs.
Proof. unfold with_key. by rewrite list_elem_of_filter. Qed.

(** A result of the map, its key and the first match of its file. *)
Lemma dedupe_lookup rs k x :
  dedupe rs !! k = Some x ->
  merged (with_key k rs) x /\ k = Tree x ++ "-"%str ++ rv_Path x /\
  exists r, r ∈ rs /\ result_key r = k /\ Tree x = sr_Tree r /\ rv_Path x = sr_Path r.
Proof.
  intros Hk. pose proof (dedupe_deduped rs k) as H. rewrite Hk in H. split; [done|].
  destruct H as [(r & Hh & Ht & _ & Hp) _].
  assert (r ∈ with_key k rs) as Hr by (destruct (with_key k rs); simplify_eq/=; by left).
  apply elem_of_with_key in Hr as [Hkey Hr]. split; [|by exists r].
  rewrite Ht, Hp. by rewrite <- Hkey.
Qed.

Lemma dedupe_present rs r : r ∈ rs -> is_Some (dedupe rs !! result_key r).
Proof.
  intros Hr. pose proof (dedupe_deduped rs (result_key r)) as H.
  destruct (dedupe rs !! result_key r); [by eexists|]. exfalso.
  assert (r ∈ with_key (result_key r) rs) as Hin by by apply elem_of_with_key.
  rewrite H in Hin. by apply elem_of_nil in Hin.
Qed.

(** What a line of a file shows. *)
Definition shows_line (ms : list SearchResult) (l : ResultLine) : Prop :=
  (exists r, r ∈ ms /\ (LineNumber l, rl_Line l) ∈ contextLinesInit r) /\
  (Bounds l = [] \/
   exists r, r ∈ ms /\ sr_LineNumber r = LineNumber l /\ Bounds l = sr_Bounds r) /\
  (forall r, r ∈ ms -> sr_LineNumber r = LineNumber l -> (length (sr_Bounds r) <= length (Bounds l))%nat).

Definition shows_file (ms : list SearchResult) (x : ResultV2) : Prop :=
  NumMatches x = int64 (total_matches ms) /\
  StronglySorted Z.lt (LineNumber <$> Lines x) /\
  (forall n, n ∈ LineNumber <$> Lines x <-> exists r, r ∈ ms /\ n ∈ (contextLinesInit r).*1) /\
  Forall (shows_line ms) (Lines x).

Lemma elem_of_events ms e : e ∈ events ms <-> e.1 ∈ ms /\ e.2 ∈ contextLinesInit e.1.
Proof.
  unfold events. rewrite list_elem_of_bind. split.
  - intros (r & (p & -> & Hp)%list_elem_of_fmap & Hr). done.
  - intros [Hr Hp]. exists e.1. split; [|done]. apply list_elem_of_fmap. exists e.2. by destruct e.
Qed.

Lemma reverse_strings_reverse l : reverse_strings l = reverse l.
Proof.
  unfold reverse_strings. induction l as [|x l IH]; [done|].
  rewrite reverse_cons, length_cons. cbn [seq]. rewrite reverse_cons, omap_app. cbn [omap list_omap lookup list_lookup].
  f_equal. rewrite <- IH. rewrite <- fmap_S_seq, <- fmap_reverse. generalize (reverse (seq 0 (length l))).
  induction l0 as [|i l0 IH0]; [done|]. cbn. by rewrite IH0.
Qed.

(** The match's own line is among the lines around it. *)
Lemma own_line r :
  in_signed 64 (sr_LineNumber r) -> (sr_LineNumber r, sr_Line r) ∈ contextLinesInit r.
Proof.
  intros Hr. unfold contextLinesInit. rewrite reverse_strings_reverse, imap_app.
  apply elem_of_app. right. cbn [imap]. rewrite length_reverse. unfold compose.
  rewrite Nat.add_0_r.
  replace (int64 _) with (sr_LineNumber r); [by left|].
  symmetry. unfold int64. rewrite <- (wrap_signed_id 64 (sr_LineNumber r)) at 2 by done. f_equal. lia.
Qed.

Lemma strict_sorted (l : list Z) : NoDup l -> StronglySorted Z.le l -> StronglySorted Z.lt l.
Proof.
  intros Hnd Hs. induction Hs as [|n l Hs IH Hn]; [constructor|].
  apply NoDup_cons in Hnd as [Hni Hnd]. constructor; [by apply IH|].
  rewrite Forall_forall in Hn |- *. intros m Hm. specialize (Hn m Hm).
  assert (n <> m) by by intros ->. lia.
Qed.

Section page.
Context `{GS : !GoSort, GR : !GoRange}.
Context (elapsed : Z) (show_age show_date : Z -> str).

Lemma elem_of_lines x l :
  l ∈ Lines (finish_lines x) <-> exists n, ContextLines x !! n = Some l.
Proof.
  cbn [finish_lines Lines]. rewrite go_sort_perm, go_range_perm, list_elem_of_fmap. split.
  - intros ([n l'] & -> & Hm%elem_of_map_to_list). by exists n.
  - intros [n Hm%elem_of_map_to_list]. by exists (n, l).
Qed.

Lemma finish_lines_numbers ms x :
  shows (events ms) (ContextLines x) ->
  LineNumber <$> Lines (finish_lines x) ≡ₚ (map_to_list (ContextLines x)).*1.
Proof.
  intros Hs. cbn [finish_lines Lines]. rewrite go_sort_perm, go_range_perm, <- list_fmap_compose.
  erewrite list_fmap_ext; [done|]. intros i [n l] Hi. cbn.
  apply list_elem_of_lookup_2, elem_of_map_to_list in Hi. specialize (Hs n). rewrite Hi in Hs.
  by destruct Hs as [? _].
Qed.

Lemma finish_shows_file ms x :
  Forall (fun r => in_signed 64 (sr_LineNumber r)) ms -> merged ms x -> shows_file ms (finish_lines x).
Proof.
  intros Hr (_ & Hn & Hs). pose proof (finish_lines_numbers ms x Hs) as Hp.
  split; [done|]. split_and!.
  - apply strict_sorted; [rewrite Hp; apply NoDup_fst_map_to_list|].
    cbn [finish_lines Lines]. eapply StronglySorted_fmap, go_sort_sorted, _.
    intros a b. unfold before, line_less. by rewrite Z.ltb_ge.
  - intros n. rewrite Hp. rewrite list_elem_of_fmap. split.
    + intros ([n' l] & -> & Hin%elem_of_map_to_list). specialize (Hs n'). rewrite Hin in Hs.
      destruct Hs as (_ & ([r p] & [He1 He2]%elem_of_events & Hp2) & _). exists r. split; [done|].
      simpl in *. subst p. apply list_elem_of_fmap. by exists (n', rl_Line l).
    + intros (r & Hrm & ([n' line] & -> & Hin)%list_elem_of_fmap). specialize (Hs n'). cbn [fst].
      destruct (ContextLines x !! n') as [l|] eqn:E.
      * exists (n', l). split; [done|]. by apply elem_of_map_to_list.
      * exfalso. apply (Hs (r, (n', line))); [|done]. by apply elem_of_events.
  - apply Forall_forall. intros l [n Hl]%elem_of_lines. specialize (Hs n). rewrite Hl in Hs.
    destruct Hs as (<- & ([r p] & [He1 He2]%elem_of_events & Hp2) & Hb & Hmax). simpl in *. subst p.
    split; [by exists r|]. split.
    + destruct Hb as [Hb|([r' p'] & [He1' _]%elem_of_events & Hln & Hb)]; [by left|right]. by exists r'.
    + intros r' Hr' Hln. rewrite Forall_forall in Hr.
      apply (Hmax (r', (sr_LineNumber r', sr_Line r'))); [|done|done].
      apply elem_of_events. split; [done|]. by apply own_line, Hr.
Qed.

Lemma elem_of_results rs x :
  x ∈ results_V2 (dedupe rs) <-> exists k y, dedupe rs !! k = Some y /\ x = finish_lines y.
Proof.
  unfold results_V2. rewrite go_sort_perm, list_elem_of_fmap. setoid_rewrite go_range_perm. split.
  - intros (y & -> & ([k y'] & -> & Hm%elem_of_map_to_list)%list_elem_of_fmap). by exists k, y'.
  - intros (k & y & Hm & ->). exists y. split; [done|]. apply list_elem_of_fmap. exists (k, y).
    by rewrite elem_of_map_to_list.
Qed.

Lemma results_files rs :
  keys_injective rs ->
  (fun x => (Tree x, rv_Path x)) <$> results_V2 (dedupe rs) ≡ₚ
  remove_dups ((fun r => (sr_Tree r, sr_Path r)) <$> rs).
Proof.
  intros Hinj. apply NoDup_Permutation; [|apply NoDup_remove_dups|].
  - unfold results_V2. rewrite go_sort_perm, go_range_perm, <- !list_fmap_compose.
    apply NoDup_fmap_2_strong; [|apply NoDup_map_to_list].
    intros [k1 x1] [k2 x2] H1%elem_of_map_to_list H2%elem_of_map_to_list [= Ht Hp].
    pose proof (dedupe_lookup rs k1 x1 H1) as (_ & -> & _).
    pose proof (dedupe_lookup rs k2 x2 H2) as (_ & -> & _).
    rewrite Ht, Hp in *. congruence.
  - intros [t p]. rewrite elem_of_remove_dups, !list_elem_of_fmap. split.
    + intros (x & [= -> ->] & (k & y & Hy & ->)%elem_of_results).
      apply dedupe_lookup in Hy as (_ & _ & r & Hr & _ & Ht & Hp). exists r. cbn. by rewrite Ht, Hp.
    + intros (r & [= -> ->] & Hr). destruct (dedupe_present rs r Hr) as [y Hy].
      exists (finish_lines y). split; [|apply elem_of_results; by exists (result_key r), y].
      apply dedupe_lookup in Hy as (_ & _ & r' & Hr' & Hk & Ht & Hp). cbn. rewrite Ht, Hp.
      destruct (Hinj r r') as [-> ->]; done.
Qed.

(** The key a result was kept under. *)
Definition file_name (x : ResultV2) : str := Tree x ++ "-"%str ++ rv_Path x.

Lemma results_keys rs :
  file_name <$> results_V2 (dedupe rs) ≡ₚ remove_dups (result_key <$> rs).
Proof.
  unfold results_V2. rewrite go_sort_perm, <- list_fmap_compose, go_range_perm, <- list_fmap_compose.
  assert ((file_name ∘ finish_lines) ∘ snd <$> map_to_list (dedupe rs) = (map_to_list (dedupe rs)).*1)
    as ->.
  { apply list_fmap_ext. intros i [k y] Hi%list_elem_of_lookup_2%elem_of_map_to_list.
    by apply dedupe_lookup in Hi as (_ & -> & _). }
  apply NoDup_Permutation; [apply NoDup_fst_map_to_list|apply NoDup_remove_dups|].
  intros k. rewrite elem_of_remove_dups, !list_elem_of_fmap. split.
  - intros ([k' y] & -> & Hy%elem_of_map_to_list). apply dedupe_lookup in Hy as (_ & _ & r & Hr & <- & _).
    by exists r.
  - intros (r & -> & Hr). destruct (dedupe_present rs r Hr) as [y Hy].
    exists (result_key r, y). by rewrite elem_of_map_to_list.
Qed.

(** A result shows the matches of its key, under the name of the first. *)
Definition shows_group (ms : list SearchResult) (x : ResultV2) : Prop :=
  shows_file ms x /\
  exists r, head ms = Some r /\ Tree x = sr_Tree r /\ Version x = sr_Version r /\ rv_Path x = sr_Path r.

Lemma results_show rs x :
  Forall (fun r => in_signed 64 (sr_LineNumber r)) rs ->
  x ∈ results_V2 (dedupe rs) -> shows_group (with_key (file_name x) rs) x.
Proof.
  intros Hr (k & y & Hy & ->)%elem_of_results.
  apply dedupe_lookup in Hy as (Hm & -> & _). split; [|apply Hm].
  apply finish_shows_file; [|done].
  rewrite Forall_forall in Hr |- *. intros r' [_ Hr']%elem_of_with_key. by apply Hr.
Qed.

Lemma results_in_file rs x :
  keys_injective rs -> x ∈ results_V2 (dedupe rs) ->
  with_key (file_name x) rs = in_file (Tree x) (rv_Path x) rs.
Proof.
  intros Hinj (k & y & Hy & ->)%elem_of_results.
  apply dedupe_lookup in Hy as (_ & E & r & Hrs & <- & Ht & Hp).
  change (file_name (finish_lines y)) with (file_name y). unfold file_name. rewrite <- E.
  rewrite with_key_in_file by done. cbn [finish_lines Tree rv_Path]. by rewrite Ht, Hp.
Qed.
End page.

Lemma doSearchV2_inv `{!GoSort, !GoRange} elapsed show_age show_date backend q reply :
  doSearchV2 elapsed show_age show_date backend q = Ok reply ->
  exists search, (search_with_backup backend q).1 = RpcOk search /\
    Results reply = results_V2 (dedupe (cs_Results search)) /\
    PopExts reply = pop_exts (extension_array (dedupe (cs_Results search))) /\
    BackupIdxUsed reply = (search_with_backup backend q).2.
Proof.
  unfold doSearchV2. destruct (search_with_backup backend q) as [[search|code desc] used]; [|done].
  destruct (mapR file_result _) as [files| |]; cbn [mbind res_bind]; try done.
  destruct (mapR tree_result _) as [trees| |]; cbn [mbind res_bind]; try done.
  destruct (stats _ _) as [info| |]; cbn [mbind res_bind]; try done.
  intros [= <-]. by exists search.
Qed.


(** Two files whose repository and path are spelled alike when joined by a
    dash are shown as one file, under the name of the first, with the lines of
    both. *)
Theorem results_V2_collision `{!GoSort, !GoRange} r1 r2 :
  result_key r1 = result_key r2 -> (sr_Tree r1, sr_Path r1) <> (sr_Tree r2, sr_Path r2) ->
  in_signed 64 (sr_LineNumber r1) -> in_signed 64 (sr_LineNumber r2) ->
  exists x, results_V2 (dedupe [r1; r2]) = [x] /\ Tree x = sr_Tree r1 /\ rv_Path x = sr_Path r1 /\
    sr_LineNumber r1 ∈ LineNumber <$> Lines x /\ sr_LineNumber r2 ∈ LineNumber <$> Lines x.
Proof.
  intros Hk _ H1 H2. pose proof (dedupe_deduped [r1; r2]) as Hd.
  assert (exists y, dedupe [r1; r2] = {[ result_key r1 := y ]}) as [y Hy].
  { unfold dedupe. cbn [foldl]. unfold add_result. rewrite <- Hk, insert_insert_eq. by eexists. }
  specialize (Hd (result_key r1)). rewrite Hy, lookup_singleton_eq in Hd.
  unfold with_key in Hd. rewrite !filter_cons_True, filter_nil in Hd by done.
  assert (results_V2 (dedupe [r1; r2]) ≡ₚ [finish_lines y]) as Hp.
  { unfold results_V2. rewrite go_sort_perm, go_range_perm, Hy, map_to_list_singleton. done. }
  apply Permutation_singleton_r in Hp. exists (finish_lines y). rewrite Hp.
  pose proof Hd as [(r & [= <-] & Ht & _ & Hpath) _].
  apply (finish_shows_file [r1; r2]) in Hd as (_ & _ & Hl & _); [|by repeat (constructor; [done|])].
  split_and!; [done..| |]; apply Hl; [exists r1|exists r2]; (split; [by repeat constructor|]);
    apply list_elem_of_fmap; eexists (_, _); (split; [|by apply own_line]); done.
Qed.

(** * Popular extensions *)
Definition ext_count (e : str) (es : list str) : nat := length (filter (fun e' => e' = e) es).

Lemma ext_count_snoc e es e' : ext_count e (es ++ [e']) = (ext_count e es + if decide (e' = e) then 1 else 0)%nat.
Proof.
  unfold ext_count. rewrite filter_app, length_app, filter_cons, filter_nil.
  by destruct (decide (e' = e)).
Qed.

Lemma count_ext_lookup ks e :
  foldl count_ext ∅ ks !! e =
  if decide (ext_count e (Ext <$> ks) = 0)%nat then None
  else Some (int64 (Z.of_nat (ext_count e (Ext <$> ks)))).
Proof.
  induction ks as [|k ks IH] using rev_ind; [done|].
  rewrite foldl_app, fmap_app. cbn [foldl fmap list_fmap]. rewrite ext_count_snoc. unfold count_ext at 1.
  destruct (decide (Ext k = e)) as [<-|Hk].
  - rewrite lookup_insert_eq, decide_False, IH by lia. f_equal.
    case_decide as Hc; [by rewrite Hc|]. cbn [default id].
    unfold int64. rewrite wrap_signed_add_l by done. f_equal. lia.
  - rewrite lookup_insert_ne, IH, Nat.add_0_r by done. done.
Qed.

Lemma ext_count_perm e es es' : es ≡ₚ es' -> ext_count e es = ext_count e es'.
Proof. intros Hp. unfold ext_count. by rewrite Hp. Qed.

(** The files of a search, and the keys they are kept under. *)
Definition search_files (rs : list SearchResult) : list (str * str) :=
  remove_dups ((fun r => (sr_Tree r, sr_Path r)) <$> rs).
Definition file_keys (rs : list SearchResult) : list str := remove_dups (result_key <$> rs).

Lemma dedupe_keys `{GR : !GoRange} rs : (go_range (dedupe rs)).*1 ≡ₚ file_keys rs.
Proof.
  rewrite go_range_perm. apply NoDup_Permutation; [apply NoDup_fst_map_to_list|apply NoDup_remove_dups|].
  intros k. unfold file_keys. rewrite elem_of_remove_dups, !list_elem_of_fmap. split.
  - intros ([k' y] & -> & Hy%elem_of_map_to_list). apply dedupe_lookup in Hy as (_ & _ & r & Hr & <- & _).
    by exists r.
  - intros (r & -> & Hr). destruct (dedupe_present rs r Hr) as [y Hy].
    exists (result_key r, y). by rewrite elem_of_map_to_list.
Qed.

(** The different extensions in [es] with their counts, most frequent first;
    the empty extension is left out. *)
Definition ext_ranking (es : list str) (all : list FileExtension) : Prop :=
  NoDup (fe_Ext <$> all) /\
  (forall e, e ∈ fe_Ext <$> all <-> e <> [] /\ e ∈ es) /\
  Forall (fun x => Count x = int64 (Z.of_nat (ext_count (fe_Ext x) es))) all /\
  StronglySorted (fun x y => Count y <= Count x) all.

Lemma ext_ranking_perm es es' all : es ≡ₚ es' -> ext_ranking es all -> ext_ranking es' all.
Proof.
  intros Hp (H1 & H2 & H3 & H4). split_and!; [done| | |done].
  - intros e. by rewrite H2, Hp.
  - eapply Forall_impl; [exact H3|]. intros x ->. by rewrite (ext_count_perm _ _ _ Hp).
Qed.

Lemma ext_count_pos e es : ext_count e es <> 0%nat <-> e ∈ es.
Proof.
  unfold ext_count. split.
  - destruct (filter _ es) as [|k l] eqn:E; [done|]. intros _.
    assert (k ∈ filter (fun e' => e' = e) es) as H by (rewrite E; by left).
    by apply list_elem_of_filter in H as [-> ?].
  - intros He Hn. apply nil_length_inv in Hn.
    assert (e ∈ filter (fun e' => e' = e) es) as H by by apply list_elem_of_filter.
    rewrite Hn in H. by apply elem_of_nil in H.
Qed.

Lemma extension_ranking `{GS : !GoSort, GR : !GoRange} rs :
  ext_ranking (Ext <$> file_keys rs) (go_sort count_greater (extension_array (dedupe rs))).
Proof.
  set (es := Ext <$> file_keys rs).
  assert (Ext <$> (go_range (dedupe rs)).*1 ≡ₚ es) as Hks by (unfold es; by rewrite dedupe_keys).
  set (m := foldl count_ext ∅ (go_range (dedupe rs)).*1).
  assert (forall x, x ∈ extension_array (dedupe rs) <->
    fe_Ext x <> [] /\ m !! fe_Ext x = Some (Count x)) as Hx.
  { intros x. unfold extension_array. fold m. rewrite list_elem_of_fmap. split.
    - intros ([e c] & -> & [He Hin]%list_elem_of_filter). rewrite go_range_perm in Hin.
      by apply elem_of_map_to_list in Hin.
    - intros [He Hin%elem_of_map_to_list]. exists (fe_Ext x, Count x). split; [by destruct x|].
      apply list_elem_of_filter. by rewrite go_range_perm. }
  assert (forall e, m !! e = if decide (ext_count e es = 0)%nat then None
    else Some (int64 (Z.of_nat (ext_count e es)))) as Hm.
  { intros e. unfold m. rewrite count_ext_lookup. by rewrite (ext_count_perm _ _ _ Hks). }
  split_and!.
  - rewrite go_sort_perm. unfold extension_array. rewrite <- list_fmap_compose. fold m.
    apply NoDup_fmap_2_strong.
    + intros [e1 c1] [e2 c2] [_ H1]%list_elem_of_filter [_ H2]%list_elem_of_filter [= ->].
      rewrite go_range_perm in H1, H2. apply elem_of_map_to_list in H1, H2. congruence.
    + apply NoDup_filter. rewrite go_range_perm. apply NoDup_map_to_list.
  - intros e. rewrite go_sort_perm, list_elem_of_fmap, <- ext_count_pos. split.
    + intros (x & -> & [He Hin]%Hx). split; [done|]. rewrite Hm in Hin. by case_decide.
    + intros [He Hc]. exists (mkFileExtension e (int64 (Z.of_nat (ext_count e es)))).
      split; [done|]. apply Hx. cbn. split; [done|]. by rewrite Hm, decide_False.
  - rewrite go_sort_perm. apply Forall_forall. intros x [_ Hin]%Hx. rewrite Hm in Hin. by case_decide; simplify_eq.
  - rewrite <- (list_fmap_id (go_sort _ _)). eapply StronglySorted_fmap, go_sort_sorted, _.
    intros x y. unfold before, count_greater. by rewrite Z.ltb_ge.
Qed.

(** A path with a dot or a slash has the same extension with anything in front
    of it. *)
Definition own_ext (p : str) : Prop := "."%char ∈ p \/ "/"%char ∈ p.
#[export] Instance own_ext_dec p : Decision (own_ext p).
Proof. unfold own_ext. apply _. Defined.

Lemma file_exts rs :
  keys_injective rs -> Forall (fun r => own_ext (sr_Path r)) rs ->
  Ext <$> file_keys rs ≡ₚ (fun f => Ext f.2) <$> search_files rs.
Proof.
  intros Hinj He.
  assert (file_keys rs ≡ₚ (fun f => f.1 ++ "-"%str ++ f.2) <$> search_files rs) as ->.
  { apply NoDup_Permutation; [apply NoDup_remove_dups| |].
    - apply NoDup_fmap_2_strong; [|apply NoDup_remove_dups].
      intros [t1 p1] [t2 p2] (r1 & [= -> ->] & H1)%elem_of_remove_dups%list_elem_of_fmap
        (r2 & [= -> ->] & H2)%elem_of_remove_dups%list_elem_of_fmap E.
      by destruct (Hinj r1 r2 H1 H2 E) as [-> ->].
    - intros k. unfold file_keys, search_files. rewrite elem_of_remove_dups, !list_elem_of_fmap. split.
      + intros (r & -> & Hr). exists (sr_Tree r, sr_Path r). split; [done|].
        apply elem_of_remove_dups, list_elem_of_fmap. by exists r.
      + intros (f & -> & (r & -> & Hr)%elem_of_remove_dups%list_elem_of_fmap). by exists r. }
  rewrite <- list_fmap_compose. apply Permutation_refl', list_fmap_ext.
  intros i [t p] (r & [= -> ->] & Hr)%list_elem_of_lookup_2%elem_of_remove_dups%list_elem_of_fmap.
  change (Ext (sr_Tree r ++ "-"%str ++ sr_Path r) = Ext (sr_Path r)).
  rewrite app_assoc. rewrite Forall_forall in He. by apply Ext_app, He.
Qed.


(** * The link to more results *)
Definition max_text : str := " max_matches:"%str.

Lemma word_no_colon w : is_word w -> ":"%char ∉ w.
Proof.
  intros [_ Hw] Hin. rewrite Forall_forall in Hw. apply Hw in Hin. by vm_compute in Hin.
Qed.

(** The text of words and then operators with different keys, none of them a
    limit; nothing is typed behind the last one. *)
Record typed (ws : list str) (kvs : list (str * str)) (text : str) : Prop := {
  ty_text : text ++ " "%str = words_text ws ++ ops_text kvs;
  ty_some : ws <> [] \/ kvs <> [];
  ty_words : Forall is_word ws;
  ty_ops : Forall is_op kvs;
  ty_keys : NoDup kvs.*1;
  ty_limit : max_key ∉ kvs.*1;
}.

Lemma plain_no_space w : Forall (fun c => word_byte c = true) w -> " "%char ∉ w.
Proof. intros Hw Hin. rewrite Forall_forall in Hw. by apply Hw, word_byte_spec in Hin as (_ & _ & ? & _). Qed.

Lemma key_bytes k c : k ∈ knownTags -> c ∈ k -> c <> " "%char /\ c <> ":"%char.
Proof.
  intros [_ Hk]%knownTags_key Hc. rewrite Forall_forall in Hk. destruct (Hk c Hc) as [Hck _].
  split; intros ->; by vm_compute in Hck.
Qed.

(** The parts between the spaces. *)
Definition parts_of (ws : list str) (kvs : list (str * str)) : list str := ws ++ (op_text <$> kvs).

Lemma typed_split ws kvs text : typed ws kvs text -> split " " text = parts_of ws kvs.
Proof.
  intros [Ht _ Hw Hk _ _]. pose proof (split_app_mid " " text []) as E. rewrite Ht in E.
  assert (words_text ws ++ ops_text kvs = (parts_of ws kvs ≫= fun w => w ++ [" "%char]) ++ []) as E'.
  { unfold parts_of, words_text, ops_text. rewrite bind_app, app_nil_r. f_equal.
    clear. induction kvs as [|kv kvs IH]; [done|]. rewrite fmap_cons, !list_bind_cons. by f_equal. }
  rewrite E', split_terminated in E; [by apply app_inj_tail in E as [-> _]|].
  apply Forall_app. split.
  - eapply Forall_impl; [exact Hw|]. intros w [_ ?]. by apply plain_no_space.
  - apply Forall_fmap. eapply Forall_impl; [exact Hk|]. intros [k v] [Hkt Hv]. cbn [fst snd] in *.
    unfold compose, op_text. cbn [fst snd]. rewrite !not_elem_of_app.
    split_and!; [|by_decide|by apply plain_no_space].
    intros Hin. by apply (key_bytes k _ Hkt) in Hin as [? _].
Qed.

(** None of them begins like a limit. *)
Lemma parts_no_limit ws kvs text p t :
  typed ws kvs text -> p ∈ parts_of ws kvs -> p <> max_key ++ ":"%char :: t.
Proof.
  intros [_ _ Hw Hk _ Hl] [Hp|([k v] & -> & Hp)%list_elem_of_fmap]%elem_of_app E.
  - rewrite Forall_forall in Hw. apply (word_no_colon p); [by apply Hw|]. rewrite E, elem_of_app.
    right. by left.
  - rewrite Forall_forall in Hk. destruct (Hk _ Hp) as [Hkt _]. cbn [fst] in Hkt.
    assert (forall k, k ∈ knownTags -> ":"%char ∉ k) as Hc
      by (intros k' Hk' Hin; by apply (key_bytes k' _ Hk') in Hin as [_ ?]).
    assert (cut ":" (op_text (k, v)) = Some (k, v)) as E1 by (apply cut_app; by apply Hc).
    rewrite E, cut_app in E1; [|by apply Hc, (max_key_op 0)].
    injection E1 as <- <-. apply Hl, list_elem_of_fmap. by exists (max_key, t).
Qed.

Lemma limit_no_space rest : " "%char ∉ rest -> " "%char ∉ max_key ++ ":"%char :: rest.
Proof.
  intros Hr [Hin|[?|Hin]%elem_of_cons]%elem_of_app; [|done|done]. revert Hin. by_decide.
Qed.

(** A limit is only found where it was typed. *)
Lemma typed_limit_at ws kvs text a t rest :
  typed ws kvs text -> " "%char ∉ rest ->
  text ++ max_text ++ rest = a ++ max_text ++ t -> a = text.
Proof.
  intros Ht Hr E. apply (f_equal (split " ")) in E.
  change (max_text ++ rest) with (" "%char :: (max_key ++ ":"%char :: rest)) in E.
  change (max_text ++ t) with (" "%char :: (max_key ++ ":"%char :: t)) in E.
  rewrite !split_app_mid, (typed_split ws kvs text) in E by done.
  rewrite (split_nosep " " (max_key ++ ":"%char :: rest)) in E.
  2: by apply limit_no_space.
  destruct (split " " (max_key ++ ":"%char :: t)) as [|h l] eqn:Es; [by apply split_not_nil in Es|].
  assert (exists t', h = max_key ++ ":"%char :: t') as [t' ->].
  { pose proof (f_equal (join [" "%char]) Es) as Ej. rewrite join_split in Ej.
    destruct (decide (" "%char ∈ t)) as [(t1 & t2 & -> & Ht1)%list_elem_of_split_l|Hn].
    - rewrite app_comm_cons, app_assoc, split_app_sep in Es.
      + injection Es as <- _. by exists t1.
      + by apply limit_no_space.
    - rewrite split_nosep in Es.
      + injection Es as <- _. by exists t.
      + by apply limit_no_space. }
  destruct l as [|x l _] using rev_ind.
  - apply app_inj_tail in E as [E _]. rewrite <- (join_split " " a), <- E, <- (typed_split ws kvs text) by done.
    apply join_split.
  - exfalso. rewrite app_comm_cons, app_assoc in E. apply app_inj_tail in E as [E _].
    apply (parts_no_limit ws kvs text (max_key ++ ":"%char :: t') t'); [done| |done].
    rewrite E. apply elem_of_app. right. by left.
Qed.

Lemma typed_no_limit ws kvs text a t : typed ws kvs text -> text <> a ++ max_text ++ t.
Proof.
  intros Ht E. pose proof E as E'. apply (f_equal (split " ")) in E'.
  rewrite (typed_split ws kvs text) in E' by done.
  assert (a = text) as ->.
  { apply (typed_limit_at ws kvs text a (t ++ max_text) []); [done|apply not_elem_of_nil|].
    rewrite app_nil_r. rewrite E at 1. by rewrite <- !app_assoc. }
  apply (f_equal length) in E. rewrite !length_app in E. simpl in E. lia.
Qed.

Lemma index_found sub s a t : s = a ++ sub ++ t -> is_Some (index sub s).
Proof.
  intros ->. induction a as [|c a IH]; cbn [app].
  - destruct (sub ++ t) as [|x l] eqn:E; cbn [index]; rewrite <- E, has_prefix_app; by eexists.
  - cbn [index]. case_match; [by eexists|]. destruct IH as [i ->]. by eexists.
Qed.

Lemma next_query_absent ws kvs text n :
  typed ws kvs text -> next_query text n = text ++ max_matches_op (n * 3).
Proof.
  intros Ht. unfold next_query, contains. rewrite bool_decide_false; [done|].
  intros [i (a & t & E & _)%index_Some]. by eapply typed_no_limit.
Qed.

Lemma next_query_present ws kvs text n :
  typed ws kvs text -> 0 <= n ->
  next_query (text ++ max_matches_op n) n = text ++ max_matches_op (n * 3).
Proof.
  intros Ht Hn. unfold next_query, contains.
  assert (" "%char ∉ Itoa n) as Hi by by apply plain_no_space, Itoa_word.
  rewrite bool_decide_true by by apply (index_found _ _ text (Itoa n)).
  unfold replace1.
  destruct (index_found (max_matches_op n) (text ++ max_matches_op n) text []) as [i E];
    [by rewrite app_nil_r|]. rewrite E.
  apply index_Some in E as (a & t & E & <-).
  assert (a = text) as ->.
  { apply (typed_limit_at ws kvs text a (Itoa n ++ t) (Itoa n)); [done|done|].
    unfold max_matches_op in E. fold max_text in E. rewrite E. by rewrite <- !app_assoc. }
  by rewrite take_app_length, drop_app_add, drop_ge, app_nil_r by done.
Qed.

(** The final stage, when only the limit changes. *)
Lemma build_query_max ops ops' b q i :
  build_query ops b = (q, None) -> (forall k, k <> max_key -> ops' !! k = ops !! k) ->
  max_matches_of ops' = Ok i -> build_query ops' b = (set_MaxMatches q i, None).
Proof.
  intros Hq Hops Hi. unfold build_query, query_bits, onlyOneSynonym, get_op in *.
  cbn [fmap list_fmap] in *. rewrite !Hops by done. rewrite Hi.
  repeat (case_match; simplify_eq/=; try done).
Qed.

(** The bare text counts up to the spaces around it. *)
Lemma build_query_bare ops ops' b :
  (forall k, k <> [] -> ops' !! k = ops !! k) ->
  TrimSpace (get_op ops' []) = TrimSpace (get_op ops []) -> build_query ops' b = build_query ops b.
Proof.
  intros Hops Ht. unfold build_query, query_bits, onlyOneSynonym, max_matches_of in *.
  cbn [fmap list_fmap]. rewrite Ht. unfold get_op. by rewrite !Hops by done.
Qed.

Lemma ops_text_snoc kvs k v : ops_text (kvs ++ [(k, v)]) = ops_text kvs ++ op_text (k, v) ++ " "%str.
Proof. unfold ops_text. rewrite bind_app, list_bind_cons, app_nil_r. done. Qed.

(** A typed text, alone and with a limit behind it, is parsed to the same
    terms but for the limit. *)
Lemma parse_typed ws kvs text b :
  typed ws kvs text ->
  exists ops, ParseQuery text b = Some (build_query ops b) /\ ops !! max_key = None /\
    forall n, 0 <= n -> exists ops', ParseQuery (text ++ max_matches_op n) b = Some (build_query ops' b) /\
      ops' !! max_key = Some (Itoa n) /\ forall k, k <> max_key -> ops' !! k = ops !! k.
Proof.
  intros [Ht Hsome Hw Hk Hnd Hl].
  assert (forall kvs : list (str * str), max_key ∉ kvs.*1 -> query_ops ws kvs !! max_key = None) as Hnone.
  { intros l Hn. apply lookup_union_None. split; [by apply not_elem_of_list_to_map|].
    case_decide; [done|]. by apply lookup_singleton_ne. }
  assert (forall n, 0 <= n -> ParseQuery (text ++ max_matches_op n) b =
    Some (build_query (query_ops ws (kvs ++ [(max_key, Itoa n)])) b)) as Hmax.
  { intros n Hn. rewrite <- parse_words_ops; [|done| |].
    - f_equal. rewrite (app_assoc (words_text ws)), <- Ht, <- app_assoc. reflexivity.
    - apply Forall_app. split; [done|]. apply Forall_singleton. by apply max_key_op.
    - rewrite fmap_app. apply NoDup_app. split_and!; [done| |apply NoDup_singleton].
      intros k Hin ->%list_elem_of_singleton. done. }
  assert (forall n k, query_ops ws (kvs ++ [(max_key, Itoa n)]) !! k =
    if decide (k = max_key) then Some (Itoa n) else query_ops ws kvs !! k) as Hops.
  { intros n k. unfold query_ops. rewrite list_to_map_app, <- (map_union_assoc _ _ (if decide _ then _ else _)).
    simpl. destruct (decide (k = max_key)) as [->|Hkm].
    - rewrite lookup_union_r by by apply not_elem_of_list_to_map.
      erewrite lookup_union_Some_l; [done|]. apply lookup_insert_eq.
    - rewrite <- insert_union_l, (left_id_L ∅ (∪)), !lookup_union.
      by rewrite lookup_insert_ne. }
  destruct kvs as [|[k v] kvs _] using rev_ind.
  - destruct ws as [|w ws _] using rev_ind; [by destruct Hsome|].
    unfold ops_text in Ht. cbn in Ht. rewrite app_nil_r, words_text_snoc in Ht.
    apply app_inj_tail in Ht as [-> _].
    set (ops := {[ [] := words_text ws ++ w ]} : opmap).
    assert (words_text (ws ++ [w]) <> []) as Hne
      by (rewrite words_text_snoc; by destruct (words_text ws ++ w)).
    assert (forall k, query_ops (ws ++ [w]) [] !! k = if decide (k = []) then Some (words_text (ws ++ [w])) else None)
      as Hq0.
    { intros k. unfold query_ops. rewrite decide_False by by destruct ws. simpl.
      rewrite (left_id_L ∅ (∪)). case_decide; subst; [by rewrite lookup_singleton_eq|].
      by rewrite lookup_singleton_ne. }
    exists ops. split_and!.
    + unfold ParseQuery, pq_init.
      assert (TrimSpace (words_text ws ++ w) = words_text ws ++ w) as ->
        by by apply TrimSpace_ends, words_text_ends.
      pose proof Hw as [Hws1 [[_ Hw2] _]%Forall_cons]%Forall_app.
      destruct (loop_words b (S (length (words_text ws ++ w))) ∅ [] ws w b Hws1 ltac:(lia))
        as (f & Hf & ->).
      destruct f as [|f]; [lia|]. cbn [pq_loop]. by rewrite step_last by done.
    + by apply lookup_singleton_ne.
    + intros n Hn. exists (<[max_key := Itoa n]> ops). split_and!.
      * rewrite Hmax by done. f_equal. apply build_query_bare.
        -- intros k Hk0. rewrite Hops, Hq0. unfold ops. case_decide; subst; [by rewrite lookup_insert_eq|].
           by rewrite decide_False, lookup_insert_ne, lookup_singleton_ne.
        -- unfold get_op, ops. rewrite Hops, Hq0, lookup_insert_ne, lookup_singleton_eq, decide_False, decide_True by done. cbn [default id].
           rewrite TrimSpace_words by done. symmetry. by apply TrimSpace_ends, words_text_ends.
      * apply lookup_insert_eq.
      * intros k Hkm. by apply lookup_insert_ne.
  - exists (query_ops ws (kvs ++ [(k, v)])). split_and!.
    + rewrite <- parse_words_ops by done. f_equal.
      rewrite ops_text_snoc, !app_assoc in Ht. apply app_inj_tail in Ht as [-> _]. by rewrite <- app_assoc.
    + by apply Hnone.
    + intros n Hn. eexists. split; [by apply Hmax|]. split.
      * by rewrite Hops, decide_True.
      * intros k' Hk'. by rewrite Hops, decide_False.
Qed.

Lemma max_matches_of_Itoa ops n :
  ops !! max_key = Some (Itoa n) -> 0 <= n < 2 ^ 31 -> max_matches_of ops = Ok n.
Proof.
  intros E Hn. unfold max_matches_of. change "max_matches"%str with max_key. rewrite E.
  rewrite decide_False.
  2: { unfold Itoa. rewrite (proj2 (Z.ltb_ge n 0)) by lia. apply uitoa_not_nil. }
  rewrite Atoi_Itoa by (unfold in_signed; simpl; lia). f_equal.
  apply wrap_signed_id; unfold in_signed; simpl; lia.
Qed.

(** C9: the "show more" link of a search that stopped early asks for the same
    query with three times the limit: the text it carries is parsed to the
    query that was shown, with the new limit.  This is for a text of words and
    then operators with different keys (as in C1: no brackets, escapes or
    colons but those of the operators), whose limit came from the
    configuration or was typed behind everything else, while three times the
    limit is below 2^31.  A limit typed in front, or a bracket behind a space
    in a literal search, gives a link that does not do this. *)
Theorem getNextPageUrl_more `{!GoSort, !GoRange} b ws kvs text n params q s reason :
  typed ws kvs text -> 0 < n -> n * 3 < 2 ^ 31 -> reason <> "NONE"%str ->
  let curr := values_get params "q"%str in
  curr = text /\ DefaultMaxMatches s = n \/ curr = text ++ max_matches_op n ->
  ParseQuery curr b = Some (q, None) ->
  exists next,
    getNextPageUrl params (with_default s q) reason = "?"%str ++ Encode (values_set params "q"%str next) /\
    ParseQuery next b = Some (set_MaxMatches q (n * 3), None).
Proof.
  intros Ht Hn Hlim Hr curr Hcurr Hq. exists (text ++ max_matches_op (n * 3)).
  destruct (parse_typed ws kvs text b Ht) as (ops & E0 & Hnone & Hmax).
  destruct (Hmax (n * 3) ltac:(lia)) as (ops3 & E3 & Hm3 & Hops3).
  apply max_matches_of_Itoa in Hm3; [|lia].
  assert (MaxMatches (with_default s q) = n /\ next_query curr n = text ++ max_matches_op (n * 3) /\
    build_query ops3 b = (set_MaxMatches q (n * 3), None)) as (Hm & Hnext & Hb).
  { destruct Hcurr as [[-> <-]|Hc]; [rewrite E0 in Hq|rewrite Hc in Hq |- *].
    - injection Hq as Hq. split_and!; [|by eapply next_query_absent|by eapply build_query_max].
      apply build_query_Ok in Hq as (f & nf & l & _ & _ & _ & _ & _ & _ & Hmm & _).
      unfold max_matches_of in Hmm. change "max_matches"%str with max_key in Hmm. rewrite Hnone in Hmm.
      injection Hmm as Hmm. unfold with_default. rewrite decide_True by congruence. by destruct q.
    - destruct (Hmax n ltac:(lia)) as (ops1 & E1 & Hm1 & Hops1). rewrite E1 in Hq. injection Hq as Hq.
      apply max_matches_of_Itoa in Hm1; [|lia].
      split_and!; [|by eapply next_query_present, Z.lt_le_incl|].
      + apply build_query_Ok in Hq as (f & nf & l & _ & _ & _ & _ & _ & _ & Hmm & _).
        rewrite Hm1 in Hmm. injection Hmm as Hmm. unfold with_default. by rewrite decide_False by lia.
      + eapply build_query_max; [exact Hq| |done]. intros k Hk. by rewrite Hops1, Hops3. }
  split; [|by rewrite E3, Hb].
  unfold getNextPageUrl. rewrite decide_False by done. fold curr. by rewrite Hm, Hnext.
Qed.

(** In a literal search a bracket behind a space swallows the rest of the
    query, and so the limit of the link: the link asks for another text, and
    for no limit. *)
Example getNextPageUrl_bracket :
  ParseQuery "a (b"%str false =
    Some (mkQuery "a \(b"%str [] [] [] true [] [] [] 0 false false, None) /\
  next_query "a (b"%str 50 = "a (b max_matches:150"%str /\
  ParseQuery "a (b max_matches:150"%str false =
    Some (mkQuery "a \(b max_matches:150"%str [] [] [] true [] [] [] 0 false false, None).
Proof. vm_compute. split_and!; reflexivity. Qed.

(** * A limit typed in front *)
Definition leading (n : Z) (rest : str) : str := max_key ++ ":"%char :: Itoa n ++ " "%char :: rest.

Lemma leading_loop b n rest fuel :
  0 <= n ->
  pq_loop (S (S fuel)) b (mkPq ∅ [] [] (leading n rest) b true) =
  pq_loop fuel b (mkPq {[ max_key := Itoa n ]} [] [] rest b true).
Proof.
  intros Hn. destruct (max_key_op n Hn) as [Hk _]. unfold leading. cbn [pq_loop].
  rewrite step_key by auto using TrimSpace_nil. rewrite decide_True by done.
  rewrite step_space, decide_False by (done || by apply Itoa_word). cbn [app]. done.
Qed.

Lemma TrimSpace_leading n rest c :
  head (reverse rest) = Some c -> plain_byte c = true -> TrimSpace (leading n rest) = leading n rest.
Proof.
  intros Hc Hp. apply TrimSpace_ends. unfold leading.
  rewrite app_comm_cons, (cons_middle " "%char), !app_assoc. apply ends_plain_app; [|by exists c].
  by exists "m"%char.
Qed.

Lemma word_last w : is_word w -> exists c, head (reverse w) = Some c /\ plain_byte c = true.
Proof. intros Hw. by destruct (words_text_ends [] w ltac:(by apply Forall_singleton)) as [_ ?]. Qed.

Lemma parse_leading b n w :
  is_word w -> 0 <= n < 2 ^ 63 ->
  exists q, ParseQuery (leading n w) b = Some (q, None) /\ MaxMatches q = int32 n.
Proof.
  intros Hw Hn. destruct (word_last w Hw) as (c & Hc & Hp).
  unfold ParseQuery, pq_init. rewrite (TrimSpace_leading n w c) by done.
  assert (exists f, S (length (leading n w)) = S (S (S f))) as [f ->]
    by (unfold leading; rewrite length_app; simpl; by eexists).
  rewrite leading_loop by lia. cbn [pq_loop]. rewrite step_last by apply Hw. cbn [app].
  unfold set_op. rewrite lookup_singleton_ne by done. cbn [mbind res_bind].
  set (ops := <[ [] := w ]> _).
  assert (forall k, ops !! k = if decide (k = max_key) then Some (Itoa n)
    else if decide (k = []) then Some w else None) as Hops.
  { intros k. unfold ops. destruct (decide (k = max_key)) as [->|Hk].
    - by rewrite lookup_insert_ne, lookup_singleton_eq.
    - destruct (decide (k = [])) as [->|]; [by rewrite lookup_insert_eq|].
      by rewrite lookup_insert_ne, lookup_singleton_ne. }
  clearbody ops.
  rewrite (build_query_line ops b [] [] (int32 n));
    unfold onlyOneSynonym, max_matches_of, get_op in *; rewrite ?Hops in *; try done; simpl in *.
  - by eexists.
  - rewrite TrimSpace_ends by by apply (words_text_ends [] w), Forall_singleton. by destruct Hw.
  - rewrite decide_False, Atoi_Itoa; [done|split; [|by destruct Hn]; lia|].
    unfold Itoa. rewrite (proj2 (Z.ltb_ge n 0)) by lia. apply uitoa_not_nil.
Qed.

Lemma Itoa_is_word n : 0 <= n -> is_word (Itoa n).
Proof.
  intros Hn. split; [|by apply Itoa_word]. unfold Itoa. rewrite (proj2 (Z.ltb_ge n 0)) by lia.
  apply uitoa_not_nil.
Qed.

Lemma parse_leading_twice b n m w :
  is_word w -> 0 <= n -> 0 <= m ->
  ParseQuery (leading n w ++ max_matches_op m) b = Some (emptyQuery, Some (ErrTermTwice max_key)).
Proof.
  intros Hw Hn Hm. set (rest := w ++ " "%char :: max_key ++ ":"%char :: Itoa m).
  assert (leading n w ++ max_matches_op m = leading n rest) as ->.
  { unfold leading, rest. by repeat (rewrite <- ?app_assoc, <- ?app_comm_cons). }
  destruct (word_last (Itoa m) (Itoa_is_word m Hm)) as (c & Hc & Hp).
  unfold ParseQuery, pq_init. rewrite (TrimSpace_leading n rest c); [|..|done].
  2: { unfold rest. rewrite (cons_middle ":"%char), app_comm_cons, !app_assoc, reverse_app.
       by destruct (reverse (Itoa m)). }
  assert (exists f, S (length (leading n rest)) = S (S (S (S (S f))))) as [f ->].
  { unfold leading. repeat (rewrite length_app || rewrite length_cons). simpl. by eexists. }
  rewrite leading_loop by lia. unfold rest. cbn [pq_loop].
  rewrite step_space, decide_True by (done || apply Hw). cbn [app].
  destruct (max_key_op m Hm) as [Hk Hv]. rewrite step_key; [|done|].
  2: { right. by rewrite lookup_singleton_ne. }
  rewrite decide_False.
  2: { rewrite TrimSpace_space by by apply (words_text_ends [] w), Forall_singleton. by destruct Hw. }
  rewrite step_last by done. unfold set_op.
  by rewrite lookup_insert_ne, lookup_singleton_eq.
Qed.

(** Only the limit in front holds a colon. *)
Lemma leading_no_limit n w a t : is_word w -> 0 <= n -> leading n w <> a ++ max_text ++ t.
Proof.
  intros Hw Hn Ht. set (rest := Itoa n ++ " "%char :: w).
  assert (":"%char ∉ rest) as Hrest.
  { unfold rest. rewrite not_elem_of_app, not_elem_of_cons.
    split_and!; [by apply word_no_colon, Itoa_is_word|done|by apply word_no_colon]. }
  pose proof (cut_app ":"%char max_key rest ltac:(by_decide)) as E.
  change (max_key ++ ":"%char :: rest) with (leading n w) in E. rewrite Ht in E.
  destruct (decide (":"%char ∈ a)) as [Ha|Ha].
  - apply list_elem_of_split_l in Ha as (a1 & a2 & -> & Ha1).
    rewrite <- app_assoc, <- app_comm_cons, cut_app in E by done.
    injection E as _ E. change (a2 ++ max_text ++ t = rest) in E. apply Hrest. rewrite <- E, !elem_of_app. right. left. by_decide.
  - assert (a ++ max_text ++ t = (a ++ " max_matches"%str) ++ ":"%char :: t) as Ha'
      by by rewrite <- app_assoc.
    rewrite Ha', cut_app in E.
    + injection E as E _. apply (f_equal length) in E. rewrite length_app in E. simpl in E. lia.
    + rewrite not_elem_of_app. split; [done|by_decide].
Qed.

(** When the limit was typed in front of the words, the "show more" link is
    dead: it adds a second limit, and the parser refuses the query. *)
Theorem getNextPageUrl_leading `{!GoSort, !GoRange} b n w params q reason :
  is_word w -> 0 < n < 2 ^ 31 -> reason <> "NONE"%str ->
  values_get params "q"%str = leading n w ->
  ParseQuery (leading n w) b = Some (q, None) ->
  exists next,
    getNextPageUrl params q reason = "?"%str ++ Encode (values_set params "q"%str next) /\
    ParseQuery next b = Some (emptyQuery, Some (ErrTermTwice max_key)).
Proof.
  intros Hw Hn Hr Hcurr Hq.
  destruct (parse_leading b n w Hw ltac:(lia)) as (q' & E & Hm). simplify_eq.
  exists (leading n w ++ max_matches_op (n * 3)). split; [|apply parse_leading_twice; [done|lia..]].
  unfold getNextPageUrl. rewrite decide_False, Hcurr, Hm by done.
  assert (int32 n = n) as -> by (apply wrap_signed_id; unfold in_signed; simpl; lia).
  unfold next_query, contains. rewrite bool_decide_false; [done|].
  intros [i (a & t & Ht & _)%index_Some].
  by apply (leading_no_limit n w a t Hw ltac:(lia)) in Ht.
Qed.

(** * The handler *)

(** A page is answered by the primary backend, or by its backup because the
    primary was unavailable. *)
Definition answered_by (backend : Backend) (q : Query) (search : CodeSearchResult) (backup : bool) : Prop :=
  if backup then
    exists desc b, bk_Search backend q = RpcErr Unavailable desc /\ BackupBackend backend = Some b /\
      bk_Search b q = RpcOk search
  else bk_Search backend q = RpcOk search.

Lemma search_with_backup_answer backend q search :
  (search_with_backup backend q).1 = RpcOk search ->
  answered_by backend q search (search_with_backup backend q).2.
Proof.
  unfold search_with_backup. destruct (bk_Search backend q) as [r|code desc] eqn:E; [by intros [= ->]|].
  destruct (decide (code = Unavailable)) as [->|]; [|done].
  destruct (BackupBackend backend) as [b|] eqn:Eb; [|done]. intros H. by exists desc, b.
Qed.

(** C8: the search handler answers 200 with a page, or a client or server error
    with none.  A page comes from the chosen backend, or from its backup only
    when the backend was unavailable, says which, and answers a query with a
    pattern and, if the configuration sets a limit, with a limit. *)
Theorem ServerSideAPISearchV2_reply `{!GoSort, !GoRange} elapsed show_age show_date rpc_error s params
    reply code msg long :
  ServerSideAPISearchV2 elapsed show_age show_date rpc_error s params = Ok (reply, code, msg, long) ->
  match reply with
  | None => (code = 400 \/ code = 500) /\ msg <> []
  | Some r =>
      code = 200 /\ msg = [] /\ long = [] /\
      exists backend q search,
        (getBackendFromQuery s params).2 = Some backend /\
        Line q <> [] /\ (DefaultMaxMatches s <> 0 -> MaxMatches q <> 0) /\
        answered_by backend q search (BackupIdxUsed r) /\ Results r = results_V2 (dedupe (cs_Results search))
  end.
Proof.
  unfold ServerSideAPISearchV2. destruct (getBackendFromQuery s params) as [name [backend|]] eqn:Eb.
  2: { intros [= <- <- <- <-]. auto. }
  destruct (extractQuery params) as [[[q is_regex] [e|]]| |]; cbn [mbind res_bind]; try done.
  { intros [= <- <- <- <-]. auto. }
  destruct (decide (Line q = [])) as [|Hl]; [intros [= <- <- <- <-]; auto|].
  destruct (doSearchV2 _ _ _ _ _) as [r|err|] eqn:Es; [|unfold getQueryError|done].
  2: { case_decide; intros [= <- <- <- <-]; auto. }
  intros [= <- <- <- <-]. split_and!; [done..|].
  apply doSearchV2_inv in Es as (search & Hs & Hr & _ & Hb).
  exists backend, (with_default s q), search. cbn [BackupIdxUsed Results]. rewrite Hb. split_and!.
  - done.
  - unfold with_default. case_decide; [|done]. by destruct q.
  - intros Hd. unfold with_default. case_decide; [|done]. by destruct q.
  - by apply search_with_backup_answer.
  - done.
Qed.

(** * Witnesses *)
Definition sample_match (tree path : str) (n : Z) (before : list str) (line : str) (after : list str)
    (bounds : list (Z * Z)) : SearchResult :=
  mkSearchResult tree "HEAD"%str path n before after bounds line (Z.of_nat (length bounds)).
Definition sample_results : list SearchResult :=
  [sample_match "r"%str "b.go"%str 2 ["one"]%str "two two"%str ["three"]%str [(0, 3); (4, 7)];
   sample_match "r"%str "a.py"%str 1 [] "two"%str [] [(0, 3)];
   sample_match "r"%str "b.go"%str 3 ["two two"; "one"]%str "three two"%str ["four"]%str [(6, 9)]].
Definition sample_stats : SearchStats := mkPbStats 1 2 3 4 5 MATCH_LIMIT 4.
Definition sample_search : CodeSearchResult := mkPbResult (Some sample_stats) sample_results [] [] 1700000000.
Definition sample_backup : Backend := mkBackend "backup"%str (fun _ => RpcOk sample_search) None.
Definition sample_backend : Backend :=
  mkBackend "primary"%str (fun _ => RpcErr Unavailable "down"%str) (Some sample_backup).
Definition sample_query : Query := mkQuery "two"%str [] [] [] true [] [] [] 50 false false.
Definition sample_reply : res (Z * str) ReplySearchV2 :=
  doSearchV2 7 (fun _ => []) (fun _ => []) sample_backend sample_query.


Lemma results_V2_collision_witness :
  exists x, results_V2 (dedupe [sample_match "a-b"%str "c"%str 1 [] "x"%str [] [];
                                sample_match "a"%str "b-c"%str 2 [] "y"%str [] []]) = [x] /\
    Tree x = "a-b"%str.
Proof.
  destruct (results_V2_collision (sample_match "a-b"%str "c"%str 1 [] "x"%str [] [])
    (sample_match "a"%str "b-c"%str 2 [] "y"%str [] [])) as (x & Hx & Ht & _); [by_decide..|].
  exists x. split; [exact Hx|exact Ht].
Defined.


Definition sample_typed : Query := mkQuery "two"%str "b.go"%str [] [] true [] [] [] 50 false false.
Lemma getNextPageUrl_more_witness :
  exists next, ParseQuery next true = Some (set_MaxMatches sample_typed 150, None) /\
    getNextPageUrl {[ "q"%str := ["two file:b.go"%str] ]}
      (with_default (mkServer ∅ 50) (set_MaxMatches sample_typed 0))
      "MATCH_LIMIT"%str = "?q=two+file%3Ab.go+max_matches%3A150"%str.
Proof.
  destruct (getNextPageUrl_more true ["two"%str] [("file", "b.go")]%str "two file:b.go"%str 50
    {[ "q"%str := ["two file:b.go"%str] ]}
    (set_MaxMatches sample_typed 0) (mkServer ∅ 50) "MATCH_LIMIT"%str) as (next & E & H);
    [split; [reflexivity|by left|by_decide..]|lia|lia|done|left; split; reflexivity|vm_compute; reflexivity|].
  exists next. split; [exact H|]. vm_compute. reflexivity.
Defined.

Lemma getNextPageUrl_leading_witness :
  exists next,
    getNextPageUrl {[ "q"%str := [leading 9 "two"%str] ]} (set_MaxMatches sample_query 9) "MATCH_LIMIT"%str =
      "?"%str ++ Encode {[ "q"%str := [next] ]} /\
    ParseQuery next true = Some (emptyQuery, Some (ErrTermTwice "max_matches"%str)).
Proof.
  destruct (getNextPageUrl_leading true 9 "two"%str {[ "q"%str := [leading 9 "two"%str] ]}
    (set_MaxMatches sample_query 9) "MATCH_LIMIT"%str) as (next & E & H);
    [by_decide|lia|done|reflexivity|vm_compute; reflexivity|].
  exists next. split; [|exact H]. rewrite E. unfold values_set. by rewrite insert_singleton_eq.
Defined.

Definition sample_params : values := {[ "q"%str := ["two"%str] ]}.
Definition sample_server : server := mkServer {[ "x"%str := sample_backend ]} 50.
Lemma ServerSideAPISearchV2_reply_witness :
  exists reply, ServerSideAPISearchV2 7 (fun _ => []) (fun _ => []) (fun _ d => d) sample_server sample_params =
    Ok (Some reply, 200, [], []) /\ BackupIdxUsed reply = true /\
    exists backend q search, answered_by backend q search (BackupIdxUsed reply) /\ Line q <> [].
Proof.
  assert (exists reply, ServerSideAPISearchV2 7 (fun _ => []) (fun _ => []) (fun _ d => d) sample_server
    sample_params = Ok (Some reply, 200, [], []) /\ BackupIdxUsed reply = true) as (reply & E & Hb)
    by (eexists; split; vm_compute; reflexivity).
  exists reply. split_and!; [exact E|exact Hb|].
  pose proof (ServerSideAPISearchV2_reply 7 (fun _ => []) (fun _ => []) (fun _ d => d) sample_server
    sample_params (Some reply) 200 [] [] E) as (_ & _ & _ & backend & q & search & _ & Hl & _ & Ha & _).
  exists backend, q, search. split; [exact Ha|exact Hl].
Defined.
