(* ===== verification/Backend.v ===== *)
(** * Backends: [server/backend.go], and the health pages of [server/server.go]

    A goroutine per backend polls it: [poll_step] is one turn of the loop, on
    the state the request handlers read.  The calls of a turn and the clock
    are its arguments.  Times are seconds of the Unix epoch. *)
From S2P Require Import Prelude GoStrings GoSort GoMap GoUrl Query Search.

Record Tree := mkTree { t_Name : str; t_Version : str; t_Url : str }.
#[export] Instance Tree_eq_dec : EqDecision Tree.
Proof. solve_decision. Defined.

(** [I]: what the backend said of its index. *)
Record Info := mkInfo { i_Name : str; i_Trees : list Tree; i_IndexTime : Z }.
#[export] Instance Info_eq_dec : EqDecision Info.
Proof. solve_decision. Defined.
Record Availability := mkAvail { IsUp : bool; DownSince : Z; DownCode : Z }.
#[export] Instance Availability_eq_dec : EqDecision Availability.
Proof. solve_decision. Defined.
Record BackendState := mkState { bs_I : Info; bs_Up : Availability }.
#[export] Instance BackendState_eq_dec : EqDecision BackendState.
Proof. solve_decision. Defined.

(** [time.Time{}], the first of January of the year 1. *)
Definition zero_time : Z := -62135596800.
Definition IsZero (t : Z) : bool := t =? zero_time.
Definition Before (t u : Z) : bool := t <? u.

(** [pb.ServerInfo]; a tree without metadata has a nil pointer. *)
Record pbMeta := mkPbMeta { m_UrlPattern : str; m_Github : str }.
Record pbTree := mkPbTreeInfo { pti_Name : str; pti_Version : str; pti_Metadata : option pbMeta }.
Record ServerInfo := mkServerInfo { si_Name : str; si_Trees : list pbTree; si_IndexTime : Z }.

(** The state [NewBackend] and [Start] leave. *)
Definition new_state (id : str) : BackendState :=
  mkState (mkInfo id [] zero_time) (mkAvail false zero_time 0).

(** Does [url.ParseRequestURI] accept the text? *)
Definition is_request_uri (v : str) : bool := bool_decide (is_Some (ParseRequestURI v)).

Definition tree_of (r : pbTree) : res unit Tree :=
  md ← deref (pti_Metadata r);
  let v := m_Github md in
  let pattern :=
    if decide (v = []) then m_UrlPattern md
    else (if is_request_uri v then v else "https://github.com/"%str ++ v)
         ++ "/blob/{version}/{path}#L{lno}"%str in
  Ok (mkTree (pti_Name r) (pti_Version r) pattern).

Definition refresh (i : Info) (info : ServerInfo) : res unit Info :=
  trees ← (if decide (si_Trees info = []) then Ok (i_Trees i) else mapR tree_of (si_Trees info));
  Ok (mkInfo (if decide (si_Name info = []) then i_Name i else si_Name info) trees (si_IndexTime info)).

(** A failed call leaves what is known. *)
Definition getInfo (i : Info) (info : rpc ServerInfo) : res unit Info :=
  match info with RpcOk info => refresh i info | RpcErr _ _ => Ok i end.

(** What happens in a turn: the answers of [QuickInfo] (the index time) and,
    if it is called, of [Info]; and the time. *)
Record turn := mkTurn { quickInfo : rpc Z; fullInfo : rpc ServerInfo; now : Z }.

Definition poll_step (st : BackendState) (t : turn) : res unit BackendState :=
  match quickInfo t with
  | RpcOk newTime =>
      i ← (if negb (IsUp (bs_Up st)) || Before (i_IndexTime (bs_I st)) newTime
           then getInfo (bs_I st) (fullInfo t) else Ok (bs_I st));
      Ok (mkState i (mkAvail true zero_time 0))
  | RpcErr code _ =>
      if IsUp (bs_Up st) || IsZero (DownSince (bs_Up st))
      then Ok (mkState (bs_I st) (mkAvail false (now t) code))
      else Ok st
  end.

(** The loop, over the turns so far. *)
Definition poll (id : str) (turns : list turn) : res unit BackendState :=
  foldM poll_step turns (new_state id).
(** ** What the pages report *)

(** The connection states of gRPC. *)
Inductive connectivity := Idle | Connecting | Ready | TransientFailure | Shutdown.
#[export] Instance connectivity_eq_dec : EqDecision connectivity.
Proof. solve_decision. Defined.
Definition grpcReadyOrIdle (s : connectivity) : bool :=
  match s with Ready | Idle => true | _ => false end.

Record BackendStatus := mkStatus {
  GrpcStatus : connectivity; st_IndexAge : str; IndexName : str; st_Up : Availability;
  (** the backup's, if there is one *)
  Backup : option (connectivity * str * str * Availability);
}.

Section pages.
Context `{!GoRange} (show_age : Z -> str).

Definition age_of (s : connectivity) (st : BackendState) : str :=
  if grpcReadyOrIdle s then show_age (i_IndexTime (bs_I st)) else [].

(** The backup is named by its id. *)
Definition getStatus (s : connectivity) (st : BackendState)
    (backup : option (str * connectivity * BackendState)) : BackendStatus :=
  mkStatus s (age_of s st) (i_Name (bs_I st)) (bs_Up st)
    ('(id, bs, bst) ← backup; Some (bs, age_of bs bst, id, bs_Up bst)).

(** [None]: every backend has reported an index; or the first that has not. *)
Definition ServeHealthcheck (bk : gmap str BackendState) : option str :=
  fst <$> head (filter (fun p => IsZero (i_IndexTime (bs_I p.2)) = true) (go_range bk)).

(** The age of the stalest index in seconds, -1 if there is none. *)
Definition ServeStats (bk : gmap str BackendState) (time : Z) : Z :=
  foldl (fun maxBkAge p =>
      let t := i_IndexTime (bs_I p.2) in
      if IsZero t then maxBkAge
      else if maxBkAge <? time - t then time - t else maxBkAge) (-1) (go_range bk).
End pages.

(** * Availability *)
Definition failed (t : turn) : Prop := match quickInfo t with RpcErr _ _ => True | RpcOk _ => False end.
#[export] Instance failed_dec t : Decision (failed t).
Proof. unfold failed. destruct (quickInfo t); apply _. Defined.
Definition down_code (t : turn) : Z := match quickInfo t with RpcErr code _ => code | RpcOk _ => 0 end.

Lemma poll_step_up st t st' :
  poll_step st t = Ok st' -> ~ failed t -> bs_Up st' = mkAvail true zero_time 0.
Proof.
  unfold poll_step, failed. destruct (quickInfo t) as [n|]; [|tauto]. intros H _.
  match type of H with mbind _ ?x = _ => destruct x as [i| |] end;
    cbn [mbind res_bind] in H; simplify_eq. done.
Qed.

Lemma poll_step_failed st t : failed t ->
  poll_step st t =
  if IsUp (bs_Up st) || IsZero (DownSince (bs_Up st))
  then Ok (mkState (bs_I st) (mkAvail false (now t) (down_code t))) else Ok st.
Proof. unfold poll_step, failed, down_code. by destruct (quickInfo t). Qed.

(** Failures after one was noted change nothing. *)
Lemma poll_down st ts st' :
  Forall failed ts -> IsUp (bs_Up st) = false -> DownSince (bs_Up st) <> zero_time ->
  foldM poll_step ts st = Ok st' -> st' = st.
Proof.
  intros Hts. revert st. induction Hts as [|t ts Ht _ IH]; intros st Hup Hz; cbn [foldM].
  - by intros [= <-].
  - rewrite poll_step_failed, Hup by done. unfold IsZero. rewrite (proj2 (Z.eqb_neq _ _)) by done. cbn [orb mbind res_bind].
    by apply IH.
Qed.

Lemma poll_first_failure st t ts st' :
  failed t -> Forall failed ts -> now t <> zero_time ->
  (IsUp (bs_Up st) = true \/ DownSince (bs_Up st) = zero_time) ->
  foldM poll_step (t :: ts) st = Ok st' ->
  bs_Up st' = mkAvail false (now t) (down_code t) /\ bs_I st' = bs_I st.
Proof.
  intros Ht Hts Hn Hst. cbn [foldM]. rewrite poll_step_failed by done.
  assert (IsUp (bs_Up st) || IsZero (DownSince (bs_Up st)) = true) as ->.
  { destruct Hst as [-> | ->]; [done|]. by destruct (IsUp _). }
  cbn [mbind res_bind]. intros H. apply poll_down in H; [|done..]. by subst st'.
Qed.

(** A backend is shown as up after a turn that reached it; otherwise it is
    down since the first of the failed turns since it was last reached (or
    since the server started), with the code of that failure. *)
Lemma poll_availability id pre fails st :
  poll id (pre ++ fails) = Ok st ->
  (forall t, last pre = Some t -> ~ failed t) -> Forall failed fails ->
  Forall (fun t => now t <> zero_time) fails ->
  bs_Up st = match fails, pre with
             | t :: _, _ => mkAvail false (now t) (down_code t)
             | [], [] => mkAvail false zero_time 0
             | [], _ => mkAvail true zero_time 0
             end.
Proof.
  unfold poll. rewrite foldM_app. intros H Hpre Hf Hn.
  destruct (foldM poll_step pre (new_state id)) as [st0| |] eqn:E0; cbn [mbind res_bind] in H; try done.
  assert (bs_Up st0 = match pre with [] => mkAvail false zero_time 0 | _ => mkAvail true zero_time 0 end) as Hup.
  { destruct pre as [|t pre _] using rev_ind; [by injection E0 as <-|].
    rewrite foldM_app in E0. destruct (foldM _ pre _) as [st1| |]; cbn [mbind res_bind] in E0; try done.
    cbn [foldM] in E0. destruct (poll_step st1 t) as [st2| |] eqn:E; cbn [mbind res_bind] in E0; try done.
    injection E0 as <-. apply poll_step_up in E; [|apply Hpre, last_snoc]. rewrite E. by destruct pre. }
  destruct Hf as [|t fails Ht Hf].
  - cbn [foldM] in H. injection H as <-. by rewrite Hup.
  - apply Forall_cons in Hn as [Hn _]. eapply poll_first_failure in H as [-> _]; try done.
    rewrite Hup. destruct pre; [by right|by left].
Qed.

(** * Freshness *)

(** After a turn whose calls are answered consistently, what the server
    shows of the index is not older than the index the backend serves.  It is
    that index exactly, with its trees, after a failure or when the index is
    newer; an index that is older than the one shown, such as one that was
    rolled back, is never asked for while the backend stays up. *)
Theorem poll_step_fresh st t info st' :
  quickInfo t = RpcOk (si_IndexTime info) -> fullInfo t = RpcOk info ->
  poll_step st t = Ok st' ->
  si_IndexTime info <= i_IndexTime (bs_I st') /\
  (IsUp (bs_Up st) = false \/ i_IndexTime (bs_I st) < si_IndexTime info ->
     refresh (bs_I st) info = Ok (bs_I st') /\ i_IndexTime (bs_I st') = si_IndexTime info) /\
  (IsUp (bs_Up st) = true -> si_IndexTime info <= i_IndexTime (bs_I st) -> bs_I st' = bs_I st).
Proof.
  intros Hq Hf. unfold poll_step, getInfo. rewrite Hq, Hf. unfold Before.
  assert (forall i, refresh (bs_I st) info = Ok i -> i_IndexTime i = si_IndexTime info) as Hr.
  { intros i. unfold refresh. destruct (decide (si_Trees info = [])); [|destruct (mapR _ _)];
      cbn [mbind res_bind]; by intros [= <-]. }
  destruct (IsUp (bs_Up st)) eqn:Hup; cbn [negb orb].
  - destruct (Z.ltb_spec (i_IndexTime (bs_I st)) (si_IndexTime info)) as [Hlt|Hge].
    + destruct (refresh (bs_I st) info) as [i| |] eqn:E; cbn [mbind res_bind]; try done.
      intros [= <-]. specialize (Hr i eq_refl). cbn [bs_I]. split_and!; [lia|done|lia].
    + cbn [mbind res_bind]. intros [= <-]. cbn [bs_I]. split_and!; [done|intros [?|?]; [done|lia]|done].
  - destruct (refresh (bs_I st) info) as [i| |] eqn:E; cbn [mbind res_bind]; try done.
    intros [= <-]. specialize (Hr i eq_refl). cbn [bs_I]. split_and!; [lia|done|done].
Qed.

(** * Witnesses *)
Definition sample_info : ServerInfo :=
  mkServerInfo "index"%str [mkPbTreeInfo "r"%str "HEAD"%str (Some (mkPbMeta [] "o/r"%str))] 1700000000.
Definition sample_up : turn := mkTurn (RpcOk 1700000000) (RpcOk sample_info) 1700000100.
Definition sample_down (code now : Z) : turn := mkTurn (RpcErr code []) (RpcErr code []) now.

Lemma poll_step_fresh_witness :
  exists st, poll_step (new_state "b"%str) sample_up = Ok st /\
    refresh (bs_I (new_state "b"%str)) sample_info = Ok (bs_I st).
Proof.
  assert (exists st, poll_step (new_state "b"%str) sample_up = Ok st) as [st E]
    by (eexists; vm_compute; reflexivity).
  exists st. split; [exact E|].
  apply (poll_step_fresh (new_state "b"%str) sample_up sample_info st);
    [reflexivity|reflexivity|exact E|by left].
Defined.
