(* ===== verification/Diff.v ===== *)
(** * Unified diffs: [server/fileviewer/fileview.go], from [parseGitDiffHeader]
      to [getModifiedDiffRows]

    [parseGitUnifiedDiff] reads the output of [git diff] line by line into
    hunks of numbered lines; [GetDiffRowsSplit] pairs deleted with added lines
    into the rows of the side-by-side view. *)
From S2P Require Import Prelude GoStrings GoRegexp Scanner.

Inductive GitDiffLineType :=
  | ContextLine | AddLine | DeleteLine | HunkLine
  | NoTrailingNewlineLine | UnknownLine | ModifiedLine.
#[export] Instance GitDiffLineType_eq_dec : EqDecision GitDiffLineType.
Proof. solve_decision. Defined.

Record GitDiffLine := mkLine {
  Text : str;
  Type_ : GitDiffLineType;
  OriginalLineNumber : Z;
  OldLineNumber : Z;
  NewLineNumber : Z;
  NoTrailingNewline : bool;
}.

Definition isIncudableLine (gl : GitDiffLine) : bool :=
  match Type_ gl with AddLine | DeleteLine => true | _ => false end.

(** [gl.Text[1:]] *)
Definition content (gl : GitDiffLine) : res unit str := slice (Text gl) 1 (length (Text gl)).

Record GitDiffHunkHeader := mkHeader {
  OldStartLine : Z; OldLineCount : Z; NewStartLine : Z; NewLineCount : Z;
}.

Definition toString (h : GitDiffHunkHeader) : str :=
  "@@ -"%str ++ Itoa (OldStartLine h) ++ ","%str ++ Itoa (OldLineCount h) ++ " +"%str
  ++ Itoa (NewStartLine h) ++ ","%str ++ Itoa (NewLineCount h) ++ " @@"%str.

Record GitDiffHunk := mkHunk {
  Header : GitDiffHunkHeader;
  Lines : list GitDiffLine;
}.

Record GitDiff := mkDiff {
  Hunks : list GitDiffHunk;
  IsBinary : bool;
}.

#[export] Instance GitDiffLine_eq_dec : EqDecision GitDiffLine.
Proof. solve_decision. Defined.
#[export] Instance GitDiffHunkHeader_eq_dec : EqDecision GitDiffHunkHeader.
Proof. solve_decision. Defined.
#[export] Instance GitDiffHunk_eq_dec : EqDecision GitDiffHunk.
Proof. solve_decision. Defined.

(** ** Reading *)

(** The loop of [parseGitDiffHeader]: [Some b] is a header with
    [IsBinary = b], [None] a nil header; the scanner error is returned by the
    caller of the loop. *)
Fixpoint header_loop (fuel : nat) (sc : Scanner) : option bool * Scanner :=
  match fuel with
  | O => (None, sc)
  | S fuel =>
      match Scan sc with
      | (false, sc) => (None, sc)
      | (true, sc) =>
          let line := sc_bytes sc in
          if has_prefix "Binary files "%str line && has_suffix "differ"%str line
          then (Some true, sc)
          else if has_prefix "+++"%str line then (Some false, sc)
          else header_loop fuel sc
      end
  end.

Definition parseGitDiffHeader (sc : Scanner) : res unit (option bool) * Scanner :=
  match header_loop (S (length (sc_rest sc))) sc with
  | (Some b, sc) => (Ok (Some b), sc)
  | (None, sc) => (if sc_err sc then Err tt else Ok None, sc)
  end.

(** At the beginning of the line: [@@ -], digits (1), an optional comma, possibly
    empty digits (2), [ +], digits (3), an optional comma, digits (4), [ @@]. *)
Definition diffHeaderRe : re :=
  RSeq [RBot; RLit "@@ -"%str; RGroup 1 (RPlus (RChr class_d)); ROpt (RLit ","%str);
        RGroup 2 (RStar true (RChr class_d)); RLit " +"%str;
        RGroup 3 (RPlus (RChr class_d)); ROpt (RLit ","%str);
        RGroup 4 (RStar true (RChr class_d)); RLit " @@"%str].

Definition numberFromGroup (input : str) (df : Z) : Z := default df (Atoi input).

(** A nil header (and a non-nil error) is [None]. *)
Definition parseGitDiffHunkHeader (headerLine : str) : option GitDiffHunkHeader :=
  h ← find diffHeaderRe headerLine;
  Some (mkHeader (numberFromGroup (group h 1) 0) (numberFromGroup (group h 2) 1)
                 (numberFromGroup (group h 3) 0) (numberFromGroup (group h 4) 1)).

Definition getDiffLineType (line : str) : GitDiffLineType :=
  if has_prefix "+"%str line then AddLine
  else if has_prefix "-"%str line then DeleteLine
  else if has_prefix " "%str line then ContextLine
  else if has_prefix "\"%str line then NoTrailingNewlineLine
  else UnknownLine.

Definition linePrefixes : list ascii := [" "; "-"; "+"; "\"]%char.
Definition isValidDiffLinePrefix (c : ascii) : bool := bool_decide (c ∈ linePrefixes).

Record HunkScanner := mkHunkScanner {
  input : Scanner;
  nextHunkHeader : option str;
}.

(** [lines[len(lines)-1].NoTrailingNewline = true].  [lines] stays the
    one-element slice made for the header; [hunk.Lines] shares its array only
    until the first [append], which moves the hunk's lines to a new array. *)
Definition flag_last (ls : list GitDiffLine) : list GitDiffLine :=
  match ls with
  | [mkLine t ty o ol nl _] => [mkLine t ty o ol nl true]
  | _ => ls
  end.

(** The loop over the lines of a hunk: [before] and [after] are the rolling
    counters, of Go's [int]; returns the hunk's lines and the header line it stopped at. *)
Fixpoint hunk_loop (fuel : nat) (sc : Scanner) (before after : Z)
    (ls : list GitDiffLine) : res unit (list GitDiffLine * HunkScanner) :=
  match fuel with
  | O => Ok (ls, mkHunkScanner sc None)
  | S fuel =>
      match Scan sc with
      | (false, sc) => Ok (ls, mkHunkScanner sc None)
      | (true, sc) =>
          let line := sc_bytes sc in
          match getDiffLineType line with
          | UnknownLine =>
              if is_match diffHeaderRe line then Ok (ls, mkHunkScanner sc (Some line))
              else match line with
                   | [] => Panic                    (** [line[0]] in the message *)
                   | _ => Ok (ls, mkHunkScanner sc None)
                   end
          | NoTrailingNewlineLine =>
              if (Z.of_nat (length line) <? 12) then Ok (ls, mkHunkScanner sc None)
              else hunk_loop fuel sc before after (flag_last ls)
          | AddLine =>
              hunk_loop fuel sc before (int64 (after + 1))
                (ls ++ [mkLine line AddLine 0 0 after false])
          | DeleteLine =>
              hunk_loop fuel sc (int64 (before + 1)) after
                (ls ++ [mkLine line DeleteLine 0 before 0 false])
          | _ =>
              hunk_loop fuel sc (int64 (before + 1)) (int64 (after + 1))
                (ls ++ [mkLine line ContextLine 0 before after false])
          end
      end
  end.

(** The header line: the one stored by the previous call, or the next line. *)
Definition hunk_start (hs : HunkScanner) : str * Scanner :=
  match nextHunkHeader hs with
  | Some l => (l, input hs)
  | None => let sc := (Scan (input hs)).2 in (sc_bytes sc, sc)
  end.

Definition parseGitDiffHunk (hs : HunkScanner) : res unit (option GitDiffHunk * HunkScanner) :=
  let '(headerLine, sc) := hunk_start hs in
  if decide (headerLine = []) then Ok (None, mkHunkScanner sc None)
  else
    (** [header.toString()] runs before the error is tested *)
    header ← deref (parseGitDiffHunkHeader headerLine);
    '(ls, hs) ← hunk_loop (S (length (sc_rest sc))) sc (OldStartLine header)
      (NewStartLine header) [mkLine headerLine HunkLine 1 0 0 false];
    Ok (Some (mkHunk header ls), hs).

(** The loop over the hunks; [None] when the fuel runs out. *)
Fixpoint hunks_loop (fuel : nat) (hs : HunkScanner) (hunks : list GitDiffHunk)
    : option (res unit (list GitDiffHunk)) :=
  match fuel with
  | O => None
  | S fuel =>
      match parseGitDiffHunk hs with
      | Ok (None, _) => Some (Ok hunks)
      | Ok (Some h, hs) => hunks_loop fuel hs (hunks ++ [h])
      | Err e => Some (Err e)
      | Panic => Some Panic
      end
  end.

(** [None] inside [Ok] is the nil result. *)
Definition parseGitUnifiedDiff (sc : Scanner) : option (res unit (option GitDiff)) :=
  match parseGitDiffHeader sc with
  | (Ok (Some false), sc) =>
      r ← hunks_loop (S (S (length (sc_rest sc)))) (mkHunkScanner sc None) [];
      Some (r ≫= fun hunks => Ok (Some (mkDiff hunks false)))
  | (Panic, _) => Some Panic
  | _ => Some (Ok None)
  end.

(** ** The command *)
Definition diffArgs (relativePath repoPath oldRev newRev : str) (hideWhitespace : bool) : list str :=
  ["-C"%str; repoPath; "diff"%str; oldRev; newRev]
  ++ (if hideWhitespace then ["-w"%str] else [])
  ++ ["-z"%str; "--no-color"%str; "--"%str; relativePath].

(** [git] maps the arguments of the command to its output. *)
Definition GetDiffBetweenTwoCommits (git : list str -> option str)
    (relativePath repoPath oldRev newRev : str) (hideWhitespace : bool)
    : option (res unit (option GitDiff)) :=
  match git (diffArgs relativePath repoPath oldRev newRev hideWhitespace) with
  | None => Some (Err tt)
  | Some out => parseGitUnifiedDiff (newScanner (100 * 1024 * 1024) out)
  end.

(** ** Rows of the side-by-side view *)
Record IDiffRowData := mkRowData {
  Content : str;
  LineNumber : Z;
  DiffLineNumber : Z;
  NoNewLineIndicator : bool;
}.

Inductive IDiffRow :=
  | IDiffRowAdded (data : IDiffRowData)
  | IDiffRowDeleted (data : IDiffRowData)
  | IDiffRowModified (before after : IDiffRowData)
  | IDiffRowContext (content : str) (beforeLineNumber afterLineNumber : Z)
  | IDiffRowHunk (content : str) (hunkIndex : Z).

Definition row_data (number : GitDiffLine -> Z) (l : GitDiffLine) : res unit IDiffRowData :=
  c ← content l;
  Ok (mkRowData c (number l) (OriginalLineNumber l) (NoTrailingNewline l)).

(** The loop that pairs the lines of equal index. *)
Fixpoint pair_rows (dels adds : list GitDiffLine) : res unit (list IDiffRow) :=
  match dels, adds with
  | d :: dels, a :: adds =>
      db ← row_data OldLineNumber d;
      da ← row_data NewLineNumber a;
      rows ← pair_rows dels adds;
      Ok (IDiffRowModified db da :: rows)
  | dels, adds =>
      rd ← mapR (fun l => d ← row_data OldLineNumber l; Ok (IDiffRowDeleted d)) dels;
      ra ← mapR (fun l => d ← row_data NewLineNumber l; Ok (IDiffRowAdded d)) adds;
      Ok (rd ++ ra)
  end.

Definition is_type (ty : GitDiffLineType) (l : GitDiffLine) : Prop := Type_ l = ty.
#[export] Instance is_type_dec ty l : Decision (is_type ty l).
Proof. unfold is_type. apply _. Defined.

Definition getModifiedDiffRows (addedOrDeletedLines : list GitDiffLine)
    : res unit (list IDiffRow) :=
  pair_rows (filter (is_type DeleteLine) addedOrDeletedLines)
            (filter (is_type AddLine) addedOrDeletedLines).

Definition flush_rows (modified : list GitDiffLine) : res unit (list IDiffRow) :=
  match modified with [] => Ok [] | _ => getModifiedDiffRows modified end.

(** The body of the loop over the lines of a hunk; the state is the rows so
    far and the pending added and deleted lines. *)
Definition rows_step (hunkIndex : Z) (st : list IDiffRow * list GitDiffLine)
    (line : GitDiffLine) : res unit (list IDiffRow * list GitDiffLine) :=
  let '(rows, modified) := st in
  match Type_ line with
  | AddLine | DeleteLine => Ok (rows, modified ++ [line])
  | ty =>
      new ← flush_rows modified;
      let rows := rows ++ new in
      match ty with
      | HunkLine => Ok (rows ++ [IDiffRowHunk (Text line) hunkIndex], [])
      | ContextLine =>
          c ← content line;
          Ok (rows ++ [IDiffRowContext c (OldLineNumber line) (NewLineNumber line)], [])
      | _ => Ok (rows, [])
      end
  end.

Definition getDiffRowsFromHunk (hunk : GitDiffHunk) (hunkIndex : Z)
    : res unit (list IDiffRow) :=
  '(rows, modified) ← foldM (rows_step hunkIndex) (Lines hunk) ([], []);
  new ← flush_rows modified;
  Ok (rows ++ new).

Fixpoint rows_split (i : Z) (hunks : list GitDiffHunk) : res unit (list IDiffRow) :=
  match hunks with
  | [] => Ok []
  | h :: hunks =>
      r ← getDiffRowsFromHunk h i;
      rs ← rows_split (i + 1) hunks;
      Ok (r ++ rs)
  end.

Definition GetDiffRowsSplit (gd : GitDiff) : res unit (list IDiffRow) := rows_split 0 (Hunks gd).
