(* ===== verification/DiffSpec.v ===== *)
(** * Unified diffs: what the parser and the split view promise

    An abstract diff ([dhunk]) is printed as git prints it ([hunk_lines]) and
    parsed back; the rows of the split view are read back as the two sides of
    the hunk. *)
From S2P Require Import Prelude GoStrings GoRegexp Scanner Diff.

(** * The text of a diff *)

(** A line of a hunk; [DNoEol] is the marker line of a missing newline. *)
Inductive dline := DCtx (t : str) | DAdd (t : str) | DDel (t : str) | DNoEol.
#[export] Instance dline_eq_dec : EqDecision dline.
Proof. solve_decision. Defined.

Record dhunk := DHunk {
  d_old : Z; d_oldc : option Z;
  d_new : Z; d_newc : option Z;
  d_heading : str;
  d_body : list dline;
}.

Definition dline_text (l : dline) : str :=
  match l with
  | DCtx t => " "%char :: t
  | DAdd t => "+"%char :: t
  | DDel t => "-"%char :: t
  | DNoEol => "\ No newline at end of file"%str
  end.

(** [start,count], or [start] alone for a count of one. *)
Definition range_text (start : Z) (count : option Z) : str :=
  uitoa start ++ match count with Some c => ","%char :: uitoa c | None => [] end.

Definition header_text (h : dhunk) : str :=
  "@@ -"%str ++ range_text (d_old h) (d_oldc h) ++ " +"%str
  ++ range_text (d_new h) (d_newc h) ++ " @@"%str ++ d_heading h.

Definition hunk_lines (h : dhunk) : list str :=
  header_text h :: (dline_text <$> d_body h).

Definition natural_int (n : Z) : Prop := 0 <= n < 2 ^ 63.
(** The counter that starts at [n] does not overflow on the lines. *)
Definition room (n : Z) (body : list dline) : Prop := 0 <= n /\ n + Z.of_nat (length body) < 2 ^ 63.
Definition wf_hunk (h : dhunk) : Prop :=
  natural_int (d_old h) /\ natural_int (d_new h) /\
  natural_int (default 1 (d_oldc h)) /\ natural_int (default 1 (d_newc h)) /\
  room (d_old h) (d_body h) /\ room (d_new h) (d_body h).
#[export] Instance wf_hunk_dec h : Decision (wf_hunk h).
Proof. unfold wf_hunk, natural_int, room. apply _. Defined.

(** * What the parser makes of it *)
Fixpoint number_body (before after : Z) (body : list dline) : list GitDiffLine :=
  match body with
  | [] => []
  | (DCtx _ as l) :: body =>
      mkLine (dline_text l) ContextLine 0 before after false
      :: number_body (before + 1) (after + 1) body
  | (DAdd _ as l) :: body =>
      mkLine (dline_text l) AddLine 0 0 after false :: number_body before (after + 1) body
  | (DDel _ as l) :: body =>
      mkLine (dline_text l) DeleteLine 0 before 0 false :: number_body (before + 1) after body
  | DNoEol :: body => number_body before after body
  end.

Definition parsed_hunk (h : dhunk) : GitDiffHunk :=
  mkHunk (mkHeader (d_old h) (default 1 (d_oldc h)) (d_new h) (default 1 (d_newc h)))
    (mkLine (header_text h) HunkLine 1 0 0 (bool_decide (head (d_body h) = Some DNoEol))
     :: number_body (d_old h) (d_new h) (d_body h)).

(** * Hunk headers *)
(** A printed range is matched by the digits, comma and digits of the pattern. *)
Lemma mt_range i j start count s :
  0 <= start -> 0 <= default 1 count ->
  stops class_d s -> has_prefix ","%str s = false ->
  exists s1 s2 s3,
    upto s1 s2 = uitoa start /\
    upto s3 s = match count with Some c => uitoa c | None => [] end /\
    forall X n0 r cs (k : str -> caps -> option X) x,
      mt n0 r s ((j, (s3, s)) :: (i, (s1, s2)) :: cs) k = Some x ->
      mt n0 (RCat (RGroup i (RPlus (RChr class_d))) (RCat (ROpt (RLit ","%str))
        (RCat (RGroup j (RStar true (RChr class_d))) r)))
        (range_text start count ++ s) cs k = Some x.
Proof.
  intros Hs Hc Hst Hp. unfold range_text. destruct count as [c|]; simpl in Hc.
  - exists (uitoa start ++ ","%char :: uitoa c ++ s), (","%char :: uitoa c ++ s), (uitoa c ++ s).
    split_and!; [apply upto_app|apply upto_app|]. intros X n0 r cs k x Hk.
    rewrite mt_cat, mt_group, <- app_assoc. cbn [app].
    apply mt_plus_class; [apply uitoa_not_nil|by apply uitoa_spans|done|].
    rewrite mt_cat. apply (mt_opt_lit n0 ","%str); [done|].
    rewrite mt_cat, mt_group. apply mt_star_class; [by apply uitoa_spans|done|done].
  - exists (uitoa start ++ s), s, s.
    split_and!; [apply upto_app|apply (upto_app [])|]. intros X n0 r cs k x Hk.
    rewrite mt_cat, mt_group, app_nil_r.
    apply mt_plus_class; [apply uitoa_not_nil|by apply uitoa_spans|done|].
    rewrite mt_cat, mt_opt_none, mt_cat, mt_group by done.
    apply (mt_star_class n0 class_d []); [by constructor|done|done].
Qed.

Lemma find_header h :
  wf_hunk h ->
  exists m, find diffHeaderRe (header_text h) = Some m /\
    group m 1 = uitoa (d_old h) /\
    group m 2 = match d_oldc h with Some c => uitoa c | None => [] end /\
    group m 3 = uitoa (d_new h) /\
    group m 4 = match d_newc h with Some c => uitoa c | None => [] end.
Proof.
  intros ([? _] & [? _] & [? _] & [? _] & _).
  set (rest := " @@"%str ++ d_heading h).
  destruct (mt_range 3 4 (d_new h) (d_newc h) rest) as (s4 & s5 & s6 & G3 & G4 & Hmt2);
    [done..|].
  destruct (mt_range 1 2 (d_old h) (d_oldc h)
    (" +"%str ++ range_text (d_new h) (d_newc h) ++ rest))
    as (s1 & s2 & s3 & G1 & G2 & Hmt1); [done..|].
  eexists (Mtch (header_text h) (d_heading h) _). split.
  - apply search_here. unfold match_at, diffHeaderRe. cbn [RSeq foldr].
    rewrite mt_cat, mt_bot by done. rewrite mt_cat.
    unfold header_text at 2. rewrite mt_lit_app by done.
    apply Hmt1. rewrite mt_cat, mt_lit_app by done.
    apply Hmt2. rewrite mt_cat. unfold rest at 1. rewrite mt_lit_app by done.
    reflexivity.
  - split_and!; [exact G1|exact G2|exact G3|exact G4].
Qed.

Lemma parse_header h :
  wf_hunk h ->
  parseGitDiffHunkHeader (header_text h) = Some (Header (parsed_hunk h)).
Proof.
  intros Hwf. destruct (find_header h Hwf) as (m & Hm & H1 & H2 & H3 & H4).
  destruct Hwf as (Ho & Hn & Hoc & Hnc & _). unfold parseGitDiffHunkHeader. rewrite Hm. simpl.
  rewrite H1, H2, H3, H4. unfold numberFromGroup. rewrite !Atoi_uitoa by done.
  destruct (d_oldc h), (d_newc h); simpl in *; by rewrite ?Atoi_uitoa by done.
Qed.

Lemma header_is_header h :
  wf_hunk h -> getDiffLineType (header_text h) = UnknownLine /\
               is_match diffHeaderRe (header_text h) = true.
Proof.
  intros (m & Hm & _)%find_header. split; [done|]. unfold is_match. rewrite Hm.
  by apply bool_decide_true.
Qed.

(** * Reading a printed diff *)
Section reading.
Context (max : Z).

Definition flag (l : GitDiffLine) : GitDiffLine :=
  mkLine (Text l) (Type_ l) (OriginalLineNumber l) (OldLineNumber l) (NewLineNumber l) true.

Lemma flag_last_one l : flag_last [l] = [flag l].
Proof. by destruct l. Qed.

Lemma room_next n l body : room n (l :: body) -> room n body.
Proof. unfold room. simpl. lia. Qed.
Lemma room_succ n l body : room n (l :: body) -> int64 (n + 1) = n + 1 /\ room (n + 1) body.
Proof.
  unfold room. simpl. intros [? ?]. split; [|lia].
  apply wrap_signed_id; [done|]. unfold in_signed. lia.
Qed.

(** The loop reads the lines of the body, up to the lines after it. *)
Lemma hunk_loop_body body tail fuel b e before after l0 more :
  Forall (clean_line max) (dline_text <$> body) ->
  room before body -> room after body ->
  (length body + length tail < fuel)%nat ->
  exists fuel' b' before' after', (length tail < fuel')%nat /\
  hunk_loop fuel (mkScanner max ((dline_text <$> body) ++ tail) b e) before after (l0 :: more)
  = hunk_loop fuel' (mkScanner max tail b' e) before' after'
      ((if bool_decide (more = [] /\ head body = Some DNoEol) then flag l0 else l0)
       :: more ++ number_body before after body).
Proof.
  revert fuel b before after l0 more.
  induction body as [|l body IH]; intros fuel b before after l0 more Hc Hb Ha Hf.
  { exists fuel, b, before, after. split; [simpl in *; lia|].
    rewrite bool_decide_false by (by intros [_ ?]). by rewrite app_nil_r. }
  cbn [fmap list_fmap length] in *. apply Forall_cons in Hc as [Hl Hc].
  destruct (room_succ _ _ _ Hb) as [Eb Hb'], (room_succ _ _ _ Ha) as [Ea Ha'].
  apply room_next in Hb, Ha.
  destruct fuel as [|fuel]; [lia|]. cbn [app hunk_loop]. rewrite Eb, Ea.
  rewrite Scan_clean by done. cbn [sc_bytes].
  assert (forall l (x : GitDiffLine), bool_decide (more ++ [x] = [] /\ l = Some DNoEol) = false)
    as Hne by (intros; apply bool_decide_false; by destruct more; intros [? _]).
  destruct l as [t|t|t|].
  - destruct (IH fuel (dline_text (DCtx t)) (before + 1) (after + 1) l0
      (more ++ [mkLine (dline_text (DCtx t)) ContextLine 0 before after false]))
      as (f & b' & be & af & Hf' & E); [done..|lia|].
    exists f, b', be, af. split; [done|]. rewrite Hne, <- app_assoc in E.
    rewrite bool_decide_false by (intros [_ [=]]). exact E.
  - destruct (IH fuel (dline_text (DAdd t)) before (after + 1) l0
      (more ++ [mkLine (dline_text (DAdd t)) AddLine 0 0 after false]))
      as (f & b' & be & af & Hf' & E); [done..|lia|].
    exists f, b', be, af. split; [done|]. rewrite Hne, <- app_assoc in E.
    rewrite bool_decide_false by (intros [_ [=]]). exact E.
  - destruct (IH fuel (dline_text (DDel t)) (before + 1) after l0
      (more ++ [mkLine (dline_text (DDel t)) DeleteLine 0 before 0 false]))
      as (f & b' & be & af & Hf' & E); [done..|lia|].
    exists f, b', be, af. split; [done|]. rewrite Hne, <- app_assoc in E.
    rewrite bool_decide_false by (intros [_ [=]]). exact E.
  - destruct more as [|m more].
    + destruct (IH fuel (dline_text DNoEol) before after (flag l0) [])
        as (f & b' & be & af & Hf' & E); [done..|lia|].
      exists f, b', be, af. split; [done|].
      rewrite (bool_decide_true ([] = [] /\ head (DNoEol :: body) = _)) by done.
      destruct l0 as [? ? ? ? ? ?]. by case_bool_decide.
    + destruct (IH fuel (dline_text DNoEol) before after l0 (m :: more))
        as (f & b' & be & af & Hf' & E); [done..|lia|].
      exists f, b', be, af. split; [done|].
      rewrite !bool_decide_false in E |- * by (by intros [? _]).
      destruct l0. exact E.
Qed.

(** A call that has its header line reads the body. *)
Lemma parse_hunk_body h tail b e :
  wf_hunk h -> Forall (clean_line max) (dline_text <$> d_body h) ->
  exists f b' be af, (length tail < f)%nat /\
  parseGitDiffHunk (mkHunkScanner (mkScanner max ((dline_text <$> d_body h) ++ tail) b e)
                      (Some (header_text h))) =
  ('(ls, hs) ← hunk_loop f (mkScanner max tail b' e) be af (Lines (parsed_hunk h));
   Ok (Some (mkHunk (Header (parsed_hunk h)) ls), hs)).
Proof.
  intros Hwf Hcb. unfold parseGitDiffHunk, hunk_start. cbn [nextHunkHeader input].
  rewrite decide_False, parse_header by done. cbn [deref mbind res_bind].
  edestruct (hunk_loop_body (d_body h) tail
    (S (length (sc_rest (mkScanner max ((dline_text <$> d_body h) ++ tail) b e))))
    b e (d_old h) (d_new h) (mkLine (header_text h) HunkLine 1 0 0 false) [])
    as (f & b' & be & af & Hf & E);
    [done|apply Hwf..|cbn; rewrite length_app, length_fmap; lia|].
  exists f, b', be, af. split; [done|].
  cbn [parsed_hunk Header OldStartLine NewStartLine Lines]. rewrite E. clear E. cbn [app].
  destruct (decide (head (d_body h) = Some DNoEol)) as [Hh|Hh].
  - by rewrite (bool_decide_true _ Hh), (bool_decide_true (_ /\ _) (conj eq_refl Hh)).
  - rewrite (bool_decide_false _ Hh), (bool_decide_false (_ /\ _)); [done|].
    by intros [_ ?].
Qed.

(** Where the parser stands in front of a list of hunks. *)
Inductive at_hunks (hs : HunkScanner) : list dhunk -> Prop :=
  | at_scan L b e :
      hs = mkHunkScanner (mkScanner max (L ≫= hunk_lines) b e) None -> at_hunks hs L
  | at_stored h L b e :
      hs = mkHunkScanner (mkScanner max ((dline_text <$> d_body h) ++ (L ≫= hunk_lines)) b e)
             (Some (header_text h)) -> at_hunks hs (h :: L).

(** One call, up to the lines after the hunk. *)
Lemma parse_hunk_front h tail b e :
  wf_hunk h -> clean_line max (header_text h) ->
  Forall (clean_line max) (dline_text <$> d_body h) ->
  exists f b' be af, (length tail < f)%nat /\
  parseGitDiffHunk (mkHunkScanner (mkScanner max (hunk_lines h ++ tail) b e) None) =
  ('(ls, hs) ← hunk_loop f (mkScanner max tail b' e) be af (Lines (parsed_hunk h));
   Ok (Some (mkHunk (Header (parsed_hunk h)) ls), hs)).
Proof.
  intros Hwf Hc Hb.
  destruct (parse_hunk_body h tail (header_text h) e Hwf Hb) as (f & b' & be & af & Hf & E).
  exists f, b', be, af. split; [done|]. rewrite <- E.
  unfold parseGitDiffHunk, hunk_start. cbn [nextHunkHeader input].
  cbn [hunk_lines app]. by rewrite Scan_clean.
Qed.

Definition clean_hunk (h : dhunk) : Prop := Forall (clean_line max) (hunk_lines h).

Lemma hunks_cons h L : (h :: L) ≫= hunk_lines =
  header_text h :: (dline_text <$> d_body h) ++ (L ≫= hunk_lines).
Proof. reflexivity. Qed.

(** One call reads one hunk. *)
Lemma parse_hunk_ok hs h L :
  at_hunks hs (h :: L) -> Forall (fun h => wf_hunk h /\ clean_hunk h) (h :: L) ->
  exists hs', parseGitDiffHunk hs = Ok (Some (parsed_hunk h), hs') /\ at_hunks hs' L.
Proof.
  intros Hat [[Hwf Hc] HL]%Forall_cons. apply Forall_cons in Hc as [Hch Hcb].
  assert (exists f b' be af, (length (L ≫= hunk_lines) < f)%nat /\
    exists e, parseGitDiffHunk hs =
    ('(ls, hs) ← hunk_loop f (mkScanner max (L ≫= hunk_lines) b' e) be af
       (Lines (parsed_hunk h)); Ok (Some (mkHunk (Header (parsed_hunk h)) ls), hs)))
    as (f & b & be & af & Hf & e & ->).
  { inversion Hat as [? b e ->|? ? b e ->]; subst.
    - destruct (parse_hunk_front h (L ≫= hunk_lines) b e Hwf Hch Hcb)
        as (f & b' & be & af & Hf & E). by eauto 10.
    - destruct (parse_hunk_body h (L ≫= hunk_lines) b e Hwf Hcb)
        as (f & b' & be & af & Hf & E). by eauto 10. }
  destruct f as [|f]; [lia|]. cbn [hunk_loop].
  destruct L as [|h' L].
  - cbn [Scan mbind res_bind]. eexists. split; [done|]. by eapply at_scan.
  - apply Forall_cons in HL as [[Hwf' Hc'] _]. apply Forall_cons in Hc' as [Hc' _].
    rewrite hunks_cons, Scan_clean by done. cbn [sc_bytes].
    destruct (header_is_header h' Hwf') as [-> ->]. cbn [mbind res_bind].
    eexists. split; [done|]. by eapply at_stored.
Qed.

Lemma parse_hunk_end hs :
  at_hunks hs [] -> exists hs', parseGitDiffHunk hs = Ok (None, hs').
Proof. inversion 1; subst. by eexists. Qed.

Lemma hunks_loop_ok L fuel hs acc :
  at_hunks hs L -> Forall (fun h => wf_hunk h /\ clean_hunk h) L ->
  (length L < fuel)%nat ->
  hunks_loop fuel hs acc = Some (Ok (acc ++ (parsed_hunk <$> L))).
Proof.
  revert fuel hs acc. induction L as [|h L IH]; intros fuel hs acc Hat HL Hf;
    (destruct fuel as [|fuel]; [simpl in Hf; lia|]); cbn [hunks_loop].
  - destruct (parse_hunk_end hs Hat) as [hs' ->]. by rewrite app_nil_r.
  - destruct (parse_hunk_ok hs h L Hat HL) as (hs' & -> & Hat').
    apply Forall_cons in HL as [_ HL]. simpl in Hf.
    rewrite IH by (done || lia). by rewrite <- app_assoc.
Qed.
End reading.

(** A line of the part before the hunks that is neither of the two the parser
    looks for. *)
Definition preamble_line (l : str) : Prop :=
  has_prefix "+++"%str l = false /\
  (has_prefix "Binary files "%str l && has_suffix "differ"%str l) = false.
#[export] Instance preamble_line_dec l : Decision (preamble_line l).
Proof. unfold preamble_line. apply _. Defined.

Lemma header_loop_ok max pre l rest fuel b e :
  Forall (clean_line max) (pre ++ [l]) -> Forall preamble_line pre ->
  has_prefix "+++"%str l = true ->
  (length pre < fuel)%nat ->
  header_loop fuel (mkScanner max (pre ++ l :: rest) b e) =
  (Some false, mkScanner max rest l e).
Proof.
  intros Hc Hp Hl. revert fuel b. induction pre as [|p pre IH]; intros fuel b Hf;
    (destruct fuel as [|fuel]; [simpl in Hf; lia|]); cbn [app header_loop] in *.
  - apply Forall_cons in Hc as [Hc _]. rewrite Scan_clean by done. cbn [sc_bytes].
    destruct l as [|c l]; [done|]. simpl in Hl. case_decide; [subst|done].
    rewrite has_prefix_cons_ne by done. simpl. by rewrite Hl.
  - apply Forall_cons in Hc as [Hc1 Hc], Hp as [[Hp1 Hp2] Hp].
    rewrite Scan_clean by done. cbn [sc_bytes]. rewrite Hp1, Hp2.
    apply IH; [done|done|simpl in Hf; lia].
Qed.

(** C3: parsing the diff git prints for a file gives back its hunks: any
    number of hunks, each with the numbers of its header (an omitted count
    is 1), its lines in order, and on every line its line number on the sides
    it belongs to.  The lines are those the scanner hands over whole: no line
    ends in a carriage return (the scanner drops one, so the lines of a CRLF
    file come back without it) and none is longer than the scanner's limit
    (100 MB for a diff); and the start of a hunk plus the number of its lines
    is below 2^63, where the counters wrap. *)
Theorem parseGitUnifiedDiff_print max pre plus hs :
  Forall (clean_line max) (pre ++ [plus]) -> Forall preamble_line pre ->
  has_prefix "+++"%str plus = true ->
  Forall (fun h => wf_hunk h /\ clean_hunk max h) hs ->
  parseGitUnifiedDiff (newScanner max (unlines (pre ++ plus :: (hs ≫= hunk_lines)))) =
  Some (Ok (Some (mkDiff (parsed_hunk <$> hs) false))).
Proof.
  intros Hpre Hp Hplus Hhs. unfold newScanner. rewrite raw_lines_unlines.
  2: { apply (clean_no_lf max). rewrite cons_middle, app_assoc. apply Forall_app.
       split; [done|]. apply Forall_bind. eapply Forall_impl; [exact Hhs|]. by intros h [_ ?]. }
  unfold parseGitUnifiedDiff, parseGitDiffHeader.
  rewrite header_loop_ok by (done || cbn; rewrite length_app; lia). cbn [sc_rest].
  rewrite (hunks_loop_ok max hs); [done| |done|].
  - by eapply at_scan.
  - assert (length hs <= length (hs ≫= hunk_lines))%nat; [|lia].
    clear. induction hs as [|h hs IH]; cbn [mbind list_bind]; [done|].
    rewrite length_app. cbn [length hunk_lines]. lia.
Qed.

(** * Every input: termination and the shape of the result *)

(** Lines the parser still has in front of it, the stored header included. *)
Definition pending (hs : HunkScanner) : nat :=
  length (sc_rest (input hs)) + match nextHunkHeader hs with Some _ => 1 | None => 0 end.

(** A content line as the parser builds it. *)
Definition content_line (l : GitDiffLine) : Prop :=
  (Type_ l = AddLine \/ Type_ l = DeleteLine \/ Type_ l = ContextLine) /\
  Text l <> [] /\ NoTrailingNewline l = false.

Definition hunk_shape (ls : list GitDiffLine) : Prop :=
  exists l0 more, ls = l0 :: more /\ Type_ l0 = HunkLine /\ Forall content_line more.

Lemma hunk_shape_snoc ls l : hunk_shape ls -> content_line l -> hunk_shape (ls ++ [l]).
Proof.
  intros (l0 & more & -> & H0 & Hm) Hl. exists l0, (more ++ [l]). split_and!; [done|done|].
  apply Forall_app. by rewrite Forall_singleton.
Qed.

Lemma hunk_shape_flag ls : hunk_shape ls -> hunk_shape (flag_last ls).
Proof.
  intros (l0 & more & -> & H0 & Hm). destruct l0, more; simpl; by eexists _, _.
Qed.

Lemma hunk_loop_spec fuel sc before after ls :
  hunk_shape ls -> (length (sc_rest sc) < fuel)%nat ->
  match hunk_loop fuel sc before after ls with
  | Ok (ls', hs') => hunk_shape ls' /\ (pending hs' <= length (sc_rest sc))%nat
  | Err _ => False
  | Panic => True
  end.
Proof.
  revert sc before after ls. induction fuel as [|fuel IH]; intros sc before after ls Hs Hf; [lia|].
  cbn [hunk_loop]. destruct (Scan sc) as [[] sc'] eqn:E.
  - apply Scan_true in E. rewrite E in *.
    assert (forall be af ls, hunk_shape ls -> match hunk_loop fuel sc' be af ls with
      | Ok (ls', hs') => hunk_shape ls' /\ (pending hs' <= S (length (sc_rest sc')))%nat
      | Err _ => False | Panic => True end) as IH'.
    { intros be af ls' Hs'. specialize (IH sc' be af ls' Hs' ltac:(lia)).
      destruct (hunk_loop _ _ _ _ _) as [[ls'' hs'']| |]; [|done|done].
      destruct IH. split; [done|lia]. }
    unfold getDiffLineType. destruct (sc_bytes sc') as [|c t]; cbn [has_prefix].
    { destruct (is_match _ _); [|done]. split; [done|]. unfold pending. simpl. lia. }
    repeat case_decide; try (apply IH', hunk_shape_snoc; [done|];
      by unfold content_line; simpl; auto).
    + destruct (_ <? _); [|by apply IH', hunk_shape_flag].
      split; [done|]. unfold pending. simpl. lia.
    + destruct (is_match _ _); (split; [done|]; unfold pending; simpl; lia).
  - apply Scan_false in E as [E _]. split; [done|]. unfold pending. simpl. rewrite E. simpl. lia.
Qed.

Lemma parse_hunk_spec hs :
  match parseGitDiffHunk hs with
  | Ok (Some h, hs') => hunk_shape (Lines h) /\ (pending hs' < pending hs)%nat
  | Ok (None, _) => True
  | Err _ => False
  | Panic => True
  end.
Proof.
  unfold parseGitDiffHunk. destruct (hunk_start hs) as [l sc] eqn:E.
  case_decide as Hl; [done|]. destruct (parseGitDiffHunkHeader l) as [h|]; [|done].
  cbn [deref mbind res_bind].
  assert (length (sc_rest sc) < pending hs)%nat as Hlt.
  { unfold hunk_start, pending in *. destruct (nextHunkHeader hs).
    - injection E as <- <-. lia.
    - destruct (Scan (input hs)) as [[] sc'] eqn:Es; simpl in E; injection E as <- <-.
      + apply Scan_true in Es. lia.
      + by apply Scan_false in Es as [_ ?]. }
  match goal with |- context [hunk_loop ?f ?s ?be ?af ?ls] =>
    pose proof (hunk_loop_spec f s be af ls) as Hspec;
    destruct (hunk_loop f s be af ls) as [[ls' hs']| |] end; simpl.
  - destruct Hspec; [by eexists _, []|lia|]. split; [done|lia].
  - apply Hspec; [by eexists _, []|lia].
  - done.
Qed.

Lemma hunks_loop_spec fuel hs acc :
  (pending hs < fuel)%nat -> Forall (fun h => hunk_shape (Lines h)) acc ->
  match hunks_loop fuel hs acc with
  | Some (Ok L) => Forall (fun h => hunk_shape (Lines h)) L
  | Some Panic => True
  | _ => False
  end.
Proof.
  revert hs acc. induction fuel as [|fuel IH]; intros hs acc Hf Ha; [lia|].
  cbn [hunks_loop]. pose proof (parse_hunk_spec hs) as Hp.
  destruct (parseGitDiffHunk hs) as [[[h|] hs']| |]; try done.
  destruct Hp. apply IH; [lia|]. apply Forall_app. by rewrite Forall_singleton.
Qed.

Lemma parse_diff_spec sc :
  match parseGitUnifiedDiff sc with
  | Some (Ok (Some d)) => Forall (fun h => hunk_shape (Lines h)) (Hunks d)
  | Some (Ok None) => True
  | Some Panic => True
  | _ => False
  end.
Proof.
  unfold parseGitUnifiedDiff, parseGitDiffHeader.
  destruct (header_loop _ _) as [[[]|] sc']; try done.
  - match goal with |- context [hunks_loop ?f ?hs ?acc] =>
      pose proof (hunks_loop_spec f hs acc) as Hs; destruct (hunks_loop f hs acc) as [[L| |]|] end;
      simpl in *; try (apply Hs; unfold pending; simpl; try lia; by constructor); done.
  - by destruct (sc_err sc').
Qed.

(** The diff parser ends on every input: its loops consume a line at every
    turn, so it returns a diff, returns nil, or panics on a malformed hunk
    header, and it never reports an error value. *)
Theorem parseGitUnifiedDiff_total sc :
  exists r, parseGitUnifiedDiff sc = Some r /\ r <> Err tt.
Proof.
  pose proof (parse_diff_spec sc) as H.
  destruct (parseGitUnifiedDiff sc) as [[[d|]|[]|]|]; by eauto.
Qed.

(** * The split view *)

(** The two sides of a list of rows: content and line number. *)
Definition row_before (r : IDiffRow) : list (str * Z) :=
  match r with
  | IDiffRowDeleted d | IDiffRowModified d _ => [(Content d, LineNumber d)]
  | IDiffRowContext c b _ => [(c, b)]
  | _ => []
  end.
Definition row_after (r : IDiffRow) : list (str * Z) :=
  match r with
  | IDiffRowAdded d | IDiffRowModified _ d => [(Content d, LineNumber d)]
  | IDiffRowContext c _ a => [(c, a)]
  | _ => []
  end.

(** The two sides of the lines of a hunk. *)
Definition line_before (l : GitDiffLine) : list (str * Z) :=
  match Type_ l with
  | DeleteLine | ContextLine => [(tail (Text l), OldLineNumber l)]
  | _ => []
  end.
Definition line_after (l : GitDiffLine) : list (str * Z) :=
  match Type_ l with
  | AddLine | ContextLine => [(tail (Text l), NewLineNumber l)]
  | _ => []
  end.

Definition same_sides (rows : list IDiffRow) (ls : list GitDiffLine) : Prop :=
  rows ≫= row_before = ls ≫= line_before /\ rows ≫= row_after = ls ≫= line_after.

(** A line the view can show: its text has its marker. *)
Definition showable (l : GitDiffLine) : Prop := Type_ l = HunkLine \/ Text l <> [].

Lemma content_ok l : Text l <> [] -> content l = Ok (tail (Text l)).
Proof.
  unfold content, slice. destruct (Text l) as [|c t]; [done|]. intros _.
  rewrite decide_True by (simpl; lia). simpl. rewrite Nat.sub_0_r. by rewrite firstn_all.
Qed.

Lemma same_sides_app r1 l1 r2 l2 :
  same_sides r1 l1 -> same_sides r2 l2 -> same_sides (r1 ++ r2) (l1 ++ l2).
Proof. intros [H1 H2] [H3 H4]. unfold same_sides. rewrite !bind_app. by rewrite H1, H2, H3, H4. Qed.

Definition mk_data (number : GitDiffLine -> Z) (l : GitDiffLine) : IDiffRowData :=
  mkRowData (tail (Text l)) (number l) (OriginalLineNumber l) (NoTrailingNewline l).

Lemma row_data_ok number l : Text l <> [] -> row_data number l = Ok (mk_data number l).
Proof. intros. unfold row_data. by rewrite content_ok. Qed.

Lemma mapR_rows number (C : IDiffRowData -> IDiffRow) ls :
  Forall (fun l => Text l <> []) ls ->
  mapR (fun l => d ← row_data number l; Ok (C d)) ls = Ok ((fun l => C (mk_data number l)) <$> ls).
Proof.
  intros Hls. apply mapR_Ok. intros l Hl. rewrite Forall_forall in Hls.
  by rewrite row_data_ok by auto.
Qed.

Lemma pair_rows_ok dels adds :
  Forall (fun l => Type_ l = DeleteLine /\ Text l <> []) dels ->
  Forall (fun l => Type_ l = AddLine /\ Text l <> []) adds ->
  exists rows, pair_rows dels adds = Ok rows /\
    rows ≫= row_before = dels ≫= line_before /\
    rows ≫= row_after = adds ≫= line_after.
Proof.
  assert (forall ls, Forall (fun l => Type_ l = DeleteLine /\ Text l <> []) ls ->
    Forall (fun l => Text l <> []) ls /\
    Forall (fun l => row_before (IDiffRowDeleted (mk_data OldLineNumber l)) = line_before l) ls)
    as Hdel.
  { intros ls Hls. split; (eapply Forall_impl; [exact Hls|]); intros l [Hl ?]; [done|].
    unfold line_before. by rewrite Hl. }
  assert (forall ls, Forall (fun l => Type_ l = AddLine /\ Text l <> []) ls ->
    Forall (fun l => Text l <> []) ls /\
    Forall (fun l => row_after (IDiffRowAdded (mk_data NewLineNumber l)) = line_after l) ls)
    as Hadd.
  { intros ls Hls. split; (eapply Forall_impl; [exact Hls|]); intros l [Hl ?]; [done|].
    unfold line_after. by rewrite Hl. }
  intros Hd. revert adds.
  induction Hd as [|d dels [Hd Hdt] Hds IH]; intros adds Ha.
  - destruct (Hadd adds Ha) as [H1 H2]. cbn [pair_rows]. rewrite mapR_rows by done.
    eexists. split; [done|]. cbn [app fmap list_fmap]. split.
    + by apply bind_none, Forall_fmap, Forall_true.
    + by apply bind_fmap_eq.
  - destruct Ha as [|a adds [Ha Hat] Has].
    + assert (Forall (fun l => Type_ l = DeleteLine /\ Text l <> []) (d :: dels)) as Hdd
        by by constructor.
      destruct (Hdel (d :: dels) Hdd) as [H1 H2].
      cbn [pair_rows]. rewrite !mapR_rows by done.
      eexists. split; [reflexivity|]. rewrite app_nil_r. split.
      * by apply bind_fmap_eq.
      * by apply bind_none, Forall_fmap, Forall_true.
    + destruct (IH adds Has) as (rows & E & Hb & Haf).
      exists (IDiffRowModified (mk_data OldLineNumber d) (mk_data NewLineNumber a) :: rows).
      cbn [pair_rows]. rewrite !row_data_ok by done. cbn [mbind res_bind].
      rewrite E. split; [done|].
      rewrite !list_bind_cons, Hb, Haf. unfold line_before at 2, line_after at 2. by rewrite Hd, Ha.
Qed.

(** An added or deleted line waiting to be paired. *)
Definition modified_line (l : GitDiffLine) : Prop :=
  (Type_ l = AddLine \/ Type_ l = DeleteLine) /\ Text l <> [].

Lemma bind_filter {A C} (P : A -> Prop) `{forall x, Decision (P x)} (f : A -> list C) ls :
  (forall x, x ∈ ls -> ~ P x -> f x = []) -> filter P ls ≫= f = ls ≫= f.
Proof.
  induction ls as [|x ls IH]; intros Hf; [done|]. rewrite filter_cons.
  assert (filter P ls ≫= f = ls ≫= f) as E by (apply IH; intros; apply Hf; [by right|done]).
  case_decide; rewrite !list_bind_cons, E; [done|]. rewrite (Hf x); [done|by left|done].
Qed.

Lemma flush_rows_ok mods :
  Forall modified_line mods -> exists rows, flush_rows mods = Ok rows /\ same_sides rows mods.
Proof.
  intros Hm. destruct mods as [|m mods]; [by exists []|].
  unfold flush_rows, getModifiedDiffRows. set (ms := m :: mods) in *.
  rewrite Forall_forall in Hm.
  destruct (pair_rows_ok (filter (is_type DeleteLine) ms) (filter (is_type AddLine) ms))
    as (rows & E & Hb & Ha).
  - apply Forall_forall. intros l [Ht Hl]%list_elem_of_filter. split; [done|by apply Hm].
  - apply Forall_forall. intros l [Ht Hl]%list_elem_of_filter. split; [done|by apply Hm].
  - exists rows. split; [done|]. unfold same_sides. rewrite Hb, Ha. unfold is_type.
    split; apply bind_filter; intros l Hl Ht; destruct (Hm l Hl) as [[Hty|Hty] _];
      unfold line_before, line_after; rewrite Hty in *; done.
Qed.

Lemma rows_step_ok i rows mods l ls0 :
  showable l -> Forall modified_line mods -> same_sides rows ls0 ->
  exists rows' mods' ls1, rows_step i (rows, mods) l = Ok (rows', mods') /\
    Forall modified_line mods' /\ same_sides rows' ls1 /\ ls1 ++ mods' = ls0 ++ mods ++ [l].
Proof.
  intros Hl Hm Hs. destruct (flush_rows_ok mods Hm) as (new & Hn & Hns).
  assert (forall r, line_before l = r ≫= row_before -> line_after l = r ≫= row_after ->
    same_sides ((rows ++ new) ++ r) (ls0 ++ mods ++ [l])) as Hadd.
  { intros r Hb Ha. rewrite (app_assoc ls0). apply same_sides_app; [by apply same_sides_app|].
    unfold same_sides. by rewrite !list_bind_cons, Hb, Ha, !app_nil_r. }
  unfold rows_step, line_before, line_after in *.
  destruct (Type_ l) eqn:Ht; rewrite ?Hn; cbn [mbind res_bind].
  1: rewrite content_ok by (destruct Hl as [Hl|]; [congruence|done]).
  2-3: eexists _, _, ls0; split_and!; [done| |done|done]; apply Forall_app; split; [done|];
    apply Forall_singleton; split; [by auto|]; by destruct Hl as [Hl|]; [congruence|].
  1-2: eexists _, [], (ls0 ++ mods ++ [l]); split_and!; [done|done| |by rewrite app_nil_r];
    by apply Hadd.
  all: eexists _, [], (ls0 ++ mods ++ [l]); split_and!; [done|done| |by rewrite app_nil_r].
  all: rewrite <- (app_nil_r (rows ++ new)); by apply Hadd.
Qed.

Lemma hunk_rows_ok h i :
  Forall showable (Lines h) ->
  exists rows, getDiffRowsFromHunk h i = Ok rows /\ same_sides rows (Lines h).
Proof.
  intros Hls. unfold getDiffRowsFromHunk.
  assert (forall ls rows mods ls0, Forall showable ls -> Forall modified_line mods ->
    same_sides rows ls0 -> exists rows' mods' ls1,
      foldM (rows_step i) ls (rows, mods) = Ok (rows', mods') /\
      Forall modified_line mods' /\ same_sides rows' ls1 /\ ls1 ++ mods' = ls0 ++ mods ++ ls)
    as Hfold.
  { induction ls as [|l ls IH]; intros rows mods ls0 Hs Hm Hsame.
    - exists rows, mods, ls0. rewrite app_nil_r. by split_and!.
    - apply Forall_cons in Hs as [Hl Hs].
      destruct (rows_step_ok i rows mods l ls0 Hl Hm Hsame) as (r & m & l1 & E & Hm1 & Hs1 & E1).
      destruct (IH r m l1 Hs Hm1 Hs1) as (r2 & m2 & l2 & E2 & Hm2 & Hs2 & E3).
      exists r2, m2, l2. cbn [foldM]. rewrite E. cbn [mbind res_bind]. split_and!; try done.
      rewrite E3, app_assoc, E1. by rewrite <- !app_assoc. }
  destruct (Hfold (Lines h) [] [] [] Hls ltac:(constructor) ltac:(done))
    as (rows & mods & ls1 & E & Hm & Hs & E1). rewrite E. cbn [mbind res_bind].
  destruct (flush_rows_ok mods Hm) as (new & -> & Hn). cbn [mbind res_bind].
  eexists. split; [done|]. simpl in E1. rewrite <- E1. by apply same_sides_app.
Qed.

Lemma rows_split_ok i hunks :
  Forall (fun h => Forall showable (Lines h)) hunks ->
  exists rows, rows_split i hunks = Ok rows /\ same_sides rows (hunks ≫= Lines).
Proof.
  intros Hh. revert i. induction Hh as [|h hunks Hh _ IH]; intros i; [by exists []|].
  destruct (hunk_rows_ok h i Hh) as (r & E & Hs). destruct (IH (i + 1)) as (rs & E2 & Hs2).
  exists (r ++ rs). cbn [rows_split]. rewrite E. cbn [mbind res_bind]. rewrite E2.
  split; [done|]. rewrite list_bind_cons. by apply same_sides_app.
Qed.

Lemma hunk_shape_showable ls : hunk_shape ls -> Forall showable ls.
Proof.
  intros (l0 & more & -> & H0 & Hm). constructor; [by left|].
  eapply Forall_impl; [exact Hm|]. intros l (_ & Ht & _). by right.
Qed.

(** C7: whatever the parser accepted can be shown side by side, without a
    panic, and nothing is lost or reordered: reading the left column of the
    rows gives the deleted and context lines of the diff in order with their
    old line numbers, and reading the right column the added and context lines
    with their new ones. *)
Theorem GetDiffRowsSplit_sides sc d :
  parseGitUnifiedDiff sc = Some (Ok (Some d)) ->
  exists rows, GetDiffRowsSplit d = Ok rows /\
    rows ≫= row_before = (Hunks d ≫= Lines) ≫= line_before /\
    rows ≫= row_after = (Hunks d ≫= Lines) ≫= line_after.
Proof.
  intros E. pose proof (parse_diff_spec sc) as H. rewrite E in H.
  destruct (rows_split_ok 0 (Hunks d)) as (rows & Hr & Hs).
  - eapply Forall_impl; [exact H|]. intros. by apply hunk_shape_showable.
  - by exists rows.
Qed.

(** A missing newline at the end of a file never reaches the rows: only
    the header line of a hunk can carry [NoTrailingNewline], never a line of
    the file. *)
Theorem parseGitUnifiedDiff_no_newline_flag sc d h l :
  parseGitUnifiedDiff sc = Some (Ok (Some d)) -> h ∈ Hunks d -> l ∈ Lines h ->
  Type_ l <> HunkLine -> NoTrailingNewline l = false.
Proof.
  intros E Hh Hl Ht. pose proof (parse_diff_spec sc) as H. rewrite E, Forall_forall in H.
  destruct (H h Hh) as (l0 & more & Hls & H0 & Hm). rewrite Hls in Hl.
  apply elem_of_cons in Hl as [->|Hl]; [done|].
  rewrite Forall_forall in Hm. by apply Hm.
Qed.

(** The parser panics when a hunk is followed by a line that is neither a
    line of the hunk nor a hunk header, and another non-empty line that is not
    a hunk header follows: the diff of a second file does this. *)
Theorem parseGitDiffHunk_second_file max h l1 l2 rest b e :
  wf_hunk h -> clean_hunk max h -> clean_line max l1 -> clean_line max l2 ->
  getDiffLineType l1 = UnknownLine -> is_match diffHeaderRe l1 = false -> l1 <> [] ->
  is_match diffHeaderRe l2 = false -> l2 <> [] ->
  exists hs', parseGitDiffHunk
    (mkHunkScanner (mkScanner max (hunk_lines h ++ l1 :: l2 :: rest) b e) None)
    = Ok (Some (parsed_hunk h), hs') /\ parseGitDiffHunk hs' = Panic.
Proof.
  intros Hwf Hc Hl1 Hl2 Ht1 Hm1 Hn1 Hm2 Hn2. apply Forall_cons in Hc as [Hch Hcb].
  destruct (parse_hunk_front max h (l1 :: l2 :: rest) b e Hwf Hch Hcb)
    as (f & b' & be & af & Hf & ->).
  destruct f as [|f]; [lia|]. cbn [hunk_loop]. rewrite Scan_clean by done. cbn [sc_bytes].
  rewrite Ht1, Hm1. destruct l1 as [|c l1]; [done|]. cbn [mbind res_bind].
  eexists. split; [done|]. unfold parseGitDiffHunk, hunk_start. cbn [nextHunkHeader input].
  rewrite Scan_clean by done. cbn [snd sc_bytes]. rewrite decide_False by done.
  unfold is_match in Hm2. apply bool_decide_eq_false in Hm2.
  unfold parseGitDiffHunkHeader. destruct (find diffHeaderRe l2); [|done].
  destruct Hm2. by eexists.
Qed.

(** * Witnesses *)
Definition sample_hunks : list dhunk :=
  [DHunk 1 (Some 2) 1 (Some 3) " f()"%str [DCtx "a"; DDel "b"; DAdd "c"; DAdd "d"]%str;
   DHunk 9 None 10 None []%str [DDel "x"; DNoEol; DAdd "y"; DNoEol]%str].

Definition sample_diff : str :=
  unlines (["diff --git a/f b/f"; "--- a/f"]%str ++ "+++ b/f"%str :: (sample_hunks ≫= hunk_lines)).

Lemma parseGitUnifiedDiff_print_witness :
  parseGitUnifiedDiff (newScanner 1000 sample_diff) =
  Some (Ok (Some (mkDiff (parsed_hunk <$> sample_hunks) false))).
Proof.
  apply (parseGitUnifiedDiff_print 1000 ["diff --git a/f b/f"; "--- a/f"]%str "+++ b/f"%str
           sample_hunks); by_decide.
Defined.

Lemma GetDiffRowsSplit_sides_witness :
  exists rows, GetDiffRowsSplit (mkDiff (parsed_hunk <$> sample_hunks) false) = Ok rows /\
    rows ≫= row_before = [("a", 1); ("b", 2); ("x", 9)]%str /\
    rows ≫= row_after = [("a", 1); ("c", 2); ("d", 3); ("y", 10)]%str.
Proof.
  apply (GetDiffRowsSplit_sides (newScanner 1000 sample_diff)). vm_compute. reflexivity.
Defined.

Lemma parseGitUnifiedDiff_no_newline_flag_witness :
  let h := parsed_hunk (DHunk 9 None 10 None []%str [DDel "x"; DNoEol; DAdd "y"; DNoEol]%str) in
  let l := mkLine "-x"%str DeleteLine 0 9 0 false in
  l ∈ Lines h /\ NoTrailingNewline l = false.
Proof.
  split; [by_decide|].
  apply (parseGitUnifiedDiff_no_newline_flag (newScanner 1000 sample_diff)
    (mkDiff (parsed_hunk <$> sample_hunks) false)
    (parsed_hunk (DHunk 9 None 10 None []%str [DDel "x"; DNoEol; DAdd "y"; DNoEol]%str)));
    [vm_compute; reflexivity|by_decide|by_decide|discriminate].
Defined.

Lemma parseGitDiffHunk_second_file_witness :
  exists hs', parseGitDiffHunk
    (mkHunkScanner (mkScanner 100 ["@@ -1 +1 @@"; "-a"; "+b"; "diff --git a/g b/g"; "index 1..2"]%str
       [] false) None)
    = Ok (Some (parsed_hunk (DHunk 1 None 1 None [] [DDel "a"; DAdd "b"]%str)), hs')
    /\ parseGitDiffHunk hs' = Panic.
Proof.
  apply (parseGitDiffHunk_second_file 100 (DHunk 1 None 1 None [] [DDel "a"; DAdd "b"]%str)
    "diff --git a/g b/g"%str "index 1..2"%str []); by_decide || reflexivity || discriminate.
Defined.
