(* ===== verification/GitLog.v ===== *)
(** * Commit logs: [server/fileviewer/fileview.go], from [customGitLogFormat]
      to [BuildSimpleGitLogData]

    [git log] is run with arguments built from the request ([genLogArgs]) and
    its output is cut into commits: at NUL bytes ([parseCommitLogOutput]) or
    with a regular expression ([BuildSimpleGitLogData]).  The process itself
    is the argument [git] of the builders: its arguments to its output. *)
From S2P Require Import Prelude GoStrings Config GoRegexp GoPath.

(** ** Data *)
(** [time.Unix(t, 0)] is the number of seconds [t]. *)
Record Signature := mkSig { sig_Name : str; sig_Email : str; sig_Date : Z }.

Record GitCommit := mkCommit {
  ID : str;
  Author : Signature;
  Committer : Signature;
  Subject : str;
  Body : str;
  Parents : list str;
  Files : list str;
}.
#[export] Instance Signature_eq_dec : EqDecision Signature.
Proof. solve_decision. Defined.
#[export] Instance GitCommit_eq_dec : EqDecision GitCommit.
Proof. solve_decision. Defined.

Record GitLog := mkLog { Commits : list GitCommit; MaybeLastPage : bool }.

(** [CommitId.Short] *)
Definition Short (c : str) : str :=
  if decide (7 <= length c)%nat then take 7 c else c.

Definition partsPerCommitBasic : nat := 10.
Definition partsPerCommitWithFileNames : nat := 11.

Inductive LogErr := ErrEntry | ErrAuthorTime | ErrCommitterTime | ErrSpec | ErrGit.
#[export] Instance LogErr_eq_dec : EqDecision LogErr.
Proof. solve_decision. Defined.

(** ** Parsing NUL-separated output *)
Definition parseTimeFromLogPart (part : str) : option Z := ParseInt 10 64 part.

(** The names and the beginning of the next commit that the last part holds. *)
Definition parseCommitFileNames (partsPerCommit : nat) (parts : list str) : list str * str :=
  if decide (partsPerCommit = partsPerCommitWithFileNames) then
    let fileNameParts := split LF (trim_prefix [LF] (default [] (parts !! 10%nat))) in
    (filter (.≠ []) (removelast fileNameParts), default [] (last fileNameParts))
  else ([], []).

(** Reads the next commit and returns the rest of the log. *)
Definition parseNextCommitFromLog (rawLog : str) (partsPerCommit : nat)
    : res LogErr (GitCommit * str) :=
  let parts := splitn NUL (S partsPerCommit) rawLog in
  if decide (length parts < partsPerCommit)%nat then Err ErrEntry
  else
    let part i := default [] (parts !! i) in
    let commitId := trim_prefix [LF] (part 0%nat) in
    authorTime ← or_err ErrAuthorTime (parseTimeFromLogPart (part 3%nat));
    committerTime ← or_err ErrCommitterTime (parseTimeFromLogPart (part 6%nat));
    let parentPart := part 9%nat in
    let parentCommits := if decide (parentPart = []) then [] else split " " parentPart in
    let '(fileNames, nextCommit) := parseCommitFileNames partsPerCommit parts in
    let commit := mkCommit commitId
      (mkSig (part 1%nat) (part 2%nat) authorTime)
      (mkSig (part 4%nat) (part 5%nat) committerTime)
      (part 7%nat) (part 8%nat) parentCommits fileNames in
    let rest :=
      match parts !! partsPerCommit with
      | Some rest => if decide (nextCommit = []) then rest else nextCommit ++ NUL :: rest
      | None => []
      end in
    Ok (commit, rest).

(** The loop [for len(rawLog) > 0]; [None] when the fuel runs out. *)
Fixpoint log_loop (fuel : nat) (partsPerCommit : nat) (rawLog : str)
    (commits : list GitCommit) : option (res LogErr (list GitCommit)) :=
  if decide (rawLog = []) then Some (Ok commits)
  else match fuel with
  | O => None
  | S fuel =>
      match parseNextCommitFromLog rawLog partsPerCommit with
      | Ok (commit, rawLog) => log_loop fuel partsPerCommit rawLog (commits ++ [commit])
      | Err e => Some (Err e)
      | Panic => Some Panic
      end
  end.

Definition parseCommitLogOutput (rawLog : str) (nameOnly : bool)
    : option (res LogErr (list GitCommit)) :=
  log_loop (length rawLog)
    (if nameOnly then partsPerCommitWithFileNames else partsPerCommitBasic) rawLog [].

(** ** Arguments *)
Record CommitOptions := mkOpts {
  Range : str;
  N : Z;
  SkipN : Z;
  Path : str;
  Follow : bool;
  NameOnly : bool;
}.

(** [true] where the code returns nil. *)
Definition ensureSafeSpecArg (spec : str) : bool := negb (has_prefix "-"%str spec).

Definition genLogArgs (opts : CommitOptions) (initialArgs : list str) : res LogErr (list str) :=
  if negb (ensureSafeSpecArg (Range opts)) then Err ErrSpec
  else Ok (initialArgs
    ++ (if decide (N opts = 0) then [] else ["-n"%str; Itoa (N opts)])
    ++ (if decide (SkipN opts = 0) then [] else ["--skip"%str; Itoa (SkipN opts)])
    ++ (if decide (Range opts = []) then [] else [Range opts])
    ++ (if NameOnly opts then ["--name-only"%str] else [])
    ++ (if Follow opts then ["--follow"%str] else [])
    ++ (if decide (Path opts = []) then [] else ["--"%str; Path opts])).

Definition logFormatWithoutRefs : str :=
  "--format=format:%H%x00%aN%x00%aE%x00%at%x00%cN%x00%cE%x00%ct%x00%s%x00%b%x00%P%x00"%str.

(** ** The regular expression of the simple log *)

(** [[^c]] repeated *)
Definition until (c : ascii) : re := RStar true (RChr (class_not (rune_is c))).
Definition RSpace : re := RChr class_s.

Definition gitLogRegex : re :=
  RSeq [RLit "commit"%str; RSpace; RGroup 1 (RStar true (RChr class_w)); RSpace;
        RLit "<"%str; RGroup 2 (RStar true (RChr class_w)); RLit ">"%str; RLit [LF];
        RLit "author"%str; RSpace; RLit "<"%str; RGroup 3 (until ">"); RLit ">"%str; RSpace;
        RLit "<"%str; RGroup 4 (until ">"); RLit ">"%str; RLit [LF];
        RLit "subject"%str; RSpace; RGroup 5 (until LF); RLit [LF];
        RLit "date"%str; RSpace; RGroup 6 (until LF); RLit [LF];
        RLit "body"%str; RSpace; RGroup 7 (RStar false (RChr class_any)); RLit [NUL]].

(** [Commit], with the fields the simple log sets. *)
Record Commit := mkSimple {
  Hash : str; ShortHash : str; AuthorName : str; AuthorEmail : str;
  SimpleSubject : str; Date : str; SimpleBody : str;
}.
#[export] Instance Commit_eq_dec : EqDecision Commit.
Proof. solve_decision. Defined.

Definition commit_of_match (m : mtch) : Commit :=
  mkSimple (group m 1) (group m 2) (group m 3) (group m 4) (group m 5) (group m 6) (group m 7).

Record breadCrumbEntry := mkCrumb { crumb_Name : str; crumb_Path : str }.

Definition viewUrl (repo path : str) (isDir : bool) : str :=
  "/delve/"%str ++ repo ++ "/"%str ++ (if isDir then "tree"%str else "blob"%str)
  ++ "/"%str ++ "HEAD/"%str ++ path.

Definition getFileUrl (repo pathFromRoot name commitHash : str) (isDir useViewUrl : bool) : str :=
  let fullPath := Join [pathFromRoot; Clean name] in
  if useViewUrl then viewUrl repo fullPath isDir ++ (if isDir then "/"%str else [])
  else "/"%str ++ repo ++ "/+/"%str ++ commitHash ++ ":"%str ++ fullPath.

Definition getPathSegments (pathSplits : list str) (repo : RepoConfig) : list breadCrumbEntry :=
  imap (fun i name =>
    let parentPath := Clean (join "/"%str (take i pathSplits)) in
    mkCrumb name (getFileUrl (repo_Name repo) parentPath name [] true false)) pathSplits.

Record SimpleGitLog := mkSimpleLog {
  simple_Commits : list Commit;
  simple_MaybeLastPage : bool;
  IsPaginationReq : bool;
  NextParent : str;
  simple_Repo : RepoConfig;
  simple_PathSegments : list breadCrumbEntry;
  simple_Path : str;
}.

Definition customGitLogFormat : str :=
  "format:commit %H <%h>%nauthor <%an> <%ae>%nsubject %s%ndate %ah%nbody %b"%str.

Definition simpleLogArgs (repoPath firstParent cleanPath : str) : list str :=
  ["-C"%str; repoPath; "log"%str; "-n"%str; "1000"%str; "-z"%str; "--no-abbrev"%str;
   "--pretty="%str ++ customGitLogFormat; firstParent; "--"%str; cleanPath].

Section git.
(** [exec.Command("git", args...).Output()]: the output, or a failure. *)
Context (git : list str -> option str).

Definition BuildGitLog (logArgs : CommitOptions) (repoPath : str)
    : option (res LogErr GitLog) :=
  match genLogArgs logArgs ["-C"%str; repoPath; "log"%str; logFormatWithoutRefs] with
  | Ok args =>
      match git args with
      | None => Some (Err ErrGit)
      | Some out =>
          r ← parseCommitLogOutput out (NameOnly logArgs);
          Some (commits ← r;
                Ok (mkLog commits (Z.of_nat (length commits) <? int64 (N logArgs))))
      end
  | Err e => Some (Err e)
  | Panic => Some Panic
  end.

Definition BuildSimpleGitLogData (relativePath firstParent : str) (repo : RepoConfig)
    : res LogErr SimpleGitLog :=
  let cleanPath := Clean relativePath in
  out ← or_err ErrGit (git (simpleLogArgs (repo_Path repo) firstParent cleanPath));
  let commits := commit_of_match <$> find_all gitLogRegex out in
  Ok (mkSimpleLog commits
        (Z.of_nat (length commits) <? 1000)
        (negb (bool_decide (firstParent = "HEAD"%str)))
        (default [] (Hash <$> last commits))
        repo (getPathSegments (split "/" cleanPath) repo) cleanPath).
End git.
