(* ===== verification/GitLogSpec.v ===== *)
(** * Commit logs: what the parsers promise *)
From S2P Require Import Prelude GoStrings Config GoRegexp GoPath GitLog.

(** * The text git prints *)
Definition fields (c : GitCommit) : list str :=
  [ID c; sig_Name (Author c); sig_Email (Author c); Itoa (sig_Date (Author c));
   sig_Name (Committer c); sig_Email (Committer c); Itoa (sig_Date (Committer c));
   Subject c; Body c; join " "%str (Parents c)].

(** Every field ends in NUL. *)
Definition nul_fields (l : list str) (rest : str) : str := foldr (fun w s => w ++ NUL :: s) rest l.

(** The names [--name-only] adds. *)
Definition names_text (files : list str) : str :=
  match files with [] => [] | _ => LF :: (files ≫= fun f => f ++ [LF]) end.

Definition entry_text (nameOnly : bool) (c : GitCommit) : str :=
  nul_fields (fields c) (if nameOnly then names_text (Files c) else []).

(** [git log --format=format:...]: the entries are separated by newlines. *)
Definition log_text (nameOnly : bool) (cs : list GitCommit) : str :=
  join [LF] (entry_text nameOnly <$> cs).

Definition wf_commit (nameOnly : bool) (c : GitCommit) : Prop :=
  Forall (fun w => NUL ∉ w) (fields c) /\
  ID c <> [] /\ (LF ∉ ID c) /\
  in_signed 64 (sig_Date (Author c)) /\ in_signed 64 (sig_Date (Committer c)) /\
  Forall (fun p => p <> [] /\ (" "%char ∉ p)) (Parents c) /\
  Forall (fun f => f <> [] /\ (LF ∉ f) /\ (NUL ∉ f)) (Files c) /\
  (nameOnly = false -> Files c = []).
#[export] Instance wf_commit_dec b c : Decision (wf_commit b c).
Proof. unfold wf_commit. apply _. Defined.

(** * Parsing one entry *)
Lemma nul_fields_app l rest s : nul_fields l rest ++ s = nul_fields l (rest ++ s).
Proof.
  unfold nul_fields. induction l as [|w l IH]; [done|]. simpl.
  by rewrite <- app_assoc, <- app_comm_cons, IH.
Qed.

Lemma trim_lf pre s : pre = [] \/ pre = [LF] -> head s <> Some LF -> trim_prefix [LF] (pre ++ s) = s.
Proof.
  intros [->| ->] Hs; simpl.
  - destruct s as [|a s]; [done|]. apply trim_prefix_cons_ne. naive_solver.
  - by apply (trim_prefix_app [LF]).
Qed.

Lemma trim_lf1 s : trim_prefix [LF] (LF :: s) = s.
Proof. by apply (trim_prefix_app [LF]). Qed.

Lemma head_not_in (c : ascii) s : c ∉ s -> head s <> Some c.
Proof. destruct s as [|a s]; [done|]. intros H [= ->]. apply H. by left. Qed.

Lemma parents_text ps :
  Forall (fun p => p <> [] /\ (" "%char ∉ p)) ps ->
  (if decide (join " "%str ps = []) then [] else split " " (join " "%str ps)) = ps.
Proof.
  intros Hps. destruct ps as [|p ps]; [done|].
  rewrite decide_False.
  - apply split_join; [done|]. eapply Forall_impl; [exact Hps|]. by intros x [_ ?].
  - apply Forall_cons in Hps as [[Hp _] _]. rewrite join_cons. by destruct p.
Qed.

(** What follows the names of an entry: nothing, or the next entry. *)
Definition names_part (files : list str) (next : str) : str :=
  names_text files ++ match next with [] => [] | _ => LF :: next end.

Lemma file_names_ok files next :
  Forall (fun f => f <> [] /\ (LF ∉ f) /\ (NUL ∉ f)) files -> LF ∉ next ->
  let parts := split LF (trim_prefix [LF] (names_part files next)) in
  filter (.≠ []) (removelast parts) = files /\ default [] (last parts) = next.
Proof.
  intros Hf Hn. simpl. unfold names_part, names_text.
  assert (Forall (fun f => LF ∉ f) files) as Hlf
    by (eapply Forall_impl; [exact Hf|]; by intros f (_&?&_)).
  assert (filter (.≠ []) files = files) as Hfil.
  { clear -Hf. induction Hf as [|f fs [Hf _] _ IH]; [done|]. rewrite filter_cons_True by done.
    by f_equal. }
  destruct files as [|f files].
  - destruct next as [|a next]; [done|]. cbn [app].
    by rewrite trim_lf1, split_nosep.
  - set (fs := f :: files) in *. rewrite <- app_comm_cons, trim_lf1.
    rewrite split_terminated by done.
    destruct next as [|a next].
    + cbn [split]. rewrite removelast_last, last_snoc. by rewrite Hfil.
    + change (LF :: a :: next) with ([] ++ LF :: (a :: next)).
      rewrite split_app_sep by (by apply not_elem_of_nil).
      rewrite (split_nosep LF (a :: next)) by done.
      change [ []; a :: next ] with ([ [] ] ++ [a :: next]). rewrite app_assoc.
      rewrite removelast_last, last_snoc, filter_app, Hfil. by rewrite app_nil_r.
Qed.

Lemma splitn_more l n rest :
  Forall (fun w => NUL ∉ w) l ->
  splitn NUL (length l + S n) (nul_fields l rest) = l ++ splitn NUL (S n) rest.
Proof.
  induction 1 as [|w l Hw _ IH]; [done|]. cbn [length Nat.add nul_fields foldr].
  fold (nul_fields l rest). replace (length l + S n)%nat with (S (length l + n)) in * by lia.
  rewrite splitn_cut by done. by rewrite IH.
Qed.

Lemma splitn_entry n pre c rest :
  pre = [] \/ pre = [LF] -> Forall (fun w => NUL ∉ w) (fields c) ->
  splitn NUL (10 + S n) (pre ++ nul_fields (fields c) rest) =
  ((pre ++ ID c) :: tail (fields c)) ++ splitn NUL (S n) rest.
Proof.
  intros Hpre Hf.
  assert (pre ++ nul_fields (fields c) rest =
    nul_fields ((pre ++ ID c) :: tail (fields c)) rest) as ->.
  { cbn [fields nul_fields foldr tail]. by rewrite <- app_assoc. }
  apply (splitn_more ((pre ++ ID c) :: tail (fields c))).
  apply Forall_cons in Hf as [H1 Hf]. constructor; [|done].
  rewrite elem_of_app. intros [Hin|]; [|done]. destruct Hpre as [->| ->].
  - by apply elem_of_nil in Hin.
  - apply list_elem_of_singleton in Hin. by vm_compute in Hin.
Qed.

(** The fixed fields, whatever follows them. *)
Lemma parse_parts b raw p pre c l :
  pre = [] \/ pre = [LF] -> wf_commit b c -> (p <= 10 + length l)%nat ->
  splitn NUL (S p) raw = ((pre ++ ID c) :: tail (fields c)) ++ l ->
  parseNextCommitFromLog raw p =
  let '(names, next) := parseCommitFileNames p (((pre ++ ID c) :: tail (fields c)) ++ l) in
  Ok (mkCommit (ID c) (Author c) (Committer c) (Subject c) (Body c) (Parents c) names,
      match (((pre ++ ID c) :: tail (fields c)) ++ l) !! p with
      | Some rest => if decide (next = []) then rest else next ++ NUL :: rest
      | None => []
      end).
Proof.
  intros Hpre (Hf & Hid & Hlf & Ha & Hc & Hps & _ & _) Hlen E.
  unfold parseNextCommitFromLog. rewrite E. rewrite decide_False.
  2: { rewrite length_app. simpl. lia. }
  cbn [lookup list_lookup app tail fields default from_option id].
  unfold parseTimeFromLogPart. rewrite !ParseInt_Itoa by done. cbn [or_err mbind res_bind].
  rewrite (trim_lf pre (ID c)) by (try done; by apply head_not_in).
  rewrite parents_text by done.
  destruct (parseCommitFileNames _ _) as [names next].
  by destruct c as [? [] [] ? ? ? ?].
Qed.

Lemma names_part_no_nul c files next :
  Forall (fun f => f <> [] /\ (LF ∉ f) /\ (NUL ∉ f)) files -> NUL ∉ next ->
  c = NUL -> c ∉ names_part files next.
Proof.
  intros Hfiles Hn -> Hin. unfold names_part, names_text in Hin.
  apply elem_of_app in Hin as [Hin|Hin].
  - destruct files as [|f fs]; [by apply elem_of_nil in Hin|].
    apply elem_of_cons in Hin as [Hin|Hin]; [by vm_compute in Hin|].
    apply list_elem_of_bind in Hin as (f' & Hin & Hf').
    rewrite Forall_forall in Hfiles. destruct (Hfiles f' Hf') as (_ & _ & Hnul).
    apply elem_of_app in Hin as [|Hin]; [done|].
    apply list_elem_of_singleton in Hin. by vm_compute in Hin.
  - destruct next; [by apply elem_of_nil in Hin|].
    apply elem_of_cons in Hin as [Hin|]; [by vm_compute in Hin|done].
Qed.

Lemma parse_basic pre c rest :
  pre = [] \/ pre = [LF] -> wf_commit false c ->
  parseNextCommitFromLog (pre ++ nul_fields (fields c) rest) partsPerCommitBasic = Ok (c, rest).
Proof.
  intros Hpre Hwf. pose proof Hwf as (Hf & _ & _ & _ & _ & _ & _ & Hfiles).
  rewrite (parse_parts false _ _ pre c [rest]); [|done|done|by apply Nat.leb_le|by apply (splitn_entry 0)].
  unfold parseCommitFileNames. rewrite decide_False by done.
  cbn [lookup list_lookup app tail fields partsPerCommitBasic].
  rewrite decide_True by done. rewrite <- (Hfiles eq_refl) at 1. by destruct c.
Qed.

Lemma parse_named_last pre c :
  pre = [] \/ pre = [LF] -> wf_commit true c ->
  parseNextCommitFromLog (pre ++ nul_fields (fields c) (names_part (Files c) []))
    partsPerCommitWithFileNames = Ok (c, []).
Proof.
  intros Hpre Hwf. pose proof Hwf as (Hf & _ & _ & _ & _ & _ & Hfiles & _).
  rewrite (parse_parts true _ _ pre c [names_part (Files c) []]); [|done|done|by apply Nat.leb_le|].
  2: { etransitivity; [by apply (splitn_entry 1)|]. rewrite splitn_last; [done|].
       apply (names_part_no_nul NUL); [done|by apply not_elem_of_nil|done]. }
  unfold parseCommitFileNames. rewrite decide_True by done.
  cbn [lookup list_lookup app tail fields partsPerCommitWithFileNames].
  match goal with |- context [default [] (Some ?x)] => change (default [] (Some x)) with x end.
  destruct (file_names_ok (Files c) [] Hfiles) as [-> _]; [by apply not_elem_of_nil|].
  by destruct c.
Qed.

Lemma parse_named_more pre c next rest :
  pre = [] \/ pre = [LF] -> wf_commit true c -> next <> [] -> LF ∉ next -> NUL ∉ next ->
  parseNextCommitFromLog (pre ++ nul_fields (fields c) (names_part (Files c) next ++ NUL :: rest))
    partsPerCommitWithFileNames = Ok (c, next ++ NUL :: rest).
Proof.
  intros Hpre Hwf Hne Hn1 Hn2. pose proof Hwf as (Hf & _ & _ & _ & _ & _ & Hfiles & _).
  rewrite (parse_parts true _ _ pre c [names_part (Files c) next; rest]); [|done|done|by apply Nat.leb_le|].
  2: { etransitivity; [by apply (splitn_entry 1)|]. rewrite splitn_cut; [done|].
       by apply (names_part_no_nul NUL). }
  unfold parseCommitFileNames. rewrite decide_True by done.
  cbn [lookup list_lookup app tail fields partsPerCommitWithFileNames].
  match goal with |- context [default [] (Some ?x)] => change (default [] (Some x)) with x end.
  destruct (file_names_ok (Files c) next Hfiles) as [-> ->]; [done|].
  rewrite decide_False by done. by destruct c.
Qed.

(** * Parsing a whole log *)
Lemma length_nul_fields l rest : (length rest + length l <= length (nul_fields l rest))%nat.
Proof. induction l as [|w l IH]; simpl; [lia|]. rewrite length_app. simpl. lia. Qed.

Lemma nul_fields_not_nil pre c rest : pre ++ nul_fields (fields c) rest <> [].
Proof.
  intros E%(f_equal length). rewrite length_app in E.
  pose proof (length_nul_fields (fields c) rest). simpl in *. lia.
Qed.

Lemma log_loop_step fuel p raw acc c rest :
  raw <> [] -> parseNextCommitFromLog raw p = Ok (c, rest) ->
  log_loop (S fuel) p raw acc = log_loop fuel p rest (acc ++ [c]).
Proof. intros Hne E. cbn [log_loop]. by rewrite decide_False, E. Qed.

Lemma log_loop_nil fuel p acc : log_loop fuel p [] acc = Some (Ok acc).
Proof. by destruct fuel. Qed.

Lemma log_loop_basic cs fuel acc :
  Forall (wf_commit false) cs ->
  let raw := (entry_text false <$> cs) ≫= fun w => LF :: w in
  (length raw <= fuel)%nat ->
  log_loop fuel partsPerCommitBasic raw acc = Some (Ok (acc ++ cs)).
Proof.
  intros Hcs. revert fuel acc. induction Hcs as [|c cs Hc _ IH]; intros fuel acc raw Hf.
  { rewrite app_nil_r. apply log_loop_nil. }
  subst raw. set (tl := (entry_text false <$> cs) ≫= fun w => LF :: w) in *.
  assert ((entry_text false <$> c :: cs) ≫= (fun w => LF :: w) =
    [LF] ++ nul_fields (fields c) tl) as E.
  { rewrite fmap_cons, list_bind_cons. unfold entry_text at 1. cbn [app].
    by rewrite nul_fields_app. }
  rewrite E in *. pose proof (length_nul_fields (fields c) tl) as Hlen.
  rewrite length_app in Hf. cbn [length fields] in *.
  destruct fuel as [|fuel]; [lia|].
  rewrite (log_loop_step _ _ _ _ c tl).
  - rewrite IH by lia. by rewrite <- app_assoc.
  - apply nul_fields_not_nil.
  - apply parse_basic; [by right|done].
Qed.

Lemma log_text_basic c cs :
  log_text false (c :: cs) =
  nul_fields (fields c) ((entry_text false <$> cs) ≫= fun w => LF :: w).
Proof. unfold log_text. rewrite fmap_cons, join_cons. unfold entry_text at 1. by rewrite nul_fields_app. Qed.

Lemma log_text_named_cons c c' cs :
  wf_commit true c' ->
  exists rest, log_text true (c' :: cs) = ID c' ++ NUL :: rest /\
  log_text true (c :: c' :: cs) =
  nul_fields (fields c) (names_part (Files c) (ID c') ++ NUL :: rest).
Proof.
  intros (_ & Hid & _).
  assert (exists rest, log_text true (c' :: cs) = ID c' ++ NUL :: rest) as [rest E].
  { unfold log_text. rewrite fmap_cons, join_cons. unfold entry_text at 1.
    rewrite nul_fields_app. by eexists. }
  exists rest. split; [done|].
  assert (log_text true (c :: c' :: cs) = entry_text true c ++ LF :: log_text true (c' :: cs)) as ->.
  { done. }
  rewrite E. unfold entry_text. rewrite nul_fields_app. f_equal. unfold names_part.
  destruct (ID c') as [|a i]; [done|]. by rewrite <- app_assoc.
Qed.

Lemma log_loop_named cs c fuel acc :
  Forall (wf_commit true) (c :: cs) ->
  (length (log_text true (c :: cs)) <= fuel)%nat ->
  log_loop fuel partsPerCommitWithFileNames (log_text true (c :: cs)) acc =
  Some (Ok (acc ++ c :: cs)).
Proof.
  revert c fuel acc. induction cs as [|c' cs IH]; intros c fuel acc [Hc Hcs]%Forall_cons Hf.
  - assert (log_text true [c] = nul_fields (fields c) (names_part (Files c) [])) as E.
    { unfold names_part. by rewrite app_nil_r. }
    rewrite E in *.
    pose proof (length_nul_fields (fields c) (names_part (Files c) [])) as Hlen.
    cbn [length fields] in Hlen. destruct fuel as [|fuel]; [lia|].
    rewrite (log_loop_step _ _ _ _ c []).
    + apply log_loop_nil.
    + apply (nul_fields_not_nil []).
    + apply (parse_named_last []); [by left|done].
  - pose proof Hcs as [Hc' _]%Forall_cons. pose proof Hc' as (_ & Hid & Hlf & _).
    pose proof Hc' as (Hnul & _). apply Forall_cons in Hnul as [Hnul _].
    destruct (log_text_named_cons c c' cs Hc') as (rest & E1 & E2). rewrite E2 in *.
    set (np := names_part (Files c) (ID c') ++ NUL :: rest) in *.
    pose proof (length_nul_fields (fields c) np) as Hlen. cbn [length fields] in Hlen.
    assert (length (ID c' ++ NUL :: rest) <= length np)%nat as Hnp.
    { unfold np, names_part. rewrite !length_app. destruct (ID c'); simpl; lia. }
    destruct fuel as [|fuel]; [lia|].
    rewrite (log_loop_step _ _ _ _ c (ID c' ++ NUL :: rest)).
    + rewrite <- E1 in *. rewrite IH by (done || lia). by rewrite <- app_assoc.
    + apply (nul_fields_not_nil []).
    + apply (parse_named_more []); [by left|done..].
Qed.

(** C4: the output of [git log] in the server's format, with or without the
    names of the changed files, is parsed back to the commits it was printed
    from: every field, the parents, and the list of names of each commit, for
    any number of commits. *)
Theorem parseCommitLogOutput_print nameOnly cs :
  Forall (wf_commit nameOnly) cs ->
  parseCommitLogOutput (log_text nameOnly cs) nameOnly = Some (Ok cs).
Proof.
  intros Hcs. unfold parseCommitLogOutput. destruct cs as [|c cs]; [by destruct nameOnly|].
  destruct nameOnly; [by apply log_loop_named|].
  pose proof Hcs as [Hc Hcs']%Forall_cons. rewrite log_text_basic.
  set (tl := (entry_text false <$> cs) ≫= fun w => LF :: w).
  pose proof (length_nul_fields (fields c) tl) as Hlen. cbn [length fields] in Hlen.
  destruct (length (nul_fields (fields c) tl)) as [|fuel]; [lia|].
  rewrite (log_loop_step _ _ _ _ c tl).
  - unfold tl. rewrite log_loop_basic; [done|done|fold tl; lia].
  - apply (nul_fields_not_nil []).
  - apply (parse_basic []); [by left|done].
Qed.

(** * Every output *)
Lemma parse_next_shorter raw p c rest :
  p = partsPerCommitBasic \/ p = partsPerCommitWithFileNames ->
  parseNextCommitFromLog raw p = Ok (c, rest) -> raw <> [] -> (length rest < length raw)%nat.
Proof.
  intros Hp H Hne. unfold parseNextCommitFromLog in H. cbv zeta in H.
  pose proof (f_equal length (join_splitn NUL p raw)) as Hlen. rewrite length_join in Hlen.
  set (parts := splitn NUL (S p) raw) in *.
  destruct (decide (length parts < p)%nat) as [|Hge]; [done|].
  match type of H with context [or_err ErrAuthorTime ?t] => destruct t end;
    cbn [or_err mbind res_bind] in H; [|discriminate H].
  match type of H with context [or_err ErrCommitterTime ?t] => destruct t end;
    cbn [or_err mbind res_bind] in H; [|discriminate H].
  cbn [or_err mbind res_bind] in H.
  assert (length (parseCommitFileNames p parts).2 <=
    if decide (p = partsPerCommitWithFileNames) then length (default [] (parts !! 10%nat)) else 0)%nat
    as Hnext.
  { unfold parseCommitFileNames. destruct (decide (p = partsPerCommitWithFileNames)); [|simpl; lia]. cbn [snd].
    etransitivity; [apply length_last_split|]. apply length_trim_prefix. }
  destruct (parseCommitFileNames p parts) as [names next]. cbn [snd] in Hnext.
  injection H as _ Hrest.
  destruct (parts !! p) as [r|] eqn:Er.
  2: { subst rest. destruct raw; [done|]. simpl. lia. }
  apply list_elem_of_split_length in Er as (pre & post & Hparts & Hpre).
  rewrite Hparts in Hlen, Hnext. rewrite sum_list_with_app, length_app in Hlen.
  cbn [sum_list_with length] in Hlen.
  assert (length next <= sum_list_with length pre)%nat.
  { case_decide as Hc; [|lia]. rewrite lookup_app_l in Hnext.
    2: { rewrite <- Hpre, Hc. by apply Nat.ltb_lt. }
    destruct (pre !! 10%nat) as [x|] eqn:Ex; simpl in Hnext; [|lia].
    apply list_elem_of_lookup_2, (sum_list_with_in _ length) in Ex. lia. }
  assert (10 <= p)%nat by (destruct Hp; subst p; by apply Nat.leb_le).
  destruct (decide (next = [])); subst rest; rewrite ?length_app; simpl; lia.
Qed.

Lemma log_loop_total p fuel raw acc :
  p = partsPerCommitBasic \/ p = partsPerCommitWithFileNames ->
  (length raw <= fuel)%nat ->
  exists r, log_loop fuel p raw acc = Some r /\ r <> Panic.
Proof.
  intros Hp. revert raw acc. induction fuel as [|fuel IH]; intros raw acc Hf; cbn [log_loop].
  - destruct raw; [by eexists|simpl in Hf; lia].
  - destruct (decide (raw = [])) as [|Hne]; [by eexists|].
    destruct (parseNextCommitFromLog raw p) as [[c rest]|e|] eqn:E; [|by eexists|].
    + apply IH. apply parse_next_shorter in E; [lia|done|done].
    + exfalso. clear -E. unfold parseNextCommitFromLog in E. cbv zeta in E.
      destruct (decide _); [done|].
      match type of E with context [or_err ErrAuthorTime ?t] => destruct t end;
    cbn [or_err mbind res_bind] in E; [|discriminate E].
  match type of E with context [or_err ErrCommitterTime ?t] => destruct t end;
    cbn [or_err mbind res_bind] in E; [|discriminate E].
      by destruct (parseCommitFileNames _ _).
Qed.

(** Parsing a log ends on every output, well-formed or not, with commits or
    with an error: each entry consumes input, and no part is indexed out of
    range. *)
Theorem parseCommitLogOutput_total raw nameOnly :
  exists r, parseCommitLogOutput raw nameOnly = Some r /\ r <> Panic.
Proof.
  apply log_loop_total; [destruct nameOnly; by auto|lia].
Qed.

(** * Arguments *)
Lemma Itoa_no_dash n : 0 <= n -> has_prefix "-"%str (Itoa n) = false.
Proof.
  intros Hn. unfold Itoa. rewrite (proj2 (Z.ltb_ge n 0)) by lia.
  pose proof (uitoa_digits n Hn) as Hd. destruct (uitoa n) as [|c s]; [done|].
  simpl in Hd. apply andb_true_iff in Hd as [Hc _].
  apply has_prefix_cons_ne. intros <-. by vm_compute in Hc.
Qed.

(** C39: [genLogArgs] cannot be made to pass an option to git: a range that
    begins with a dash is refused, and otherwise the only arguments beginning
    with a dash in front of the [--] are the four the server itself uses; the
    path comes after [--]. *)
Theorem genLogArgs_safe opts initialArgs :
  0 <= N opts -> 0 <= SkipN opts ->
  (has_prefix "-"%str (Range opts) = true -> genLogArgs opts initialArgs = Err ErrSpec) /\
  (has_prefix "-"%str (Range opts) = false ->
   exists mid, genLogArgs opts initialArgs = Ok (initialArgs ++ mid
       ++ if decide (Path opts = []) then [] else ["--"%str; Path opts]) /\
     (Range opts <> [] -> Range opts ∈ mid) /\
     Forall (fun a => has_prefix "-"%str a = true ->
       a ∈ ["-n"; "--skip"; "--name-only"; "--follow"]%str) mid).
Proof.
  intros Hn Hs. unfold genLogArgs, ensureSafeSpecArg.
  split; intros Hr; rewrite Hr; cbn [negb]; [done|].
  eexists ((if decide (N opts = 0) then [] else ["-n"%str; Itoa (N opts)])
    ++ (if decide (SkipN opts = 0) then [] else ["--skip"%str; Itoa (SkipN opts)])
    ++ (if decide (Range opts = []) then [] else [Range opts])
    ++ (if NameOnly opts then ["--name-only"%str] else [])
    ++ (if Follow opts then ["--follow"%str] else [])).
  split_and!.
  - by rewrite <- !app_assoc.
  - intros Hne. rewrite (decide_False (P := Range opts = [])) by done.
    rewrite !elem_of_app. right; right; left. by left.
  - rewrite !Forall_app. split_and!; try case_decide; try case_match;
      try (by constructor); rewrite ?Forall_cons, ?Forall_nil, ?Itoa_no_dash, ?Hr by done;
      split_and!; try done; intros _; by_decide.
Qed.

(** * The simple log *)
Definition simple_text (c : Commit) : str :=
  "commit"%str ++ " "%char :: Hash c ++ " "%char :: "<"%str ++ ShortHash c ++ ">"%str ++ [LF]
  ++ "author"%str ++ " "%char :: "<"%str ++ AuthorName c ++ ">"%str ++ " "%char :: "<"%str
  ++ AuthorEmail c ++ ">"%str ++ [LF] ++ "subject"%str ++ " "%char :: SimpleSubject c ++ [LF]
  ++ "date"%str ++ " "%char :: Date c ++ [LF] ++ "body"%str ++ " "%char :: SimpleBody c.

Definition word_char (c : ascii) : bool := is_ascii c && class_w (byte_val c).

Definition wf_simple (c : Commit) : Prop :=
  (Forall (fun x => word_char x = true) (Hash c) /\
   Forall (fun x => word_char x = true) (ShortHash c)) /\
  (">"%char ∉ AuthorName c) /\ (">"%char ∉ AuthorEmail c) /\
  (LF ∉ SimpleSubject c) /\ (LF ∉ Date c) /\ (NUL ∉ simple_text c).
#[export] Instance wf_simple_dec c : Decision (wf_simple c).
Proof. unfold wf_simple. apply _. Defined.

Lemma spans_not c s : is_ascii c = true -> c ∉ s -> Forall (spans (class_not (rune_is c))) s.
Proof.
  intros Hc Hs. apply Forall_forall. intros x Hx. unfold spans, class_not, rune_is.
  destruct (is_ascii x) eqn:Ha.
  - destruct (byte_val x =? byte_val c) eqn:E; [|done].
    by apply Z.eqb_eq, byte_val_inj in E as ->.
  - intros r Hr. apply Z.ltb_lt in Hc. by rewrite (proj2 (Z.eqb_neq _ _)) by lia.
Qed.

Lemma spans_word s : Forall (fun x => word_char x = true) s -> Forall (spans class_w) s.
Proof.
  intros H. eapply Forall_impl; [exact H|].
  intros x [Ha Hw]%andb_true_iff. unfold spans. by rewrite Ha.
Qed.

Lemma match_simple n0 c rest :
  wf_simple c ->
  exists m, match_at n0 gitLogRegex (simple_text c ++ NUL :: rest) = Some m /\
    m_start m = simple_text c ++ NUL :: rest /\ m_end m = rest /\ commit_of_match m = c.
Proof.
  intros ((Hh & Hs) & Hn & He & Hsub & Hd & Hnul).
  assert (NUL ∉ SimpleBody c) as Hb.
  { intros Hin. apply Hnul. unfold simple_text.
    repeat first [rewrite elem_of_app; right|apply elem_of_cons; right]. done. }
  apply spans_word in Hh, Hs. apply spans_not in Hn, He, Hsub, Hd; [|done..].
  assert (simple_text c ++ NUL :: rest =
    "commit"%str ++ " "%char :: Hash c ++ " "%char :: "<"%str ++ ShortHash c ++ ">"%str ++ [LF]
    ++ "author"%str ++ " "%char :: "<"%str ++ AuthorName c ++ ">"%str ++ " "%char :: "<"%str
    ++ AuthorEmail c ++ ">"%str ++ [LF] ++ "subject"%str ++ " "%char :: SimpleSubject c ++ [LF]
    ++ "date"%str ++ " "%char :: Date c ++ [LF] ++ "body"%str ++ " "%char :: SimpleBody c
    ++ NUL :: rest) as E.
  { unfold simple_text. repeat (rewrite <- app_assoc; cbn [app]). done. }
  eexists (Mtch _ rest _). split.
  - unfold match_at, gitLogRegex. cbn [RSeq foldr]. rewrite E.
    rewrite mt_cat, mt_lit_app by done.
    rewrite mt_cat. unfold RSpace. rewrite mt_class_ascii by done.
    rewrite mt_cat, mt_group. apply mt_star_class; [done|done|].
    rewrite mt_cat, mt_class_ascii by done. rewrite mt_cat, mt_lit_app by done.
    rewrite mt_cat, mt_group. apply mt_star_class; [done|done|].
    do 3 rewrite mt_cat, mt_lit_app by done.
    rewrite mt_cat, mt_class_ascii by done. rewrite mt_cat, mt_lit_app by done.
    rewrite mt_cat, mt_group. apply mt_star_class; [done|done|].
    rewrite mt_cat, mt_lit_app by done. rewrite mt_cat, mt_class_ascii by done.
    rewrite mt_cat, mt_lit_app by done.
    rewrite mt_cat, mt_group. apply mt_star_class; [done|done|].
    do 3 rewrite mt_cat, mt_lit_app by done. rewrite mt_cat, mt_class_ascii by done.
    rewrite mt_cat, mt_group. apply mt_star_class; [done|done|].
    do 2 rewrite mt_cat, mt_lit_app by done. rewrite mt_cat, mt_class_ascii by done.
    rewrite mt_cat, mt_group. apply mt_star_class; [done|done|].
    do 2 rewrite mt_cat, mt_lit_app by done. rewrite mt_cat, mt_class_ascii by done.
    rewrite mt_cat, mt_group. apply mt_lazy_until; [done|done| |reflexivity|].
    + apply Forall_forall. intros x _. unfold spans. by case_match.
    + intros a t Ha. rewrite mt_cat, mt_lit by done. by rewrite has_prefix_cons_ne by done.
  - split_and!; [done|done|]. unfold commit_of_match, group, group_opt. simpl.
    destruct c; simpl. f_equal; apply upto_app.
Qed.

Definition terminated (cs : list Commit) (rest : str) : str :=
  (cs ≫= fun c => simple_text c ++ [NUL]) ++ rest.

Lemma no_commit_without_nul fuel n0 rest :
  NUL ∉ rest -> search fuel n0 gitLogRegex rest = None.
Proof.
  intros Hr. apply search_none. intros p s' s'' -> Hl. apply Hr.
  apply (lang_seq_last n0 (removelast [RLit "commit"%str; RSpace;
        RGroup 1 (RStar true (RChr class_w)); RSpace;
        RLit "<"%str; RGroup 2 (RStar true (RChr class_w)); RLit ">"%str; RLit [LF];
        RLit "author"%str; RSpace; RLit "<"%str; RGroup 3 (until ">"); RLit ">"%str; RSpace;
        RLit "<"%str; RGroup 4 (until ">"); RLit ">"%str; RLit [LF];
        RLit "subject"%str; RSpace; RGroup 5 (until LF); RLit [LF];
        RLit "date"%str; RSpace; RGroup 6 (until LF); RLit [LF];
        RLit "body"%str; RSpace; RGroup 7 (RStar false (RChr class_any)); RLit [NUL]])) in Hl
    as [q ->]; [|done].
  rewrite !elem_of_app. right; right; left. by left.
Qed.

Lemma find_all_terminated cs fuel n0 rest :
  Forall wf_simple cs -> NUL ∉ rest -> (length cs < fuel)%nat ->
  commit_of_match <$> find_all_from fuel n0 gitLogRegex (terminated cs rest) = cs.
Proof.
  intros Hcs Hr. revert fuel. induction Hcs as [|c cs Hc _ IH]; intros fuel Hf;
    (destruct fuel as [|fuel]; [simpl in Hf; lia|]); cbn [find_all_from].
  - by rewrite no_commit_without_nul.
  - assert (terminated (c :: cs) rest = simple_text c ++ NUL :: terminated cs rest) as ->.
    { unfold terminated. rewrite list_bind_cons. by rewrite <- !app_assoc. }
    destruct (match_simple n0 c (terminated cs rest) Hc) as (m & Hm & Hst & He & Hc').
    erewrite search_here by exact Hm. rewrite fmap_cons, Hc', He.
    rewrite IH; [done|]. simpl in Hf. lia.
Qed.

Lemma length_terminated cs rest : (length cs + length rest <= length (terminated cs rest))%nat.
Proof.
  unfold terminated. rewrite length_app. induction cs as [|c cs IH]; [simpl; lia|].
  rewrite list_bind_cons, !length_app. cbn [length]. lia.
Qed.

(** The log page shows every commit that git terminates with a NUL byte,
    in order, and no other: with git's separator format the text of the last
    commit is not terminated, and that commit is missing from the page; the
    next page is then asked from the last commit shown. *)
Theorem BuildSimpleGitLogData_commits git path firstParent repo cs c :
  Forall wf_simple (cs ++ [c]) ->
  git (simpleLogArgs (repo_Path repo) firstParent (Clean path)) =
    Some (join [NUL] (simple_text <$> (cs ++ [c]))) ->
  exists log, BuildSimpleGitLogData git path firstParent repo = Ok log /\
    simple_Commits log = cs /\ NextParent log = default [] (Hash <$> last cs) /\
    simple_MaybeLastPage log = (Z.of_nat (length cs) <? 1000).
Proof.
  intros [Hcs [Hc _]%Forall_cons]%Forall_app Hgit.
  unfold BuildSimpleGitLogData. rewrite Hgit. cbn [or_err mbind res_bind].
  eexists. split; [done|]. cbn [simple_Commits NextParent simple_MaybeLastPage].
  assert (join [NUL] (simple_text <$> cs ++ [c]) = terminated cs (simple_text c)) as ->.
  { clear. induction cs as [|c' cs IH]; [done|].
    assert (exists w ws, simple_text <$> cs ++ [c] = w :: ws) as (w & ws & E)
      by (destruct cs; by eexists _, _).
    rewrite <- app_comm_cons, fmap_cons, E.
    change (join [NUL] (simple_text c' :: w :: ws))
      with (simple_text c' ++ [NUL] ++ join [NUL] (w :: ws)).
    rewrite <- E, IH. unfold terminated. rewrite list_bind_cons. by rewrite <- !app_assoc. }
  assert (commit_of_match <$> find_all gitLogRegex (terminated cs (simple_text c)) = cs) as ->.
  { apply find_all_terminated; [done|by destruct Hc as (_&_&_&_&_&?)|].
    pose proof (length_terminated cs (simple_text c)). lia. }
  done.
Qed.

(** * Witnesses *)
Definition sample_commits : list GitCommit :=
  [mkCommit "aa11"%str (mkSig "Ann"%str "a@x"%str 1677217274) (mkSig "Bob"%str "b@x"%str (-5))
     "First"%str "Body
text"%str ["bb22"; "cc33"]%str ["f.go"; "dir/g h.go"]%str;
   mkCommit "bb22"%str (mkSig []  []  0) (mkSig "Bob"%str "b@x"%str 7) []  []  []  []].

Lemma parseCommitLogOutput_print_witness :
  parseCommitLogOutput (log_text true sample_commits) true = Some (Ok sample_commits).
Proof. apply (parseCommitLogOutput_print true sample_commits). by_decide. Defined.

Lemma genLogArgs_safe_witness :
  0 <= 100 /\
  genLogArgs (mkOpts "--output=x"%str 100 0 "f"%str false false) [] = Err ErrSpec.
Proof.
  split; [lia|].
  apply (genLogArgs_safe (mkOpts "--output=x"%str 100 0 "f"%str false false) []);
    [simpl; lia|simpl; lia|reflexivity].
Defined.

Definition sample_simple : list Commit :=
  [mkSimple "aa11"%str "aa"%str "Ann"%str "a@x"%str "First"%str "2023-01-02"%str "body"%str;
   mkSimple "bb22"%str "bb"%str "Bob"%str "b@x"%str "Second"%str "2023-01-01"%str []].

Lemma BuildSimpleGitLogData_commits_witness :
  exists log,
    BuildSimpleGitLogData (fun _ => Some (join [NUL] (simple_text <$> sample_simple)))
      "src"%str "HEAD"%str (plain_repo "r"%str "/r"%str) = Ok log /\
    simple_Commits log = take 1 sample_simple /\ NextParent log = "aa11"%str /\
    simple_MaybeLastPage log = true.
Proof.
  apply (BuildSimpleGitLogData_commits _ "src"%str "HEAD"%str (plain_repo "r"%str "/r"%str)
    (take 1 sample_simple)
    (mkSimple "bb22"%str "bb"%str "Bob"%str "b@x"%str "Second"%str "2023-01-01"%str []));
    [by_decide|reflexivity].
Defined.
