(* ===== verification/Blame.v ===== *)
(** * Blame: [server/fileviewer/fileview.go], [processNextChunk] and [GitBlameBlob]

    [git blame --porcelain] prints groups of consecutive lines of one commit;
    the first group of a commit carries its description.  A Go pointer to a
    [BlameChunk] is modelled by its commit hash, under which the chunk map
    holds it; both maps are explicit state.  [None] of an option result is a
    loop that is still running when the fuel ends. *)
From S2P Require Import Prelude GoStrings Config GoRegexp GoPath Scanner GitLog.

Record LineRange := mkRange { StartLine : Z; EndLine : Z }.
#[export] Instance LineRange_eq_dec : EqDecision LineRange.
Proof. solve_decision. Defined.

Record BlameChunk := mkChunk {
  CommitHash : str; bc_ShortHash : str; CommitLink : str;
  bc_AuthorName : str; bc_AuthorEmail : str; bc_AuthorTime : Z;
  bc_CommitterName : str; bc_CommitterEmail : str; bc_CommitterTime : Z;
  CommitSummary : str; Filename : str;
  PreviousFilename : str; PreviousCommitHash : str;
  LineRanges : list LineRange;
  alreadyFilled : bool;
}.
#[export] Instance BlameChunk_eq_dec : EqDecision BlameChunk.
Proof. solve_decision. Defined.

(** The two maps: chunks by commit hash, and line numbers to chunks. *)
Record blame := mkBlame { by_hash : gmap str BlameChunk; by_line : gmap Z str }.

Definition class_hex : Z -> bool := fun r => in_range "0" "9" r || in_range "a" "f" r.

(** 40 hex digits, a space, a number, a space, the group 2 number, a space, the
    group 3 count, between [\A] and [\z]; groups are numbered as in the code. *)
Definition BlameChunkHeader : re :=
  RSeq [RBot; RGroup 1 (RRep 40 (RChr class_hex)); RSpace;
        RGroup 2 (RPlus (RChr class_d)); RSpace; RGroup 3 (RPlus (RChr class_d)); RSpace;
        RGroup 4 (RPlus (RChr class_d)); REot].
Definition LineInChunkHeader : re :=
  RSeq [RBot; RRep 40 (RChr class_hex); RSpace; RPlus (RChr class_d); RSpace;
        RGroup 1 (RPlus (RChr class_d)); REot].

Definition AuthorKey : str := "author "%str.
Definition AuthorMailKey : str := "author-mail "%str.
Definition AuthorTimeKey : str := "author-time "%str.
Definition CommitterKey : str := "committer "%str.
Definition CommitterMailKey : str := "committer-mail "%str.
Definition CommitterTimeKey : str := "committer-time "%str.
Definition SummaryKey : str := "summary "%str.
Definition PreviousKey : str := "previous "%str.
Definition FilenameKey : str := "filename "%str.

Definition deleteKey (line key : str) : str := replace1 line key [].

(** The value [strconv.Atoi] returns for decimal digits, with or without an
    error: a number out of range is clamped. *)
Definition Atoi_value (s : str) : Z := default (2 ^ 63 - 1) (Atoi s).

Definition newChunk (commitHash repoPath : str) : BlameChunk :=
  mkChunk commitHash (take 8 commitHash)
    ("/delve/"%str ++ repoPath ++ "/commit/"%str ++ commitHash)
    [] [] 0 [] [] 0 [] [] [] [] [] false.

(** Append the range, or extend the last one. *)
Definition add_range (rs : list LineRange) (startLine endLine : Z) : list LineRange :=
  match last rs with
  | Some r => if decide (endLine - 1 = EndLine r)
              then removelast rs ++ [mkRange (StartLine r) endLine]
              else rs ++ [mkRange startLine endLine]
  | None => [mkRange startLine endLine]
  end.

Definition set_ranges (c : BlameChunk) (rs : list LineRange) : BlameChunk :=
  match c with mkChunk a b d e f g h i j k l m n _ p => mkChunk a b d e f g h i j k l m n rs p end.
Definition set_filled (c : BlameChunk) : BlameChunk :=
  match c with mkChunk a b d e f g h i j k l m n o _ => mkChunk a b d e f g h i j k l m n o true end.

(** One descriptive line of a chunk; [Err] is the early return on a malformed
    time. *)
Definition info_line (c : BlameChunk) (line : str) : res unit BlameChunk :=
  let '(mkChunk h sh lk an ae at_ cn ce ct su fn pf ph rs fl) := c in
  if has_prefix AuthorKey line then
    Ok (mkChunk h sh lk (deleteKey line AuthorKey) ae at_ cn ce ct su fn pf ph rs fl)
  else if has_prefix AuthorMailKey line then
    Ok (mkChunk h sh lk an (deleteKey line AuthorMailKey) at_ cn ce ct su fn pf ph rs fl)
  else if has_prefix AuthorTimeKey line then
    t ← or_err tt (ParseInt 10 64 (deleteKey line AuthorTimeKey));
    Ok (mkChunk h sh lk an ae t cn ce ct su fn pf ph rs fl)
  else if has_prefix CommitterKey line then
    Ok (mkChunk h sh lk an ae at_ (deleteKey line CommitterKey) ce ct su fn pf ph rs fl)
  else if has_prefix CommitterMailKey line then
    Ok (mkChunk h sh lk an ae at_ cn (deleteKey line CommitterMailKey) ct su fn pf ph rs fl)
  else if has_prefix CommitterTimeKey line then
    t ← or_err tt (ParseInt 10 64 (deleteKey line CommitterTimeKey));
    Ok (mkChunk h sh lk an ae at_ cn ce t su fn pf ph rs fl)
  else if has_prefix SummaryKey line then
    Ok (mkChunk h sh lk an ae at_ cn ce ct (deleteKey line SummaryKey) fn pf ph rs fl)
  else if has_prefix FilenameKey line then
    Ok (mkChunk h sh lk an ae at_ cn ce ct su (deleteKey line FilenameKey) pf ph rs fl)
  else if has_prefix PreviousKey line then
    ph ← slice line 0 40;
    pf ← slice line 41 (length line);
    Ok (mkChunk h sh lk an ae at_ cn ce ct su fn pf ph rs fl)
  else Ok c.

(** One line of a chunk: the new state, current line number and lines left.
    A chunk that is missing from the map would be a nil pointer. *)
Definition chunk_line (commitHash line : str) (st : blame) (currLineNumber linesInChunk : Z)
    : res unit (blame * Z * Z) :=
  chunk ← deref (by_hash st !! commitHash);
  let '(st, chunk, currLineNumber, linesInChunk) :=
    match find LineInChunkHeader line with
    | Some m => (st, chunk, Atoi_value (group m 1), linesInChunk)
    | None =>
        if has_prefix [TAB] line then
          (mkBlame (<[commitHash := set_filled chunk]> (by_hash st))
                   (<[currLineNumber := commitHash]> (by_line st)),
           set_filled chunk, currLineNumber, linesInChunk - 1)
        else (st, chunk, currLineNumber, linesInChunk)
    end in
  if alreadyFilled chunk then Ok (st, currLineNumber, linesInChunk)
  else chunk ← info_line chunk line;
       Ok (mkBlame (<[commitHash := chunk]> (by_hash st)) (by_line st), currLineNumber, linesInChunk).

(** [for linesInChunk != 0]: the result of [Scan] is not looked at.  [Err] is
    the early return [true, nil]. *)
Fixpoint chunk_loop (fuel : nat) (commitHash : str) (sc : Scanner) (st : blame)
    (currLineNumber linesInChunk : Z) : option (res unit blame * Scanner) :=
  if decide (linesInChunk = 0) then Some (Ok st, sc)
  else match fuel with
  | O => None
  | S fuel =>
      let sc := (Scan sc).2 in
      match chunk_line commitHash (sc_bytes sc) st currLineNumber linesInChunk with
      | Ok (st, currLineNumber, linesInChunk) =>
          chunk_loop fuel commitHash sc st currLineNumber linesInChunk
      | Err _ => Some (Ok st, sc)
      | Panic => Some (Panic, sc)
      end
  end.

(** Get or create the chunk, and record its line range. *)
Definition open_chunk (commitHash repoPath : str) (startLine endLine : Z) (st : blame) : blame :=
  let chunk := default (newChunk commitHash repoPath) (by_hash st !! commitHash) in
  mkBlame (<[commitHash := set_ranges chunk (add_range (LineRanges chunk) startLine endLine)]>
             (by_hash st)) (by_line st).

(** [(moreChunkLeft, err != nil)] and the new state. *)
Definition processNextChunk (fuel : nat) (sc : Scanner) (st : blame) (repoPath : str)
    : option (res unit (bool * bool * blame) * Scanner) :=
  match Scan sc with
  | (false, sc) => Some (Ok (false, false, st), sc)
  | (true, sc) =>
      match find BlameChunkHeader (sc_bytes sc) with
      | None => Some (Ok (false, true, st), sc)
      | Some m =>
          let commitHash := group m 1 in
          let currLineNumber := Atoi_value (group m 3) in
          match Atoi (group m 4) with
          | None => Some (Ok (false, true, st), sc)
          | Some linesInChunk =>
              let endLine := int64 (currLineNumber + (linesInChunk - 1)) in
              let st := open_chunk commitHash repoPath currLineNumber endLine st in
              '(r, sc) ← chunk_loop fuel commitHash sc st currLineNumber linesInChunk;
              Some ((st ← r; Ok (true, false, st)), sc)
          end
      end
  end.

(** The loop of [GitBlameBlob]: it stops when nothing more is reported, and
    looks at the error only when more was. *)
Fixpoint blame_loop (fuel : nat) (sc : Scanner) (st : blame) (repoName : str)
    : option (res unit blame) :=
  match fuel with
  | O => None
  | S fuel' =>
      '(r, sc) ← processNextChunk fuel sc st repoName;
      match r with
      | Ok (false, _, st) => Some (Ok st)
      | Ok (true, true, _) => Some (Err tt)
      | Ok (true, false, st) => blame_loop fuel' sc st repoName
      | Err e => Some (Err e)
      | Panic => Some Panic
      end
  end.

(** [BlameChunks] lists the chunk map in its iteration order. *)
Record BlameResult := mkBlameResult {
  LinesToBlameChunk : gmap Z str;
  BlameChunks : list BlameChunk;
}.

Definition blameArgs (repoPath cleanPath commit : str) : list str :=
  ["-C"%str; repoPath; "blame"%str; cleanPath; commit; "--porcelain"%str].

Section git.
Context (git : list str -> option str).
(** The iteration order of a Go map. *)
Context (range : gmap str BlameChunk -> list (str * BlameChunk)).

Definition GitBlameBlob (fuel : nat) (relativePath : str) (repo : RepoConfig) (commit : str)
    : option (res unit BlameResult) :=
  match git (blameArgs (repo_Path repo) (Clean relativePath) commit) with
  | None => Some (Err tt)
  | Some out =>
      r ← blame_loop fuel (newScanner MaxScanTokenSize out) (mkBlame ∅ ∅) (repo_Name repo);
      Some (st ← r; Ok (mkBlameResult (by_line st) (range (by_hash st)).*2))
  end.
End git.
