(* ===== verification/BlameSpec.v ===== *)
(** * Blame: what the reader of the porcelain format promises *)
From S2P Require Import Prelude GoStrings Config GoRegexp GoPath Scanner GitLog Blame.

(** * The text git prints *)
Record desc := Desc {
  d_author : str; d_mail : str; d_time : Z; d_tz : str;
  d_cauthor : str; d_cmail : str; d_ctime : Z; d_ctz : str;
  d_summary : str; d_previous : option (str * str); d_filename : str;
}.

(** Two keys the reader skips. *)
Definition AuthorTzKey : str := "author-tz "%str.
Definition CommitterTzKey : str := "committer-tz "%str.

Definition desc_lines (d : desc) : list str :=
  [AuthorKey ++ d_author d; AuthorMailKey ++ d_mail d; AuthorTimeKey ++ Itoa (d_time d);
   AuthorTzKey ++ d_tz d;
   CommitterKey ++ d_cauthor d; CommitterMailKey ++ d_cmail d; CommitterTimeKey ++ Itoa (d_ctime d);
   CommitterTzKey ++ d_ctz d; SummaryKey ++ d_summary d]
  ++ match d_previous d with
     | Some (h, f) => [PreviousKey ++ h ++ " "%char :: f]
     | None => []
     end
  ++ [FilenameKey ++ d_filename d].

(** A group of lines of one commit; [g_info] tells whether the description of
    the commit is printed. *)
Record bgroup := Group {
  g_hash : str; g_orig : Z; g_info : bool; g_lines : list str;
}.

Definition header_line (h : str) (orig final : Z) : str :=
  h ++ " "%char :: uitoa orig ++ " "%char :: uitoa final.

Fixpoint body_lines (h : str) (orig final : Z) (ls : list str) : list str :=
  match ls with
  | [] => []
  | l :: ls => header_line h orig final :: (TAB :: l) :: body_lines h (orig + 1) (final + 1) ls
  end.

Section spec.
(** What git says of each commit. *)
Context (D : str -> desc).

Definition group_lines (final : Z) (g : bgroup) : list str :=
  match g_lines g with
  | [] => []
  | l :: ls =>
      (header_line (g_hash g) (g_orig g) final ++ " "%char :: uitoa (Z.of_nat (S (length ls))))
      :: (if g_info g then desc_lines (D (g_hash g)) else [])
      ++ (TAB :: l) :: body_lines (g_hash g) (g_orig g + 1) (final + 1) ls
  end.

(** The groups of a file from line [final] on. *)
Fixpoint porcelain (final : Z) (gs : list bgroup) : list str :=
  match gs with
  | [] => []
  | g :: gs => group_lines final g ++ porcelain (final + Z.of_nat (length (g_lines g))) gs
  end.

(** The commits of the lines of the file, in order. *)
Definition line_hashes (gs : list bgroup) : list str :=
  gs ≫= fun g => replicate (length (g_lines g)) (g_hash g).

(** The chunk the reader makes of a description.  [PreviousCommitHash] and
    [PreviousFilename] are cut from the whole line, its key included. *)
Definition described (c : BlameChunk) (d : desc) : BlameChunk :=
  mkChunk (CommitHash c) (bc_ShortHash c) (CommitLink c)
    (d_author d) (d_mail d) (d_time d) (d_cauthor d) (d_cmail d) (d_ctime d)
    (d_summary d) (d_filename d)
    match d_previous d with Some (h, f) => drop 32 (h ++ " "%char :: f) | None => PreviousFilename c end
    match d_previous d with Some (h, f) => PreviousKey ++ take 31 h | None => PreviousCommitHash c end
    (LineRanges c) (alreadyFilled c).

Definition is_hex (c : ascii) : bool := is_ascii c && class_hex (byte_val c).
Definition wf_hash (h : str) : Prop := length h = 40%nat /\ Forall (fun c => is_hex c = true) h.
#[export] Instance wf_hash_dec h : Decision (wf_hash h).
Proof. unfold wf_hash. apply _. Defined.

Definition wf_desc (d : desc) : Prop :=
  in_signed 64 (d_time d) /\ in_signed 64 (d_ctime d) /\
  match d_previous d with Some (h, _) => wf_hash h | None => True end.
#[export] Instance wf_desc_dec d : Decision (wf_desc d).
Proof. unfold wf_desc. destruct (d_previous d) as [[??]|]; apply _. Defined.

Definition wf_group (max : Z) (final : Z) (g : bgroup) : Prop :=
  wf_hash (g_hash g) /\ wf_desc (D (g_hash g)) /\ g_lines g <> [] /\
  0 <= g_orig g /\ 0 <= final /\ final + Z.of_nat (length (g_lines g)) < 2 ^ 63 /\
  Forall (clean_line max) (group_lines final g).

(** * Header lines *)
Lemma hex_not_tab c : class_hex (byte_val c) = true -> c <> TAB.
Proof. intros Hc ->. by vm_compute in Hc. Qed.

Lemma class_hex_ascii r : class_hex r = true -> r < 128.
Proof.
  unfold class_hex, in_range. change (byte_val "0") with 48. change (byte_val "9") with 57.
  change (byte_val "a") with 97. change (byte_val "f") with 102.
  rewrite orb_true_iff, !andb_true_iff, !Z.leb_le. lia.
Qed.

(** A line whose first two bytes are not both hex digits is no header. *)
Lemma not_line_header a b t :
  class_hex (byte_val a) && class_hex (byte_val b) = false ->
  find LineInChunkHeader (a :: b :: t) = None.
Proof.
  intros Hab. unfold LineInChunkHeader. cbn [RSeq foldr]. rewrite find_bot.
  destruct (match_at _ _ _) as [m|] eqn:E; [|done]. exfalso.
  apply match_at_lang in E as [_ E].
  apply lang_cat_inv in E as (s1 & [-> _]%lang_bot_inv & E).
  apply lang_cat_inv in E as (s2 & E & _).
  apply lang_rep_ascii in E as (p & Hp & Hlen & Hall); [|apply class_hex_ascii].
  destruct p as [|x [|y p]]; [done|done|]. injection Hp as -> -> _.
  apply Forall_cons in Hall as [Hx [Hy _]%Forall_cons]. by rewrite Hx, Hy in Hab.
Qed.

Lemma find_line_header h orig final :
  wf_hash h -> 0 <= orig -> 0 <= final ->
  exists m, find LineInChunkHeader (header_line h orig final) = Some m /\ group m 1 = uitoa final.
Proof.
  intros [Hlen Hh] Ho Hf. unfold LineInChunkHeader. cbn [RSeq foldr]. rewrite find_bot.
  eexists (Mtch (header_line h orig final) [] _). split.
  - unfold match_at. rewrite mt_cat, mt_bot by done.
    rewrite mt_cat. unfold header_line at 2. rewrite <- Hlen at 1.
    rewrite mt_rep_ascii by done. rewrite mt_cat. unfold RSpace. rewrite mt_class_ascii by done.
    rewrite mt_cat. apply mt_plus_class; [apply uitoa_not_nil|by apply uitoa_spans|done|].
    rewrite mt_cat, mt_class_ascii by done. rewrite mt_cat, mt_group.
    rewrite <- (app_nil_r (uitoa final)) at 1.
    apply mt_plus_class; [apply uitoa_not_nil|by apply uitoa_spans|done|]. reflexivity.
  - unfold group, group_opt. simpl. rewrite ?app_nil_r. apply upto_nil.
Qed.

Lemma find_chunk_header h orig final n :
  wf_hash h -> 0 <= orig -> 0 <= final -> 0 <= n ->
  exists m, find BlameChunkHeader (header_line h orig final ++ " "%char :: uitoa n) = Some m /\
    group m 1 = h /\ group m 3 = uitoa final /\ group m 4 = uitoa n.
Proof.
  intros [Hlen Hh] Ho Hf Hn. unfold BlameChunkHeader. cbn [RSeq foldr]. rewrite find_bot.
  assert (header_line h orig final ++ " "%char :: uitoa n =
    h ++ " "%char :: uitoa orig ++ " "%char :: uitoa final ++ " "%char :: uitoa n) as E.
  { unfold header_line. by rewrite <- !app_assoc, <- app_comm_cons, <- !app_assoc. }
  rewrite E. set (s := h ++ _). eexists (Mtch s [] _). split.
  - unfold match_at. rewrite mt_cat, mt_bot by done.
    rewrite mt_cat, mt_group. unfold s at 2. rewrite <- Hlen at 1.
    rewrite mt_rep_ascii by done. rewrite mt_cat. unfold RSpace. rewrite mt_class_ascii by done.
    rewrite mt_cat, mt_group.
    apply mt_plus_class; [apply uitoa_not_nil|by apply uitoa_spans|done|].
    rewrite mt_cat, mt_class_ascii by done. rewrite mt_cat, mt_group.
    apply mt_plus_class; [apply uitoa_not_nil|by apply uitoa_spans|done|].
    rewrite mt_cat, mt_class_ascii by done. rewrite mt_cat, mt_group.
    rewrite <- (app_nil_r (uitoa n)) at 1.
    apply mt_plus_class; [apply uitoa_not_nil|by apply uitoa_spans|done|]. reflexivity.
  - unfold group, group_opt. simpl. rewrite ?app_nil_r, upto_nil.
    split_and!; [apply upto_app|apply upto_app|done].
Qed.

(** * One line of a chunk *)
Lemma replace1_prefix k x : replace1 (k ++ x) k [] = x.
Proof.
  unfold replace1. assert (index k (k ++ x) = Some 0%nat) as ->.
  { destruct (k ++ x) as [|a s] eqn:E; cbn [index]; rewrite <- E, has_prefix_app; done. }
  simpl. apply drop_app_length.
Qed.

Lemma Atoi_value_uitoa n : 0 <= n < 2 ^ 63 -> Atoi_value (uitoa n) = n.
Proof. intros. unfold Atoi_value. by rewrite Atoi_uitoa. Qed.

(** The descriptive lines, read one by one. *)
Definition plain_info (l : str) : Prop :=
  find LineInChunkHeader l = None /\ has_prefix [TAB] l = false.

Lemma chunk_line_info h l st cur n c c' :
  by_hash st !! h = Some c -> plain_info l ->
  (alreadyFilled c = false -> info_line c l = Ok c') ->
  (alreadyFilled c = true -> c' = c) ->
  chunk_line h l st cur n =
  Ok (mkBlame (<[h := c']> (by_hash st)) (by_line st), cur, n).
Proof.
  intros Hc [Hf Ht] Hi Hfill. unfold chunk_line. rewrite Hc. cbn [deref mbind res_bind].
  rewrite Hf, Ht. destruct (alreadyFilled c).
  - rewrite Hfill by done. rewrite insert_id by done. by destruct st.
  - by rewrite Hi.
Qed.

Lemma chunk_line_tab h l st cur n c :
  by_hash st !! h = Some c ->
  chunk_line h (TAB :: l) st cur n =
  Ok (mkBlame (<[h := set_filled c]> (by_hash st)) (<[cur := h]> (by_line st)), cur, n - 1).
Proof.
  intros Hc. unfold chunk_line. rewrite Hc. cbn [deref mbind res_bind].
  assert (find LineInChunkHeader (TAB :: l) = None) as ->.
  { destruct l as [|b l]; [reflexivity|]. by apply not_line_header. }
  simpl. by destruct c.
Qed.

Lemma chunk_line_header h h' orig final st cur n c :
  by_hash st !! h = Some c -> alreadyFilled c = true ->
  wf_hash h' -> 0 <= orig -> 0 <= final < 2 ^ 63 ->
  chunk_line h (header_line h' orig final) st cur n = Ok (st, final, n).
Proof.
  intros Hc Hfill Hh Ho Hf. unfold chunk_line. rewrite Hc. cbn [deref mbind res_bind].
  destruct (find_line_header h' orig final Hh Ho ltac:(lia)) as (m & -> & ->).
  by rewrite Atoi_value_uitoa, Hfill.
Qed.

Lemma chunk_loop_step fuel h max l rest b e st cur n st' cur' n' :
  n <> 0 -> clean_line max l -> chunk_line h l st cur n = Ok (st', cur', n') ->
  chunk_loop (S fuel) h (mkScanner max (l :: rest) b e) st cur n =
  chunk_loop fuel h (mkScanner max rest l e) st' cur' n'.
Proof.
  intros Hn Hl E. cbn [chunk_loop]. rewrite decide_False by done.
  rewrite Scan_clean by done. cbn [snd sc_bytes]. by rewrite E.
Qed.

(** The lines of a chunk after its first one. *)
Fixpoint insert_lines (final : Z) (h : str) (k : nat) (m : gmap Z str) : gmap Z str :=
  match k with
  | O => m
  | S k => insert_lines (final + 1) h k (<[final := h]> m)
  end.

Lemma set_filled_id c : alreadyFilled c = true -> set_filled c = c.
Proof. destruct c. simpl. by intros ->. Qed.

Lemma chunk_loop_body max h ls orig final rest fuel b e st cur c :
  by_hash st !! h = Some c -> alreadyFilled c = true -> wf_hash h ->
  0 <= orig -> 0 <= final -> final + Z.of_nat (length ls) < 2 ^ 63 ->
  Forall (clean_line max) (body_lines h orig final ls) ->
  (2 * length ls <= fuel)%nat ->
  exists b', chunk_loop fuel h (mkScanner max (body_lines h orig final ls ++ rest) b e) st cur
               (Z.of_nat (length ls))
  = Some (Ok (mkBlame (by_hash st) (insert_lines final h (length ls) (by_line st))),
          mkScanner max rest b' e).
Proof.
  revert orig final fuel b st cur. induction ls as [|l ls IH];
    intros orig final fuel b st cur Hc Hfill Hh Ho Hf Hmax Hcl Hfuel.
  - exists b. destruct fuel; by destruct st.
  - cbn [body_lines length] in *. destruct fuel as [|[|fuel]]; [lia|lia|].
    apply Forall_cons in Hcl as [Hcl1 [Hcl2 Hcl]%Forall_cons].
    cbn [app]. erewrite chunk_loop_step;
      [|lia|done|by eapply chunk_line_header; eauto; lia].
    erewrite chunk_loop_step; [|lia|done|by eapply chunk_line_tab].
    rewrite set_filled_id, insert_id by done.
    replace (Z.of_nat (S (length ls)) - 1) with (Z.of_nat (length ls)) by lia.
    destruct (IH (orig + 1) (final + 1) fuel (TAB :: l)
      (mkBlame (by_hash st) (<[final := h]> (by_line st))) final) as [b' ->];
      [done|done|done|lia|lia|lia|done|lia|].
    by exists b'.
Qed.

(** * The description of a commit *)
Lemma info_line_filled c l c' : info_line c l = Ok c' -> alreadyFilled c' = alreadyFilled c.
Proof.
  destruct c. unfold info_line. repeat case_match; intros; inv_ok; done.
Qed.

Lemma chunk_loop_info max h L rest fuel b e st cur n c c' :
  by_hash st !! h = Some c -> n <> 0 -> Forall (clean_line max) L -> Forall plain_info L ->
  (alreadyFilled c = false -> foldM info_line L c = Ok c') ->
  (alreadyFilled c = true -> c' = c) ->
  exists b', chunk_loop (length L + fuel) h (mkScanner max (L ++ rest) b e) st cur n =
  chunk_loop fuel h (mkScanner max rest b' e)
    (mkBlame (<[h := c']> (by_hash st)) (by_line st)) cur n.
Proof.
  revert b st c. induction L as [|l L IH]; intros b st c Hc Hn Hcl Hpl Hi Hfill.
  - exists b. cbn [length app Nat.add].
    assert (c' = c) as ->.
    { destruct (alreadyFilled c); [by apply Hfill|]. specialize (Hi eq_refl). simpl in Hi.
      by simplify_eq. }
    rewrite insert_id by done. by destruct st.
  - apply Forall_cons in Hcl as [Hcl1 Hcl], Hpl as [Hpl1 Hpl]. cbn [length Nat.add app].
    assert (exists c1, (alreadyFilled c = false -> info_line c l = Ok c1) /\
      (alreadyFilled c = true -> c1 = c) /\ alreadyFilled c1 = alreadyFilled c /\
      (alreadyFilled c1 = false -> foldM info_line L c1 = Ok c')) as (c1 & H1 & H2 & H3 & H4).
    { destruct (alreadyFilled c) eqn:Hf.
      - exists c. split_and!; try done. congruence.
      - specialize (Hi eq_refl). simpl in Hi. destruct (info_line c l) as [c1| |] eqn:E;
          simpl in Hi; [|done|done].
        exists c1. split_and!; try done. rewrite <- Hf. by eapply info_line_filled. }
    erewrite chunk_loop_step; [|done|done|by eapply chunk_line_info].
    destruct (IH l (mkBlame (<[h := c1]> (by_hash st)) (by_line st)) c1) as [b' ->];
      [by simpl; rewrite lookup_insert_eq|done|done|done|done| |].
    + intros Hf. rewrite H2 by congruence. apply Hfill. congruence.
    + exists b'. cbn [by_hash by_line]. by rewrite insert_insert_eq.
Qed.

(** Compute the tests of one descriptive line. *)
Ltac info_step :=
  unfold info_line at 1;
  repeat (match goal with
  | |- context [has_prefix ?k (?l ++ ?x)] =>
      first [rewrite (has_prefix_app k x)|change (has_prefix k (l ++ x)) with false]
  end; cbn beta iota);
  unfold deleteKey; rewrite ?replace1_prefix; rewrite ?ParseInt_Itoa by done;
  cbn [or_err mbind res_bind].

Lemma fold_desc d c :
  wf_desc d -> foldM info_line (desc_lines d) c = Ok (described c d).
Proof.
  intros (Ht & Hct & Hp). destruct c as [h sh lk an ae at_ cn ce ct su fn pf ph rs fl].
  unfold desc_lines. cbn [app foldM].
  do 9 info_step.
  destruct (d_previous d) as [[ph' pf']|] eqn:Ep; cbn [app foldM].
  - destruct Hp as [Hlen _]. info_step.
    assert (length (PreviousKey ++ ph' ++ " "%char :: pf') = 50 + length pf')%nat as Hl.
    { rewrite !length_app, Hlen. simpl. lia. }
    unfold slice. rewrite !decide_True by lia. cbn [mbind res_bind].
    rewrite take_ge by (rewrite length_drop; lia). rewrite drop_0.
    change (40 - 0)%nat with (length PreviousKey + 31)%nat.
    change 41%nat with (length PreviousKey + 32)%nat.
    rewrite take_app_add, drop_app_add, take_app_le by lia.
    unfold described. by rewrite Ep.
  - info_step. unfold described. by rewrite Ep.
Qed.

Lemma desc_plain d : Forall plain_info (desc_lines d).
Proof.
  unfold desc_lines. apply Forall_app. split; [|apply Forall_app; split].
  - repeat (constructor; [split; [by apply not_line_header|done]|]). constructor.
  - destruct (d_previous d) as [[??]|]; constructor; [|by constructor].
    split; [by apply not_line_header|done].
  - constructor; [|by constructor]. split; [by apply not_line_header|done].
Qed.

(** * One group *)
Definition group_end (final : Z) (g : bgroup) : Z :=
  final + Z.of_nat (length (g_lines g)).

(** The chunk of the group's commit after the group. *)
Definition group_chunk (repo : str) (final : Z) (g : bgroup) (st : blame) : BlameChunk :=
  let c := default (newChunk (g_hash g) repo) (by_hash st !! g_hash g) in
  let c := set_ranges c (add_range (LineRanges c) final (group_end final g - 1)) in
  set_filled (if alreadyFilled c then c else described c (D (g_hash g))).

Definition apply_group (repo : str) (final : Z) (g : bgroup) (st : blame) : blame :=
  mkBlame (<[g_hash g := group_chunk repo final g st]> (by_hash st))
          (insert_lines final (g_hash g) (length (g_lines g)) (by_line st)).

Definition known (st : blame) (h : str) : Prop :=
  exists c, by_hash st !! h = Some c /\ alreadyFilled c = true.

Lemma filled_set_ranges c rs : alreadyFilled (set_ranges c rs) = alreadyFilled c.
Proof. by destruct c. Qed.

Lemma processNextChunk_group max fuel repo final g rest b e st :
  wf_group max final g -> (g_info g = false -> known st (g_hash g)) ->
  (length (group_lines final g) <= fuel)%nat ->
  exists b', processNextChunk fuel (mkScanner max (group_lines final g ++ rest) b e) st repo =
  Some (Ok (true, false, apply_group repo final g st), mkScanner max rest b' e).
Proof.
  intros (Hh & Hd & Hne & Ho & Hf & Hmax & Hcl) Hinfo Hfuel.
  destruct (g_lines g) as [|l ls] eqn:Hls; [done|]. unfold group_lines in *. rewrite Hls in *.
  apply Forall_cons in Hcl as [Hcl0 Hcl]. apply Forall_app in Hcl as [Hcld Hcl].
  apply Forall_cons in Hcl as [Hclt Hcl].
  set (n := Z.of_nat (S (length ls))) in *. cbn [length] in Hmax. fold n in Hmax.
  unfold processNextChunk. cbn [app]. rewrite Scan_clean by done. cbn [sc_bytes].
  destruct (find_chunk_header (g_hash g) (g_orig g) final n Hh Ho Hf ltac:(lia))
    as (m & -> & -> & -> & ->).
  rewrite Atoi_uitoa by lia. rewrite Atoi_value_uitoa by lia.
  assert (int64 (final + (n - 1)) = group_end final g - 1) as ->.
  { unfold group_end. rewrite Hls. cbn [length]. fold n.
    unfold int64. rewrite wrap_signed_id; [lia|lia|].
    unfold in_signed. change (2 ^ (64 - 1)) with (2 ^ 63). lia. }
  set (h := g_hash g) in *. set (c0 := default (newChunk h repo) (by_hash st !! h)).
  set (c1 := set_ranges c0 (add_range (LineRanges c0) final (group_end final g - 1))).
  assert (open_chunk h repo final (group_end final g - 1) st =
    mkBlame (<[h := c1]> (by_hash st)) (by_line st)) as -> by done.
  set (c2 := if alreadyFilled c1 then c1 else described c1 (D h)).
  rewrite <- app_assoc in *. cbn [app] in *.
  destruct (chunk_loop_info max h (if g_info g then desc_lines (D h) else [])
    ((TAB :: l) :: body_lines h (g_orig g + 1) (final + 1) ls ++ rest)
    (fuel - length (if g_info g then desc_lines (D h) else []))
    (header_line h (g_orig g) final ++ " "%char :: uitoa n) e
    (mkBlame (<[h := c1]> (by_hash st)) (by_line st)) final n c1 c2)
    as [b1 E1]; [by simpl; rewrite lookup_insert_eq|lia|done| | | |].
  { destruct (g_info g); [apply desc_plain|by constructor]. }
  { intros Hfl. unfold c2. rewrite Hfl. destruct (g_info g).
    - by apply fold_desc.
    - destruct (Hinfo eq_refl) as (c & Hc & Hfl'). exfalso. unfold c1, c0 in Hfl.
      rewrite filled_set_ranges, Hc in Hfl. simpl in Hfl. congruence. }
  { intros Hfl. unfold c2. by rewrite Hfl. }
  cbn [length] in Hfuel. rewrite length_app in Hfuel. cbn [length] in Hfuel.
  replace (length (if g_info g then desc_lines (D h) else []) +
    (fuel - length (if g_info g then desc_lines (D h) else [])))%nat with fuel in E1 by lia.
  rewrite E1. clear E1. cbn [by_hash by_line]. rewrite insert_insert_eq.
  assert (length (body_lines h (g_orig g + 1) (final + 1) ls) = 2 * length ls)%nat as Hbl.
  { generalize (g_orig g + 1) (final + 1). clear. induction ls as [|l ls IH]; intros o f; [done|].
    cbn [body_lines length]. rewrite IH. lia. }
  destruct (fuel - length _)%nat as [|fuel'] eqn:Efuel; [lia|].
  erewrite chunk_loop_step; [|lia|done|apply (chunk_line_tab _ _ _ _ _ c2);
    by simpl; rewrite lookup_insert_eq].
  cbn [by_hash by_line]. rewrite insert_insert_eq.
  replace (n - 1) with (Z.of_nat (length ls)) by lia.
  destruct (chunk_loop_body max h ls (g_orig g + 1) (final + 1) rest fuel' (TAB :: l) e
    (mkBlame (<[h := set_filled c2]> (by_hash st)) (<[final := h]> (by_line st))) final
    (set_filled c2)) as [b2 E2]; [by simpl; rewrite lookup_insert_eq|by destruct c2|done|lia|lia|lia
    |done|lia|].
  rewrite E2. exists b2. cbn [mbind option_bind res_bind]. unfold apply_group, group_chunk.
  by rewrite Hls.
Qed.

(** * A whole file *)
Fixpoint wf_groups (max : Z) (final : Z) (seen : list str) (gs : list bgroup) : Prop :=
  match gs with
  | [] => True
  | g :: gs => wf_group max final g /\ (g_info g = false -> g_hash g ∈ seen)
               /\ wf_groups max (group_end final g) (g_hash g :: seen) gs
  end.

Lemma insert_lines_lookup final h n m ln :
  insert_lines final h n m !! ln =
  if decide (final <= ln < final + Z.of_nat n) then Some h else m !! ln.
Proof.
  revert final m. induction n as [|n IH]; intros final m; cbn [insert_lines].
  - by rewrite decide_False by lia.
  - rewrite IH. destruct (decide (ln = final)) as [->|].
    + rewrite lookup_insert_eq. by repeat case_decide; try lia.
    + rewrite lookup_insert_ne by done. repeat case_decide; try lia; done.
Qed.

Definition covers (rs : list LineRange) (ln : Z) : Prop :=
  exists r, r ∈ rs /\ StartLine r <= ln <= EndLine r.

(** Adding the range of a later group adds its lines, merged or not. *)
Lemma add_range_covers rs s e ln :
  s <= e -> Forall (fun r => StartLine r <= EndLine r < s) rs ->
  (covers (add_range rs s e) ln <-> covers rs ln \/ s <= ln <= e) /\
  Forall (fun r => StartLine r <= EndLine r < e + 1) (add_range rs s e).
Proof.
  intros Hse Hrs. unfold add_range, covers.
  destruct rs as [|r0 rs0 _] using rev_ind; cbn [last].
  { split; [|by constructor; [simpl; lia|constructor]].
    split; [intros (r & Hr & ?); apply list_elem_of_singleton in Hr as ->; by right|].
    intros [(r & Hr & _)|?]; [by apply elem_of_nil in Hr|].
    by eexists; split; [by left|]. }
  rewrite last_snoc. apply Forall_app in Hrs as [Hrs [Hr0 _]%Forall_cons].
  assert (Forall (fun r => StartLine r <= EndLine r < e + 1) rs0) as Hrs'
    by (eapply Forall_impl; [exact Hrs|]; simpl; lia).
  case_decide as He.
  - rewrite removelast_last. split.
    + split.
      * intros (r & Hr & Hln); apply elem_of_app in Hr as [Hr|Hr%list_elem_of_singleton]; subst.
        -- left. exists r. split; [|done]. apply elem_of_app. by left.
        -- simpl in Hln. destruct (decide (ln = e)) as [->|]; [right; lia|].
           left. exists r0. split; [|lia]. apply elem_of_app. right. by left.
      * intros [(r & Hr & Hln)|Hln]; [apply elem_of_app in Hr as [Hr|Hr%list_elem_of_singleton]; subst|].
        -- exists r. split; [|done]. apply elem_of_app. by left.
        -- eexists. split; [apply elem_of_app; right; by left|]. simpl. lia.
        -- eexists. split; [apply elem_of_app; right; by left|]. simpl. lia.
    + apply Forall_app. split; [done|]. constructor; [simpl; lia|constructor].
  - split.
    + split.
      * intros (r & Hr & Hln); apply elem_of_app in Hr as [Hr|Hr%list_elem_of_singleton]; subst; [left|by right].
        by exists r.
      * intros [(r & Hr & Hln)|Hln].
        -- exists r. split; [|done]. apply elem_of_app. by left.
        -- eexists. split; [apply elem_of_app; right; by left|]. done.
    + rewrite !Forall_app. split_and!; [done| |]; constructor; try constructor; simpl; lia.
Qed.

(** The chunk of commit [h] once the file is read. *)
Definition final_chunk (repo h : str) (rs : list LineRange) : BlameChunk :=
  set_filled (described (set_ranges (newChunk h repo) rs) (D h)).

(** [hs] are the commits of lines [1], [2], ... read so far. *)
Record blame_ok (repo : str) (hs : list str) (st : blame) : Prop := {
  ok_lines : forall ln, by_line st !! ln = if decide (1 <= ln) then hs !! Z.to_nat (ln - 1) else None;
  ok_hashes : forall h, is_Some (by_hash st !! h) <-> h ∈ hs;
  ok_chunks : forall h c, by_hash st !! h = Some c -> exists rs, c = final_chunk repo h rs /\
    Forall (fun r => StartLine r <= EndLine r < 1 + Z.of_nat (length hs)) rs /\
    forall ln, covers rs ln <-> by_line st !! ln = Some h;
}.

Lemma blame_ok_nil repo : blame_ok repo [] (mkBlame ∅ ∅).
Proof.
  split; simpl.
  - intros ln. rewrite lookup_empty. by case_decide.
  - intros h. rewrite lookup_empty, elem_of_nil. split; [by intros [? ?]|done].
  - intros h c. by rewrite lookup_empty.
Qed.

Lemma group_chunk_final repo final g st rs :
  (by_hash st !! g_hash g = Some (final_chunk repo (g_hash g) rs) \/
   by_hash st !! g_hash g = None /\ rs = []) ->
  group_chunk repo final g st =
  final_chunk repo (g_hash g) (add_range rs final (group_end final g - 1)).
Proof. unfold group_chunk. by intros [->|[-> ->]]. Qed.

Lemma apply_group_ok repo hs g st :
  g_lines g <> [] -> blame_ok repo hs st ->
  blame_ok repo (hs ++ replicate (length (g_lines g)) (g_hash g))
    (apply_group repo (1 + Z.of_nat (length hs)) g st).
Proof.
  intros Hne [Hl Hh Hc]. set (h := g_hash g). set (n := length (g_lines g)).
  assert (n <> 0)%nat as Hn by (unfold n; by destruct (g_lines g)).
  set (final := 1 + Z.of_nat (length hs)).
  assert (forall ln, by_line (apply_group repo final g st) !! ln =
    if decide (final <= ln < final + Z.of_nat n) then Some h else by_line st !! ln) as Hlines
    by (intros; apply insert_lines_lookup).
  assert (exists rs, group_chunk repo final g st =
      final_chunk repo h (add_range rs final (group_end final g - 1)) /\
    Forall (fun r => StartLine r <= EndLine r < final) rs /\
    forall ln, covers rs ln <-> by_line st !! ln = Some h) as (rs & Hgc & Hrs & Hcov).
  { destruct (by_hash st !! h) as [c|] eqn:E.
    - destruct (Hc h c E) as (rs & -> & Hrs & Hcov). exists rs. split_and!; [|done|done].
      apply group_chunk_final. by left.
    - exists []. split_and!; [|by constructor|].
      + apply group_chunk_final. by right.
      + intros ln. split; [intros (r & Hr & _); by apply elem_of_nil in Hr|]. rewrite Hl. case_decide; [|done].
        intros Hin%list_elem_of_lookup_2. apply Hh in Hin as [? ?]. congruence. }
  split.
  - intros ln. rewrite Hlines, Hl. unfold final. repeat case_decide; try lia; try done.
    + rewrite lookup_app_r by lia. symmetry. apply lookup_replicate. split; [done|lia].
    + destruct (decide (ln - 1 < Z.of_nat (length hs))).
      * by rewrite lookup_app_l by lia.
      * rewrite lookup_app_r by lia. rewrite lookup_ge_None_2 by lia.
        symmetry. apply lookup_ge_None_2. rewrite length_replicate. lia.
  - intros h'. cbn [by_hash apply_group]. fold h. rewrite elem_of_app.
    destruct (decide (h' = h)) as [->|Hne'].
    + rewrite lookup_insert_eq. split; [|by intros; eexists]. intros _. right.
      apply elem_of_replicate. by split.
    + rewrite lookup_insert_ne, Hh by done. split; [by left|].
      intros [?|[? _]%elem_of_replicate]; done.
  - intros h' c. cbn [by_hash apply_group]. fold h. rewrite length_app, length_replicate.
    destruct (add_range_covers rs final (group_end final g - 1) final) as [_ Hbound];
      [unfold group_end, n in *; lia|done|].
    destruct (decide (h' = h)) as [->|Hne'].
    + rewrite lookup_insert_eq. intros [= <-]. rewrite Hgc. eexists. split_and!; [done| |].
      * eapply Forall_impl; [exact Hbound|]. simpl. unfold group_end, final, n in *. lia.
      * intros ln. rewrite Hlines.
        destruct (add_range_covers rs final (group_end final g - 1) ln) as [-> _];
          [unfold group_end, n in *; lia|done|]. rewrite Hcov. unfold group_end. fold n.
        case_decide; [|split; [intros [?|?]; [done|lia]|by left]].
        split; [done|]. intros _. right. lia.
    + rewrite lookup_insert_ne by done. intros E. destruct (Hc h' c E) as (rs' & -> & Hrs' & Hcov').
      exists rs'. split_and!; [done| |].
      * eapply Forall_impl; [exact Hrs'|]. simpl. lia.
      * intros ln. rewrite Hcov', Hlines. case_decide; [|done].
        rewrite Hl. unfold final in *. rewrite decide_True by lia.
        rewrite lookup_ge_None_2 by lia. split; [done|]. congruence.
Qed.

Lemma blame_loop_ok max repo gs hs seen st fuel b e :
  let final := 1 + Z.of_nat (length hs) in
  wf_groups max final seen gs -> (forall h, h ∈ seen -> h ∈ hs) -> blame_ok repo hs st ->
  (length (porcelain final gs) < fuel)%nat ->
  exists st', blame_loop fuel (mkScanner max (porcelain final gs) b e) st repo = Some (Ok st')
    /\ blame_ok repo (hs ++ line_hashes gs) st'.
Proof.
  revert hs seen st fuel b. induction gs as [|g gs IH]; intros hs seen st fuel b final Hwf Hseen Hok Hf.
  { destruct fuel as [|fuel]; [simpl in Hf; lia|]. exists st. rewrite app_nil_r. by split. }
  destruct Hwf as (Hg & Hinfo & Hgs). cbn [porcelain] in *. rewrite length_app in Hf.
  destruct fuel as [|fuel]; [lia|]. cbn [blame_loop].
  destruct (processNextChunk_group max (S fuel) repo final g
    (porcelain (final + Z.of_nat (length (g_lines g))) gs) b e st) as [b' E]; [done| |lia|].
  { intros Hi%Hinfo%Hseen%(ok_hashes _ _ _ Hok). destruct Hi as [c Hc].
    destruct (ok_chunks _ _ _ Hok _ _ Hc) as (rs & -> & _). by eexists. }
  rewrite E. cbn [mbind option_bind].
  pose proof Hg as (_ & _ & Hne & _).
  pose proof (apply_group_ok repo hs g st Hne Hok) as Hok'.
  set (hs' := hs ++ replicate (length (g_lines g)) (g_hash g)) in *.
  assert (1 + Z.of_nat (length hs') = group_end final g) as Hfin.
  { unfold hs', final, group_end. rewrite length_app, length_replicate. lia. }
  destruct (IH hs' (g_hash g :: seen) (apply_group repo final g st) fuel b') as (st' & E' & Hok'').
  - by rewrite Hfin.
  - intros h [->|Hh]%elem_of_cons; unfold hs'; apply elem_of_app; [right|left; by apply Hseen].
    apply elem_of_replicate. split; [done|]. by destruct (g_lines g).
  - done.
  - rewrite Hfin. unfold group_end. assert (0 < length (group_lines final g))%nat; [|lia].
    unfold group_lines. destruct (g_lines g); [done|]. simpl. lia.
  - exists st'. unfold group_end in Hfin. rewrite Hfin in E'. rewrite E'. split; [done|].
    unfold line_hashes. rewrite list_bind_cons. unfold hs' in Hok''. by rewrite <- app_assoc in Hok''.
Qed.
End spec.

(** The chunk [c] carries what git says, in [d], of commit [h]. *)
Record describes (repo h : str) (d : desc) (c : BlameChunk) : Prop := {
  ds_hash : CommitHash c = h;
  ds_short : bc_ShortHash c = take 8 h;
  ds_link : CommitLink c = "/delve/"%str ++ repo ++ "/commit/"%str ++ h;
  ds_author : bc_AuthorName c = d_author d /\ bc_AuthorEmail c = d_mail d
              /\ bc_AuthorTime c = d_time d;
  ds_committer : bc_CommitterName c = d_cauthor d /\ bc_CommitterEmail c = d_cmail d
                 /\ bc_CommitterTime c = d_ctime d;
  ds_summary : CommitSummary c = d_summary d;
  ds_filename : Filename c = d_filename d;
}.

(** The two fields of the line [previous <hash> <file>] are its first 40 bytes
    and the bytes from the 42nd on, the key counted. *)
Definition previous_cut (d : desc) (c : BlameChunk) : Prop :=
  match d_previous d with
  | Some (p, f) => PreviousCommitHash c = "previous "%str ++ take 31 p /\
                   PreviousFilename c = drop 32 p ++ " "%char :: f
  | None => PreviousCommitHash c = [] /\ PreviousFilename c = []
  end.

Lemma final_chunk_describes D repo h rs :
  wf_desc (D h) ->
  describes repo h (D h) (final_chunk D repo h rs) /\ previous_cut (D h) (final_chunk D repo h rs) /\
  LineRanges (final_chunk D repo h rs) = rs.
Proof.
  intros (_ & _ & Hp). split_and!; [by split| |done].
  unfold previous_cut, final_chunk, described. simpl.
  destruct (d_previous (D h)) as [[p f]|]; [|done]. simpl. split; [done|].
  destruct Hp as [Hlen _]. by rewrite drop_app_le by lia.
Qed.

Lemma wf_groups_hash D max gs final seen h :
  wf_groups D max final seen gs -> h ∈ line_hashes gs -> wf_desc (D h).
Proof.
  revert final seen. induction gs as [|g gs IH]; intros final seen Hwf;
    [by intros []%elem_of_nil|].
  destruct Hwf as ((_ & Hd & _) & _ & Hgs). unfold line_hashes.
  rewrite list_bind_cons, elem_of_app. intros [[-> _]%elem_of_replicate|Hh]; [done|by eapply IH].
Qed.

(** Ranging over a map by its keys, where each value has its key in it. *)
Lemma chunk_range_keys {K V} `{Countable K} (range : gmap K V -> list (K * V)) (m : gmap K V)
    (key : V -> K) :
  range m ≡ₚ map_to_list m -> (forall k v, m !! k = Some v -> key v = k) ->
  key <$> (range m).*2 ≡ₚ (map_to_list m).*1.
Proof.
  intros Hr Hk. rewrite Hr, <- list_fmap_compose. apply Permutation_refl'. apply list_fmap_ext.
  intros i [k v] Hi%list_elem_of_lookup_2%elem_of_map_to_list. by apply Hk.
Qed.


(** Output that ends inside a chunk makes the reader loop for ever: the
    loop over the lines of a chunk ignores that [Scan] found nothing, so no
    amount of fuel brings a result. *)
Theorem processNextChunk_truncated max h orig final n st repo b e fuel :
  wf_hash h -> 0 <= orig -> 0 <= final < 2 ^ 63 -> 0 < n < 2 ^ 63 ->
  clean_line max (header_line h orig final ++ " "%char :: uitoa n) ->
  processNextChunk fuel
    (mkScanner max [header_line h orig final ++ " "%char :: uitoa n] b e) st repo = None.
Proof.
  intros Hh Ho Hf Hn Hcl. unfold processNextChunk. rewrite Scan_clean by done. cbn [sc_bytes].
  destruct (find_chunk_header h orig final n Hh Ho ltac:(lia) ltac:(lia)) as (m & -> & -> & -> & ->).
  rewrite Atoi_uitoa by lia. generalize (header_line h orig final ++ " "%char :: uitoa n) as b0.
  assert (forall fuel b e st cur, is_Some (by_hash st !! h) ->
    chunk_loop fuel h (mkScanner max [] b e) st cur n = None) as Hloop.
  { clear -Hn. induction fuel as [|fuel IH]; intros b e st cur [c Hc]; cbn [chunk_loop];
      rewrite decide_False by lia; [done|]. cbn [Scan snd sc_bytes].
    unfold chunk_line. rewrite Hc. cbn [deref mbind res_bind].
    assert (find LineInChunkHeader [] = None) as -> by reflexivity. cbn [has_prefix].
    destruct (alreadyFilled c); [by apply IH; eexists|].
    assert (info_line c [] = Ok c) as -> by by destruct c. cbn [mbind res_bind].
    apply IH. simpl. rewrite lookup_insert_eq. by eexists. }
  intros b0. rewrite Hloop; [done|]. unfold open_chunk. simpl. rewrite lookup_insert_eq. by eexists.
Qed.

(** A line that should open a chunk and does not ends the reading silently:
    [GitBlameBlob] returns what it read so far and no error. *)
Theorem blame_loop_malformed max l rest b e st repo fuel :
  clean_line max l -> find BlameChunkHeader l = None ->
  blame_loop (S fuel) (mkScanner max (l :: rest) b e) st repo = Some (Ok st).
Proof.
  intros Hl Hf. cbn [blame_loop]. unfold processNextChunk. rewrite Scan_clean by done.
  cbn [sc_bytes]. rewrite Hf. done.
Qed.

(** The line [previous] of a commit, as the reader takes it apart. *)
Example previous_line_cut :
  (c ← info_line (newChunk (replicate 40 "a"%char) "r"%str)
         ("previous "%str ++ replicate 40 "c"%char ++ " old.go"%str);
   Ok (PreviousCommitHash c, PreviousFilename c)) =
  Ok ("previous ccccccccccccccccccccccccccccccc"%str, "cccccccc old.go"%str).
Proof. vm_compute. reflexivity. Qed.

(** * Witnesses *)
Definition sample_hash (c : ascii) : str := replicate 40 c.
Definition sample_desc (h : str) : desc :=
  Desc "Ann"%str "<a@x>"%str 1677217274 "+0000"%str "Bob"%str "<b@x>"%str 1677217275 "+0000"%str
    "Fix"%str (if decide (head h = Some "a"%char) then Some (sample_hash "c", "old.go"%str) else None)
    "f.go"%str.
Definition sample_groups : list bgroup :=
  [Group (sample_hash "a") 1 true ["one"; "two"]%str; Group (sample_hash "b") 4 true ["three"]%str;
   Group (sample_hash "a") 3 false ["four"]%str; Group (sample_hash "a") 9 false ["five"]%str].

Lemma sample_groups_wf : wf_groups sample_desc MaxScanTokenSize 1 [] sample_groups.
Proof.
  assert (forall final g, wf_hash (g_hash g) -> wf_desc (sample_desc (g_hash g)) -> g_lines g <> [] ->
    0 <= g_orig g -> 0 <= final -> final + Z.of_nat (length (g_lines g)) < 2 ^ 63 ->
    Forall (clean_line MaxScanTokenSize) (group_lines sample_desc final g) ->
    wf_group sample_desc MaxScanTokenSize final g) as Hg by (intros; by split_and!).
  repeat split; try (apply Hg; by_decide); try by_decide.
Defined.


Lemma processNextChunk_truncated_witness :
  processNextChunk 1000
    (mkScanner 100 [header_line (sample_hash "a") 1 1 ++ " "%char :: uitoa 2] [] false)
    (mkBlame ∅ ∅) "r"%str = None.
Proof.
  apply (processNextChunk_truncated 100 (sample_hash "a") 1 1 2); [by_decide|lia|lia|lia|by_decide].
Defined.

Lemma blame_loop_malformed_witness :
  blame_loop 5 (mkScanner 100 ["fatal: no such path"%str] [] false) (mkBlame ∅ ∅) "r"%str =
  Some (Ok (mkBlame ∅ ∅)).
Proof. apply (blame_loop_malformed 100); [by_decide|vm_compute; reflexivity]. Defined.
