(* ===== verification/GitShow.v ===== *)
(** * One commit: [server/fileviewer/fileview.go], [ScanGitShowEntry] and
      [GitShowCommit]

    [git show -z] prints the fields of the commit, the diff stat and the
    diffs, separated by NUL bytes; [ScanGitShowEntry] is the split function
    of the scanner that reads them, [show_of_entries] the rest of the
    handler on the entries in order. *)
From S2P Require Import Prelude GoStrings Config GoRegexp Scanner GitLog.

(** ** The split function *)

(** [(advance, token)]; a nil token asks for more data. *)
Definition ScanGitShowEntry (data : str) (atEOF : bool) : nat * option str :=
  if atEOF && bool_decide (data = []) then (0%nat, None)
  else match index_byte NUL data with
       | Some i => (S i, Some (dropCR (take i data)))
       | None => if atEOF then (length data, Some (dropCR data)) else (0%nat, None)
       end.

(** The tokens of a reader that delivers the pieces [chunks]: [buf] is what
    the scanner holds. *)
Fixpoint scan_entries (fuel : nat) (buf : str) (chunks : list str) : list str :=
  match fuel with
  | O => []
  | S fuel =>
      match ScanGitShowEntry buf (bool_decide (chunks = [])) with
      | (n, Some t) => t :: scan_entries fuel (drop n buf) chunks
      | (_, None) => match chunks with
                     | [] => []
                     | c :: chunks => scan_entries fuel (buf ++ c) chunks
                     end
      end
  end.

(** ** The result *)
Record DiffLine := mkDiffLine { dl_Line : str; dl_LineType : str }.
Record Diff := mkShowDiff {
  df_Header : str; df_HeaderLines : list str; df_ChunkLine : str;
  df_Lines : list DiffLine; df_HunkNum : Z;
}.
Record StatLine := mkStat {
  st_Path : str; st_LinesChanged : str;
  st_GraphStringPlus : str; st_GraphStringMinus : str; st_HunkNum : Z;
}.
Record DiffStat := mkDiffStat { StatLines : list StatLine; SummaryLine : str }.
Record ShowCommit := mkShowCommit {
  sc_Hash : str; sc_ShortHash : str; ParentHashes : list str; ParentShortHashes : list str;
  sc_AuthorName : str; sc_AuthorEmail : str; sc_Subject : str; sc_Date : str; sc_Body : str;
}.
Record GitShow := mkShow { gs_Commit : ShowCommit; Diffs : list Diff; gs_DiffStat : DiffStat }.
#[export] Instance StatLine_eq_dec : EqDecision StatLine.
Proof. solve_decision. Defined.
#[export] Instance DiffLine_eq_dec : EqDecision DiffLine.
Proof. solve_decision. Defined.
#[export] Instance Diff_eq_dec : EqDecision Diff.
Proof. solve_decision. Defined.

(** [bytes.Buffer.ReadBytes('\n')]: a line with its end, and the rest; an
    unterminated line is an error. *)
Definition ReadLine (buf : str) : option (str * str) :=
  '(l, rest) ← cut LF buf; Some (l ++ [LF], rest).

(** ** The diff stat *)

(** A run of non-spaces (1), a bar between spaces, digits (2), the rest (3). *)
Definition diffStatLineRegex : re :=
  RSeq [RGroup 1 (RStar true (RChr (class_not class_s))); RStar true RSpace; RLit "|"%str;
        RStar true RSpace; RGroup 2 (RStar true (RChr class_d)); RStar true RSpace;
        RGroup 3 (RStar true (RChr class_dot))].

(** From the first to the last occurrence of [c]. *)
Definition graph_part (c : ascii) (s : str) : str :=
  match index_byte c s, last_index_byte c s with
  | Some i, Some j => take (S j - i) (drop i s)
  | _, _ => []
  end.

Fixpoint stat_loop (fuel : nat) (buf : str) (hunkNum : Z) (lines : list StatLine) : DiffStat :=
  match fuel with
  | O => mkDiffStat lines []
  | S fuel =>
      match ReadLine buf with
      | None => mkDiffStat lines []
      | Some (line, buf) =>
          match find diffStatLineRegex line with
          | None => mkDiffStat lines line
          | Some m =>
              let graphString := group m 3 in
              stat_loop fuel buf (hunkNum + 1)
                (lines ++ [mkStat (group m 1) (group m 2)
                             (graph_part "+" graphString) (graph_part "-" graphString) hunkNum])
          end
      end
  end.

Definition parse_stat (entry : str) : DiffStat :=
  let buf := match ReadLine entry with Some (_, rest) => rest | None => [] end in
  stat_loop (S (length buf)) buf 0 [].

(** ** The diffs *)
Definition show_line_type (s : str) : str :=
  match s with
  | c :: _ => if decide (c = "+"%char) then "insert"%str
              else if decide (c = "-"%char) then "delete"%str else "context"%str
  | [] => []
  end.

(** The body of the loop: [diffs] are finished, [curr] is [currDif]. *)
Definition diff_step (s : str) (diffs : list Diff) (curr : option Diff) (hunkNum : Z)
    : res unit (list Diff * option Diff * Z) :=
  if has_prefix "diff"%str s then
    let '(diffs, hunkNum) := match curr with
                             | Some d => (diffs ++ [d], hunkNum + 1)
                             | None => (diffs, hunkNum)
                             end in
    Ok (diffs, Some (mkShowDiff s [] [] [] hunkNum), hunkNum)
  else
    (** every other line goes to [currDif], a nil pointer before the first diff *)
    d ← deref curr;
    let '(mkShowDiff h hl cl ls n) := d in
    if has_prefix "@@"%str s then Ok (diffs, Some (mkShowDiff h hl s ls n), hunkNum)
    else if decide (cl = []) then Ok (diffs, Some (mkShowDiff h (hl ++ [s]) cl ls n), hunkNum)
    else Ok (diffs, Some (mkShowDiff h hl cl (ls ++ [mkDiffLine s (show_line_type s)]) n), hunkNum).

Fixpoint diff_loop (fuel : nat) (buf : str) (diffs : list Diff) (curr : option Diff) (hunkNum : Z)
    : res unit (list Diff) :=
  match fuel, ReadLine buf with
  | S fuel, Some (s, buf) =>
      '(diffs, curr, hunkNum) ← diff_step s diffs curr hunkNum;
      diff_loop fuel buf diffs curr hunkNum
  | _, _ => Ok (diffs ++ match curr with Some d => [d] | None => [] end)
  end.

Definition parse_diffs (entry : str) : res unit (list Diff) :=
  diff_loop (S (length entry)) entry [] None 0.

(** ** The handler *)

(** After the last entry [Scan] fails and [Bytes] is empty. *)
Definition show_of_entries (entries : list str) : res unit GitShow :=
  let e i := default [] (entries !! i) in
  let commit := mkShowCommit (e 0%nat) (e 1%nat) (split " " (e 2%nat)) (split " " (e 3%nat))
    (e 4%nat) (e 5%nat) (e 6%nat) (e 7%nat) (e 8%nat) in
  diffs ← parse_diffs (e 10%nat);
  Ok (mkShow commit diffs (parse_stat (e 9%nat))).

Definition customShowFormat : str :=
  "format:%H%x00%h%x00%P%x00%p%x00%an%x00%ae%x00%s%x00%ai%x00%b%x00"%str.
Definition showArgs (repoPath commit : str) : list str :=
  ["-C"%str; repoPath; "show"%str; commit; "--patch-with-stat"%str;
   "--pretty="%str ++ customShowFormat; "-z"%str; "--first-parent"%str;
   "--diff-algorithm=histogram"%str].

Section git.
(** The process delivers its output in pieces, whatever they are. *)
Context (git : list str -> option (list str)).

Definition GitShowCommit (repo : RepoConfig) (commit : str) : res unit GitShow :=
  match git (showArgs (repo_Path repo) commit) with
  | None => Err tt
  | Some chunks =>
      show_of_entries (scan_entries (S (2 * length (mjoin chunks) + length chunks)) [] chunks)
  end.
End git.

(** * The split function sees one stream *)

(** A token found in a part of the data is the token of the whole. *)
Lemma ScanGitShowEntry_more data more atEOF n t :
  ScanGitShowEntry data false = (n, Some t) ->
  ScanGitShowEntry (data ++ more) atEOF = (n, Some t) /\ (0 < n <= length data)%nat.
Proof.
  unfold ScanGitShowEntry. cbn [andb]. destruct (index_byte NUL data) as [i|] eqn:E; [|done].
  intros [= <- <-]. apply index_byte_spec in E as (a & b & -> & Ha & <-).
  rewrite <- app_assoc. cbn [app].
  assert (index_byte NUL (a ++ NUL :: b ++ more) = Some (length a)) as ->
    by (apply index_byte_spec; by exists a, (b ++ more)).
  rewrite bool_decide_false by by destruct a. rewrite andb_false_r.
  rewrite !take_app_length. split; [done|]. rewrite length_app. simpl. lia.
Qed.

Lemma scan_entries_nil_buf fuel chunks :
  (length chunks < fuel)%nat -> Forall (.= []) chunks -> scan_entries fuel [] chunks = [].
Proof.
  intros Hf Hc. revert fuel Hf. induction Hc as [|c chunks -> _ IH]; intros fuel Hf;
    (destruct fuel as [|fuel]; [simpl in Hf; lia|]); cbn [scan_entries]; [done|].
  rewrite bool_decide_false by done. cbn. apply IH. simpl in Hf. lia.
Qed.

(** The entries of a text that is all there. *)
Definition entries_of (text : str) : list str := scan_entries (S (length text)) text [].

Lemma entries_fuel fuel text :
  (length text < fuel)%nat -> scan_entries fuel text [] = entries_of text.
Proof.
  unfold entries_of. revert text.
  assert (forall n text f1 f2, (length text <= n)%nat -> (length text < f1)%nat ->
    (length text < f2)%nat -> scan_entries f1 text [] = scan_entries f2 text []) as Hgen.
  { induction n as [|n IH]; intros text f1 f2 Hn H1 H2.
    - destruct text; [|simpl in Hn; lia]. by destruct f1, f2.
    - destruct f1 as [|f1], f2 as [|f2]; [lia..|]. cbn [scan_entries].
      rewrite bool_decide_true by done. destruct (ScanGitShowEntry text true) as [k [t|]] eqn:E; [|done].
      f_equal. destruct text as [|a text]; [done|].
      assert (0 < k)%nat.
      { unfold ScanGitShowEntry in E. simpl in E.
        destruct (decide (a = NUL)); [simplify_eq/=; lia|].
        destruct (index_byte NUL text); simplify_eq/=; lia. }
      cbn [length] in *. apply IH; rewrite length_drop; cbn [length]; lia. }
  intros text Hf. apply (Hgen (length text)); lia.
Qed.

(** How the output of git is cut into entries does not depend on the sizes
    in which it arrives: reading the pieces one by one yields the entries of
    the whole text. *)
Theorem scan_entries_chunks buf chunks fuel :
  (2 * length (buf ++ mjoin chunks) + length chunks < fuel)%nat ->
  scan_entries fuel buf chunks = entries_of (buf ++ mjoin chunks).
Proof.
  revert buf chunks. induction fuel as [|fuel IH]; intros buf chunks Hf; [lia|].
  destruct chunks as [|c chunks].
  { cbn [mjoin list_join] in *. rewrite app_nil_r in *. apply entries_fuel. lia. }
  cbn [scan_entries]. rewrite bool_decide_false by done.
  destruct (ScanGitShowEntry buf false) as [n [t|]] eqn:E.
  - destruct (ScanGitShowEntry_more buf (mjoin (c :: chunks)) true n t E) as [E' Hn].
    rewrite IH by (rewrite length_app in Hf |- *; rewrite length_drop; cbn [length] in *; lia).
    rewrite <- (entries_fuel (S (length (buf ++ mjoin (c :: chunks)))) (buf ++ _)) by lia.
    cbn [scan_entries]. rewrite bool_decide_true by done. rewrite E'. f_equal.
    rewrite drop_app_le by lia.
    symmetry. apply entries_fuel. rewrite !length_app, length_drop. lia.
  - rewrite IH.
    + cbn [mjoin list_join]. by rewrite <- app_assoc.
    + change (mjoin (c :: chunks)) with (c ++ mjoin chunks) in Hf. cbn [length] in Hf.
      rewrite <- app_assoc. lia.
Qed.

(** * The diffs *)
Record sdiff := SDiff { s_header : str; s_extra : list str; s_hunks : list (str * list str) }.

Definition sdiff_lines (d : sdiff) : list str :=
  s_header d :: s_extra d ++ (s_hunks d ≫= fun h => h.1 :: h.2).

Definition hunk_line (l : str) : Prop :=
  (LF ∉ l) /\ has_prefix "diff"%str l = false /\ has_prefix "@@"%str l = false.
Definition wf_sdiff (d : sdiff) : Prop :=
  (LF ∉ s_header d) /\ has_prefix "diff"%str (s_header d) = true /\
  Forall hunk_line (s_extra d) /\
  Forall (fun h => (LF ∉ h.1) /\ has_prefix "@@"%str h.1 = true /\
    Forall (fun l => l <> [] /\ hunk_line l) h.2) (s_hunks d).
#[export] Instance hunk_line_dec l : Decision (hunk_line l).
Proof. unfold hunk_line. apply _. Defined.
#[export] Instance wf_sdiff_dec d : Decision (wf_sdiff d).
Proof. unfold wf_sdiff. apply _. Defined.

Definition eol (l : str) : str := l ++ [LF].

(** What is shown of a diff: the last hunk header stands for all of them. *)
Definition shown_diff (n : nat) (d : sdiff) : Diff :=
  mkShowDiff (eol (s_header d)) (eol <$> s_extra d)
    (default [] ((fun h => eol h.1) <$> last (s_hunks d)))
    ((s_hunks d ≫= snd) ≫= fun l => [mkDiffLine (eol l) (show_line_type (eol l))])
    (Z.of_nat n).

Definition diff_state : Type := list Diff * option Diff * Z.
Definition diff_step' (st : diff_state) (s : str) : res unit diff_state :=
  let '(diffs, curr, n) := st in diff_step s diffs curr n.

Lemma diff_step'_eq diffs curr n s : diff_step' (diffs, curr, n) s = diff_step s diffs curr n.
Proof. done. Qed.

(** The loop is a fold over the lines. *)
Lemma diff_loop_fold ls fuel diffs curr n :
  Forall (fun l => LF ∉ l) ls -> (length ls < fuel)%nat ->
  diff_loop fuel (unlines ls) diffs curr n =
  ('(diffs, curr, _) ← foldM diff_step' (eol <$> ls) (diffs, curr, n);
   Ok (diffs ++ match curr with Some d => [d] | None => [] end)).
Proof.
  intros Hls. revert fuel diffs curr n. induction Hls as [|l ls Hl _ IH]; intros fuel diffs curr n Hf;
    (destruct fuel as [|fuel]; [simpl in Hf; lia|]); [done|].
  unfold unlines. rewrite list_bind_cons, <- app_assoc. cbn [app diff_loop]. fold (unlines ls).
  unfold ReadLine. rewrite cut_app by done. cbn [mbind option_bind fmap list_fmap foldM].
  rewrite diff_step'_eq. change (l ++ [LF]) with (eol l).
  destruct (diff_step (eol l) diffs curr n) as [[[ds c] m]| |]; [|done|done].
  cbn [mbind res_bind]. apply IH. simpl in Hf. lia.
Qed.

Lemma has_prefix_eol p l :
  LF ∉ p -> has_prefix p (eol l) = has_prefix p l.
Proof.
  unfold eol. revert l. induction p as [|a p IH]; intros l Hp; [done|].
  apply not_elem_of_cons in Hp as [Ha Hp]. destruct l as [|b l]; simpl.
  - by rewrite decide_False.
  - case_decide; [by apply IH|done].
Qed.

Lemma step_other l diffs h hl cl ls m n :
  hunk_line l -> diff_step (eol l) diffs (Some (mkShowDiff h hl cl ls m)) n =
  Ok (diffs, Some (if decide (cl = []) then mkShowDiff h (hl ++ [eol l]) cl ls m
                   else mkShowDiff h hl cl (ls ++ [mkDiffLine (eol l) (show_line_type (eol l))]) m), n).
Proof.
  intros (_ & H1 & H2). unfold diff_step. rewrite !has_prefix_eol by by_decide. rewrite H1, H2.
  cbn [deref mbind res_bind]. by case_decide.
Qed.

Lemma step_hunk l diffs h hl cl ls m n :
  has_prefix "@@"%str l = true ->
  diff_step (eol l) diffs (Some (mkShowDiff h hl cl ls m)) n =
  Ok (diffs, Some (mkShowDiff h hl (eol l) ls m), n).
Proof.
  intros H. unfold diff_step. rewrite !has_prefix_eol by by_decide. rewrite H.
  assert (has_prefix "diff"%str l = false) as ->; [|done].
  apply has_prefix_spec in H as [t ->]. reflexivity.
Qed.

Lemma fold_extra extra diffs h hl m n :
  Forall hunk_line extra ->
  foldM diff_step' (eol <$> extra) (diffs, Some (mkShowDiff h hl [] [] m), n) =
  Ok (diffs, Some (mkShowDiff h (hl ++ (eol <$> extra)) [] [] m), n).
Proof.
  intros He. revert hl. induction He as [|l extra Hl _ IH]; intros hl; cbn [fmap list_fmap foldM].
  - by rewrite app_nil_r.
  - rewrite diff_step'_eq, step_other by done. cbn [mbind res_bind].
    rewrite decide_True, IH by done. by rewrite <- app_assoc.
Qed.

Lemma fold_lines body diffs h hl cl ls m n :
  cl <> [] -> Forall (fun l => l <> [] /\ hunk_line l) body ->
  foldM diff_step' (eol <$> body) (diffs, Some (mkShowDiff h hl cl ls m), n) =
  Ok (diffs, Some (mkShowDiff h hl cl
        (ls ++ (body ≫= fun l => [mkDiffLine (eol l) (show_line_type (eol l))])) m), n).
Proof.
  intros Hcl Hb. revert ls. induction Hb as [|l body [_ Hl] _ IH]; intros ls; cbn [fmap list_fmap foldM].
  - by rewrite app_nil_r.
  - rewrite diff_step'_eq, step_other by done. cbn [mbind res_bind].
    rewrite decide_False, IH by done. rewrite list_bind_cons. by rewrite <- app_assoc.
Qed.

Lemma fold_hunks hunks diffs h hl cl ls m n :
  Forall (fun h => (LF ∉ h.1) /\ has_prefix "@@"%str h.1 = true /\
    Forall (fun l => l <> [] /\ hunk_line l) h.2) hunks ->
  foldM diff_step' (eol <$> (hunks ≫= fun h => h.1 :: h.2))
    (diffs, Some (mkShowDiff h hl cl ls m), n) =
  Ok (diffs, Some (mkShowDiff h hl (default cl ((fun h => eol h.1) <$> last hunks))
        (ls ++ ((hunks ≫= snd) ≫= fun l => [mkDiffLine (eol l) (show_line_type (eol l))])) m), n).
Proof.
  intros Hh. revert cl ls. induction Hh as [|[hd body] hunks (_ & Hhd & Hb) _ IH]; intros cl ls.
  - by rewrite app_nil_r.
  - rewrite !list_bind_cons, fmap_app, foldM_app. cbn [fst snd fmap list_fmap foldM].
    rewrite diff_step'_eq, step_hunk by done. cbn [mbind res_bind].
    rewrite fold_lines by (try done; by destruct hd). cbn [mbind res_bind].
    rewrite IH, bind_app, <- app_assoc. do 4 f_equal. f_equal.
    destruct hunks as [|h' hunks]; [done|]. cbn [last]. rewrite last_cons.
    by destruct (last hunks).
Qed.

Lemma fold_diffs ds diffs curr n :
  Forall wf_sdiff ds -> (curr = None -> diffs = [] /\ n = 0) ->
  let done := diffs ++ match curr with Some d => [d] | None => [] end in
  n = Z.of_nat (length diffs) ->
  exists diffs' curr' n', foldM diff_step' (eol <$> (ds ≫= sdiff_lines)) (diffs, curr, n) =
    Ok (diffs', curr', n') /\
    diffs' ++ match curr' with Some d => [d] | None => [] end =
    done ++ imap (fun i => shown_diff (length done + i)) ds.
Proof.
  intros Hds. revert diffs curr n. induction Hds as [|d ds (Hlf & Hpre & Hex & Hhk) _ IH];
    intros diffs curr n Hc dn Hn.
  { exists diffs, curr, n. split; [done|]. by rewrite app_nil_r. }
  rewrite list_bind_cons. unfold sdiff_lines at 1.
  rewrite fmap_app, foldM_app, fmap_cons, fmap_app. cbn [foldM].
  assert (diff_step' (diffs, curr, n) (eol (s_header d)) =
    Ok (dn, Some (mkShowDiff (eol (s_header d)) [] [] [] (Z.of_nat (length dn))),
        Z.of_nat (length dn))) as ->.
  { unfold diff_step', diff_step. rewrite has_prefix_eol, Hpre by by_decide. unfold dn.
    destruct curr as [c|].
    - rewrite length_app, Hn. simpl. replace (Z.of_nat (length diffs) + 1)
        with (Z.of_nat (length diffs + 1)) by lia. done.
    - destruct (Hc eq_refl) as [-> ->]. done. }
  cbn [mbind res_bind]. rewrite foldM_app, fold_extra by done. cbn [mbind res_bind].
  rewrite fold_hunks by done. cbn [mbind res_bind].
  destruct (IH dn (Some (shown_diff (length dn) d)) (Z.of_nat (length dn)) ltac:(done) eq_refl)
    as (diffs' & curr' & n' & E & E2).
  exists diffs', curr', n'. split; [exact E|]. rewrite E2, <- app_assoc. f_equal.
  cbn [app imap]. rewrite Nat.add_0_r. f_equal. apply imap_ext. intros i x _.
  rewrite length_app. simpl. f_equal. lia.
Qed.


(** * Witnesses *)
Definition sample_show : list str :=
  ["h"; "s"; "p q"; "p"; "Ann"; "a@x"; "Sub"; "2023"; "Body"]%str.

Lemma scan_entries_chunks_witness :
  scan_entries 100 [] ["aa"%str ++ [NUL]; []; "b"%str; "c"%str ++ [NUL] ++ "d"%str] =
  ["aa"; "bc"; "d"]%str.
Proof. apply (scan_entries_chunks [] ["aa"%str ++ [NUL]; []; "b"%str; "c"%str ++ [NUL] ++ "d"%str] 100).
  by apply Nat.ltb_lt. Defined.

Definition sample_sdiffs : list sdiff :=
  [SDiff "diff --git a/f b/f"%str ["--- a/f"; "+++ b/f"]%str
     [("@@ -1 +1 @@", [" x"; "-y"; "+z"]); ("@@ -9 +9 @@", ["+w"])]%str;
   SDiff "diff --git a/g b/g"%str ["Binary files differ"]%str []].

