(* ===== verification/DirTree.v ===== *)
(** * The directory tree: [server/fileviewer/fileview.go], [buildDirectoryTree]

    The output of [git ls-tree -r -t -z] lists a tree in pre-order with full
    paths; the code rebuilds the tree with a pointer to the directory it is
    in.  The nodes live in a store indexed by address, as the Go code shares
    them between [Children] and [ParentDir]; address 0 is the root. *)
From S2P Require Import Prelude GoStrings GoPath.

(** [api.TreeNode] *)
Record TreeNode := mkNode {
  tn_Name : str; tn_Path : str; tn_Mode : Z; tn_Hash : str;
  ParentDir : option nat; tn_Type : str; Children : list nat;
}.
Abbreviation store := (list TreeNode).

Inductive TreeErr := ErrLsTree | ErrSize | ErrMode.
#[export] Instance TreeErr_eq_dec : EqDecision TreeErr.
Proof. solve_decision. Defined.

(** One line: name, type, hash and mode of the entry. *)
Definition parse_line (line : str) : res TreeErr (str * str * str * Z) :=
  tabPos ← or_err ErrLsTree (index_byte TAB line);
  let info := splitn " " 4 (take tabPos line) in
  let name := drop (S tabPos) line in
  match info with
  | [mode; typ; sha; size] =>
      let sizeStr := TrimSpace size in
      _ ← (if decide (sizeStr = "-"%str) then Ok 0
           else match ParseInt 10 64 sizeStr with
                | Some size => if size <? 0 then Err ErrSize else Ok size
                | None => Err ErrSize
                end);
      modeVal ← or_err ErrMode (ParseInt 8 32 mode);
      Ok (name, typ, sha, modeVal)
  | _ => Err ErrLsTree
  end.

(** [for prevDepth > pathDepth { currDir = currDir.ParentDir; prevDepth -= 1 }] *)
Fixpoint climb (n : nat) (st : store) (currDir : option nat) : res TreeErr (option nat) :=
  match n with
  | O => Ok currDir
  | S n => i ← deref currDir; d ← deref (st !! i); climb n st (ParentDir d)
  end.

Record tree_state := mkTreeState {
  ts_store : store; ts_currDir : option nat; ts_prevDepth : nat;
}.

Definition add_child (st : store) (i j : nat) : store :=
  alter (fun d => mkNode (tn_Name d) (tn_Path d) (tn_Mode d) (tn_Hash d) (ParentDir d) (tn_Type d)
                    (Children d ++ [j])) i st.

(** The body of the loop. *)
Definition tree_step (ts : tree_state) (line : str) : res TreeErr tree_state :=
  '(name, typ, sha, mode) ← parse_line line;
  let pathDepth := count_byte "/" name in
  let st := ts_store ts in
  currDir ← climb (ts_prevDepth ts - pathDepth) st (ts_currDir ts);
  let prevDepth := (ts_prevDepth ts `min` pathDepth)%nat in
  i ← deref currDir;
  let j := length st in
  let is_tree := bool_decide (typ = "tree"%str) in
  let treeEntry := mkNode (Base name) name mode sha (if is_tree then Some i else None) typ [] in
  let st := add_child st i j ++ [treeEntry] in
  Ok (if is_tree then mkTreeState st (Some j) (S prevDepth)
      else mkTreeState st (Some i) prevDepth).

Definition rootDir : TreeNode := mkNode "root"%str [] 0 [] None [] [].

Definition buildDirectoryTree (out : str) : res TreeErr store :=
  let lines := split NUL out in
  ts ← foldM tree_step (removelast lines) (mkTreeState [rootDir] (Some 0%nat) 0);
  Ok (ts_store ts).

Section git.
Context (git : list str -> option str).
Definition GetLsTreeOutput (repo commit : str) : res TreeErr str :=
  or_err ErrLsTree (git ["-C"%str; repo; "ls-tree"%str; "--long"%str; "--full-name"%str; "-z"%str;
                         "-r"%str; "-t"%str; commit]).
(** The relative path is not used: the tree is always that of the root. *)
Definition BuildDirectoryTree (relativePath repo commit : str) : res TreeErr store :=
  out ← GetLsTreeOutput repo commit;
  buildDirectoryTree out.
End git.

(** * Pointers *)

(** The directory [k] levels above [i]. *)
Fixpoint ancestor (st : store) (k i : nat) : option nat :=
  match k with
  | O => match st !! i with Some _ => Some i | None => None end
  | S k => d ← st !! i; p ← ParentDir d; ancestor st k p
  end.

Lemma add_child_lookup st i j k :
  add_child st i j !! k =
  (fun d => if decide (k = i) then mkNode (tn_Name d) (tn_Path d) (tn_Mode d) (tn_Hash d)
      (ParentDir d) (tn_Type d) (Children d ++ [j]) else d) <$> st !! k.
Proof.
  unfold add_child. destruct (decide (k = i)) as [->|].
  - by rewrite list_lookup_alter_eq.
  - rewrite list_lookup_alter_ne by done. by destruct (st !! k).
Qed.

Lemma length_add_child st i j : length (add_child st i j) = length st.
Proof. apply length_alter. Qed.

(** [st'] has the nodes of [st], with the same parents. *)
Definition same_parents (st st' : store) : Prop :=
  forall k d, st !! k = Some d -> exists d', st' !! k = Some d' /\ ParentDir d' = ParentDir d.

Lemma same_parents_refl st : same_parents st st.
Proof. intros k d Hk. by exists d. Qed.

Lemma same_parents_trans st1 st2 st3 :
  same_parents st1 st2 -> same_parents st2 st3 -> same_parents st1 st3.
Proof.
  intros H12 H23 k d Hk. destruct (H12 k d Hk) as (d2 & H2 & E2).
  destruct (H23 k d2 H2) as (d3 & H3 & E3). exists d3. split; [done|congruence].
Qed.

Lemma same_parents_step st i j x : same_parents st (add_child st i j ++ [x]).
Proof.
  intros k d Hk. rewrite lookup_app_l.
  - rewrite add_child_lookup, Hk. simpl. eexists. split; [done|]. by case_decide.
  - rewrite length_add_child. by eapply lookup_lt_Some.
Qed.

Lemma ancestor_same st st' k i p :
  same_parents st st' -> ancestor st k i = Some p -> ancestor st' k i = Some p.
Proof.
  intros Hs. revert i. induction k as [|k IH]; intros i Ha; simpl in *.
  - destruct (st !! i) as [d|] eqn:E; [|done]. by destruct (Hs i d E) as (d' & -> & _).
  - destruct (st !! i) as [d|] eqn:E; [|done]. destruct (Hs i d E) as (d' & -> & Hp).
    simpl in *. rewrite Hp. destruct (ParentDir d); [|done]. simpl in *. by apply IH.
Qed.

Lemma climb_ancestor st k i p :
  ancestor st k i = Some p -> climb k st (Some i) = Ok (Some p).
Proof.
  revert i. induction k as [|k IH]; intros i Ha; simpl in *.
  - destruct (st !! i); by simplify_eq.
  - destruct (st !! i) as [d|]; [|done]. simpl in *.
    destruct (ParentDir d) as [q|]; [|done]. simpl in *. by apply IH.
Qed.

Lemma ancestor_add st a k i q p :
  ancestor st a i = Some q -> ancestor st k q = Some p -> ancestor st (a + k) i = Some p.
Proof.
  revert i. induction a as [|a IH]; intros i Ha Hk; simpl in *.
  - destruct (st !! i); by simplify_eq.
  - destruct (st !! i) as [d|]; [|done]. simpl in *. destruct (ParentDir d); [|done].
    simpl in *. by apply IH.
Qed.

Lemma ancestor_split st a k i p :
  ancestor st (a + k) i = Some p -> exists q, ancestor st a i = Some q /\ ancestor st k q = Some p.
Proof.
  revert i. induction a as [|a IH]; intros i Ha; simpl in *.
  - exists i. split; [|done]. destruct k; simpl in Ha; by destruct (st !! i).
  - destruct (st !! i) as [d|]; [|done]. simpl in *. destruct (ParentDir d); [|done].
    simpl in *. by apply IH.
Qed.

Lemma ancestor_lookup st k i p : ancestor st k i = Some p -> is_Some (st !! p).
Proof.
  revert i. induction k as [|k IH]; intros i Ha; simpl in *.
  - destruct (st !! i) eqn:E; simplify_eq. by eexists.
  - destruct (st !! i) as [d|]; [|done]. simpl in *. destruct (ParentDir d); [|done].
    simpl in *. by eapply IH.
Qed.

(** ** No line makes the builder panic *)

(** The depth counter counts the directories between [currDir] and the root. *)
Definition tree_ok (ts : tree_state) : Prop :=
  exists i, ts_currDir ts = Some i /\ ancestor (ts_store ts) (ts_prevDepth ts) i = Some 0%nat.

Lemma parse_line_no_panic line : parse_line line <> Panic.
Proof.
  unfold parse_line. destruct (index_byte TAB line) as [i|]; [|done]. cbn [or_err mbind res_bind].
  destruct (splitn " " 4 _) as [|? [|? [|? [|? []]]]]; try done.
  case_decide; [|destruct (ParseInt 10 64 _) as [z|]; [|done]; destruct (z <? 0); [done|]];
    cbn [mbind res_bind]; by destruct (ParseInt 8 32 _).
Qed.

(** One line: where the entry goes. *)
Lemma tree_step_ok ts line i k :
  ts_currDir ts = Some i -> ancestor (ts_store ts) (ts_prevDepth ts) i = Some k ->
  match parse_line line with
  | Ok (name, typ, sha, mode) =>
      let depth := (ts_prevDepth ts `min` count_byte "/" name)%nat in
      exists p, ancestor (ts_store ts) (ts_prevDepth ts - depth) i = Some p /\
        ancestor (ts_store ts) depth p = Some k /\
        let st := add_child (ts_store ts) p (length (ts_store ts)) in
        let j := length (ts_store ts) in
        tree_step ts line = Ok
          (if bool_decide (typ = "tree"%str)
           then mkTreeState (st ++ [mkNode (Base name) name mode sha (Some p) typ []]) (Some j) (S depth)
           else mkTreeState (st ++ [mkNode (Base name) name mode sha None typ []]) (Some p) depth)
  | Err e => tree_step ts line = Err e
  | Panic => False
  end.
Proof.
  intros Hi Hk. pose proof (parse_line_no_panic line) as Hp. unfold tree_step.
  destruct (parse_line line) as [[[[name typ] sha] mode]|e|]; [|done|done].
  cbn [mbind res_bind].
  set (depth := (ts_prevDepth ts `min` count_byte "/" name)%nat).
  replace (ts_prevDepth ts) with ((ts_prevDepth ts - depth) + depth)%nat in Hk by lia.
  apply ancestor_split in Hk as (p & Hp1 & Hp2). exists p. split_and!; [done|done|].
  replace (ts_prevDepth ts - count_byte "/" name)%nat with (ts_prevDepth ts - depth)%nat by lia.
  rewrite Hi, (climb_ancestor _ _ _ p Hp1). cbn [mbind res_bind deref]. by case_bool_decide.
Qed.

(** The new entry knows its way to the root. *)
Lemma ancestor_new_dir st p d k name path mode sha typ :
  ancestor st d p = Some k ->
  ancestor (add_child st p (length st) ++ [mkNode name path mode sha (Some p) typ []])
    (S d) (length st) = Some k.
Proof.
  intros Ha. cbn [ancestor]. rewrite lookup_app_r by (rewrite length_add_child; lia).
  rewrite length_add_child, Nat.sub_diag. simpl.
  eapply ancestor_same; [|exact Ha]. apply same_parents_step.
Qed.

Lemma tree_step_inv ts line ts' :
  tree_ok ts -> tree_step ts line = Ok ts' -> tree_ok ts'.
Proof.
  intros (i & Hi & Ha) E. pose proof (tree_step_ok ts line i 0%nat Hi Ha) as H.
  destruct (parse_line line) as [[[[name typ] sha] mode]|e|]; [|congruence|done].
  destruct H as (p & _ & Hp & E'). rewrite E' in E. injection E as <-.
  case_bool_decide; eexists; (split; [done|]); cbn [ts_store ts_prevDepth].
  - by apply ancestor_new_dir.
  - eapply ancestor_same; [apply same_parents_step|done].
Qed.

(** Whatever git printed, the directory builder returns a tree or an error:
    it never climbs above the root and never follows a nil directory. *)
Theorem buildDirectoryTree_no_panic out : buildDirectoryTree out <> Panic.
Proof.
  unfold buildDirectoryTree.
  assert (forall ls ts, tree_ok ts -> foldM tree_step ls ts <> Panic) as Hgen.
  { induction ls as [|l ls IH]; intros ts Hok; [done|]. cbn [foldM].
    destruct (tree_step ts l) as [ts'|e|] eqn:E; cbn [mbind res_bind]; [|done|].
    - apply IH. by eapply tree_step_inv.
    - exfalso. destruct Hok as (i & Hi & Ha). pose proof (tree_step_ok ts l i 0%nat Hi Ha) as H.
      destruct (parse_line l) as [[[[??]?]?]|e|]; [|congruence|done].
      destruct H as (p & _ & _ & E'). by rewrite E' in E. }
  specialize (Hgen (removelast (split NUL out)) (mkTreeState [rootDir] (Some 0%nat) 0)).
  destruct (foldM _ _ _); simpl; try done. exfalso. apply Hgen; [|done]. by exists 0%nat.
Qed.
