(* ===== verification/DirTreeSpec.v ===== *)
(** * The directory tree: the listing is read back *)
From S2P Require Import Prelude GoStrings GoPath DirTree.

(** * The text git prints *)
Inductive entry :=
  | Blob (name typ mode hash size : str)     (** a file, a link or a submodule *)
  | Dir (name mode hash size : str) (children : list entry).

Definition entry_line (path typ mode hash size : str) : str :=
  mode ++ " "%char :: typ ++ " "%char :: hash ++ " "%char :: size ++ TAB :: path.

(** The lines of an entry under the directory prefix [pre], in pre-order. *)
Fixpoint ls_tree (pre : str) (e : entry) : list str :=
  match e with
  | Blob name typ mode hash size => [entry_line (pre ++ name) typ mode hash size]
  | Dir name mode hash size cs =>
      entry_line (pre ++ name) "tree"%str mode hash size
      :: (cs ≫= ls_tree (pre ++ name ++ "/"%str))
  end.

Fixpoint entry_size (e : entry) : nat :=
  match e with
  | Blob _ _ _ _ _ => 1
  | Dir _ _ _ _ cs => S (sum_list_with entry_size cs)
  end.

Definition field_ok (f : str) : Prop := (" "%char ∉ f) /\ (TAB ∉ f) /\ (NUL ∉ f).
Definition size_ok (size : str) : Prop :=
  (TAB ∉ size) /\ (NUL ∉ size) /\
  (TrimSpace size = "-"%str \/
   exists n, ParseInt 10 64 (TrimSpace size) = Some n /\ 0 <= n).
Definition name_ok (name : str) : Prop := name <> [] /\ ("/"%char ∉ name) /\ (NUL ∉ name).

Fixpoint wf_entry (e : entry) : Prop :=
  match e with
  | Blob name typ mode hash size =>
      name_ok name /\ field_ok typ /\ typ <> "tree"%str /\ field_ok mode /\
      is_Some (ParseInt 8 32 mode) /\ field_ok hash /\ size_ok size
  | Dir name mode hash size cs =>
      name_ok name /\ field_ok mode /\ is_Some (ParseInt 8 32 mode) /\ field_ok hash /\
      size_ok size /\ foldr (fun e P => wf_entry e /\ P) True cs
  end.

(** * The nodes of a listing in the store *)
Inductive rep (st : store) : nat -> nat -> str -> list nat -> list entry -> Prop :=
  | rep_nil lo i pre : rep st lo i pre [] []
  | rep_blob lo i pre j js name typ mode hash size es m :
      (lo <= j)%nat -> ParseInt 8 32 mode = Some m ->
      st !! j = Some (mkNode name (pre ++ name) m hash None typ []) ->
      rep st lo i pre js es ->
      rep st lo i pre (j :: js) (Blob name typ mode hash size :: es)
  | rep_dir lo i pre j js ks name mode hash size cs es m :
      (lo <= j)%nat -> ParseInt 8 32 mode = Some m ->
      st !! j = Some (mkNode name (pre ++ name) m hash (Some i) "tree"%str ks) ->
      rep st lo j (pre ++ name ++ "/"%str) ks cs ->
      rep st lo i pre js es ->
      rep st lo i pre (j :: js) (Dir name mode hash size cs :: es).

Lemma rep_mono st st' lo lo' i pre js es :
  (lo' <= lo)%nat -> (forall j d, (lo <= j)%nat -> st !! j = Some d -> st' !! j = Some d) ->
  rep st lo i pre js es -> rep st' lo' i pre js es.
Proof.
  intros Hlo Hst Hr. revert lo' Hlo Hst. induction Hr; intros lo' Hlo Hst.
  - constructor.
  - eapply rep_blob; eauto. lia.
  - eapply rep_dir; eauto. lia.
Qed.

(** * One line *)
Lemma splitn4 a b c d :
  " "%char ∉ a -> " "%char ∉ b -> " "%char ∉ c ->
  splitn " " 4 (a ++ " "%char :: b ++ " "%char :: c ++ " "%char :: d) = [a; b; c; d].
Proof. intros. by rewrite !splitn_cut. Qed.

Lemma parse_entry_line path typ mode hash size m :
  field_ok typ -> field_ok mode -> field_ok hash -> size_ok size -> ParseInt 8 32 mode = Some m ->
  parse_line (entry_line path typ mode hash size) = Ok (path, typ, hash, m).
Proof.
  intros (Ht1 & Ht2 & _) (Hm1 & Hm2 & _) (Hh1 & Hh2 & _) (Hs1 & _ & Hs2) Hm.
  set (info := mode ++ " "%char :: typ ++ " "%char :: hash ++ " "%char :: size).
  assert (entry_line path typ mode hash size = info ++ TAB :: path) as ->.
  { unfold entry_line, info. by repeat (rewrite <- ?app_assoc, <- ?app_comm_cons). }
  assert (TAB ∉ info) as Hi.
  { unfold info. repeat first [apply not_elem_of_app; split|apply not_elem_of_cons; split|done]. }
  unfold parse_line.
  assert (index_byte TAB (info ++ TAB :: path) = Some (length info)) as ->
    by (apply index_byte_spec; by exists info, path).
  cbn [or_err mbind res_bind]. rewrite take_app_length.
  rewrite drop_app, drop_ge by lia. replace (S (length info) - length info)%nat with 1%nat by lia.
  cbn [drop app]. unfold info. rewrite splitn4 by done.
  destruct Hs2 as [Hs2|(n & Hn & Hpos)].
  - rewrite decide_True by done. cbn [mbind res_bind]. by rewrite Hm.
  - case_decide as Hd; [by rewrite Hd in Hn|]. rewrite Hn.
    rewrite (proj2 (Z.ltb_ge _ _)) by done. cbn [mbind res_bind]. by rewrite Hm.
Qed.

(** A directory prefix: empty, or ending in a slash. *)
Definition dir_prefix (pre : str) : Prop := pre = [] \/ exists p, pre = p ++ "/"%str.

Lemma split_last_app c p name :
  c ∉ name -> last (split c (p ++ c :: name)) = Some name.
Proof.
  intros Hn. induction p as [|a p IH]; cbn [app split].
  - rewrite decide_True by done. by rewrite split_nosep.
  - pose proof (split_not_nil c (p ++ c :: name)). case_decide.
    + destruct (split c (p ++ c :: name)); [done|]. by rewrite last_cons, IH.
    + destruct (split c (p ++ c :: name)) as [|w ws] eqn:E; [done|].
      destruct ws as [|w' ws].
      * exfalso. pose proof (length_split c (p ++ c :: name)) as Hl. rewrite E in Hl.
        unfold count_byte in Hl. rewrite filter_app, filter_cons_True, length_app in Hl by done.
        simpl in Hl. lia.
      * done.
Qed.

Lemma Base_name pre name : dir_prefix pre -> name_ok name -> Base (pre ++ name) = name.
Proof.
  intros Hpre (Hne & Hs & _). unfold Base.
  destruct (pre ++ name) as [|c p] eqn:E; [by destruct pre, name|]. rewrite <- E. clear E c p.
  assert (strip_slashes (reverse (pre ++ name)) = reverse (pre ++ name)) as ->.
  { rewrite reverse_app. destruct (reverse name) as [|a r] eqn:E.
    - apply (f_equal reverse) in E. by rewrite reverse_involutive in E.
    - assert (a <> "/"%char) as Ha.
      { intros ->. apply Hs. apply elem_of_reverse. rewrite E. by left. }
      by destruct a as [[] [] [] [] [] [] [] []]. }
  destruct (reverse (pre ++ name)) as [|a r] eqn:E.
  { apply (f_equal reverse) in E. rewrite reverse_involutive in E. by destruct pre, name. }
  rewrite <- E, reverse_involutive. destruct Hpre as [->|[p ->]].
  - cbn [app]. by rewrite split_nosep.
  - rewrite <- app_assoc. cbn [app]. by rewrite split_last_app.
Qed.

Definition depth (pre : str) : nat := count_byte "/" pre.

Lemma depth_name pre name : name_ok name -> count_byte "/" (pre ++ name) = depth pre.
Proof.
  intros (_ & Hs & _). unfold depth, count_byte. rewrite filter_app, length_app.
  assert (filter (.= "/"%char) name = []) as ->; [|simpl; lia].
  induction name as [|a name IH]; [done|]. apply not_elem_of_cons in Hs as [? ?].
  rewrite filter_cons_False by done. by apply IH.
Qed.

Lemma depth_dir pre name : name_ok name -> depth (pre ++ name ++ "/"%str) = S (depth pre).
Proof.
  intros Hn. unfold depth. rewrite app_assoc. unfold count_byte. rewrite filter_app, length_app.
  fold (count_byte "/" (pre ++ name)). rewrite depth_name by done. simpl. unfold depth, count_byte. lia.
Qed.

(** * The whole listing *)
Definition forest_size (es : list entry) : nat := sum_list_with entry_size es.
Definition wf_forest (es : list entry) : Prop := foldr (fun e P => wf_entry e /\ P) True es.
Definition forest_lines (pre : str) (es : list entry) : list str := es ≫= ls_tree pre.

(** The state [ts] is inside directory [i] at depth [dep]: climbing to that
    depth leads to [i]. *)
Definition inside (ts : tree_state) (dep i : nat) : Prop :=
  exists c, ts_currDir ts = Some c /\ (dep <= ts_prevDepth ts)%nat /\
    ancestor (ts_store ts) (ts_prevDepth ts - dep) c = Some i /\
    ancestor (ts_store ts) dep i = Some 0%nat.

Definition with_children (d : TreeNode) (js : list nat) : TreeNode :=
  mkNode (tn_Name d) (tn_Path d) (tn_Mode d) (tn_Hash d) (ParentDir d) (tn_Type d) (Children d ++ js).

(** [st'] extends [st]: only directory [i] changed, by the children [js]. *)
Definition extends (st st' : store) (i : nat) (js : list nat) : Prop :=
  (forall k d, k <> i -> st !! k = Some d -> st' !! k = Some d) /\
  (forall d, st !! i = Some d -> st' !! i = Some (with_children d js)).

Lemma extends_refl st i : extends st st i [].
Proof. split; [done|]. intros [] ?. unfold with_children. simpl. by rewrite app_nil_r. Qed.

Lemma extends_trans st1 st2 st3 i js1 js2 :
  extends st1 st2 i js1 -> extends st2 st3 i js2 -> extends st1 st3 i (js1 ++ js2).
Proof.
  intros [H1 H1'] [H2 H2']. split.
  - intros k d Hk E. apply H2, H1; done.
  - intros d E. rewrite (H2' _ (H1' d E)). unfold with_children. simpl. by rewrite app_assoc.
Qed.

Lemma extends_same_parents st st' i js : extends st st' i js -> same_parents st st'.
Proof.
  intros [H1 H2] k d Hk. destruct (decide (k = i)) as [->|].
  - eexists. split; [by apply H2|done].
  - exists d. split; [by apply H1|done].
Qed.

Lemma extends_length st st' i js : extends st st' i js -> (length st <= length st')%nat.
Proof.
  intros H. destruct (decide (length st <= length st')%nat) as [|Hn]; [done|].
  destruct (lookup_lt_is_Some_2 st (length st')) as [d Hd]; [lia|].
  destruct (extends_same_parents _ _ _ _ H _ _ Hd) as (d' & Hd' & _).
  apply lookup_lt_Some in Hd'. lia.
Qed.

Lemma ancestor_self st i : (i < length st)%nat -> ancestor st 0 i = Some i.
Proof. intros Hi. simpl. by destruct (lookup_lt_is_Some_2 st i Hi) as [d ->]. Qed.

(** Filling the directory that was just added does not touch the others. *)
Lemma extends_inner st1 st2 st3 i j ks :
  (i < j)%nat -> (length st1 <= j)%nat -> extends st1 st2 i [j] -> extends st2 st3 j ks ->
  extends st1 st3 i [j].
Proof.
  intros Hij Hj [H1 H2] [H3 H4]. split.
  - intros k d Hk E. apply H3; [|by apply H1]. apply lookup_lt_Some in E. lia.
  - intros d E. apply H3; [lia|]. by apply H2.
Qed.

(** A new last child of [i]. *)
Lemma extends_add st i x :
  extends st (add_child st i (length st) ++ [x]) i [length st].
Proof.
  split.
  - intros k d Hk E. rewrite lookup_app_l, add_child_lookup, E.
    + simpl. by rewrite decide_False.
    + rewrite length_add_child. by eapply lookup_lt_Some.
  - intros d E. rewrite lookup_app_l, add_child_lookup, E.
    + simpl. by rewrite decide_True.
    + rewrite length_add_child. by eapply lookup_lt_Some.
Qed.

Lemma new_node_lookup st i x : (add_child st i (length st) ++ [x]) !! length st = Some x.
Proof.
  rewrite lookup_app_r by (rewrite length_add_child; lia).
  by rewrite length_add_child, Nat.sub_diag.
Qed.

(** One line, from inside directory [i]. *)
Lemma tree_step_line ts pre i name typ mode hash size m :
  dir_prefix pre -> inside ts (depth pre) i ->
  name_ok name -> field_ok typ -> field_ok mode -> field_ok hash -> size_ok size ->
  ParseInt 8 32 mode = Some m ->
  let st := ts_store ts in
  let j := length st in
  tree_step ts (entry_line (pre ++ name) typ mode hash size) = Ok
    (if bool_decide (typ = "tree"%str)
     then mkTreeState (add_child st i j ++ [mkNode name (pre ++ name) m hash (Some i) typ []])
            (Some j) (S (depth pre))
     else mkTreeState (add_child st i j ++ [mkNode name (pre ++ name) m hash None typ []])
            (Some i) (depth pre)).
Proof.
  intros Hpre (c & Hc & Hle & Ha & Ha0) Hn Ht Hmode Hh Hs Hm st j.
  pose proof (ancestor_add _ _ _ _ _ _ Ha Ha0) as Hall.
  replace (ts_prevDepth ts - depth pre + depth pre)%nat with (ts_prevDepth ts) in Hall by lia.
  pose proof (tree_step_ok ts (entry_line (pre ++ name) typ mode hash size) c 0%nat Hc Hall) as H.
  rewrite (parse_entry_line _ typ mode hash size m) in H by done.
  rewrite depth_name in H by done. cbn zeta in H.
  replace (ts_prevDepth ts `min` depth pre)%nat with (depth pre) in H by lia.
  destruct H as (p & Hp & _ & E). assert (p = i) as -> by congruence.
  rewrite Base_name in E by done. exact E.
Qed.

Lemma process_forest n es pre ts i :
  (forest_size es <= n)%nat -> wf_forest es -> dir_prefix pre -> inside ts (depth pre) i ->
  exists ts' js, foldM tree_step (forest_lines pre es) ts = Ok ts' /\
    inside ts' (depth pre) i /\ extends (ts_store ts) (ts_store ts') i js /\
    rep (ts_store ts') (length (ts_store ts)) i pre js es.
Proof.
  revert es pre ts i. induction n as [|n IH]; intros es pre ts i Hsz Hwf Hpre Hin.
  { destruct es as [|e es].
    - exists ts, []. split_and!; [done|done|apply extends_refl|constructor].
    - destruct e; unfold forest_size in Hsz; simpl in Hsz; lia. }
  destruct es as [|e es].
  { exists ts, []. split_and!; [done|done|apply extends_refl|constructor]. }
  pose proof Hin as (c0 & _ & _ & _ & Ha0).
  assert (i < length (ts_store ts))%nat as Hilt.
  { destruct (depth pre); simpl in Ha0; destruct (ts_store ts !! i) eqn:E; try done;
      by eapply lookup_lt_Some. }
  destruct Hwf as [He Hwf]. unfold forest_lines. rewrite list_bind_cons, foldM_app.
  set (j := length (ts_store ts)) in *.
  destruct e as [name typ mode hash size|name mode hash size cs]; cbn [ls_tree].
  - destruct He as (Hn & Ht & Htt & Hm & [m Hpm] & Hh & Hs). cbn [foldM].
    rewrite (tree_step_line ts pre i name typ mode hash size m) by done.
    rewrite bool_decide_false by done. cbn [mbind res_bind]. fold j.
    set (x := mkNode name (pre ++ name) m hash None typ []).
    set (ts1 := mkTreeState (add_child (ts_store ts) i j ++ [x]) (Some i) (depth pre)).
    assert (extends (ts_store ts) (ts_store ts1) i [j]) as Hext1 by apply extends_add.
    destruct (IH es pre ts1 i) as (ts' & js & E & Hin' & Hext & Hrep); [|done|done| |].
    + unfold forest_size in *. simpl in Hsz. lia.
    + exists i. split_and!; [done|done| |].
      * cbn [ts_prevDepth ts1]. rewrite Nat.sub_diag.
        apply ancestor_self. cbn [ts_store ts1]. rewrite length_app, length_add_child. fold j. lia.
      * eapply ancestor_same; [by eapply extends_same_parents|done].
    + exists ts', (j :: js). split_and!; [exact E|done| |].
      * apply (extends_trans _ _ _ _ _ _ Hext1 Hext).
      * eapply rep_blob; [done|done| |].
        -- apply Hext; [lia|]. apply new_node_lookup.
        -- eapply rep_mono; [|done|exact Hrep]. cbn [ts_store ts1].
           rewrite length_app, length_add_child. lia.
  - destruct He as (Hn & Hm & [m Hpm] & Hh & Hs & Hcs). cbn [foldM].
    rewrite (tree_step_line ts pre i name "tree"%str mode hash size m) by (done || by_decide).
    rewrite bool_decide_true by done. cbn [mbind res_bind]. fold j.
    set (x := mkNode name (pre ++ name) m hash (Some i) "tree"%str []).
    set (ts1 := mkTreeState (add_child (ts_store ts) i j ++ [x]) (Some j) (S (depth pre))).
    assert (extends (ts_store ts) (ts_store ts1) i [j]) as Hext1 by apply extends_add.
    assert (ts_store ts1 !! j = Some x) as Hj by apply new_node_lookup.
    assert (ancestor (ts_store ts1) (S (depth pre)) j = Some 0%nat) as Haj
      by by apply ancestor_new_dir.
    fold (forest_lines (pre ++ name ++ "/"%str) cs).
    destruct (IH cs (pre ++ name ++ "/"%str) ts1 j) as (ts2 & ks & E2 & Hin2 & Hext2 & Hrep2).
    + unfold forest_size in *. simpl in Hsz. lia.
    + exact Hcs.
    + right. exists (pre ++ name). by rewrite app_assoc.
    + rewrite depth_dir by done. exists j. split_and!; [done|done| |done].
      cbn [ts_prevDepth ts1]. rewrite Nat.sub_diag. cbn [ancestor]. by rewrite Hj.
    + rewrite E2. cbn [mbind res_bind].
      assert (ts_store ts2 !! j = Some (with_children x ks)) as Hj2 by by apply Hext2.
      assert (inside ts2 (depth pre) i) as Hin2'.
      { rewrite depth_dir in Hin2 by done. destruct Hin2 as (c & Hc & Hle & Hac & _).
        exists c. split_and!; [done|lia| |].
        - replace (ts_prevDepth ts2 - depth pre)%nat
            with ((ts_prevDepth ts2 - S (depth pre)) + 1)%nat by lia.
          eapply ancestor_add; [exact Hac|]. cbn [ancestor]. rewrite Hj2. simpl.
          destruct (lookup_lt_is_Some_2 (ts_store ts) i Hilt) as [d Hd].
          destruct (extends_same_parents _ _ _ _ Hext1 _ _ Hd) as (d1 & Hd1 & _).
          destruct (extends_same_parents _ _ _ _ Hext2 _ _ Hd1) as (d2 & -> & _). done.
        - eapply ancestor_same; [by eapply extends_same_parents|].
          eapply ancestor_same; [by eapply extends_same_parents|done]. }
      destruct (IH es pre ts2 i) as (ts' & js & E & Hin' & Hext & Hrep); [|done|done|done|].
      { unfold forest_size in *. simpl in Hsz. lia. }
      assert (length (ts_store ts1) = S j) as Hlen1.
      { cbn [ts_store ts1]. rewrite length_app, length_add_child. simpl. lia. }
      pose proof (extends_length _ _ _ _ Hext2) as Hlen2.
      assert (ts_store ts' !! j = Some (with_children x ks)) as Hj' by (by apply Hext; [lia|]).
      exists ts', (j :: js). split_and!; [exact E|done| |].
      * apply (extends_trans _ (ts_store ts2) _ _ [j] js); [|done].
        by apply (extends_inner _ (ts_store ts1) _ _ _ ks).
      * eapply (rep_dir _ _ _ _ _ _ ks); [done|done|exact Hj'| |].
        -- eapply rep_mono; [|intros k d Hk Hkd; apply Hext; [|exact Hkd]|exact Hrep2]; lia.
        -- eapply rep_mono; [|done|exact Hrep]. lia.
Qed.

(** C6: the listing git prints for a tree, of any depth, is read back as that
    tree: under the root hang the nodes of its entries in order, each with its
    name, full path, type, mode and hash, each directory pointing back to its
    parent and holding exactly its own entries. *)
Theorem buildDirectoryTree_listing es :
  wf_forest es -> Forall (fun l => NUL ∉ l) (forest_lines [] es) ->
  exists st ks, buildDirectoryTree (forest_lines [] es ≫= fun l => l ++ [NUL]) = Ok st /\
    st !! 0%nat = Some (mkNode "root"%str [] 0 [] None [] ks) /\ rep st 1 0 [] ks es.
Proof.
  intros Hwf Hnul. unfold buildDirectoryTree.
  assert (split NUL (forest_lines [] es ≫= fun l => l ++ [NUL]) = forest_lines [] es ++ [ [] ]) as ->.
  { rewrite <- (app_nil_r (forest_lines [] es ≫= _)). by rewrite split_terminated. }
  rewrite removelast_last.
  destruct (process_forest (forest_size es) es [] (mkTreeState [rootDir] (Some 0%nat) 0) 0%nat)
    as (ts & ks & E & _ & Hext & Hrep); [done|done|by left|by exists 0%nat|].
  rewrite E. cbn [mbind res_bind]. exists (ts_store ts), ks. split_and!; [done| |done].
  by apply (proj2 Hext rootDir).
Qed.

(** * Witnesses *)
Definition sample_forest : list entry :=
  [Dir "cmd" "040000" "d1" "      -"
     [Dir "lg" "040000" "d2" "      -" [Blob "main.go" "blob" "100644" "b1" "    600"];
      Blob "x" "commit" "160000" "c1" "      -"];
   Blob "go.mod" "blob" "100644" "b2" "     42"]%str.

Lemma sample_forest_wf : wf_forest sample_forest.
Proof.
  unfold wf_forest, sample_forest. cbn [foldr wf_entry].
  repeat match goal with |- _ /\ _ => split | |- True => exact I end;
    lazymatch goal with
    | |- name_ok _ => unfold name_ok; by_decide
    | |- field_ok _ => unfold field_ok; by_decide
    | |- size_ok ?s => unfold size_ok; split; [by_decide|split; [by_decide|]];
        first [left; reflexivity|right; eexists; split; [vm_compute; reflexivity|lia]]
    | |- is_Some _ => eexists; vm_compute; reflexivity
    | |- _ => by_decide
    end.
Defined.

Lemma buildDirectoryTree_listing_witness :
  exists st ks,
    buildDirectoryTree (forest_lines [] sample_forest ≫= fun l => l ++ [NUL]) = Ok st /\
    st !! 0%nat = Some (mkNode "root"%str [] 0 [] None [] ks) /\ rep st 1 0 [] ks sample_forest.
Proof. apply buildDirectoryTree_listing; [exact sample_forest_wf|by_decide]. Defined.
