(* ===== verification/Listing.v ===== *)
(** * Files, directories and refs: [server/fileviewer/fileview.go],
      [gitParseTreeEntry] to [buildDirectoryListEntry], [BuildFileData],
      [BuildFileDataForZoektFilePreview], [ListAllBranches], [ListAllTags]

    The git commands are the argument [git]: their arguments to their output,
    [None] when the command fails. *)
From S2P Require Import Prelude GoStrings GoMap GoUrl Config GoRegexp GoPath GoSort Scanner GitLog.

Record gitTreeEntry := mkTreeEntry {
  Mode : str; ObjectType : str; ObjectId : str; ObjectName : str;
}.
#[export] Instance gitTreeEntry_eq_dec : EqDecision gitTreeEntry.
Proof. solve_decision. Defined.

Record directoryListEntry := mkDirEntry {
  de_Name : str; de_Path : str; IsDir : bool; SymlinkTarget : str;
}.
#[export] Instance directoryListEntry_eq_dec : EqDecision directoryListEntry.
Proof. solve_decision. Defined.

Record SourceFileContent := mkSource {
  Content : str; LineCount : Z; Language : str; sf_FileName : str; sf_FilePath : str;
}.
Record directoryContent := mkDirContent {
  Entries : list directoryListEntry; ReadmeContent : option SourceFileContent;
}.

(** [DirListingSort.Less]: directories first, then by name. *)
Definition dir_less (a b : directoryListEntry) : bool :=
  if bool_decide (IsDir a = IsDir b) then str_ltb (de_Name a) (de_Name b) else IsDir a.

(** [dataFields[1]], [dataFields[2]] and [dataAndPath[1]] panic when absent. *)
Definition gitParseTreeEntry (line : str) : res unit gitTreeEntry :=
  let dataAndPath := splitn TAB 2 line in
  data ← deref (dataAndPath !! 0%nat);
  let dataFields := split " " data in
  mode ← deref (dataFields !! 0%nat);
  typ ← deref (dataFields !! 1%nat);
  id ← deref (dataFields !! 2%nat);
  name ← deref (dataAndPath !! 1%nat);
  Ok (mkTreeEntry mode typ id name).

Definition migrationUrl (repo path rev : str) : str :=
  "/experimental/"%str ++ repo ++ "/+/"%str ++ rev ++ ":"%str ++ path.

(** The maps from file names and extensions to languages. *)
Definition filenameToLangMap : gmap str str :=
  list_to_map [("BUILD", "python"); ("BUILD.bazel", "python"); ("WORKSPACE", "python")]%str.
Definition extToLangMap : gmap str str :=
  list_to_map [(".adoc", "AsciiDoc"); (".asc", "AsciiDoc"); (".asciidoc", "AsciiDoc");
   (".AppleScript", "applescript"); (".bzl", "python"); (".c", "c"); (".coffee", "coffeescript");
   (".cpp", "cpp"); (".css", "css"); (".go", "go"); (".h", "cpp"); (".hs", "haskell");
   (".html", "html"); (".java", "java"); (".js", "javascript"); (".json", "json"); (".jsx", "jsx");
   (".m", "objectivec"); (".markdown", "markdown"); (".md", "markdown"); (".mdown", "markdown");
   (".mkdn", "markdown"); (".mediawiki", "markdown"); (".nix", "nix"); (".php", "php");
   (".pl", "perl"); (".proto", "go"); (".py", "python"); (".pyst", "python"); (".rb", "ruby");
   (".rdoc", "markdown"); (".rs", "rust"); (".scala", "scala"); (".scpt", "applescript");
   (".scss", "scss"); (".sh", "bash"); (".sky", "python"); (".sql", "sql"); (".swift", "swift");
   (".textile", "markdown"); (".ts", "typescript"); (".tsx", "tsx"); (".wiki", "markdown");
   (".xml", "xml"); (".yaml", "yaml"); (".yml", "yaml")]%str.

(** Reading a missing key of a map gives the empty string. *)
Definition map_get (m : gmap str str) (k : str) : str := default [] (m !! k).

Definition supportedReadmeExtensions : list str :=
  ["markdown"; "mdown"; "mkdn"; "md"; "textile"; "rdoc"; "org"; "creole"; "mediawiki"; "wiki";
   "rst"; "asciidoc"; "adoc"; "asc"; "pod"]%str.

(** [(?i)] on a letter: either case. *)
Definition either_case (c : ascii) : re :=
  RChr (fun r => rune_is c r || (r =? byte_val c - 32)).

(** [readme] in any case (1), an optional dot, one of the extensions (2). *)
Definition buildReadmeRegex (exts : list str) : re :=
  RSeq [RGroup 1 (RSeq (either_case <$> "readme"%str)); ROpt (RLit "."%str);
        RGroup 2 (RAlts (RLit <$> exts))].

(** [strings.ToLower(name) == "readme"]: no rune outside ASCII lowers to a
    letter of [readme]. *)
Definition is_readme (name : str) : bool := bool_decide (lower_ascii <$> name = "readme"%str).

Record readme := mkReadme { rm_path : str; rm_lang : str; rm_name : str }.

(** What one entry contributes to the search for the readme. *)
Definition readme_of (exts : list str) (obj name : str) : option readme :=
  if is_readme name then Some (mkReadme (obj ++ name) "md"%str name)
  else m ← find (buildReadmeRegex exts) name;
       Some (mkReadme (obj ++ group m 0) (group m 2) (group m 0)).

(** [BuildFileData] keeps the first readme, the Zoekt preview the last. *)
Definition first_readme (exts : list str) (obj : str) (names : list str) : option readme :=
  head (omap (readme_of exts obj) names).
Definition last_readme (exts : list str) (obj : str) (names : list str) : option readme :=
  last (omap (readme_of exts obj) names).

(** [strings.ToLower]-free version of the language of a file. *)
Definition file_language (cleanPath : str) : str :=
  let language := map_get filenameToLangMap (Base cleanPath) in
  if decide (language = []) then map_get extToLangMap (Ext cleanPath) else language.

Record FileViewerContext := mkContext {
  fv_PathSegments : list breadCrumbEntry;
  fv_Commit : str; CommitHash : str; ShortCommitHash : str;
  DirContent : option directoryContent; FileContent : option SourceFileContent;
  ExternalDomain : str; Permalink : str; Headlink : str;
  FilePath : str; FileName : str; MigrationUrl : str;
}.

(** Both nil dereferences the nil directory. *)
Definition getFileNameAndPathFromContent (fc : option SourceFileContent)
    (dc : option directoryContent) : res unit (str * str) :=
  match fc with
  | Some fc => Ok (sf_FileName fc, sf_FilePath fc)
  | None => dc ← deref dc;
            match ReadmeContent dc with
            | Some r => Ok (sf_FileName r, sf_FilePath r)
            | None => Ok ([], [])
            end
  end.

(** The host name of the repository's URL pattern. *)
Definition externalDomain (repo : RepoConfig) : str :=
  match Parse (default [] (repo_Metadata repo !! "url_pattern"%str)) with
  | Some url => Hostname url
  | None => "external viewer"%str
  end.

Section git.
Context `{!GoSort} (git : list str -> option str).
(** The order in which [sort.Slice] leaves the readme extensions. *)
Context (exts : list str).

Definition gitCommitHash (ref repoPath : str) : option str :=
  git ["-C"%str; repoPath; "rev-parse"%str; ref].
Definition gitObjectType (obj repoPath : str) : option str :=
  TrimSpace <$> git ["-C"%str; repoPath; "cat-file"%str; "-t"%str; obj].
Definition gitCatBlob (obj repoPath : str) : option str :=
  git ["-C"%str; repoPath; "cat-file"%str; "blob"%str; obj].

Definition GitRevParseAbbrev (rev repoPath : str) : option str :=
  TrimSpace <$> git ["-C"%str; repoPath; "rev-parse"%str; "--abbrev-ref"%str; rev].
(** The cleaned path is computed and not used. *)
Definition GitGetLastRevToTouchPath (relativePath repoPath repoRev : str) : option str :=
  TrimSpace <$> git ["-C"%str; repoPath; "rev-list"%str; "-1"%str; repoRev; "--"%str; relativePath].

Definition gitListDir (obj repoPath : str) : res unit (list gitTreeEntry) :=
  out ← or_err tt (git ["-C"%str; repoPath; "cat-file"%str; "-p"%str; obj]);
  mapR gitParseTreeEntry (removelast (split LF out)).

Definition buildDirectoryListEntry (treeEntry : gitTreeEntry)
    (pathFromRoot repoName repoPath commitHash : str) (useViewUrl : bool) : directoryListEntry :=
  let is_dir := bool_decide (ObjectType treeEntry = "tree"%str) in
  let '(fileUrl, symlinkTarget) :=
    if decide (Mode treeEntry = "120000"%str)
    then ([], default [] (gitCatBlob (ObjectId treeEntry) repoPath))
    else (getFileUrl repoName pathFromRoot (ObjectName treeEntry) commitHash is_dir useViewUrl, []) in
  mkDirEntry (ObjectName treeEntry) fileUrl is_dir symlinkTarget.

(** [commitHash = out[:strings.Index(out, "\n")]], if git knows the commit. *)
Definition resolve_commit (commit repoPath : str) : res unit str :=
  match gitCommitHash commit repoPath with
  | Some out => i ← deref (index_byte LF out); Ok (take i out)
  | None => Ok commit
  end.

Definition clean_path (relativePath : str) : str :=
  let p := Clean relativePath in if decide (p = "."%str) then [] else p.

(** The content of a directory: its entries sorted, and its readme. *)
Definition dir_content (obj cleanPath relativePath repoName repoPath commitHash : str)
    (useViewUrl : bool) (pick : list str -> option readme) : res unit directoryContent :=
  treeEntries ← gitListDir obj repoPath;
  let dirEntries := (fun e =>
    buildDirectoryListEntry e cleanPath repoName repoPath commitHash useViewUrl) <$> treeEntries in
  let readmeContent :=
    r ← pick (de_Name <$> dirEntries);
    content ← gitCatBlob (rm_path r) repoPath;
    Some (mkSource content (Z.of_nat (count_byte LF content))
            (map_get extToLangMap ("."%str ++ rm_lang r)) (rm_name r) relativePath) in
  Ok (mkDirContent (go_sort dir_less dirEntries) readmeContent).

Definition file_content (obj cleanPath relativePath repoPath : str) : res unit SourceFileContent :=
  content ← or_err tt (gitCatBlob obj repoPath);
  Ok (mkSource content 0 (file_language cleanPath) (Base cleanPath) relativePath).

(** The part the two builders share. *)
Definition object_content (relativePath repoName repoPath commitHash : str) (useViewUrl : bool)
    (pick : str -> list str -> option readme)
    : res unit (option SourceFileContent * option directoryContent) :=
  let cleanPath := clean_path relativePath in
  let obj := commitHash ++ ":"%str ++ cleanPath in
  objectType ← or_err tt (gitObjectType obj repoPath);
  if decide (objectType = "tree"%str) then
    d ← dir_content obj cleanPath relativePath repoName repoPath commitHash useViewUrl (pick obj);
    Ok (None, Some d)
  else if decide (objectType = "blob"%str) then
    f ← file_content obj cleanPath relativePath repoPath;
    Ok (Some f, None)
  else Ok (None, None).

Definition BuildFileDataForZoektFilePreview (relativePath repoPath repoName commit : str)
    : res unit (option SourceFileContent * option directoryContent) :=
  commitHash ← resolve_commit commit repoPath;
  object_content relativePath repoName repoPath commitHash false (last_readme exts).

Definition BuildFileData (relativePath : str) (repo : RepoConfig) (commit : str)
    : res unit FileViewerContext :=
  commitHash ← resolve_commit commit (repo_Path repo);
  let cleanPath := clean_path relativePath in
  '(fileContent, dirContent) ← object_content relativePath (repo_Name repo) (repo_Path repo)
    commitHash true (first_readme exts);
  let segments := getPathSegments (split "/" cleanPath) repo in
  permalink ← (if has_prefix commit commitHash then Ok []
               else h ← slice commitHash 0 16; Ok ("?commit="%str ++ h));
  let headlink :=
    if has_prefix commit commitHash then
      match dirContent with
      | Some _ => "."%str
      | None => default [] (crumb_Name <$> last segments)
      end
    else [] in
  '(normalizedName, normalizedPath) ← getFileNameAndPathFromContent fileContent dirContent;
  short ← slice commitHash 0 8;
  Ok (mkContext segments commit commitHash short dirContent fileContent (externalDomain repo)
        permalink headlink normalizedPath normalizedName
        (migrationUrl (repo_Name repo) cleanPath commit)).
End git.

(** ** Branches and tags *)
Record GitRef := mkRef { rf_Name : str; rf_IsHead : bool; LastActivityDate : str }.
#[export] Instance GitRef_eq_dec : EqDecision GitRef.
Proof. solve_decision. Defined.

(** [for i, j := 0, size-1; i < j; i, j = i+1, j-1 { swap(i, j) }] *)
Fixpoint swap_loop {A} (n i j : nat) (l : list A) : list A :=
  match n with
  | O => l
  | S n =>
      if decide (i < j)%nat then
        match l !! i, l !! j with
        | Some x, Some y => swap_loop n (S i) (j - 1) (<[i := y]> (<[j := x]> l))
        | _, _ => l
        end
      else l
  end.
Definition ReverseSlice {A} (s : list A) : list A := swap_loop (length s) 0 (length s - 1) s.

Definition refFormat : str := "%(HEAD)%00%(authordate:human)%00%(refname:short)"%str.

(** One line of [for-each-ref]: [words[1]] and [words[2]] panic when absent. *)
Definition parse_ref (words : list str) : res unit GitRef :=
  date ← deref (words !! 1%nat);
  name ← deref (words !! 2%nat);
  Ok (mkRef name (bool_decide (words !! 0%nat = Some "*"%str)) date).

(** The loop over the lines of a scanner. *)
Fixpoint refs_loop (fuel : nat) (parse : str -> res unit GitRef) (sc : Scanner) (refs : list GitRef)
    : res unit (list GitRef) :=
  match fuel with
  | O => Ok refs
  | S fuel =>
      match Scan sc with
      | (false, _) => Ok refs
      | (true, sc) => r ← parse (sc_bytes sc); refs_loop fuel parse sc (refs ++ [r])
      end
  end.

(** [headIdx]: the index of the last branch that is the head, or -1. *)
Definition head_index (branches : list GitRef) : Z :=
  foldl (fun acc p => if rf_IsHead p.2 then Z.of_nat p.1 else acc) (-1) (imap pair branches).

(** The head is moved to the end, then everything is reversed. *)
Definition order_branches (branches : list GitRef) : res unit (list GitRef) :=
  let headIdx := head_index branches in
  if decide (headIdx = Z.of_nat (length branches) - 1) then Ok (ReverseSlice branches)
  else if headIdx <? 0 then Panic
  else
    let i := Z.to_nat headIdx in
    tmp ← deref (branches !! i);
    Ok (ReverseSlice (take i branches ++ drop (S i) branches ++ [tmp])).

Definition maxCapacity : Z := 100 * 1024 * 1024.

Definition parseGitListTagsOutput (input : Scanner) : res unit (list GitRef) :=
  tags ← refs_loop (S (length (sc_rest input))) (fun l => parse_ref (splitn NUL 3 l)) input [];
  Ok (ReverseSlice tags).

Section refs.
Context (git : list str -> option str).
Definition refArgs (repoPath refs : str) : list str :=
  ["-C"%str; repoPath; "for-each-ref"%str; "--format="%str ++ refFormat; "--sort=authordate"%str; refs].

Definition ListAllBranches (repoPath : str) : res unit (list GitRef) :=
  out ← or_err tt (git (refArgs repoPath "refs/heads"%str));
  let sc := newScanner maxCapacity out in
  branches ← refs_loop (S (length (sc_rest sc))) (fun l => parse_ref (split NUL l)) sc [];
  order_branches branches.

Definition ListAllTags (repoPath : str) : res unit (list GitRef) :=
  out ← or_err tt (git (refArgs repoPath "refs/tags"%str));
  parseGitListTagsOutput (newScanner maxCapacity out).
End refs.
