(* ===== verification/ListingSpec.v ===== *)
(** * Files, directories and refs: what the builders promise *)
From S2P Require Import Prelude GoStrings Config GoRegexp GoPath GoSort Scanner GitLog Listing.

(** * Directory listings *)

(** [DirListingSort] is an order: directories first, then by name. *)
#[export] Instance dir_less_weak : StrictWeak dir_less.
Proof.
  split; unfold dir_less; intros *;
    repeat match goal with x : directoryListEntry |- _ => destruct x as [? ? [] ?] end; simpl;
    try done.
  1-2: by rewrite str_ltb_irrefl.
  1-2: by apply str_ltb_trans.
  all: match goal with |- str_ltb ?x ?y = false -> str_ltb ?y ?z = false -> _ =>
    destruct (str_ltb_total y x) as [->|[H|H]]; [done| |];
    destruct (str_ltb_total z y) as [->|[H'|H']]; try done; try (intros; congruence);
    intros; apply str_ltb_asym; by eapply str_ltb_trans end.
Qed.

(** The text [git cat-file -p] prints for a tree. *)
Definition tree_line (e : gitTreeEntry) : str :=
  Mode e ++ " "%char :: ObjectType e ++ " "%char :: ObjectId e ++ TAB :: ObjectName e.

Definition wf_tree_entry (e : gitTreeEntry) : Prop :=
  Forall (fun f => (" "%char ∉ f) /\ (TAB ∉ f) /\ (LF ∉ f)) [Mode e; ObjectType e; ObjectId e]
  /\ (LF ∉ ObjectName e).
#[export] Instance wf_tree_entry_dec e : Decision (wf_tree_entry e).
Proof. unfold wf_tree_entry. apply _. Defined.

Lemma parse_tree_line e : wf_tree_entry e -> gitParseTreeEntry (tree_line e) = Ok e.
Proof.
  intros [[(Hm1 & Hm2 & _) [(Ht1 & Ht2 & _) [(Hi1 & Hi2 & _) _]%Forall_cons]%Forall_cons]%Forall_cons _].
  set (info := Mode e ++ " "%char :: ObjectType e ++ " "%char :: ObjectId e).
  assert (tree_line e = info ++ TAB :: ObjectName e) as ->.
  { unfold tree_line, info. by repeat (rewrite <- ?app_assoc, <- ?app_comm_cons). }
  assert (TAB ∉ info) as Hinfo.
  { unfold info. repeat first [apply not_elem_of_app; split|apply not_elem_of_cons; split|done]. }
  unfold gitParseTreeEntry. rewrite splitn_cut by done.
  cbn [lookup list_lookup deref mbind res_bind]. unfold info.
  rewrite !split_app_sep, split_nosep by done. by destruct e.
Qed.

Lemma tree_lines_no_lf es :
  Forall wf_tree_entry es -> Forall (fun l => LF ∉ l) (tree_line <$> es).
Proof.
  intros Hes. apply Forall_fmap. eapply Forall_impl; [exact Hes|].
  intros e [[(_ & _ & Hm) [(_ & _ & Ht) [(_ & _ & Hi) _]%Forall_cons]%Forall_cons]%Forall_cons Hn].
  simpl. unfold tree_line.
  repeat first [apply not_elem_of_app; split|apply not_elem_of_cons; split|done].
Qed.

(** Listing a directory git prints gives its entries back. *)
Lemma gitListDir_print git obj repoPath es :
  Forall wf_tree_entry es ->
  git ["-C"%str; repoPath; "cat-file"%str; "-p"%str; obj] = Some (unlines (tree_line <$> es)) ->
  gitListDir git obj repoPath = Ok es.
Proof.
  intros Hes Hgit. unfold gitListDir. rewrite Hgit. cbn [or_err mbind res_bind].
  assert (removelast (split LF (unlines (tree_line <$> es))) = tree_line <$> es) as ->.
  { unfold unlines. rewrite <- (app_nil_r (_ ≫= _)), split_terminated by by apply tree_lines_no_lf.
    apply removelast_last. }
  clear Hgit. induction Hes as [|e es He _ IH]; [done|]. cbn [fmap list_fmap mapR].
  rewrite parse_tree_line by done. cbn [mbind res_bind]. by rewrite IH.
Qed.

(** C38: opening a directory shows each of its entries once, directories before
    files and each kind in byte order of the names, whatever order the library's
    sort leaves equal elements in; when names are distinct that order is unique. *)
Theorem BuildFileData_directory `{!GoSort} git exts path repo commit hash rest es :
  gitCommitHash git commit (repo_Path repo) = Some (hash ++ LF :: rest) ->
  LF ∉ hash -> length hash = 40%nat ->
  let obj := hash ++ ":"%str ++ clean_path path in
  gitObjectType git obj (repo_Path repo) = Some "tree"%str ->
  git ["-C"%str; repo_Path repo; "cat-file"%str; "-p"%str; obj] = Some (unlines (tree_line <$> es)) ->
  Forall wf_tree_entry es ->
  exists ctx dc, BuildFileData git exts path repo commit = Ok ctx /\
    DirContent ctx = Some dc /\ FileContent ctx = None /\ CommitHash ctx = hash /\
    Entries dc ≡ₚ ((fun e => buildDirectoryListEntry git e (clean_path path) (repo_Name repo)
                              (repo_Path repo) hash true) <$> es) /\
    StronglySorted (before dir_less) (Entries dc) /\
    (NoDup (ObjectName <$> es) -> forall l,
       l ≡ₚ Entries dc -> StronglySorted (before dir_less) l -> l = Entries dc).
Proof.
  intros Hhash Hlf Hlen obj Htype Hls Hes. unfold BuildFileData, resolve_commit.
  rewrite Hhash.
  assert (index_byte LF (hash ++ LF :: rest) = Some (length hash)) as ->
    by (apply index_byte_spec; by exists hash, rest).
  cbn [deref mbind res_bind]. rewrite take_app_length.
  unfold object_content. fold obj. rewrite Htype. cbn [or_err mbind res_bind].
  rewrite decide_True by done. unfold dir_content.
  rewrite (gitListDir_print git obj (repo_Path repo) es) by done. cbn [mbind res_bind].
  set (build := fun e => buildDirectoryListEntry git e (clean_path path) (repo_Name repo)
                           (repo_Path repo) hash true).
  assert (forall n, (n <= 40)%nat -> slice (E := unit) hash 0 n = Ok (take n hash)) as Hslice.
  { intros n Hn. unfold slice. rewrite decide_True by lia. by rewrite Nat.sub_0_r, drop_0. }
  match goal with |- context [if has_prefix commit hash then Ok [] else ?x] =>
    assert (exists p, (if has_prefix commit hash then Ok [] else x) = Ok p) as [p ->] end.
  { destruct (has_prefix commit hash); [by eexists|]. rewrite Hslice by lia. by eexists. }
  cbn [mbind res_bind getFileNameAndPathFromContent deref ReadmeContent].
  match goal with |- context [mkDirContent _ ?rm] => destruct rm as [r|] end;
    cbn [mbind res_bind]; rewrite Hslice by lia; cbn [mbind res_bind];
    (eexists _, _; split_and!; [done|done|done|done|apply go_sort_perm|apply go_sort_sorted, _|]);
    cbn [Entries]; intros Hnd l Hp Hs;
    (eapply (sorted_unique dir_less); [|done|apply go_sort_sorted, _|done]);
    intros x y Hx Hy Hxy Hyx; rewrite Hp, go_sort_perm in Hx, Hy;
    apply list_elem_of_fmap in Hx as (ex & -> & Hex); apply list_elem_of_fmap in Hy as (ey & -> & Hey);
    (assert (ObjectName ex = ObjectName ey) as Hn;
     [|f_equal; apply list_elem_of_lookup in Hex as [i Hi]; apply list_elem_of_lookup in Hey as [j Hj];
       assert (i = j) as ->; [|congruence];
       eapply NoDup_lookup; [exact Hnd| |]; rewrite list_lookup_fmap, ?Hi, ?Hj; simpl; by rewrite ?Hn]).
  all: unfold build, buildDirectoryListEntry, dir_less in Hxy, Hyx;
    repeat case_match; simplify_eq/=;
    repeat match goal with H : bool_decide _ = _ |- _ => revert H end;
    repeat case_bool_decide; intros; simplify_eq/=; try done;
    destruct (str_ltb_total (ObjectName ex) (ObjectName ey)) as [?|[?|?]]; congruence.
Qed.

(** * The readme of a directory *)
Lemma group0_substring (r : re) name m :
  find r name = Some m -> exists p q, name = p ++ group m 0 ++ q.
Proof. intros [_ (p & Hp & _)]%find_lang. by exists p, (m_end m). Qed.

Lemma readme_of_path exts obj name r :
  readme_of exts obj name = Some r ->
  exists s p q, rm_path r = obj ++ s /\ name = p ++ s ++ q /\ rm_name r = s.
Proof.
  unfold readme_of. case_match.
  - intros [= <-]. exists name, [], []. by rewrite app_nil_r.
  - destruct (find _ name) as [m|] eqn:E; [|done]. intros [= <-].
    destruct (group0_substring _ _ _ E) as (p & q & Hpq). by exists (group m 0), p, q.
Qed.

Lemma BuildFileData_inv `{!GoSort} git exts path repo commit ctx :
  BuildFileData git exts path repo commit = Ok ctx ->
  exists hash, resolve_commit git commit (repo_Path repo) = Ok hash /\ CommitHash ctx = hash /\
    object_content git path (repo_Name repo) (repo_Path repo) hash true (first_readme exts) =
    Ok (FileContent ctx, DirContent ctx).
Proof.
  unfold BuildFileData. destruct (resolve_commit _ _ _) as [hash| |]; cbn [mbind res_bind]; try done.
  destruct (object_content _ _ _ _ _ _ _) as [[fc dc]| |] eqn:Eo; cbn [mbind res_bind]; try done.
  intros E. exists hash. split; [done|].
  destruct (has_prefix commit hash); [|destruct (slice hash 0 16)]; cbn [mbind res_bind] in E; try done;
    destruct (getFileNameAndPathFromContent fc dc) as [[? ?]| |]; cbn [mbind res_bind] in E; try done;
    destruct (slice hash 0 8); cbn [mbind res_bind] in E; try done; injection E as <-; (split; [reflexivity|exact Eo]).
Qed.

(** A directory below the root never shows its readme: the object asked
    for is the name of the directory followed by the name of the file without
    a slash between them, and git has no such object, whatever files the
    directory holds. *)
Theorem BuildFileData_no_readme `{!GoSort} git exts path repo commit ctx dc :
  BuildFileData git exts path repo commit = Ok ctx ->
  DirContent ctx = Some dc ->
  (forall s, ("/"%char ∉ s) -> gitCatBlob git
     (CommitHash ctx ++ ":"%str ++ clean_path path ++ s) (repo_Path repo) = None) ->
  Forall (fun e => "/"%char ∉ de_Name e) (Entries dc) ->
  ReadmeContent dc = None.
Proof.
  intros E Hdc Hgit Hnames. apply BuildFileData_inv in E as (hash & _ & Hch & E).
  rewrite Hch in Hgit. rewrite Hdc in E. clear Hdc Hch. unfold object_content in E.
  destruct (gitObjectType _ _ _) as [ty|]; cbn [or_err mbind res_bind] in E; [|done].
  destruct (decide (ty = "tree"%str)).
  2: { destruct (decide (ty = "blob"%str)); [|done].
       by destruct (file_content _ _ _ _ _) as [f| |]. }
  unfold dir_content in E.
  destruct (gitListDir _ _ _) as [es| |]; cbn [mbind res_bind] in E; try done.
  injection E as _ <-. cbn [ReadmeContent Entries] in *. rewrite go_sort_perm in Hnames.
  set (names := de_Name <$> _). destruct (first_readme exts _ names) as [r|] eqn:Er; [|done].
  unfold first_readme in Er.
  assert (r ∈ omap (readme_of exts (hash ++ ":"%str ++ clean_path path)) names) as Hin
    by (destruct (omap _ _); simplify_eq/=; by left).
  apply list_elem_of_omap in Hin as (name & Hname & Hr).
  apply readme_of_path in Hr as (s & p & q & Hpath & Hsub & _).
  simpl. rewrite Hpath, <- !app_assoc, Hgit; [done|].
  apply list_elem_of_fmap in Hname as (x & -> & He). rewrite Forall_forall in Hnames.
  specialize (Hnames x He). rewrite Hsub in Hnames.
  rewrite !not_elem_of_app in Hnames. tauto.
Qed.

(** * Branches *)
Lemma swap_loop_reverse {A} n (a m b : list A) :
  (length m <= n)%nat ->
  swap_loop n (length a) (length a + length m - 1) (a ++ m ++ b) = a ++ reverse m ++ b.
Proof.
  revert a m b. induction n as [|n IH]; intros a m b Hn.
  { by destruct m; [|simpl in Hn; lia]. }
  cbn [swap_loop]. destruct m as [|x m].
  { rewrite decide_False by (simpl; lia). done. }
  destruct m as [|y m _] using rev_ind.
  { rewrite decide_False by (simpl; lia). done. }
  rewrite length_cons, length_app in *. simpl in Hn.
  rewrite decide_True by (simpl; lia).
  replace (length a + S (length m + length [y]) - 1)%nat with (length a + S (length m))%nat
    by (simpl; lia).
  assert ((a ++ (x :: m ++ [y]) ++ b) !! length a = Some x) as ->
    by by apply (list_lookup_middle a ((m ++ [y]) ++ b) x).
  assert (a ++ (x :: m ++ [y]) ++ b = (a ++ x :: m) ++ y :: b) as ->
    by by rewrite <- !app_assoc; simpl; rewrite <- app_assoc.
  assert (length a + S (length m) = length (a ++ x :: m))%nat as -> by by rewrite length_app.
  rewrite list_lookup_middle by done.
  rewrite insert_app_r_alt, Nat.sub_diag by lia. cbn [insert list_insert].
  rewrite <- app_assoc. rewrite insert_app_r_alt, Nat.sub_diag by lia. cbn [app insert list_insert].
  replace (length (a ++ x :: m) - 1)%nat with (length (a ++ [y]) + length m - 1)%nat
    by (rewrite !length_app; simpl; lia).
  replace (S (length a)) with (length (a ++ [y])) by (rewrite length_app; simpl; lia).
  replace (a ++ y :: m ++ x :: b) with ((a ++ [y]) ++ m ++ x :: b) by by rewrite <- app_assoc.
  rewrite IH by lia. rewrite reverse_cons, reverse_app. cbn. by rewrite <- !app_assoc.
Qed.

Lemma ReverseSlice_reverse {A} (l : list A) : ReverseSlice l = reverse l.
Proof.
  unfold ReverseSlice. pose proof (swap_loop_reverse (length l) [] l [] ltac:(lia)) as H.
  simpl in H. by rewrite !app_nil_r in H.
Qed.

Definition ref_line (r : GitRef) : str :=
  (if rf_IsHead r then "*"%str else " "%str) ++ NUL :: LastActivityDate r ++ NUL :: rf_Name r.
Definition wf_ref (r : GitRef) : Prop :=
  (NUL ∉ LastActivityDate r) /\ (NUL ∉ rf_Name r) /\ clean_line maxCapacity (ref_line r).
#[export] Instance wf_ref_dec r : Decision (wf_ref r).
Proof. unfold wf_ref. apply _. Defined.

Lemma parse_ref_line r : wf_ref r ->
  parse_ref (split NUL (ref_line r)) = Ok r /\ parse_ref (splitn NUL 3 (ref_line r)) = Ok r.
Proof.
  intros (Hd & Hn & _). unfold ref_line.
  assert (NUL ∉ (if rf_IsHead r then "*"%str else " "%str)) as Hh
    by (destruct (rf_IsHead r); by_decide).
  rewrite !split_app_sep, split_nosep, !splitn_cut by done.
  destruct r as [name [] date]; split; reflexivity.
Qed.

Lemma refs_loop_ok parse rs acc fuel b e :
  Forall wf_ref rs -> (forall r, r ∈ rs -> parse (ref_line r) = Ok r) -> (length rs < fuel)%nat ->
  refs_loop fuel parse (mkScanner maxCapacity (ref_line <$> rs) b e) acc = Ok (acc ++ rs).
Proof.
  intros Hrs. revert fuel acc b. induction Hrs as [|r rs (_ & _ & Hr) _ IH]; intros fuel acc b Hp Hf;
    (destruct fuel as [|fuel]; [simpl in Hf; lia|]); cbn [fmap list_fmap refs_loop].
  - by rewrite app_nil_r.
  - rewrite Scan_clean by done. cbn [sc_bytes]. rewrite Hp by by left. cbn [mbind res_bind].
    rewrite IH; [by rewrite <- app_assoc| |simpl in Hf; lia]. intros x Hx. apply Hp. by right.
Qed.

Lemma head_index_app a h b :
  Forall (fun r => rf_IsHead r = false) a -> rf_IsHead h = true ->
  Forall (fun r => rf_IsHead r = false) b ->
  head_index (a ++ h :: b) = Z.of_nat (length a).
Proof.
  intros Ha Hh Hb. unfold head_index. rewrite imap_app, foldl_app. cbn [imap foldl snd fst].
  rewrite Hh. rewrite Nat.add_0_r.
  assert (forall l acc k, Forall (fun r => rf_IsHead r = false) l ->
    foldl (fun acc p => if rf_IsHead p.2 then Z.of_nat p.1 else acc) acc
      (imap (fun i x => (k i, x)) l) = acc) as Hskip.
  { induction l as [|r l IHl]; intros acc k Hl; [done|]. apply Forall_cons in Hl as [Hr Hl].
    cbn [imap foldl snd]. rewrite Hr. apply (IHl acc (fun i => k (S i))). done. }
  by apply (Hskip b _ (fun i => (length a + S i)%nat)).
Qed.

Lemma head_index_none l :
  Forall (fun r => rf_IsHead r = false) l -> head_index l = -1.
Proof.
  intros Hl. unfold head_index.
  assert (forall acc k, foldl (fun acc p => if rf_IsHead p.2 then Z.of_nat p.1 else acc) acc
      (imap (fun i x => (k i, x)) l) = acc) as Hskip.
  { induction Hl as [|r l Hr _ IH]; intros acc k; [done|]. cbn [imap foldl snd].
    rewrite Hr. apply (IH acc (fun i => k (S i))). }
  apply (Hskip (-1) (fun i => i)).
Qed.

(** The branches are listed with the checked-out one first and the others
    in the reverse of the order git printed; when no branch is checked out and
    there is one, the listing panics. *)
Theorem ListAllBranches_order git repoPath rs :
  Forall wf_ref rs ->
  git (refArgs repoPath "refs/heads"%str) = Some (unlines (ref_line <$> rs)) ->
  (forall a h b, rs = a ++ h :: b -> rf_IsHead h = true ->
     Forall (fun r => rf_IsHead r = false) a -> Forall (fun r => rf_IsHead r = false) b ->
     ListAllBranches git repoPath = Ok (h :: reverse (a ++ b))) /\
  (Forall (fun r => rf_IsHead r = false) rs -> rs <> [] -> ListAllBranches git repoPath = Panic).
Proof.
  intros Hrs Hgit.
  assert (ListAllBranches git repoPath = order_branches rs) as ->.
  { unfold ListAllBranches. rewrite Hgit. cbn [or_err mbind res_bind].
    unfold newScanner. rewrite raw_lines_unlines.
    2: { apply (clean_no_lf maxCapacity), Forall_fmap. eapply Forall_impl; [exact Hrs|].
         by intros r (_ & _ & ?). }
    rewrite refs_loop_ok; [done|done| |].
    - intros r Hr. rewrite Forall_forall in Hrs. by apply parse_ref_line, Hrs.
    - cbn [sc_rest]. rewrite length_fmap. lia. }
  unfold order_branches. split.
  - intros a h b -> Hh Ha Hb. rewrite head_index_app by done.
    destruct b as [|x b].
    + rewrite decide_True by (rewrite length_app; simpl; lia).
      by rewrite ReverseSlice_reverse, reverse_app, app_nil_r.
    + rewrite decide_False by (rewrite length_app; simpl; lia).
      rewrite (proj2 (Z.ltb_ge _ 0)) by lia. rewrite Nat2Z.id.
      rewrite list_lookup_middle by done. cbn [deref mbind res_bind].
      assert (drop (S (length a)) (a ++ h :: x :: b) = x :: b) as ->.
      { rewrite cons_middle, app_assoc, drop_app_length'; [done|]. rewrite length_app. simpl. lia. }
      by rewrite take_app_length, ReverseSlice_reverse, app_assoc, reverse_app.
  - intros Hn Hne. rewrite head_index_none by done.
    rewrite decide_False by (destruct rs; simpl; [done|lia]). done.
Qed.

(** * Witnesses *)
Definition sample_hash : str := replicate 40 "a"%char.
Definition sample_entries : list gitTreeEntry :=
  [mkTreeEntry "100644"%str "blob"%str "e1"%str "README.md"%str;
   mkTreeEntry "100644"%str "blob"%str "e2"%str "a.go"%str;
   mkTreeEntry "120000"%str "blob"%str "e3"%str "link"%str;
   mkTreeEntry "040000"%str "tree"%str "e4"%str "sub"%str].
(** A git that knows one commit, whose directory [lib] holds the entries. *)
Definition sample_git (args : list str) : option str :=
  match args with
  | [_; _; c; a] => if decide (c = "rev-parse"%str) then Some (sample_hash ++ [LF]) else None
  | [_; _; c; o; a] =>
      if decide (a = sample_hash ++ ":lib"%str) then
        if decide (o = "-t"%str) then Some ("tree"%str ++ [LF])
        else if decide (o = "-p"%str) then Some (unlines (tree_line <$> sample_entries)) else None
      else if decide (a = "e3"%str) then Some "a.go"%str
      else if decide (a = sample_hash ++ ":lib/README.md"%str) then Some "# lib"%str
      else None
  | _ => None
  end.
Definition sample_ctx : res unit FileViewerContext :=
  BuildFileData sample_git supportedReadmeExtensions "lib/"%str
    (plain_repo "r"%str "/r"%str) "HEAD"%str.

Lemma BuildFileData_directory_witness :
  exists ctx dc, sample_ctx = Ok ctx /\ DirContent ctx = Some dc /\
    de_Name <$> Entries dc = ["sub"; "README.md"; "a.go"; "link"]%str.
Proof.
  destruct (BuildFileData_directory sample_git supportedReadmeExtensions "lib/"%str
    (plain_repo "r"%str "/r"%str) "HEAD"%str sample_hash [] sample_entries)
    as (ctx & dc & E & Hdc & _); [by_decide..|].
  exists ctx, dc. split_and!; [exact E|exact Hdc|].
  vm_compute in E. injection E as <-. vm_compute in Hdc. injection Hdc as <-. reflexivity.
Defined.

Lemma BuildFileData_no_readme_witness :
  exists ctx dc, sample_ctx = Ok ctx /\ DirContent ctx = Some dc /\ ReadmeContent dc = None.
Proof.
  assert (exists ctx dc, sample_ctx = Ok ctx /\ DirContent ctx = Some dc /\ CommitHash ctx = sample_hash /\
    de_Name <$> Entries dc = ["sub"; "README.md"; "a.go"; "link"]%str) as (ctx & dc & E & Hdc & Hh & Hn)
    by (eexists _, _; vm_compute; split_and!; reflexivity).
  exists ctx, dc. split_and!; [done..|].
  apply (BuildFileData_no_readme sample_git supportedReadmeExtensions "lib/"%str
    (plain_repo "r"%str "/r"%str) "HEAD"%str ctx dc E Hdc).
  - intros s Hs. rewrite Hh.
    unfold gitCatBlob, sample_git. repeat case_decide; try done.
    match goal with H : _ = sample_hash ++ ":lib/README.md"%str |- _ =>
      apply app_inv_head in H; injection H as -> end.
    exfalso. apply Hs. by left.
  - assert (Forall (fun n => "/"%char ∉ n) (de_Name <$> Entries dc)) as H by (rewrite Hn; by_decide).
    apply Forall_forall. intros x Hx. apply (proj1 (Forall_forall _ _) H). apply list_elem_of_fmap. by exists x.
Defined.

Definition sample_refs : list GitRef :=
  [mkRef "old"%str false "2 years ago"%str; mkRef "main"%str true "Yesterday"%str;
   mkRef "new"%str false "Today"%str].

Lemma ListAllBranches_order_witness :
  rf_Name <$> sample_refs = ["old"; "main"; "new"]%str /\
  ListAllBranches (fun _ => Some (unlines (ref_line <$> sample_refs))) "/r"%str =
    Ok [mkRef "main"%str true "Yesterday"%str; mkRef "new"%str false "Today"%str;
        mkRef "old"%str false "2 years ago"%str].
Proof.
  split; [done|].
  destruct (ListAllBranches_order (fun _ => Some (unlines (ref_line <$> sample_refs))) "/r"%str sample_refs)
    as [H _]; [by_decide|done|].
  apply (H [mkRef "old"%str false "2 years ago"%str] _ [mkRef "new"%str false "Today"%str]); by_decide.
Defined.
