(* ===== verification/Templates.v ===== *)
(** * Pages: [server/templates/templates.go]

    The functions the HTML templates call.  Strings that the code marks as
    [template.HTML] are not escaped any more; here they are plain strings.
    The syntax highlighter (the chroma library) is a parameter. *)
From S2P Require Import Prelude GoStrings GoRegexp GoPath Scanner Query GoSort GoMap Search Diff DirTree.

(** ** Text *)
Definition DQ : str := ["034"%char].
Definition attr (name value : str) : str := name ++ "="%str ++ DQ ++ value ++ DQ.

(** [html.EscapeString] *)
Definition escape_html_byte (c : ascii) : str :=
  if decide (c = "&"%char) then "&amp;"%str
  else if decide (c = "'"%char) then "&#39;"%str
  else if decide (c = "<"%char) then "&lt;"%str
  else if decide (c = ">"%char) then "&gt;"%str
  else if decide ([c] = DQ) then "&#34;"%str
  else [c].
Definition EscapeString (s : str) : str := s ≫= escape_html_byte.

(** [hex.DecodeString]: what it decodes before the first error. *)
Fixpoint hex_decode (s : str) : str :=
  match s with
  | a :: b :: s => match hex_val a, hex_val b with
                   | Some x, Some y => byte_of (16 * x + y) :: hex_decode s
                   | _, _ => []
                   end
  | _ => []
  end.

(** [base64.StdEncoding.EncodeToString] *)
Definition base64_digit (n : Z) : ascii :=
  if n <? 26 then byte_of (65 + n) else if n <? 52 then byte_of (71 + n)
  else if n <? 62 then byte_of (n - 4) else if n =? 62 then "+"%char else "/"%char.
Fixpoint base64 (s : str) : str :=
  match s with
  | a :: b :: c :: s =>
      let n := byte_val a * 65536 + byte_val b * 256 + byte_val c in
      [base64_digit (n `div` 262144); base64_digit ((n `div` 4096) `mod` 64);
       base64_digit ((n `div` 64) `mod` 64); base64_digit (n `mod` 64)] ++ base64 s
  | [a; b] =>
      let n := byte_val a * 1024 + byte_val b * 4 in
      [base64_digit (n `div` 4096); base64_digit ((n `div` 64) `mod` 64); base64_digit (n `mod` 64); "="%char]
  | [a] =>
      let n := byte_val a * 16 in [base64_digit (n `div` 64); base64_digit (n `mod` 64); "="%char; "="%char]
  | [] => []
  end.

Definition asset_href (s : str) (m : gmap str str) : str * str :=
  let hash := default [] (m !! trim_prefix "/"%str s) in
  (s ++ "?v="%str ++ hash, "sha256-"%str ++ base64 (hex_decode hash)).
Definition linkTag (nonce rel s : str) (m : gmap str str) : str :=
  let '(href, integrity) := asset_href s m in
  "<link"%str ++ nonce ++ " "%str ++ attr "rel"%str rel ++ " "%str ++ attr "href"%str href
  ++ " "%str ++ attr "integrity"%str integrity ++ " />"%str.
Definition scriptTag (nonce s : str) (m : gmap str str) : str :=
  let '(href, integrity) := asset_href s m in
  "<script"%str ++ nonce ++ " "%str ++ attr "src"%str href ++ " "%str ++ attr "integrity"%str integrity
  ++ "></script>"%str.

(** [strings.SplitN(line, "  ", 2)], and [pieces[1]], which panics when absent. *)
Definition hash_line (line : str) : res unit (str * str) :=
  i ← deref (index "  "%str line);
  Ok (drop (i + 2) line, take i line).
Fixpoint hashes_loop (fuel : nat) (sc : Scanner) (m : gmap str str) : res unit (gmap str str) :=
  match fuel with
  | O => Ok m
  | S fuel => match Scan sc with
              | (false, _) => Ok m
              | (true, sc) => '(asset, hash) ← hash_line (sc_bytes sc);
                              hashes_loop fuel sc (<[asset := hash]> m)
              end
  end.
(** [None]: the file cannot be opened. *)
Definition LoadAssetHashes (file : option str) : res unit (gmap str str) :=
  content ← or_err tt file;
  let sc := newScanner MaxScanTokenSize content in
  hashes_loop (S (length (sc_rest sc))) sc ∅.

(** ** A line of code and its matches *)

Record lineParts := mkParts { Prefix : str; Highlighted : str; Suffix : str }.
Definition splitCodeLineIntoParts (line : str) (bounds : list Z) : res unit lineParts :=
  start ← deref (bounds !! 0%nat);
  end_ ← deref (bounds !! 1%nat);
  p ← zslice line 0 start;
  h ← zslice line start end_;
  s ← zslice line end_ (Z.of_nat (length line));
  Ok (mkParts p h s).

Record CodePart := mkPart { cp_Line : str; Match : bool }.
#[export] Instance CodePart_eq_dec : EqDecision CodePart.
Proof. solve_decision. Defined.

(** An unmatched part, if there is one. *)
Definition gap (line : str) (show : bool) (i j : Z) : res unit (list CodePart) :=
  if show then s ← zslice line i j; Ok [mkPart s false] else Ok [].

(** The loop over the bounds from [currIdx]. *)
Fixpoint code_parts (line : str) (bounds : list (Z * Z)) (currIdx : Z) : res unit (list CodePart) :=
  match bounds with
  | [] => Ok []
  | (leftBound, rightBound) :: bounds =>
      pre ← gap line (currIdx <? leftBound) currIdx leftBound;
      m ← zslice line leftBound rightBound;
      let lastBound := match bounds with [] => true | _ => false end in
      suf ← gap line (lastBound && (rightBound <=? Z.of_nat (length line))) rightBound
              (Z.of_nat (length line));
      rest ← code_parts line bounds rightBound;
      Ok (pre ++ mkPart m true :: suf ++ rest)
  end.
Definition renderCodeLine (line : str) (bounds : list (Z * Z)) : res unit (list CodePart) :=
  code_parts line bounds 0.

Definition getFirstNFiles (s : list FileResult) (n : Z) : res unit (list FileResult) :=
  let c := if n <? Z.of_nat (length s) then n else Z.of_nat (length s) in
  if c <? 0 then Panic else Ok (take (Z.to_nat c) s).

Definition shouldInsertBlankLine (currIdx : Z) (lines : list ResultLine) : res unit bool :=
  let prevIdx := currIdx - 1 in
  if prevIdx <? 0 then Ok false
  else c ← deref (lines !! Z.to_nat currIdx);
       p ← deref (lines !! Z.to_nat prevIdx);
       Ok (negb (Search.LineNumber c - Search.LineNumber p =? 1)).

Definition getLineNumberLinkClass (bounds : list (Z * Z)) : str :=
  if decide (bounds = []) then "num-link"%str else "num-link match"%str.

Definition getDiffRowType (row : IDiffRow) : str :=
  match row with
  | IDiffRowAdded _ => "added" | IDiffRowDeleted _ => "deleted" | IDiffRowContext _ _ _ => "context"
  | IDiffRowModified _ _ => "modified" | IDiffRowHunk _ _ => "hunk"
  end%str.
Definition getClassFromRowType (rowType : str) : str :=
  if decide (rowType = "hunk"%str) then "hunk-row"%str else "row"%str.

(** ** The file tree *)
Definition imgLink : str :=
  "<img "%str ++ attr "src"%str "/assets/img/file-icon.svg"%str ++ " "%str ++ attr "width"%str "16px"%str
  ++ " "%str ++ attr "height"%str "16px"%str ++ " />"%str.
Definition rootPadding : Z := -15.

Definition getTreeItemLink (node : TreeNode) (paddingLeft : Z) (repoName repoRev : str) (fileInPath : bool)
    : str :=
  let link := "/experimental/"%str ++ repoName ++ "/"%str ++ tn_Type node ++ "/"%str ++ repoRev
              ++ "/"%str ++ tn_Path node in
  let btnCls := "arrow"%str ++ (if fileInPath then " expanded"%str else []) in
  let buttonExpander := "<button "%str ++ attr "class"%str "expander"%str ++ "><div "%str
                        ++ attr "class"%str btnCls ++ " /></button>"%str in
  let leftComp := if decide (tn_Type node = "tree"%str) then buttonExpander else imgLink in
  let paddingLeft := if paddingLeft <? 0 then 0 else paddingLeft in
  "<a "%str ++ attr "style"%str ("padding-left:"%str ++ Itoa paddingLeft ++ "px;"%str)
  ++ " "%str ++ attr "data-path"%str (tn_Path node) ++ " "%str ++ attr "data-hash"%str repoRev
  ++ " "%str ++ attr "href"%str link ++ ">"%str ++ leftComp ++ "<span>"%str ++ tn_Name node
  ++ "</span></a>"%str.

Definition div (cls inner : str) : str := "<div "%str ++ attr "class"%str cls ++ ">"%str ++ inner ++ "</div>"%str.

Section tree.
Context (st : store) (repoName repoRev filepath : str).

(** The children, with the rendering of the deeper levels. *)
Definition render_child (render : nat -> option str) (paddingLeft : Z) (fileInPath : bool) (i : nat)
    : option str :=
  child ← st !! i;
  if decide (Children child = []) then
    let cls := if decide (tn_Path child = filepath) then "selected"%str else [] in
    Some (div cls (getTreeItemLink child (paddingLeft + 15) repoName repoRev fileInPath))
  else render i.

(** [None] when the fuel runs out. *)
Fixpoint RenderDirectoryTree (fuel : nat) (root : nat) (paddingLeft : Z) : option str :=
  match fuel with
  | O => None
  | S fuel =>
      rootDir ← st !! root;
      let fileInPath := has_prefix (tn_Path rootDir) filepath in
      let link := getTreeItemLink rootDir paddingLeft repoName repoRev fileInPath in
      let head :=
        "<div "%str ++ attr "class"%str [] ++
        (if decide (paddingLeft = rootPadding) then attr "id"%str "root"%str ++ ">"%str
         else ">"%str ++
           (if decide (tn_Type rootDir = "tree"%str) then "<div>"%str ++ link ++ "</div>"%str
            else div (if decide (tn_Path rootDir = filepath) then "selected"%str else []) (imgLink ++ link))) in
      inner ← (if decide (Children rootDir = []) then Some []
               else
                 let outerCls := "children"%str ++
                   (if fileInPath || bool_decide (paddingLeft = rootPadding) then " expanded"%str else []) in
                 parts ← mapM (render_child (fun i => RenderDirectoryTree fuel i (paddingLeft + 15))
                                 paddingLeft fileInPath) (Children rootDir);
                 Some (div outerCls (mjoin parts)));
      Some (head ++ inner ++ "</div>"%str ++
            (if decide (paddingLeft = rootPadding) then "</nav>"%str else []))
  end.
End tree.

(** ** Syntax highlighting *)
Definition convertContentBlobToArrayOfLines (content : str) : list str := split LF content.

Section chroma.
(** The library: its lexers, the tokens they cut a text into (or an error), and
    the types of the tokens, with their CSS classes and their parents. *)
Context {lexer token : Type}.
Context (Get MatchName : str -> option lexer) (Tokenise : lexer -> str -> option (list token)).
Context (SplitTokensIntoLines : list token -> list (list token)) (text : token -> str).
Context (Type_ : token -> Z) (StandardTypes : gmap Z str) (Parent : Z -> Z).

(** The class of the type or of its nearest ancestor that has one.  Types have
    three levels below 0, as their numbers say: the fuel is 4. *)
Fixpoint chroma_class (fuel : nat) (t : Z) : str :=
  match fuel with
  | O => []
  | S fuel => if decide (t = 0) then default [] (StandardTypes !! t)
              else match StandardTypes !! t with
                   | Some cls => cls
                   | None => chroma_class fuel (Parent t)
                   end
  end.
Definition getChromaClass (t : Z) : str := chroma_class 4 t.

Definition styleAttr (tt : Z) : str :=
  let cls := getChromaClass tt in
  if decide (cls = []) then [] else " "%str ++ attr "class"%str cls.
Definition render_token (t : token) : str :=
  "<span"%str ++ styleAttr (Type_ t) ++ ">"%str ++ EscapeString (text t) ++ "</span>"%str.

Definition getSyntaxHighlightedLine (line : str) (l : lexer) : str :=
  if decide (TrimSpace line = []) then "<span></span>"%str
  else match Tokenise l line with
       | None => line
       | Some tokens => tokens ≫= render_token
       end.

Definition getSyntaxHighlightedContent (content language filename : str) : list str :=
  match (match Get language with Some l => Some l | None => MatchName filename end) with
  | None => convertContentBlobToArrayOfLines content
  | Some l => match Tokenise l content with
              | None => convertContentBlobToArrayOfLines content
              | Some tokens => (fun toks => toks ≫= render_token) <$> SplitTokensIntoLines tokens
              end
  end.
End chroma.
