(* ===== verification/TemplatesSpec.v ===== *)
(** * Pages: what they show of the data

    Parts of lines, the anchors of the tree, and highlighted lines. *)
From S2P Require Import Prelude GoStrings GoRegexp GoPath Scanner Query GoSort GoMap GoJson Search Diff DirTree Templates.

(** * The matches in a line *)

(** Ordered bounds of [line], from [cur] on. *)
Fixpoint bounds_in (line : str) (cur : Z) (bounds : list (Z * Z)) : Prop :=
  match bounds with
  | [] => True
  | (l, r) :: bounds => cur <= l /\ l <= r /\ r <= Z.of_nat (length line) /\ bounds_in line r bounds
  end.
Definition piece (line : str) (b : Z * Z) : str := take (Z.to_nat (b.2 - b.1)) (drop (Z.to_nat b.1) line).

#[export] Instance bounds_in_dec line cur bounds : Decision (bounds_in line cur bounds).
Proof. revert cur. induction bounds as [|[l r] bounds IH]; intros cur; simpl; apply _. Defined.

Lemma zslice_ok {E} s i j : 0 <= i -> i <= j -> j <= Z.of_nat (length s) -> zslice (E := E) s i j = Ok (piece s (i, j)).
Proof. intros. unfold zslice. by rewrite decide_True. Qed.

Lemma piece_drop s i j :
  0 <= i -> i <= j -> j <= Z.of_nat (length s) ->
  piece s (i, j) ++ drop (Z.to_nat j) s = drop (Z.to_nat i) s.
Proof.
  intros. unfold piece. cbn [fst snd]. rewrite <- (take_drop (Z.to_nat (j - i)) (drop (Z.to_nat i) s)) at 2.
  f_equal. rewrite drop_drop. f_equal. lia.
Qed.

Definition parts_text (parts : list CodePart) : str := parts ≫= cp_Line.
Definition matched (parts : list CodePart) : list str := cp_Line <$> filter (fun p => Match p = true) parts.

Lemma gap_ok line show i j :
  0 <= i -> i <= j -> j <= Z.of_nat (length line) -> (show = false -> i = j) ->
  exists g, gap line show i j = Ok g /\ parts_text g = piece line (i, j) /\ matched g = [].
Proof.
  intros Hi Hj Hl Hs. unfold gap. destruct show.
  - rewrite zslice_ok by done. eexists. split_and!; [done| |done]. unfold parts_text. cbn. by rewrite app_nil_r.
  - rewrite (Hs eq_refl). exists []. split_and!; [done| |done]. unfold piece. cbn [fst snd].
    by rewrite Z.sub_diag.
Qed.

Lemma code_parts_cons line l r bounds cur :
  code_parts line ((l, r) :: bounds) cur =
  (pre ← gap line (cur <? l) cur l;
   m ← zslice line l r;
   suf ← gap line (match bounds with [] => true | _ => false end && (r <=? Z.of_nat (length line)))
           r (Z.of_nat (length line));
   rest ← code_parts line bounds r;
   Ok (pre ++ mkPart m true :: suf ++ rest)).
Proof. done. Qed.

Lemma code_parts_ok line b bounds cur :
  0 <= cur -> bounds_in line cur (b :: bounds) ->
  exists parts, code_parts line (b :: bounds) cur = Ok parts /\
    parts_text parts = drop (Z.to_nat cur) line /\ matched parts = piece line <$> b :: bounds.
Proof.
  revert b cur. induction bounds as [|b' bounds IH]; intros [l r] cur Hc (Hl & Hr & Hlen & Hb);
    set (len := Z.of_nat (length line)) in *; rewrite code_parts_cons;
    (destruct (gap_ok line (cur <? l) cur l) as (pre & -> & Hpre & Hmpre); [lia|lia|lia|rewrite Z.ltb_ge; lia|]);
    cbn [mbind res_bind]; rewrite zslice_ok by lia; cbn [mbind res_bind]; fold len.
  - rewrite (proj2 (Z.leb_le _ _)) by lia.
    destruct (gap_ok line true r len) as (suf & Esuf & Hsuf & Hmsuf); [lia..|done|].
    cbn [andb]. rewrite Esuf. cbn [code_parts mbind res_bind]. rewrite app_nil_r. eexists. split_and!; [done| |].
    + unfold parts_text in *. rewrite bind_app, list_bind_cons, Hpre, Hsuf. cbn [cp_Line].
      assert (piece line (r, len) = drop (Z.to_nat r) line) as ->.
      { unfold piece. cbn [fst snd]. apply take_ge. rewrite length_drop. lia. }
      by rewrite !piece_drop by lia.
    + unfold matched in *. rewrite filter_app, filter_cons_True, fmap_app, fmap_cons by done.
      by rewrite Hmpre, Hmsuf.
  - cbn [andb gap mbind res_bind]. destruct (IH b' r ltac:(lia) Hb) as (rest & -> & Htext & Hm).
    cbn [mbind res_bind]. eexists. split_and!; [done| |].
    + unfold parts_text in *. rewrite bind_app, list_bind_cons, Hpre. cbn [cp_Line app].
      rewrite Htext. by rewrite !piece_drop by lia.
    + unfold matched in *. rewrite filter_app, filter_cons_True, fmap_app, fmap_cons by done. cbn [app].
      by rewrite Hmpre, Hm.
Qed.

(** C32: a line with matches is cut into parts that make up the whole line, and
    the highlighted ones are exactly the matches, in order. *)
Theorem renderCodeLine_parts line bounds :
  bounds <> [] -> bounds_in line 0 bounds ->
  exists parts, renderCodeLine line bounds = Ok parts /\
    parts_text parts = line /\ matched parts = piece line <$> bounds.
Proof.
  intros Hne Hb. destruct bounds as [|b bounds]; [done|].
  destruct (code_parts_ok line b bounds 0 ltac:(lia) Hb) as (parts & E & Ht & Hm). by exists parts.
Qed.

(** * Escaping *)
Lemma escape_no_tag s : "<"%char ∉ EscapeString s.
Proof.
  unfold EscapeString. induction s as [|c s IH]; [apply not_elem_of_nil|].
  rewrite list_bind_cons, not_elem_of_app. split; [|done]. unfold escape_html_byte.
  repeat (case_decide; [by_decide|]). by rewrite list_elem_of_singleton.
Qed.

Lemma count_byte_app c s t : count_byte c (s ++ t) = (count_byte c s + count_byte c t)%nat.
Proof. unfold count_byte. by rewrite filter_app, length_app. Qed.

Lemma count_byte_absent c s : c ∉ s -> count_byte c s = 0%nat.
Proof.
  unfold count_byte. intros Hc. destruct (filter _ s) as [|x l] eqn:E; [done|].
  assert (x ∈ filter (.= c) s) as H by (rewrite E; by left).
  by apply list_elem_of_filter in H as [-> ?].
Qed.

Section chroma.
Context {lexer token : Type} (Get MatchName : str -> option lexer)
  (Tokenise : lexer -> str -> option (list token)) (SplitTokensIntoLines : list token -> list (list token))
  (text : token -> str) (Type_ : token -> Z) (StandardTypes : gmap Z str) (Parent : Z -> Z).

(** The classes of the library are names. *)
Hypothesis classes_plain : forall t c, StandardTypes !! t = Some c -> "<"%char ∉ c.

Lemma chroma_class_plain fuel t : "<"%char ∉ chroma_class StandardTypes Parent fuel t.
Proof using classes_plain.
  revert t. induction fuel as [|fuel IH]; intros t; cbn [chroma_class]; [apply not_elem_of_nil|].
  destruct (decide (t = 0)); destruct (StandardTypes !! t) as [c|] eqn:E; cbn [default id];
    try apply not_elem_of_nil; try apply IH; by eapply classes_plain.
Qed.

Lemma render_token_tags t : count_byte "<" (render_token text Type_ StandardTypes Parent t) = 2%nat.
Proof using classes_plain.
  unfold render_token. rewrite !count_byte_app, (count_byte_absent _ (EscapeString _)) by apply escape_no_tag.
  rewrite (count_byte_absent _ (styleAttr _ _ _)); [done|].
  unfold styleAttr. case_decide; [apply not_elem_of_nil|]. unfold attr, getChromaClass.
  rewrite !not_elem_of_app. split_and!; try by_decide. apply chroma_class_plain.
Qed.

Lemma render_line_tags toks :
  count_byte "<" (toks ≫= render_token text Type_ StandardTypes Parent) = (2 * length toks)%nat.
Proof using classes_plain.
  induction toks as [|t toks IH]; [done|].
  rewrite list_bind_cons, count_byte_app, render_token_tags, IH. simpl. lia.
Qed.

Definition chosen_lexer (language filename : str) : option lexer :=
  match Get language with Some l => Some l | None => MatchName filename end.

(** C34: highlighted code has two tags for each token, so that the text of a file
    adds no tag to the page; but the text of a file that has no lexer, or that
    the lexer refuses, is put in the page as it is, tags included. *)
Theorem getSyntaxHighlightedContent_tags content language filename :
  let out := getSyntaxHighlightedContent Get MatchName Tokenise SplitTokensIntoLines text Type_
               StandardTypes Parent content language filename in
  match chosen_lexer language filename ≫= fun l => Tokenise l content with
  | Some tokens =>
      Forall2 (fun line toks => count_byte "<" line = (2 * length toks)%nat) out (SplitTokensIntoLines tokens)
  | None => join [LF] out = content
  end.
Proof using classes_plain.
  unfold getSyntaxHighlightedContent. fold (chosen_lexer language filename).
  destruct (chosen_lexer language filename) as [l|]; [|apply join_split].
  cbn [mbind option_bind]. destruct (Tokenise l content) as [tokens|]; [|apply join_split].
  apply Forall2_fmap_l. generalize (SplitTokensIntoLines tokens).
  induction l0 as [|toks lines IH]; constructor; [apply render_line_tags|done].
Qed.
End chroma.

(** * The file tree *)

(** Every node hangs under a node that was made before it. *)
Definition linked (st : store) : Prop :=
  (forall i d j, st !! i = Some d -> j ∈ Children d -> (i < j < length st)%nat) /\
  (forall j, (0 < j < length st)%nat -> exists i d, st !! i = Some d /\ j ∈ Children d).

Lemma linked_add st p x :
  linked st -> (p < length st)%nat -> Children x = [] -> linked (add_child st p (length st) ++ [x]).
Proof.
  intros [Hc Hp] Hlt Hx. rewrite <- (length_add_child st p (length st)) in Hlt.
  assert (forall k d, st !! k = Some d -> exists d', (add_child st p (length st) ++ [x]) !! k = Some d' /\
    Children d' = Children d ++ (if decide (k = p) then [length st] else [])) as Hold.
  { intros k d Hk. rewrite lookup_app_l by (rewrite length_add_child; by eapply lookup_lt_Some).
    rewrite add_child_lookup, Hk. cbn. eexists. split; [done|]. case_decide; [done|]. by rewrite app_nil_r. }
  unfold linked. rewrite length_app, length_add_child in *. cbn [length]. split.
  - intros i d j Hi Hj. destruct (decide (i < length st)%nat) as [Hil|Hil].
    + destruct (lookup_lt_is_Some_2 st i Hil) as [d0 Hd0].
      destruct (Hold i d0 Hd0) as (d' & Hd' & Hch). simplify_eq. rewrite Hch in Hj.
      apply elem_of_app in Hj as [Hj|Hj]; [specialize (Hc i d0 j Hd0 Hj); lia|].
      case_decide; [|by apply elem_of_nil in Hj]. apply list_elem_of_singleton in Hj. lia.
    + rewrite lookup_app_r in Hi by (rewrite length_add_child; lia).
      rewrite length_add_child in Hi. apply list_lookup_singleton_Some in Hi as [_ <-].
      rewrite Hx in Hj. by apply elem_of_nil in Hj.
  - intros j Hj. destruct (decide (j = length st)) as [->|Hjl].
    + destruct (lookup_lt_is_Some_2 st p Hlt) as [d Hd]. destruct (Hold p d Hd) as (d' & Hd' & Hch).
      exists p, d'. split; [done|]. rewrite Hch, decide_True by done. apply elem_of_app. right. by left.
    + destruct (Hp j ltac:(lia)) as (i & d & Hd & Hin). destruct (Hold i d Hd) as (d' & Hd' & Hch).
      exists i, d'. split; [done|]. rewrite Hch. apply elem_of_app. by left.
Qed.

Lemma tree_step_linked ts line ts' :
  tree_ok ts -> linked (ts_store ts) -> tree_step ts line = Ok ts' -> linked (ts_store ts').
Proof.
  intros (i & Hi & Ha) Hl E. pose proof (tree_step_ok ts line i 0%nat Hi Ha) as H.
  destruct (parse_line line) as [[[[name typ] sha] mode]|e|]; [|congruence|done].
  destruct H as (p & Hp & _ & E'). rewrite E' in E. injection E as <-.
  apply ancestor_lookup, lookup_lt_is_Some_1 in Hp.
  case_bool_decide; cbn [ts_store]; by apply linked_add.
Qed.

Lemma buildDirectoryTree_linked out st :
  buildDirectoryTree out = Ok st -> linked st /\ (0 < length st)%nat.
Proof.
  unfold buildDirectoryTree. destruct (foldM _ _ _) as [ts| |] eqn:E; cbn [mbind res_bind]; try done.
  intros [= <-].
  assert (tree_ok ts /\ linked (ts_store ts)) as [Hok Hl].
  { eapply (foldM_inv (fun ts => tree_ok ts /\ linked (ts_store ts))); [| |exact E].
    - intros s l s' [H1 H2] Es. split; [by eapply tree_step_inv|by eapply tree_step_linked].
    - split; [by exists 0%nat|]. split.
      + intros [|i] d j Hd Hj; simplify_eq/=. by apply elem_of_nil in Hj.
      + simpl. lia. }
  split; [done|]. destruct Hok as (i & _ & Ha). apply ancestor_lookup, lookup_lt_is_Some_1 in Ha. lia.
Qed.

(** ** Texts inside texts *)
Definition within (x h : str) : Prop := exists a b, h = a ++ x ++ b.

Lemma within_refl x : within x x.
Proof. exists [], []. by rewrite app_nil_r. Qed.
Lemma within_l x h t : within x h -> within x (h ++ t).
Proof. intros (a & b & ->). exists a, (b ++ t). by rewrite <- !app_assoc. Qed.
Lemma within_r x h t : within x h -> within x (t ++ h).
Proof. intros (a & b & ->). exists (t ++ a), b. by rewrite <- !app_assoc. Qed.
Lemma within_trans x y z : within x y -> within y z -> within x z.
Proof. intros Hxy (a & b & ->). by apply within_r, within_l. Qed.
Lemma within_join x l : x ∈ l -> within x (mjoin l).
Proof.
  intros (l1 & l2 & ->)%list_elem_of_split. rewrite join_app. apply within_r. cbn. apply within_l, within_refl.
Qed.
Lemma within_div cls x : within x (div cls x).
Proof. unfold div. do 3 apply within_r. apply within_l, within_refl. Qed.

Section render.
Context (st : store) (repoName repoRev filepath : str).
Hypothesis Hlinked : linked st.
Let render := RenderDirectoryTree st repoName repoRev filepath.

(** Enough fuel: one unit for each node that may lie below. *)
Lemma render_total fuel i pad :
  (i < length st)%nat -> (length st - i <= fuel)%nat -> is_Some (render fuel i pad).
Proof using Hlinked.
  unfold render. revert i pad. induction fuel as [|fuel IH]; intros i pad Hi Hf; [lia|].
  cbn [RenderDirectoryTree]. destruct (lookup_lt_is_Some_2 st i Hi) as [d Hd]. rewrite Hd.
  cbn [mbind option_bind]. destruct (decide (Children d = [])); [by eexists|].
  assert (is_Some (mapM (render_child st repoName repoRev filepath
    (fun k => RenderDirectoryTree st repoName repoRev filepath fuel k (pad + 15)) pad
    (has_prefix (tn_Path d) filepath)) (Children d))) as [parts ->]; [|by eexists].
  apply mapM_is_Some_2, Forall_forall. intros j Hj.
  destruct (proj1 Hlinked i d j Hd Hj) as [Hij Hjl].
  unfold render_child. destruct (lookup_lt_is_Some_2 st j Hjl) as [c Hc]. cbv beta delta [compose]. rewrite Hc. cbn [mbind option_bind].
  destruct (decide (Children c = [])); [by eexists|]. apply IH; lia.
Qed.

(** The entry's name and full path, as they stand in its link. *)
Definition link_of (x : TreeNode) (h : str) : Prop :=
  exists pad b, within (getTreeItemLink x pad repoName repoRev b) h.

Lemma render_children fuel i pad h d j x :
  render fuel i pad = Some h -> st !! i = Some d -> j ∈ Children d -> st !! j = Some x ->
  (Children x = [] /\ link_of x h) \/
  (Children x <> [] /\ exists fuel' h', render fuel' j (pad + 15) = Some h' /\ within h' h).
Proof.
  unfold render. destruct fuel as [|fuel]; [done|]. cbn [RenderDirectoryTree]. intros E Hd Hj Hx.
  rewrite Hd in E. cbn [mbind option_bind] in E.
  destruct (decide (Children d = [])) as [Hn|_]; [rewrite Hn in Hj; by apply elem_of_nil in Hj|].
  match type of E with context [mapM ?f ?l] => destruct (mapM f l) as [parts|] eqn:Em end; [|done].
  cbn [mbind option_bind] in E. apply (inj Some) in E. subst h.
  apply mapM_Some in Em. destruct (list_elem_of_lookup_1 _ _ Hj) as [k Hk].
  destruct (Forall2_lookup_l _ _ _ _ _ Em Hk) as (p & Hp & Ep).
  assert (within p (mjoin parts)) as Hw by (apply within_join; by eapply list_elem_of_lookup_2).
  unfold render_child in Ep. rewrite Hx in Ep. cbn [mbind option_bind] in Ep.
  assert (forall a b c, within p (a ++ div b (mjoin parts) ++ c)) as Hin.
  { intros a b c. apply within_r, within_l. eapply within_trans, within_div. done. }
  destruct (decide (Children x = [])) as [Hc|Hc].
  - left. split; [done|]. apply (inj Some) in Ep. subst p. exists (pad + 15), (has_prefix (tn_Path d) filepath).
    exact (within_trans _ _ _ (within_div _ _) (Hin _ _ _)).
  - right. split; [done|]. exists fuel, p. split; [exact Ep|exact (Hin _ _ _)].
Qed.

Lemma render_self fuel i pad h x :
  render fuel i pad = Some h -> st !! i = Some x -> pad <> rootPadding -> link_of x h.
Proof.
  unfold render. destruct fuel as [|fuel]; [done|]. cbn [RenderDirectoryTree]. intros E Hx Hp.
  rewrite Hx in E. cbn [mbind option_bind] in E. rewrite decide_False in E by done.
  match type of E with mbind _ ?y = _ => destruct y end; [|done]. apply (inj Some) in E. subst h.
  exists pad, (has_prefix (tn_Path x) filepath). apply within_l. do 3 apply within_r.
  destruct (decide (tn_Type x = "tree"%str)).
  - apply within_r, within_l, within_refl.
  - eapply within_trans, within_div. apply within_r, within_refl.
Qed.

(** Every entry of the tree is on the page. *)
Lemma render_complete fuel h j x :
  render fuel 0 rootPadding = Some h -> st !! j = Some x -> (0 < j)%nat ->
  link_of x h /\ (Children x <> [] -> exists fuel' pad h', render fuel' j pad = Some h' /\
                    rootPadding < pad /\ within h' h).
Proof using Hlinked.
  intros E. revert x. induction (lt_wf j) as [j _ IH]. intros x Hx Hj.
  destruct (proj2 Hlinked j) as (i & d & Hd & Hin); [split; [done|by eapply lookup_lt_Some]|].
  destruct (proj1 Hlinked i d j Hd Hin) as [Hij _].
  assert (exists f pad hi, render f i pad = Some hi /\ rootPadding <= pad /\ within hi h) as (f & pad & hi & Ei & Hpad & Hw).
  { destruct (decide (i = 0%nat)) as [->|Hi].
    - exists fuel, rootPadding, h. split_and!; [done|lia|apply within_refl].
    - destruct (IH i Hij d Hd ltac:(lia)) as [_ Hrec].
      destruct Hrec as (f & pad & hi & ? & ? & ?); [intros Hn; rewrite Hn in Hin; by apply elem_of_nil in Hin|].
      exists f, pad, hi. split_and!; [done|lia|done]. }
  destruct (render_children f i pad hi d j x Ei Hd Hin Hx) as [[Hc (p & b & Hl)]|[Hc (f' & h' & Ej & Hw')]].
  - split; [|done]. exists p, b. by eapply within_trans.
  - assert (within h' h) as Hwh by by eapply within_trans.
    split; [|intros _; exists f', (pad + 15), h'; split_and!; [done|lia|done]].
    destruct (render_self f' j (pad + 15) h' x Ej Hx ltac:(lia)) as (p & b & Hl).
    exists p, b. by eapply within_trans.
Qed.
End render.

(** The whole anchor of an entry: the script of the page reads the kind of the
    entry from the address, and the path and the revision from the data. *)
Definition entry_anchor (repoName repoRev : str) (x : TreeNode) (pad : Z) (icon : str) : str :=
  "<a style="%str ++ DQ ++ "padding-left:"%str ++ Itoa pad ++ "px;"%str ++ DQ
  ++ " data-path="%str ++ DQ ++ tn_Path x ++ DQ ++ " data-hash="%str ++ DQ ++ repoRev ++ DQ
  ++ " href="%str ++ DQ ++ "/experimental/"%str ++ repoName ++ "/"%str ++ tn_Type x ++ "/"%str ++ repoRev
  ++ "/"%str ++ tn_Path x ++ DQ ++ ">"%str ++ icon ++ "<span>"%str ++ tn_Name x ++ "</span></a>"%str.
(** The picture of a file, and the button that opens a directory. *)
Definition file_icon : str := dq "<img src='/assets/img/file-icon.svg' width='16px' height='16px' />"%str.
Definition tree_icon (opened : bool) : str :=
  if opened then dq "<button class='expander'><div class='arrow expanded' /></button>"%str
  else dq "<button class='expander'><div class='arrow' /></button>"%str.

Lemma link_anchor x pad repoName repoRev b :
  getTreeItemLink x pad repoName repoRev b =
  entry_anchor repoName repoRev x (Z.max 0 pad) (if decide (tn_Type x = "tree"%str) then tree_icon b else file_icon).
Proof.
  unfold getTreeItemLink, entry_anchor, attr. cbv zeta.
  assert ((if pad <? 0 then 0 else pad) = Z.max 0 pad) as -> by (destruct (Z.ltb_spec pad 0); lia).
  destruct (decide (tn_Type x = "tree"%str)), b; rewrite <- !app_assoc; cbn [app]; reflexivity.
Qed.

(** C33: the page of a tree that git listed is always rendered, and every entry of
    the listing is on it: one anchor that has the full path of the entry and the
    revision as its data, whose address is
    [/experimental/<repository>/<kind>/<revision>/<full path>], with the icon of
    its kind and the entry's name.  Path and name are copied as they are in the
    repository, without escaping, so that a file name can hold tags. *)
Theorem RenderDirectoryTree_complete out st repoName repoRev filepath :
  buildDirectoryTree out = Ok st ->
  exists page, RenderDirectoryTree st repoName repoRev filepath (length st) 0 rootPadding = Some page /\
    forall j x, st !! j = Some x -> (0 < j)%nat ->
      exists pad opened, 0 <= pad /\
        within (entry_anchor repoName repoRev x pad
                  (if decide (tn_Type x = "tree"%str) then tree_icon opened else file_icon)) page.
Proof.
  intros [Hl Hlen]%buildDirectoryTree_linked.
  destruct (render_total st repoName repoRev filepath Hl (length st) 0 rootPadding Hlen ltac:(lia)) as [page E].
  exists page. split; [done|]. intros j x Hx Hj.
  destruct (render_complete st repoName repoRev filepath Hl (length st) page j x E Hx Hj) as [(pad & b & Hw) _].
  rewrite link_anchor in Hw. exists (Z.max 0 pad), b. split; [lia|done].
Qed.

(** * Witnesses *)
Lemma renderCodeLine_parts_witness :
  bounds_in "two or two"%str 0 [(0, 3); (7, 10)] /\
  renderCodeLine "two or two"%str [(0, 3); (7, 10)] =
    Ok [mkPart "two"%str true; mkPart " or "%str false; mkPart "two"%str true; mkPart [] false] /\
  exists parts, renderCodeLine "two or two"%str [(0, 3); (7, 10)] = Ok parts /\
    matched parts = ["two"; "two"]%str.
Proof.
  assert (bounds_in "two or two"%str 0 [(0, 3); (7, 10)]) as Hb by by_decide.
  split; [exact Hb|]. split; [reflexivity|].
  destruct (renderCodeLine_parts "two or two"%str [(0, 3); (7, 10)] ltac:(done) Hb) as (parts & E & _ & Hm).
  exists parts. split; [exact E|exact Hm].
Defined.

(** A lexer for Go files that makes one token of a text, and none for others. *)
Definition sample_content (filename : str) : list str :=
  getSyntaxHighlightedContent (fun _ => None)
    (fun name => if has_suffix ".go"%str name then Some tt else None)
    (fun _ s => Some [s]) (fun toks => [toks]) id (fun _ => 1) {[ 1 := "k"%str ]} (fun _ => 0)
    "<script>"%str [] filename.

Lemma getSyntaxHighlightedContent_tags_witness :
  Forall2 (fun line (toks : list str) => count_byte "<" line = (2 * length toks)%nat)
    (sample_content "x.go"%str) [["<script>"%str]] /\
  sample_content "x"%str = ["<script>"%str].
Proof.
  split; [|reflexivity].
  refine (getSyntaxHighlightedContent_tags (fun _ => None)
    (fun name => if has_suffix ".go"%str name then Some tt else None)
    (fun _ s => Some [s]) (fun toks => [toks]) id (fun _ => 1) {[ 1 := "k"%str ]} (fun _ => 0) _
    "<script>"%str [] "x.go"%str).
  intros t c [<- <-]%lookup_singleton_Some. by_decide.
Defined.

Definition sample_listing : str :=
  "040000 tree aa -"%str ++ TAB :: "d"%str ++ NUL :: "100644 blob bb 3"%str ++ TAB :: "d/<b>"%str ++ [NUL].

Lemma RenderDirectoryTree_complete_witness :
  exists st page pad, buildDirectoryTree sample_listing = Ok st /\
    RenderDirectoryTree st "o/r"%str "HEAD"%str "d/x"%str (length st) 0 rootPadding = Some page /\
    within (dq "<a style='padding-left:"%str ++ Itoa pad
            ++ dq "px;' data-path='d/<b>' data-hash='HEAD' href='/experimental/o/r/blob/HEAD/d/<b>'>"%str
            ++ file_icon ++ "<span><b></span></a>"%str) page.
Proof.
  assert (exists st x, buildDirectoryTree sample_listing = Ok st /\ st !! 2%nat = Some x /\
    tn_Name x = "<b>"%str /\ tn_Path x = "d/<b>"%str /\ tn_Type x = "blob"%str)
    as (st & x & E & Hx & Hn & Hp & Ht) by (eexists _, _; vm_compute; split_and!; reflexivity).
  destruct (RenderDirectoryTree_complete sample_listing st "o/r"%str "HEAD"%str "d/x"%str E) as (page & Hpage & H).
  destruct (H 2%nat x Hx ltac:(lia)) as (pad & opened & _ & Hw). exists st, page, pad. split; [exact E|].
  split; [exact Hpage|]. unfold entry_anchor in Hw. rewrite Hn, Hp, Ht in Hw. exact Hw.
Defined.
