(* ===== verification/StyleSheet.v ===== *)
(** * The style sheet of highlighted code: [styleToCSS] and [writeCSS] in
    [server/templates/templates.go]

    The rules for the classes that [styleAttr] gives to the tokens.  The styles
    and the types of tokens (the chroma library) and the writer are parameters. *)
From S2P Require Import Prelude GoStrings GoSort GoMap Templates.

Section style.
Context `{GS : !GoSort, GR : !GoRange}.
Context (StandardTypes : gmap Z str) (Parent : Z -> Z) (TypeName : Z -> str).
(** The entry of a style for a type, without what the background has. *)
Context {entry : Type} (Get : Z -> entry) (Sub : entry -> entry -> entry) (StyleEntryToCSS : entry -> str).
Context (Background : Z).

Definition entry_css (t : Z) : str :=
  StyleEntryToCSS (if decide (t = Background) then Get t else Sub (Get t) (Get Background)).
(** The body of the loop over the types. *)
Definition add_class (classes : gmap Z str) (t : Z) : gmap Z str :=
  let css := entry_css t in
  let old := default [] (classes !! t) in
  let css := if decide (css <> [] /\ old <> []) then css ++ ";"%str else css in
  <[t := css ++ old]> classes.
Definition styleToCSS : gmap Z str := foldl add_class ∅ (go_range StandardTypes).*1.

(** A rule, or nothing. *)
Definition css_rule (css : gmap Z str) (tt : Z) : option str :=
  let class := getChromaClass StandardTypes Parent tt in
  let styles := default [] (css !! tt) in
  if decide (class = []) then None
  else if decide (styles = []) then None
  else Some ("/* "%str ++ TypeName tt ++ " */ .chroma ."%str ++ class ++ " { "%str ++ styles ++ " }"%str ++ [LF]).

(** [Fprintf_ok]: does the writer, which has taken a text, take the next?  The
    text that was written, and whether all of it was. *)
Context (Fprintf_ok : str -> str -> bool).
Fixpoint write_rules (css : gmap Z str) (tts : list Z) (out : str) : str * bool :=
  match tts with
  | [] => (out, true)
  | ti :: tts =>
      match css_rule css ti with
      | None => write_rules css tts out
      | Some rule => if Fprintf_ok out rule then write_rules css tts (out ++ rule) else (out, false)
      end
  end.
Definition writeCSS : str * bool :=
  let css := styleToCSS in write_rules css (go_sort Z.ltb (go_range css).*1) [].

(** ** What is written *)
Lemma range_keys {A} (m : gmap Z A) : NoDup (go_range m).*1 /\ (forall k, k ∈ (go_range m).*1 <-> is_Some (m !! k)).
Proof using.
  split; [rewrite go_range_perm; apply NoDup_fst_map_to_list|]. intros k.
  rewrite list_elem_of_fmap. setoid_rewrite go_range_perm. split.
  - intros ([k' x] & -> & Hx%elem_of_map_to_list). by eexists.
  - intros [x Hx]. exists (k, x). split; [done|by apply elem_of_map_to_list].
Qed.
Lemma add_classes ts m : NoDup ts -> (forall t, t ∈ ts -> m !! t = None) ->
  forall t, foldl add_class m ts !! t = if decide (t ∈ ts) then Some (entry_css t) else m !! t.
Proof using.
  revert m. induction ts as [|x ts IH]; intros m Hn Hm t; [by rewrite decide_False by apply not_elem_of_nil|].
  apply NoDup_cons in Hn as [Hx Hn]. cbn [foldl]. unfold add_class at 2. rewrite (Hm x) by (by left). cbn [from_option default].
  rewrite (decide_False (P := entry_css x <> [] /\ [] <> [])) by (intros [_ ?]; done). rewrite app_nil_r, IH; [|done|].
  2:{ intros t' Ht'. rewrite lookup_insert_ne; [apply Hm; by right|]. by intros ->. }
  destruct (decide (t ∈ ts)) as [Ht|Ht]; [by rewrite decide_True by (by right)|].
  destruct (decide (x = t)) as [->|Hxt].
  - by rewrite lookup_insert_eq, decide_True by (by left).
  - rewrite lookup_insert_ne, decide_False; [done| |done]. rewrite not_elem_of_cons. by split; [congruence|].
Qed.
Lemma styleToCSS_lookup t : styleToCSS !! t = (fun _ => entry_css t) <$> StandardTypes !! t.
Proof using.
  unfold styleToCSS. destruct (range_keys StandardTypes) as [Hn Hk]. rewrite add_classes; [|done|intros; apply lookup_empty].
  case_decide as Ht; rewrite Hk in Ht.
  - by destruct Ht as [c ->].
  - rewrite lookup_empty. by destruct (StandardTypes !! t) eqn:E; [destruct Ht; eexists|].
Qed.

(** The types with a class and a style, and their rules. *)
Definition styled (t : Z) : Prop := exists c, StandardTypes !! t = Some c /\ c <> [] /\ entry_css t <> [].
Definition rule_of (t : Z) : str :=
  "/* "%str ++ TypeName t ++ " */ .chroma ."%str ++ default [] (StandardTypes !! t) ++ " { "%str ++ entry_css t ++ " }"%str ++ [LF].

Lemma Zltb_weak : StrictWeak Z.ltb.
Proof using. split; intros *; rewrite ?Z.ltb_lt, ?Z.ltb_ge; lia. Qed.
(** Different numbers in order. *)
Lemma lt_sorted l : StronglySorted (before Z.ltb) l -> NoDup l -> StronglySorted Z.lt l.
Proof using.
  induction 1 as [|x l _ IH Hx]; intros Hn; [constructor|]. apply NoDup_cons in Hn as [Hnx Hn]. constructor; [by apply IH|].
  apply Forall_forall. intros y Hy. eapply Forall_forall in Hx; [|exact Hy]. unfold before in Hx. apply Z.ltb_ge in Hx.
  assert (x <> y) by (by intros ->). lia.
Qed.
#[local] Instance styled_dec t : Decision (styled t).
Proof using.
  unfold styled. destruct (StandardTypes !! t) as [c|]; [|right; by intros (? & ? & _)].
  destruct (decide (c <> [] /\ entry_css t <> [])) as [H|H]; [left|right].
  - exists c. done.
  - intros (c' & [= <-] & H'). done.
Defined.
Lemma css_rule_spec t : css_rule styleToCSS t = if decide (styled t) then Some (rule_of t) else None.
Proof using.
  unfold css_rule, rule_of. rewrite styleToCSS_lookup. unfold getChromaClass. cbn [chroma_class].
  destruct (StandardTypes !! t) as [c|] eqn:E.
  - assert ((if decide (t = 0) then default [] (Some c) else c) = c) as -> by by case_decide.
    change (default [] ((fun _ => entry_css t) <$> Some c)) with (entry_css t). cbn [default from_option].
    destruct (decide (c = [])) as [->|Hc].
    { rewrite (decide_False (P := styled t)); [done|]. intros (c' & Hc' & Hne & _). congruence. }
    destruct (decide (entry_css t = [])) as [Hs|Hs].
    + rewrite (decide_False (P := styled t)); [done|]. intros (c' & Hc' & _ & Hne). congruence.
    + rewrite (decide_True (P := styled t)) by (by exists c). done.
  - rewrite (decide_False (P := styled t)) by (intros (c' & Hc' & _); congruence). cbn [fmap option_fmap option_map default from_option].
    case_decide; [done|]. by rewrite decide_True.
Qed.
Lemma write_rules_spec ts out :
  let rules := filter styled ts in
  exists done rest, rules = done ++ rest /\
    (write_rules styleToCSS ts out).1 = out ++ (done ≫= rule_of) /\
    ((write_rules styleToCSS ts out).2 = true <-> rest = []).
Proof using.
  revert out. induction ts as [|t ts IH]; intros out rules; [exists [], []; cbn; by rewrite app_nil_r|].
  unfold rules. cbn [write_rules]. rewrite filter_cons, css_rule_spec. case_decide as Hs; [|apply IH].
  destruct (Fprintf_ok out (rule_of t)); [|exists [], (t :: filter styled ts); cbn; by rewrite app_nil_r].
  destruct (IH (out ++ rule_of t)) as (don & rest & Er & Eo & Ee). exists (t :: don), rest.
  cbn [app]. by rewrite Er, Eo, Ee, list_bind_cons, app_assoc.
Qed.

(** The sheet has one rule for each type of token that has a class and a
    style, with the class that the tokens of this type are given, in the order
    of the types; so neither the order of the maps nor the background, of which
    each style is freed, makes a difference.  A writer that fails leaves the
    first of these rules. *)
Theorem writeCSS_rules :
  exists ts, StronglySorted Z.lt ts /\ (forall t, t ∈ ts <-> styled t) /\
    (forall t, styled t -> styleAttr StandardTypes Parent t = " "%str ++ attr "class"%str (default [] (StandardTypes !! t))) /\
    exists done rest, ts = done ++ rest /\ writeCSS.1 = done ≫= rule_of /\ (writeCSS.2 = true <-> rest = []).
Proof using.
  destruct (range_keys styleToCSS) as [Hn Hk]. set (keys := (go_range styleToCSS).*1) in *.
  exists (filter styled (go_sort Z.ltb keys)). split_and!.
  - apply filter_sorted, lt_sorted; [|by rewrite go_sort_perm]. apply go_sort_sorted, Zltb_weak.
  - intros t. rewrite list_elem_of_filter, go_sort_perm, Hk, styleToCSS_lookup, fmap_is_Some. split; [by intros [? _]|].
    intros Hs. split; [done|]. destruct Hs as (c & -> & _). by eexists.
  - intros t (c & Hc & Hne & _). unfold styleAttr, getChromaClass. cbn [chroma_class]. rewrite Hc. cbn [default from_option].
    by destruct (decide (t = 0)); rewrite decide_False.
  - destruct (write_rules_spec (go_sort Z.ltb keys) []) as (don & rest & Er & Eo & Ee). by exists don, rest.
Qed.
End style.
