(* ===== verification/ReqId.v ===== *)
(** * Request ids: [server/reqid/reqid.go], [server/log/log.go], and the handler
    type in [server/server.go]

    A request is handled in a context with a time limit and an id, drawn at
    random; the lines of the log and the call to the backend carry it. *)
From S2P Require Import Prelude GoStrings GoMap Templates.

(** [hex.EncodeToString] *)
Definition hex_lower (n : Z) : ascii := if n <? 10 then byte_of (48 + n) else byte_of (87 + n).
Definition EncodeToString (s : str) : str :=
  s ≫= fun c => [hex_lower (byte_val c `div` 16); hex_lower (byte_val c `mod` 16)].

(** The values of a context that the server reads, and its time limit in
    seconds. *)
Record context := mkContext { ctx_reqIDKey : option str; ctx_timeout : option Z }.
Definition Background : context := mkContext None None.
Definition NewContext (ctx : context) (reqID : str) : context := mkContext (Some reqID) (ctx_timeout ctx).
Definition FromContext (ctx : context) : option str := ctx_reqIDKey ctx.

(** [rand.Read] of sixteen bytes, or its error. *)
Definition New_id (rand_Read : option str) : res unit str :=
  match rand_Read with Some bytes => Ok (EncodeToString bytes) | None => Panic end.

(** [log.Printf] for a text that was formatted; [stamp] is the time. *)
Definition Printf (stamp : str) (ctx : context) (text : str) : str :=
  "["%str ++ stamp ++ "] "%str ++
  match FromContext ctx with Some reqID => "["%str ++ reqID ++ "] "%str | None => [] end ++ text ++ [LF].
(** The metadata of a call to a backend. *)
Definition outgoing (ctx : context) : list (str * str) :=
  match FromContext ctx with Some id => [("Request-Id"%str, id)] | None => [] end.

Definition RequestTimeout : Z := 30.
(** [handler.ServeHTTP], around the function [h]. *)
Definition handler_ServeHTTP {A} (rand_Read : option str) (h : context -> res unit A) : res unit A :=
  id ← New_id rand_Read;
  h (NewContext (mkContext None (Some RequestTimeout)) id).

(** ** The id of a request *)
Lemma hex_val_lower n : 0 <= n < 16 -> hex_val (hex_lower n) = Some n.
Proof.
  intros Hn. assert (n ∈ seqZ 0 16) as H by (apply elem_of_seqZ; lia). revert H. clear Hn.
  assert (Forall (fun n => hex_val (hex_lower n) = Some n) (seqZ 0 16)) as Hall by (vm_compute; repeat constructor).
  rewrite Forall_forall in Hall. apply Hall.
Qed.
Lemma hex_decode_encode s : hex_decode (EncodeToString s) = s.
Proof.
  induction s as [|c s IH]; [done|]. unfold EncodeToString. rewrite list_bind_cons. fold (EncodeToString s).
  pose proof (byte_val_range c) as Hc. pose proof (Z.mod_pos_bound (byte_val c) 16 ltac:(lia)) as Hm.
  assert (0 <= byte_val c `div` 16 < 16) as Hd by (split; [apply Z.div_pos; lia|apply Z.div_lt_upper_bound; lia]).
  change (hex_decode ([?a; ?b] ++ ?s)) with (match hex_val a, hex_val b with
    Some x, Some y => byte_of (16 * x + y) :: hex_decode s | _, _ => [] end).
  rewrite !hex_val_lower by done. rewrite IH, <- Z.div_mod by lia. by rewrite byte_of_val.
Qed.

(** What a handler logs and sends carries the id that was drawn for its
    request; and requests that drew different bytes have different ids. *)
Lemma request_traced (bytes : str) :
  exists id, hex_decode id = bytes /\ length id = (2 * length bytes)%nat /\
    forall {A} (h : context -> res unit A), exists ctx,
      handler_ServeHTTP (Some bytes) h = h ctx /\ ctx_timeout ctx = Some 30 /\ outgoing ctx = [("Request-Id"%str, id)] /\
      forall stamp text, Printf stamp ctx text = "["%str ++ stamp ++ "] ["%str ++ id ++ "] "%str ++ text ++ [LF].
Proof.
  exists (EncodeToString bytes). split_and!; [apply hex_decode_encode| |].
  - induction bytes as [|c s IH]; [done|]. unfold EncodeToString in *. rewrite list_bind_cons, length_app, IH. cbn. lia.
  - intros A h. exists (NewContext (mkContext None (Some RequestTimeout)) (EncodeToString bytes)). split_and!; [done..|].
    intros stamp text. unfold Printf. cbn [FromContext NewContext ctx_reqIDKey]. by rewrite <- !app_assoc.
Qed.
Example id_of_request : New_id (Some (byte_of <$> [0; 10; 255])) = Ok "000aff"%str.
Proof. vm_compute. reflexivity. Qed.
