(* ===== verification/Pages.v ===== *)
(** * Loading templates while pages are served: [loadTemplates], [renderPage]
    and [reloadHandler] in [server/server.go], [LoadTemplates] in
    [server/templates/templates.go]

    With [reload] set every request loads the templates again before it is
    handled, under a mutex; the pages read the same maps without it.  The
    requests are goroutines of a step relation. *)
From S2P Require Import Prelude GoChan GoStrings GoPath GoMap Scanner Diff Templates.

(** ** What a load reads *)

(** The files below the document root: whether those of [templates/common]
    parse (a bad pattern fails there too), the paths of the other templates in
    the order of [Glob] and whether they parse, whether the description for
    OpenSearch parses, and the text of [hashes.txt]. *)
Record docroot := mkDocroot {
  d_common : bool; d_templates : list (str * bool); d_opensearch : bool; d_hashes : option str;
}.

(** What a load does to the two maps, one store after the other; a panic ends
    it. *)
Inductive load_op :=
  | MakeTemplates | SetTemplate (name : str) | MakeHashes | SetHash (asset hash : str) | LoadPanic.
#[export] Instance load_op_eq_dec : EqDecision load_op.
Proof. solve_decision. Defined.

Definition must (ok : bool) (l : list load_op) : list load_op := if ok then l else [LoadPanic].

(** [LoadTemplates], followed by [rest]: the page of a file is filed under its
    base name. *)
Fixpoint set_templates (paths : list (str * bool)) (rest : list load_op) : list load_op :=
  match paths with
  | [] => rest
  | (path, ok) :: paths => must ok (SetTemplate (Base path) :: set_templates paths rest)
  end.
Definition LoadTemplates (d : docroot) (rest : list load_op) : list load_op :=
  must (d_common d) (set_templates (d_templates d) rest).

(** [LoadAssetHashes] with its stores. *)
Fixpoint set_hashes (fuel : nat) (sc : Scanner) : list load_op :=
  match fuel with
  | O => []
  | S fuel => match Scan sc with
              | (false, _) => []
              | (true, sc) => match index "  "%str (sc_bytes sc) with
                              | Some i => SetHash (drop (i + 2) (sc_bytes sc)) (take i (sc_bytes sc)) :: set_hashes fuel sc
                              | None => [LoadPanic]
                              end
              end
  end.
Definition load_hashes (file : option str) : list load_op :=
  match file with
  | None => [LoadPanic]
  | Some content => let sc := newScanner MaxScanTokenSize content in set_hashes (S (length (sc_rest sc))) sc
  end.

Definition loadTemplates (d : docroot) : list load_op :=
  MakeTemplates :: LoadTemplates d (must (d_opensearch d) (MakeHashes :: load_hashes (d_hashes d))).

(** ** The maps *)
Record site := mkSite { st_Templates : gset str; st_AssetHashes : gmap str str }.
Definition apply_op (s : site) (op : load_op) : site :=
  match op with
  | MakeTemplates => mkSite ∅ (st_AssetHashes s)
  | SetTemplate name => mkSite ({[ name ]} ∪ st_Templates s) (st_AssetHashes s)
  | MakeHashes => mkSite (st_Templates s) ∅
  | SetHash asset hash => mkSite (st_Templates s) (<[asset := hash]> (st_AssetHashes s))
  | LoadPanic => s
  end.
(** A whole load, as [New] does it. *)
Fixpoint run_load (l : list load_op) (s : site) : res unit site :=
  match l with
  | [] => Ok s
  | LoadPanic :: _ => Panic
  | op :: l => run_load l (apply_op s op)
  end.

(** [renderPage]: the template and the hashes a page is made with; without the
    template nothing is written. *)
Definition renderPage (s : site) (templateName : str) : option (gmap str str) :=
  if decide (templateName ∈ st_Templates s) then Some (st_AssetHashes s) else None.

(** ** Requests *)
Inductive pending :=
  | Arrived (page : str)
  | Loading (page : str) (todo : list load_op)
  | Aborted (page : str)          (** its load panicked *)
  | Serving (page : str)
  | Served (page : str) (data : option (gmap str str)).
Record serving := mkServing {
  sv_mu : option nat;             (** the request that holds the mutex *)
  sv_site : site;
  sv_requests : list pending;
}.

Section reload.
Context (reload : bool).
(** What the document root can be while the server runs. *)
Context (root : docroot -> Prop).

(** [reloadHandler.ServeHTTP] and the page of the request.  The mutex is not
    released by a panic, which [net/http] recovers from. *)
Inductive serve_step : serving -> serving -> Prop :=
  | lock c page d s rs :
      reload = true -> rs !! c = Some (Arrived page) -> root d ->
      serve_step (mkServing None s rs) (mkServing (Some c) s (<[c := Loading page (loadTemplates d)]> rs))
  | load c page op todo mu s rs :
      rs !! c = Some (Loading page (op :: todo)) -> op <> LoadPanic ->
      serve_step (mkServing mu s rs) (mkServing mu (apply_op s op) (<[c := Loading page todo]> rs))
  | load_panic c page todo mu s rs :
      rs !! c = Some (Loading page (LoadPanic :: todo)) ->
      serve_step (mkServing mu s rs) (mkServing mu s (<[c := Aborted page]> rs))
  | unlock c page mu s rs :
      rs !! c = Some (Loading page []) ->
      serve_step (mkServing mu s rs) (mkServing None s (<[c := Serving page]> rs))
  | handle c page mu s rs :
      reload = false -> rs !! c = Some (Arrived page) ->
      serve_step (mkServing mu s rs) (mkServing mu s (<[c := Serving page]> rs))
  | render c page mu s rs :
      rs !! c = Some (Serving page) ->
      serve_step (mkServing mu s rs) (mkServing mu s (<[c := Served page (renderPage s page)]> rs)).
End reload.
