(* ===== verification/PagesSpec.v ===== *)
(** * What reloading the templates promises

    A load leaves the pages of the directory under their names; loads exclude
    each other, and every request is answered while they work; but the pages are
    read without the mutex, and a load that panics keeps it. *)
From S2P Require Import Prelude GoChan GoStrings GoPath GoMap Scanner Templates Pages.

(** ** A whole load *)

Definition template_names (d : docroot) : gset str := list_to_set ((fun p => Base p.1) <$> d_templates d).
Definition loads (d : docroot) : Prop := LoadPanic ∉ loadTemplates d.
#[export] Instance loads_dec d : Decision (loads d).
Proof. unfold loads. apply _. Defined.

Lemma must_no_panic ok l : LoadPanic ∉ must ok l -> ok = true /\ must ok l = l.
Proof. destruct ok; [done|]. intros H. destruct H. by left. Qed.
Lemma set_templates_no_panic paths rest : LoadPanic ∉ set_templates paths rest ->
  set_templates paths rest = ((fun p => SetTemplate (Base p.1)) <$> paths) ++ rest.
Proof.
  induction paths as [|[path ok] paths IH]; [done|]. cbn [set_templates fmap list_fmap app fst].
  intros H. destruct (must_no_panic _ _ H) as [_ E]. rewrite E in *. apply not_elem_of_cons in H as [_ H].
  by rewrite IH.
Qed.
Lemma loads_ops d : loads d ->
  loadTemplates d = MakeTemplates :: ((fun p => SetTemplate (Base p.1)) <$> d_templates d) ++ MakeHashes :: load_hashes (d_hashes d).
Proof.
  unfold loads, loadTemplates. intros [_ H]%not_elem_of_cons. f_equal. unfold LoadTemplates in *.
  destruct (must_no_panic _ _ H) as [_ E]. rewrite E in *. rewrite set_templates_no_panic by done.
  rewrite set_templates_no_panic in H by done. apply not_elem_of_app in H as [_ H].
  destruct (must_no_panic _ _ H) as [_ ->]. done.
Qed.

Lemma store_templates paths s :
  foldl apply_op s ((fun p : str * bool => SetTemplate (Base p.1)) <$> paths)
  = mkSite (list_to_set ((fun p => Base p.1) <$> paths) ∪ st_Templates s) (st_AssetHashes s).
Proof.
  revert s. induction paths as [|p paths IH]; intros s; cbn [fmap list_fmap foldl list_to_set].
  - destruct s. cbn. f_equal. set_solver.
  - rewrite IH. cbn. f_equal. set_solver.
Qed.
Lemma run_hashes fuel sc s :
  run_load (set_hashes fuel sc) s =
  match hashes_loop fuel sc (st_AssetHashes s) with
  | Ok m => Ok (mkSite (st_Templates s) m) | Err _ | Panic => Panic
  end.
Proof.
  revert sc s. induction fuel as [|fuel IH]; intros sc s; cbn [set_hashes hashes_loop run_load]; [by destruct s|].
  destruct (Scan sc) as [[] sc']; [|by destruct s]. unfold hash_line.
  destruct (index "  "%str (sc_bytes sc')) as [i|]; [|done]. cbn [run_load mbind res_bind deref]. by rewrite IH.
Qed.
Lemma run_load_store l s s' : run_load l s = Ok s' <-> LoadPanic ∉ l /\ foldl apply_op s l = s'.
Proof.
  revert s. induction l as [|op l IH]; intros s; cbn [run_load foldl].
  - split; [intros [= <-]; split; [by apply not_elem_of_nil|done]|by intros [_ <-]].
  - rewrite not_elem_of_cons. destruct op; cbn [run_load]; rewrite ?IH; intuition congruence.
Qed.

(** Whatever was there before, a load leaves the templates of the directory
    under their base names, and the hashes of the file. *)
Lemma loaded d s : loads d ->
  exists m, LoadAssetHashes (d_hashes d) = Ok m /\ foldl apply_op s (loadTemplates d) = mkSite (template_names d) m.
Proof.
  intros Hd. pose proof (loads_ops d Hd) as E. rewrite E. unfold loads in Hd. rewrite E in Hd.
  apply not_elem_of_cons in Hd as [_ Hd]. apply not_elem_of_app in Hd as [_ Hd].
  apply not_elem_of_cons in Hd as [_ Hd]. change (foldl apply_op ?s (MakeTemplates :: ?l)) with (foldl apply_op (mkSite ∅ (st_AssetHashes s)) l). rewrite foldl_app, store_templates.
  change (foldl apply_op ?s (MakeHashes :: ?l)) with (foldl apply_op (mkSite (st_Templates s) ∅) l). cbn [apply_op st_Templates].
  rewrite union_empty_r_L. fold (template_names d). unfold load_hashes, LoadAssetHashes in *.
  destruct (d_hashes d) as [content|]; [|destruct Hd; by left]. cbn [or_err mbind res_bind]. set (sc := newScanner _ _) in *.
  set (fuel := S (length (sc_rest sc))) in *.
  assert (run_load (set_hashes fuel sc) (mkSite (template_names d) ∅)
          = Ok (foldl apply_op (mkSite (template_names d) ∅) (set_hashes fuel sc))) as H by by apply run_load_store.
  rewrite run_hashes in H. cbn [st_AssetHashes st_Templates] in H.
  destruct (hashes_loop fuel sc ∅) as [m|e|]; [|done..]. exists m. split; [done|]. congruence.
Qed.

(** ** One load at a time *)
Section promises.
Context (reload : bool) (root : docroot -> Prop).
Abbreviation step := (serve_step reload root).

(** A request inside the mutex, a load that panicked included. *)
Definition holds (r : pending) : bool := match r with Loading _ _ | Aborted _ => true | _ => false end.
(** The maps after a whole load of some state of the directory. *)
Definition complete (s : site) : Prop :=
  exists d m, root d /\ loads d /\ LoadAssetHashes (d_hashes d) = Ok m /\ s = mkSite (template_names d) m.

Record serving_inv (v : serving) : Prop := mkServingInv {
  inv_mutex : forall c r, sv_requests v !! c = Some r -> holds r = true -> sv_mu v = Some c;
  inv_holder : forall c, sv_mu v = Some c -> reload = true /\ exists r, sv_requests v !! c = Some r /\ holds r = true;
  inv_free : sv_mu v = None -> complete (sv_site v);
  inv_loading : forall c page todo, sv_requests v !! c = Some (Loading page todo) ->
    exists d done s, root d /\ loadTemplates d = done ++ todo /\ LoadPanic ∉ done /\ sv_site v = foldl apply_op s done;
}.

(** A request that moves and neither takes nor gives back the mutex. *)
Lemma requests_move (rs : list pending) c x y :
  rs !! c = Some x -> holds x = holds y ->
  (forall c' r, <[c := y]> rs !! c' = Some r -> holds r = true -> exists r', rs !! c' = Some r' /\ holds r' = true) /\
  (forall c' r, rs !! c' = Some r -> holds r = true -> exists r', <[c := y]> rs !! c' = Some r' /\ holds r' = true).
Proof using.
  intros Hc Hxy. pose proof (lookup_lt_Some _ _ _ Hc). split; intros c' r Hr Hh.
  - apply list_lookup_insert_Some in Hr as [(-> & <- & _)|[_ Hr]]; [|by exists r].
    exists x. by rewrite Hxy.
  - destruct (decide (c = c')) as [->|Hn].
    + exists y. rewrite list_lookup_insert_eq by done. split; [done|]. congruence.
    + exists r. by rewrite list_lookup_insert_ne.
Qed.

(** The mutex after such a move. *)
Lemma inv_mutex_move v c x y s' :
  serving_inv v -> sv_requests v !! c = Some x -> holds x = holds y ->
  (sv_mu v = None -> s' = sv_site v) ->
  (forall c' page todo, <[c := y]> (sv_requests v) !! c' = Some (Loading page todo) ->
     exists d done s, root d /\ loadTemplates d = done ++ todo /\ LoadPanic ∉ done /\ s' = foldl apply_op s done) ->
  serving_inv (mkServing (sv_mu v) s' (<[c := y]> (sv_requests v))).
Proof using.
  intros [Hm Hh Hf Hl] Hc Hxy Hs Hload. destruct (requests_move _ _ _ _ Hc Hxy) as [H1 H2].
  split; cbn [sv_mu sv_site sv_requests].
  - intros c' r Hr Hr'. destruct (H1 c' r Hr Hr') as (r' & ? & ?). by eapply Hm.
  - intros c' Hmu. destruct (Hh c' Hmu) as (? & r & Hr & Hr'). split; [done|]. by eapply H2.
  - intros Hn. rewrite (Hs Hn). by apply Hf.
  - exact Hload.
Qed.

Lemma only_loading v c page todo c' page' todo' y :
  serving_inv v -> sv_requests v !! c = Some (Loading page todo) ->
  <[c := y]> (sv_requests v) !! c' = Some (Loading page' todo') -> y = Loading page' todo'.
Proof using.
  intros Hi Hc [(-> & -> & _)|[Hn Hc']]%list_lookup_insert_Some; [done|].
  pose proof (inv_mutex _ Hi _ _ Hc eq_refl). pose proof (inv_mutex _ Hi _ _ Hc' eq_refl). congruence.
Qed.

Lemma loading_quiet (rs : list pending) c y c' page' todo' :
  holds y = false -> <[c := y]> rs !! c' = Some (Loading page' todo') -> rs !! c' = Some (Loading page' todo').
Proof using. intros Hy [(-> & -> & _)|[_ H]]%list_lookup_insert_Some; [discriminate Hy|exact H]. Qed.

Lemma serving_inv_step v v' : serving_inv v -> step v v' -> serving_inv v'.
Proof using.
  intros Hi Hstep. destruct Hstep as [c page d s rs Hre Hc Hd|c page op todo mu s rs Hc Hop|c page todo mu s rs Hc
    |c page mu s rs Hc|c page mu s rs Hre Hc|c page mu s rs Hc].
  - pose proof (lookup_lt_Some _ _ _ Hc). split; cbn [sv_mu sv_site sv_requests].
    + intros c' r [(-> & <- & _)|[Hn Hr]]%list_lookup_insert_Some Hr'; [done|].
      discriminate (inv_mutex _ Hi _ _ Hr Hr').
    + intros c' [= <-]. split; [done|]. eexists. by rewrite list_lookup_insert_eq.
    + done.
    + intros c' page' todo' [(-> & [= <- <-] & _)|[Hn Hr]]%list_lookup_insert_Some.
      * exists d, [], s. split_and!; [done..|by apply not_elem_of_nil|done].
      * discriminate (inv_mutex _ Hi _ _ Hr eq_refl).
  - apply (inv_mutex_move _ _ _ (Loading page todo) (apply_op s op) Hi Hc); [done| |].
    + cbn. intros ->. discriminate (inv_mutex _ Hi _ _ Hc eq_refl).
    + intros c' page' todo' Hc'. pose proof (only_loading _ _ _ _ _ _ _ _ Hi Hc Hc') as [= <- <-].
      destruct (inv_loading _ Hi _ _ _ Hc) as (d & done & s0 & Hd & E & Hn & Es). cbn in Es. subst s.
      exists d, (done ++ [op]), s0. split_and!; [done|by rewrite <- app_assoc| |by rewrite foldl_app].
      rewrite not_elem_of_app. split; [done|]. by intros ?%list_elem_of_singleton.
  - apply (inv_mutex_move _ _ _ (Aborted page) s Hi Hc); [done..|].
    intros c' page' todo' Hc'. discriminate (only_loading _ _ _ _ _ _ _ _ Hi Hc Hc').
  - split; cbn [sv_mu sv_site sv_requests]; [|done| |].
    + intros c' r [(-> & <- & _)|[Hn Hr]]%list_lookup_insert_Some Hr'; [discriminate Hr'|].
      pose proof (inv_mutex _ Hi _ _ Hc eq_refl). pose proof (inv_mutex _ Hi _ _ Hr Hr'). congruence.
    + intros _. destruct (inv_loading _ Hi _ _ _ Hc) as (d & done & s0 & Hd & E & Hn & Es). cbn in Es. subst s.
      rewrite app_nil_r in E. subst done. destruct (loaded d s0 Hn) as (m & Hm & ->). exists d, m. done.
    + intros c' page' todo' Hc'. discriminate (only_loading _ _ _ _ _ _ _ _ Hi Hc Hc').
  - apply (inv_mutex_move _ _ _ (Serving page) s Hi Hc); [done..|]. intros c' page' todo' Hc'.
    by eapply (inv_loading _ Hi), (loading_quiet rs c); [|exact Hc'].
  - apply (inv_mutex_move _ _ _ (Served page (renderPage s page)) s Hi Hc); [done..|]. intros c' page' todo' Hc'.
    by eapply (inv_loading _ Hi), (loading_quiet rs c); [|exact Hc'].
Qed.

Definition serving_init (s : site) (pages : list str) : serving := mkServing None s (Arrived <$> pages).
Lemma init_lookup (pages : list str) c (r : pending) :
  (Arrived <$> pages : list pending) !! c = Some r -> exists page, r = Arrived page /\ pages !! c = Some page.
Proof using. rewrite list_lookup_fmap. destruct (pages !! c) as [page|]; [|done]. intros [= <-]. by exists page. Qed.
Lemma serving_init_inv s pages : complete s -> serving_inv (serving_init s pages).
Proof using.
  intros Hs. split; cbn [serving_init sv_mu sv_site sv_requests]; [|done..|].
  - intros c r (page & -> & _)%init_lookup. done.
  - intros c page todo (page' & H & _)%init_lookup. done.
Qed.
Lemma reachable_inv s pages v : complete s -> rtc step (serving_init s pages) v -> serving_inv v.
Proof using. intros Hs. apply (rtc_inv _ _ serving_inv_step). by apply serving_init_inv. Qed.

(** C25: loads exclude each other, and while no request is loading the pages
    and the asset hashes are those of one state of the directory, each page
    under the base name of its file. *)
Theorem reload_exclusive (s : site) (pages : list str) (v : serving) :
  complete s -> rtc step (serving_init s pages) v ->
  (forall c c' r r', sv_requests v !! c = Some r -> sv_requests v !! c' = Some r' ->
     holds r = true -> holds r' = true -> c = c') /\
  (Forall (fun r => holds r = false) (sv_requests v) -> complete (sv_site v)).
Proof using.
  intros Hs Hr. pose proof (reachable_inv _ _ _ Hs Hr) as Hi. split.
  - intros c c' r r' H1 H2 Hr1 Hr2. pose proof (inv_mutex _ Hi _ _ H1 Hr1). pose proof (inv_mutex _ Hi _ _ H2 Hr2). congruence.
  - intros Hf. apply (inv_free _ Hi). destruct (sv_mu v) as [c|] eqn:E; [|done].
    destruct (inv_holder _ Hi _ E) as (_ & r & Hc & Hh). eapply Forall_lookup_1 in Hf; [|exact Hc]. congruence.
Qed.

(** Once a load panicked, the mutex is held for ever. *)
Lemma stuck_step v v' c c' page page' :
  serving_inv v -> step v v' ->
  sv_requests v !! c = Some (Aborted page) -> sv_requests v !! c' = Some (Arrived page') ->
  sv_requests v' !! c = Some (Aborted page) /\ sv_requests v' !! c' = Some (Arrived page').
Proof using.
  intros Hi Hstep Hc Hc'. pose proof (inv_mutex _ Hi _ _ Hc eq_refl) as Hmu.
  destruct (inv_holder _ Hi _ Hmu) as [Hre _].
  destruct Hstep; cbn [sv_mu sv_requests] in *; try congruence;
    rewrite !list_lookup_insert_ne by congruence; done.
Qed.

(** A load that panics, because a template does not parse, keeps the
    mutex: no request that arrives later is ever answered. *)
Theorem reload_stuck (s : site) (pages : list str) (v v' : serving) (c c' : nat) (page page' : str) :
  complete s -> rtc step (serving_init s pages) v ->
  sv_requests v !! c = Some (Aborted page) -> sv_requests v !! c' = Some (Arrived page') ->
  rtc step v v' -> sv_requests v' !! c' = Some (Arrived page').
Proof using.
  intros Hs Hr Hc Hc' Hv. pose proof (reachable_inv _ _ _ Hs Hr) as Hi. clear Hr.
  induction Hv as [v|v v1 v' Hstep Hv IH]; [done|].
  destruct (stuck_step _ _ _ _ _ _ Hi Hstep Hc Hc'). apply IH; [done..|]. by eapply serving_inv_step.
Qed.

(** ** Every request is answered, if every load works *)
Definition is_served (r : pending) : Prop := match r with Served _ _ => True | _ => False end.
Context (longest : nat) (Hroot : forall d, root d -> loads d /\ (length (loadTemplates d) <= longest)%nat).
Definition request_work (r : pending) : nat :=
  match r with
  | Arrived _ => longest + 4 | Loading _ todo => length todo + 3 | Aborted _ => 0 | Serving _ => 1 | Served _ _ => 0
  end.
Definition serving_work (v : serving) : nat := sum_list_with request_work (sv_requests v).

Lemma serving_step_work v v' : serving_inv v -> step v v' -> (serving_work v' < serving_work v)%nat.
Proof using Hroot.
  intros Hi Hstep. unfold serving_work. destruct Hstep; cbn [sv_requests];
    match goal with H : _ !! ?c = Some _ |- context [<[?c := ?y]> ?rs] =>
      pose proof (sum_list_insert request_work rs c _ y H) end; cbn [request_work length] in *; try lia.
  match goal with H : root ?d |- _ => pose proof (proj2 (Hroot d H)) end. lia.
Qed.

Definition answering (v : serving) : Prop :=
  serving_inv v /\ Forall (fun r => match r with Aborted _ => False | _ => True end) (sv_requests v).
Lemma answering_step v v' : answering v -> step v v' -> answering v'.
Proof using Hroot.
  intros [Hi Hf] Hstep. split; [by eapply serving_inv_step|].
  destruct Hstep as [| |c page todo mu s rs Hc| | |]; cbn [sv_requests] in *; try by apply Forall_insert.
  destruct (inv_loading _ Hi _ _ _ Hc) as (d & done & s0 & Hd & E & _). destruct (Hroot d Hd) as [Hl _].
  destruct Hl. rewrite E. apply elem_of_app. right. by left.
Qed.

Lemma some_request v (P : pending -> Prop) `{!forall r, Decision (P r)} :
  Forall (fun r => ~ P r) (sv_requests v) \/ exists c r, sv_requests v !! c = Some r /\ P r.
Proof using.
  destruct (goroutine_dec (fun r => ~ P r) (sv_requests v)) as [|(c & r & Hc & Hx)]; [by left|right].
  exists c, r. split; [done|]. by destruct (decide (P r)).
Qed.
Definition is_loading (r : pending) : Prop := match r with Loading _ _ => True | _ => False end.
#[local] Instance is_loading_dec r : Decision (is_loading r).
Proof. destruct r; apply _. Defined.
#[local] Instance is_served_dec r : Decision (is_served r).
Proof. destruct r; apply _. Defined.

Lemma serving_progress d v : root d -> answering v -> Forall is_served (sv_requests v) \/ red step v.
Proof using.
  intros Hd [Hi Hf]. destruct (some_request v is_loading) as [Hnl|(c & r & Hc & Hr)].
  - destruct (goroutine_dec is_served (sv_requests v)) as [|(c & r & Hc & Hr)]; [by left|right].
    destruct v as [mu s rs]. cbn [sv_requests] in *. pose proof (Forall_lookup_1 _ _ _ _ Hnl Hc) as Hn.
    pose proof (Forall_lookup_1 _ _ _ _ Hf Hc) as Ha.
    destruct r as [page|page todo|page|page|page data]; try done; [|by eexists; eapply render].
    destruct reload eqn:Ere; [|eexists; by apply handle].
    destruct mu as [c0|]; [|eexists; by eapply lock].
    destruct (inv_holder _ Hi c0 eq_refl) as (_ & r & Hr0 & Hh). cbn [sv_requests] in Hr0.
    pose proof (Forall_lookup_1 _ _ _ _ Hnl Hr0). pose proof (Forall_lookup_1 _ _ _ _ Hf Hr0). by destruct r.
  - right. destruct v as [mu s rs]. cbn [sv_requests] in *. destruct r as [|page [|op todo]| | |]; try done.
    + eexists. by eapply unlock.
    + destruct (decide (op = LoadPanic)) as [->|Ho]; eexists; [by eapply load_panic|by eapply load].
Qed.

(** While every load works, and loads are not longer than some bound,
    every request is answered. *)
Theorem reload_returns (s : site) (pages : list str) :
  complete s -> always_ends step (fun v => Forall is_served (sv_requests v)) (serving_init s pages).
Proof using Hroot.
  intros Hs. pose proof Hs as (d & _ & Hd & _).
  apply (always_ends_intro _ answering answering_step serving_work).
  - intros v v' [Hi _]. by apply serving_step_work.
  - intros v. by apply (serving_progress d).
  - split; [by apply serving_init_inv|]. apply Forall_fmap, Forall_forall. done.
Qed.
End promises.

(** ** What a page can see *)
Section race.
Context (root : docroot -> Prop) (d : docroot) (Hd : root d) (Hl : loads d).
Abbreviation step := (serve_step true root).

Lemma load_run c page todo s rs :
  rs !! c = Some (Loading page todo) -> LoadPanic ∉ todo ->
  rtc step (mkServing (Some c) s rs) (mkServing (Some c) (foldl apply_op s todo) (<[c := Loading page []]> rs)).
Proof using.
  revert s rs. induction todo as [|op todo IH]; intros s rs Hc Hn.
  - rewrite list_insert_id by done. constructor.
  - apply not_elem_of_cons in Hn as [Hop Hn]. eapply rtc_l; [by apply load|].
    rewrite <- (list_insert_insert_eq rs c (Loading page []) (Loading page todo)). apply IH; [|done].
    by rewrite list_lookup_insert_eq by by eapply lookup_lt_Some.
Qed.

(** The pages are read without the mutex: of two requests, one can find
    its template missing because the other is loading, although the load it made
    itself had it; and it answers with an empty page. *)
Theorem reload_race (s : site) (page page' : str) :
  page ∈ template_names d ->
  (exists m, run_load (loadTemplates d) s = Ok (mkSite (template_names d) m) /\
     renderPage (mkSite (template_names d) m) page = Some m) /\
  exists v, rtc step (serving_init s [page; page']) v /\ sv_requests v !! 0%nat = Some (Served page None).
Proof using Hd Hl.
  intros Hp. destruct (loaded d s Hl) as (m & _ & Em). split.
  { exists m. split; [by apply run_load_store|]. unfold renderPage. by rewrite decide_True. }
  eexists. split.
  - eapply rtc_l; [by apply (lock _ _ 0%nat page d s [Arrived page; Arrived page'])|].
    etrans; [by apply (load_run 0%nat page)|]. rewrite Em. cbn.
    eapply rtc_l; [by apply (unlock _ _ 0%nat page)|]. cbn.
    eapply rtc_l; [by apply (lock _ _ 1%nat page' d)|]. cbn.
    eapply rtc_l; [by apply (load _ _ 1%nat page' MakeTemplates)|]. cbn.
    eapply rtc_once. by apply (render _ _ 0%nat page).
  - cbn. unfold renderPage. cbn. by rewrite decide_False by set_solver.
Qed.
End race.

(** ** Witnesses *)
Definition sample_docroot : docroot :=
  mkDocroot true [("web/templates/about.html"%str, true); ("web/templates/index.html"%str, true)] true
    (Some ("sha256-x  js/bundle.js"%str ++ [LF])).
(** The same, while a template is being edited. *)
Definition broken_docroot : docroot :=
  mkDocroot true [("web/templates/about.html"%str, true); ("web/templates/index.html"%str, false)] true
    (Some ("sha256-x  js/bundle.js"%str ++ [LF])).
Definition sample_site : site :=
  mkSite {[ "about.html"%str; "index.html"%str ]} {[ "js/bundle.js"%str := "sha256-x"%str ]}.
Definition edited (d : docroot) : Prop := d = sample_docroot \/ d = broken_docroot.
Definition only_sample (d : docroot) : Prop := d = sample_docroot.

Example load_sample : run_load (loadTemplates sample_docroot) (mkSite ∅ ∅) = Ok sample_site.
Proof. vm_compute. reflexivity. Qed.
Lemma sample_complete (root : docroot -> Prop) : root sample_docroot -> complete root sample_site.
Proof.
  intros H. exists sample_docroot, {[ "js/bundle.js"%str := "sha256-x"%str ]}.
  split_and!; [done|by_decide|vm_compute; reflexivity..].
Defined.

Lemma reload_exclusive_witness :
  complete only_sample (sv_site (serving_init sample_site ["index.html"%str])).
Proof.
  apply (reload_exclusive true only_sample sample_site ["index.html"%str] (serving_init sample_site ["index.html"%str])).
  - by apply sample_complete.
  - constructor.
  - repeat constructor.
Defined.

Lemma broken_run :
  exists v, rtc (serve_step true edited) (serving_init sample_site ["index.html"; "about.html"]%str) v /\
    sv_requests v !! 0%nat = Some (Aborted "index.html"%str) /\ sv_requests v !! 1%nat = Some (Arrived "about.html"%str).
Proof.
  eexists. split.
  - eapply rtc_l; [by apply (lock _ _ 0%nat "index.html"%str broken_docroot); [..|right]|]. cbn [list_insert insert].
    eapply rtc_l; [by apply (load _ _ 0%nat "index.html"%str MakeTemplates)|]. cbn [list_insert insert].
    eapply rtc_l; [by apply (load _ _ 0%nat "index.html"%str (SetTemplate "about.html"%str))|]. cbn [list_insert insert].
    eapply rtc_once. by apply (load_panic _ _ 0%nat "index.html"%str []).
  - done.
Defined.
Lemma reload_stuck_witness :
  exists v, rtc (serve_step true edited) (serving_init sample_site ["index.html"; "about.html"]%str) v /\
    forall v', rtc (serve_step true edited) v v' -> sv_requests v' !! 1%nat = Some (Arrived "about.html"%str).
Proof.
  destruct broken_run as (v & Hr & H0 & H1). exists v. split; [exact Hr|]. intros v' Hv.
  exact (reload_stuck true edited sample_site ["index.html"; "about.html"]%str v v' 0%nat 1%nat
    "index.html"%str "about.html"%str (sample_complete edited (or_introl eq_refl)) Hr H0 H1 Hv).
Defined.
Lemma reload_returns_witness :
  always_ends (serve_step true only_sample) (fun v => Forall is_served (sv_requests v))
    (serving_init sample_site ["index.html"; "about.html"]%str).
Proof.
  apply (reload_returns true only_sample 5).
  - intros d ->. split; [by_decide|vm_compute; lia].
  - by apply sample_complete.
Defined.
Lemma reload_race_witness :
  exists v, rtc (serve_step true only_sample) (serving_init sample_site ["index.html"; "about.html"]%str) v /\
    sv_requests v !! 0%nat = Some (Served "index.html"%str None).
Proof.
  apply (reload_race only_sample sample_docroot eq_refl ltac:(by_decide) sample_site "index.html"%str "about.html"%str).
  by_decide.
Defined.
