(* ===== verification/Server.v ===== *)
(** * The pages of the server: [server/server.go], and [server/middleware]

    The handlers find the repository and the revision a URL names and call the
    file viewer.  [git] maps the arguments of a command to its output; [Tail]
    is [pat.Tail]; both are parameters.  The text of error pages is left out. *)
From S2P Require Import Prelude GoStrings Config GoRegexp GoPath Scanner GoSort GoMap Query Search.
From S2P Require Import Diff GitLog Blame GitShow DirTree Listing Templates.

(** What a handler writes: an error page, a bare text, or data for a template
    or for the JSON encoder. *)
Inductive http (A : Type) := HttpError (code : Z) | HttpText | HttpOk (data : A).
Arguments HttpError {A} code.
Arguments HttpText {A}.
Arguments HttpOk {A} data.

(** An error result of the file viewer becomes an error page. *)
Definition or_page {E A B} (code : Z) (r : res E A) (k : A -> res unit (http B)) : res unit (http B) :=
  match r with Ok a => k a | Err _ => Ok (HttpError code) | Panic => Panic end.

(** ** Repositories *)
Abbreviation parent_map := (gmap str (gmap str RepoConfig)).

(** [parentAndRepo[:firstSlash]] panics when there is no slash. *)
Definition add_repo (repos : gmap str RepoConfig) (parents : parent_map) (parentAndRepo : str)
    : res unit parent_map :=
  firstSlash ← deref (index_byte "/" parentAndRepo);
  let parent := take firstSlash parentAndRepo in
  let onlyRepoName := drop (S firstSlash) parentAndRepo in
  let repo := default zero_RepoConfig (repos !! parentAndRepo) in
  Ok (<[parent := <[onlyRepoName := repo]> (default ∅ (parents !! parent))]> parents).

Definition buildReposAndParents (repos : gmap str RepoConfig) (repoNames : list str) : res unit parent_map :=
  foldM (add_repo repos) repoNames ∅.

(** The loop of [New] over the configured repositories. *)
Definition load_repos (cfg : list RepoConfig) : gmap str RepoConfig * list str :=
  (foldl (fun m r => <[repo_Name r := r]> m) ∅ cfg, repo_Name <$> cfg).

Definition filebrowseEnabled (repos : gmap str RepoConfig) (repo : str) : option RepoConfig :=
  if decide (repos = ∅) then None else repos !! repo.

(** The alternatives of the names, longest first, a slash, and the rest of the
    line; no names match the empty text. *)
Definition buildRepoRegex `{!GoSort} (repoNames : list str) : re :=
  let names := go_sort (fun a b => bool_decide (length b <= length a)%nat) repoNames in
  RSeq [RGroup 1 (if decide (names = []) then REps else RAlts (RLit <$> names)); RLit "/"%str;
        RGroup 2 (RStar true (RChr class_dot))].
Definition getRepoPathFromURL (repoRegex : re) (tail : str) : option (str * str) :=
  m ← find repoRegex tail; Some (group m 1, group m 2).

(** ** [rev:path] in a URL *)
Definition parse_rev_path (repoRevAndPath : str) : str * str :=
  match split ":" repoRevAndPath with
  | [rev; path] => (rev, path)
  | [rev] => (if decide (rev = []) then "HEAD"%str else rev, [])
  | _ => ("HEAD"%str, [])
  end.

(** [ParseUint] of a parameter that was given, 0 otherwise. *)
Definition uint_param (params : values) (key : str) : res unit Z :=
  match params !! key with
  | Some _ => or_err tt (ParseUint 10 64 (values_get params key))
  | None => Ok 0
  end.

(** ** Data of the pages *)
Record file_page := mkFilePage {
  fp_Title : str; fp_LogLink : str; fp_Permalink : str; fp_Headlink : str; fp_Data : FileViewerContext;
}.
(** [io.WriteString] of a text, or the rows. *)
Record diff_page := mkDiffPage { dp_Rows : list IDiffRow; dp_FileName : str }.
Record experimental_page := mkExpPage {
  ex_RepoRev : str; ex_HeadRev : str; ex_Commit : str; ex_CommitHash : str;
  ex_FilePath : str; ex_FileName : str; ex_Invalid : bool;
  ex_Tree : option store; ex_Branches : list GitRef; ex_Tags : list GitRef;
}.
Record log_page := mkLogPage { lp_Log : SimpleGitLog; CommitLinkPrefix : str }.

(** A result that an error leaves nil. *)
Definition or_nil {E A} (d : A) (r : res E A) : res unit A :=
  match r with Ok a => Ok a | Err _ => Ok d | Panic => Panic end.

Section handlers.
Context `{!GoSort, !GoRange} (git : list str -> option str) (git_pieces : list str -> option (list str)).
Context (exts : list str) (Tail : str -> str -> str).
Context (repos : gmap str RepoConfig) (newRepos : parent_map) (ZoektRepoCache : str).
Implicit Types (params : values) (url : str).

Definition with_repo {A} (name : str) (k : RepoConfig -> res unit (http A)) : res unit (http A) :=
  if decide (repos = ∅) then Ok (HttpError 404)
  else match repos !! name with None => Ok (HttpError 404) | Some repo => k repo end.

Definition repo_name params : str :=
  values_get params ":parent"%str ++ "/"%str ++ values_get params ":repo"%str.

Definition ServeGitShow params : res unit (http GitShow) :=
  with_repo (repo_name params) (fun repoConfig =>
    let commit := values_get params ":commitHash"%str in
    if decide (commit = []) then Ok (HttpError 500)
    else or_page 500 (GitShowCommit git_pieces repoConfig commit) (fun data => Ok (HttpOk data))).

(** The blame reader may not end: [None]. *)
Definition ServeGitBlameJson (range : gmap str BlameChunk -> list (str * BlameChunk)) (fuel : nat)
    params url : option (res unit (http BlameResult)) :=
  let path := Tail "/api/v2/json/git-blame/:parent/:repo/:rev/"%str url in
  if decide (repos = ∅) then Some (Ok (HttpError 404))
  else match repos !! repo_name params with
       | None => Some (Ok (HttpError 404))
       | Some repo =>
           r ← GitBlameBlob git range fuel path repo (values_get params ":rev"%str);
           Some (or_page 500 r (fun data => Ok (HttpOk data)))
       end.

(** After the error page the nil log is written to. *)
Definition ServeSimpleGitLogJson params url : res unit (http log_page) :=
  let path := Tail "/api/v2/json/git-log/:parent/:repo/:rev/"%str url in
  with_repo (repo_name params) (fun repo =>
    match BuildSimpleGitLogData git path (values_get params ":rev"%str) repo with
    | Ok data => Ok (HttpOk (mkLogPage data ("/delve/"%str ++ repo_name params)))
    | Err _ => Panic
    | Panic => Panic
    end).

Definition ServeSimpleGitLog params url : res unit (http log_page) :=
  let path := Tail "/delve/:parent/:repo/commits/:rev/"%str url in
  let firstParent := values_get params "firstParent"%str in
  let firstParent := if decide (firstParent = []) then values_get params ":rev"%str else firstParent in
  with_repo (repo_name params) (fun repo =>
    or_page 500 (BuildSimpleGitLogData git path firstParent repo)
      (fun data => Ok (HttpOk (mkLogPage data ("/delve/"%str ++ repo_name params))))).

(** The bare repository of a Zoekt deployment. *)
Definition zoekt_path params : str := ZoektRepoCache ++ "/"%str ++ repo_name params ++ ".git"%str.

Definition ServeListAllBranchesForZoekt params : res unit (http (list GitRef)) :=
  or_page 500 (ListAllBranches git (zoekt_path params)) (fun branches => Ok (HttpOk branches)).
Definition ServeListAllTagsForZoekt params : res unit (http (list GitRef)) :=
  or_page 500 (ListAllTags git (zoekt_path params)) (fun tags => Ok (HttpOk tags)).

(** [first] and [afterCursor], and the log. *)
Definition serve_log params (rev path repoPath : str) : option (res unit (http GitLog)) :=
  match uint_param params "first"%str, uint_param params "afterCursor"%str with
  | Ok firstVal, Ok afterCursorVal =>
      r ← BuildGitLog git (mkOpts rev firstVal afterCursorVal path false false) repoPath;
      Some (or_page 500 r (fun log => Ok (HttpOk log)))
  | _, _ => Some (Ok (HttpError 500))
  end.

Definition ServeGitLogForZoekt params url : option (res unit (http GitLog)) :=
  let '(rev, path) := parse_rev_path (Tail "/api/v2/getGitLogForZoekt/:parent/:repo/+/"%str url) in
  serve_log params rev path (zoekt_path params).

Definition ServeGitLogJson params : option (res unit (http GitLog)) :=
  match filebrowseEnabled repos (repo_name params) with
  | None => Some (Ok (HttpError 500))
  | Some repoConfig =>
      serve_log params (values_get params "revspec"%str) (values_get params "path"%str) (repo_Path repoConfig)
  end.

Definition ServeGitLsTreeForZoekt params url : res unit (http str) :=
  let '(rev, path) := parse_rev_path (Tail "/api/v2/getDirectoryTreeForZoekt/:parent/:repo/+/"%str url) in
  or_page 500 (GetLsTreeOutput git (zoekt_path params) rev) (fun data => Ok (HttpOk data)).

Definition ServeGitLsTreeJson params url : res unit (http store) :=
  let path := Tail "/api/v2/json/git-ls-tree/:parent/:repo/:rev/"%str url in
  with_repo (repo_name params) (fun repo =>
    or_page 500 (BuildDirectoryTree git path (repo_Path repo) (values_get params ":rev"%str))
      (fun data => Ok (HttpOk data))).

Definition ServeGitLsTreeRendered params url : res unit (http str) :=
  let path := Tail "/api/v2/getRenderedFileTree/:parent/:repo/:rev/"%str url in
  with_repo (repo_name params) (fun repo =>
    let rev := values_get params ":rev"%str in
    or_page 500 (BuildDirectoryTree git path (repo_Path repo) rev) (fun data =>
      rendered ← deref (RenderDirectoryTree data (repo_Name repo) rev path (length data) 0 rootPadding);
      Ok (HttpOk rendered))).

Definition ServeSyntaxHighlightedFileForZoekt params url
    : res unit (http (option SourceFileContent * option directoryContent)) :=
  let '(rev, path) :=
    parse_rev_path (Tail "/api/v2/getSyntaxHighlightedFileForZoekt/:parent/:repo/+/"%str url) in
  or_page 500 (BuildFileDataForZoektFilePreview git exts path (zoekt_path params) (repo_name params) rev)
    (fun data => Ok (HttpOk data)).

(** ** Files *)

(** The parent and the repository of the route, in the two-level map. *)
Definition find_repo params : option RepoConfig :=
  parentMap ← newRepos !! values_get params ":parent"%str;
  parentMap !! values_get params ":repo"%str.

Definition delve params (rest : str) : str := "/delve/"%str ++ repo_name params ++ rest.

(** Title and links of a page; the last segment of an empty list panics. *)
Definition file_links params (rev path : str) (data : FileViewerContext) : res unit (http file_page) :=
  seg ← deref (last (fv_PathSegments data));
  let permalink :=
    if decide (Permalink data = []) then []
    else delve params ("/blob/"%str ++ CommitHash data ++ "/"%str ++ path) in
  let headlink :=
    if decide (Permalink data = [] /\ Headlink data <> [])
    then delve params ("/blob/HEAD/"%str ++ path) else Headlink data in
  Ok (HttpOk (mkFilePage (crumb_Name seg) (delve params ("/commits/"%str ++ rev ++ "/"%str ++ path))
                permalink headlink data)).

Definition ServeGitBlobRaw params url : res unit (http file_page) :=
  let '(rev, path) := parse_rev_path (Tail "/raw-blob/:parent/:repo/+/"%str url) in
  match find_repo params with
  | None => Ok HttpText
  | Some repo =>
      or_page 500 (BuildFileData git exts path repo rev) (file_links params rev path)
  end.

(** The path after the revision, of either route. *)
Definition blob_path params url : str :=
  if has_prefix (delve params "/tree/"%str) url
  then Tail "/delve/:parent/:repo/tree/:rev/"%str url
  else Tail "/delve/:parent/:repo/blob/:rev/"%str url.

Definition ServeGitBlob params url : res unit (http file_page) :=
  let rev := values_get params ":rev"%str in
  let path := blob_path params url in
  match find_repo params with
  | None => Ok (HttpError 500)
  | Some repo =>
      or_page 500 (BuildFileData git exts path repo rev) (file_links params rev path)
  end.

Definition ServeFile (serveFilePathRegex : re) params url : res unit (http (str * FileViewerContext)) :=
  match getRepoPathFromURL serveFilePathRegex (Tail "/view/"%str url) with
  | None => Ok (HttpError 400)
  | Some (repoName, path) =>
      let commit := values_get params "commit"%str in
      let commit := if decide (commit = []) then "HEAD"%str else commit in
      if decide (repos = ∅) then Ok (HttpError 404)
      else match repos !! repoName with
           | None => Ok (HttpError 500)
           | Some repo =>
               or_page 500 (BuildFileData git exts path repo commit) (fun data =>
                 seg ← deref (last (fv_PathSegments data));
                 Ok (HttpOk (crumb_Name seg, data)))
           end
  end.

(** A diff that is nil gives a text when the revisions are the same. *)
Definition ServeDiff params url : option (res unit (http diff_page)) :=
  let revA := values_get params ":revA"%str in
  let revB := values_get params ":revB"%str in
  let path := Tail "/diff/:parent/:repo/:revA/:revB/"%str url in
  let no_diff := Ok (if decide (revA = revB) then HttpText else HttpError 500) in
  match find_repo params with
  | None => Some (Ok HttpText)
  | Some repo =>
      diff ← GetDiffBetweenTwoCommits git path (repo_Path repo) revA revB false;
      Some match diff with
           | Err _ => no_diff
           | Panic => Panic
           | Ok None => no_diff
           | Ok (Some d) => rows ← GetDiffRowsSplit d; Ok (HttpOk (mkDiffPage rows (Base path)))
           end
  end.

(** The commit at which the file is shown. *)
Definition commit_to_load params (path repoRev : str) (repo : RepoConfig) : str :=
  let dataFileCommit := values_get params "dfc"%str in
  if decide (dataFileCommit = [])
  then default repoRev (GitGetLastRevToTouchPath git path (repo_Path repo) repoRev)
  else dataFileCommit.

(** The file, the tree, the branches and the tags, each left out if git fails. *)
Definition experimental_data (repoRev headRev path commit : str) (repo : RepoConfig)
    : res unit experimental_page :=
  data ← or_nil None (Some <$> BuildFileData git exts path repo commit);
  tree ← or_nil None (Some <$> BuildDirectoryTree git path (repo_Path repo) repoRev);
  branches ← or_nil [] (ListAllBranches git (repo_Path repo));
  tags ← or_nil [] (ListAllTags git (repo_Path repo));
  Ok match data with
     | Some d => mkExpPage repoRev headRev (fv_Commit d) (CommitHash d) (FilePath d) (FileName d)
                   false tree branches tags
     | None => mkExpPage repoRev headRev commit commit path (Base path) true tree branches tags
     end.

Definition ServeExperimental params url : res unit (http experimental_page) :=
  let '(repoRev, path) := parse_rev_path (Tail "/experimental/:parent/:repo/+/"%str url) in
  match find_repo params with
  | None => Ok HttpText
  | Some repo =>
      match GitRevParseAbbrev git "HEAD"%str (repo_Path repo) with
      | None => Ok HttpText
      | Some headRev =>
          let repoRev := if decide (repoRev = "HEAD"%str) then headRev else repoRev in
          page ← experimental_data repoRev headRev path (commit_to_load params path repoRev repo) repo;
          Ok (HttpOk page)
      end
  end.
End handlers.

(** The scheme under which a client sees the server. *)
Definition requestProtocol (ReverseProxy tls : bool) (X_Real_Proto : str) : str :=
  if ReverseProxy && negb (bool_decide (X_Real_Proto = [])) then X_Real_Proto
  else if tls then "https"%str else "http"%str.

(** ** [server/middleware] *)
Definition ShouldEnableGoogleIAP (cfg : GoogleIAPConfig) : bool :=
  if decide (ProjectNumber cfg = []) then false
  else if decide (BackendServiceID cfg = [] /\ ProjectID cfg = []) then false
  else if decide (BackendServiceID cfg <> [] /\ ProjectID cfg <> []) then false
  else true.

Definition iap_audience (cfg : GoogleIAPConfig) : str :=
  "/projects/"%str ++ ProjectNumber cfg ++
  (if decide (BackendServiceID cfg = []) then "/apps/"%str ++ ProjectID cfg
   else "/global/backendServices/"%str ++ BackendServiceID cfg).

(** The part of a request the wrappers read. *)
Record request := mkRequest {
  rq_Path : str; rq_Host : str; rq_RemoteAddr : str; rq_Header : gmap str str;
}.
Definition header_get (r : request) (key : str) : str := default [] (rq_Header r !! key).

(** What a wrapped handler does: pass the request on, or answer. *)
Inductive wrapped := Pass (r : request) | Unauthorized | MovedPermanently (scheme host : str).

(** [Validate] is [idtoken.Validate]: is the token valid for the audience? *)
Definition iapHandler (Validate : str -> str -> bool) (cfg : GoogleIAPConfig) (r : request) : wrapped :=
  if decide (rq_Path r = "/healthz"%str) then Pass r
  else if Validate (header_get r "X-Goog-Iap-Jwt-Assertion"%str) (iap_audience cfg) then Pass r
  else Unauthorized.

Definition reverseProxyHandler (r : request) : wrapped :=
  let ip := header_get r "X-Forwarded-For"%str in
  let r' := mkRequest (rq_Path r) (rq_Host r)
              (if decide (ip = []) then rq_RemoteAddr r else default [] (head (splitn "," 2 ip)))
              (rq_Header r) in
  if decide (header_get r "X-Forwarded-Proto"%str = "http"%str)
  then MovedPermanently "https"%str (rq_Host r)
  else Pass r'.
