(* ===== verification/ServerSpec.v ===== *)
(** * What the pages promise: repositories in URLs, links to files

    The lookup of a repository by parent and name, by the pattern of all
    repositories, and the way a link names a revision and a path. *)
From S2P Require Import Prelude GoStrings Config GoRegexp GoPath Scanner GoSort GoMap Query Search.
From S2P Require Import Diff GitLog Blame GitShow DirTree Listing Templates Server.

(** ** Alternatives *)
Section alternatives.
Context {X : Type} (n0 : nat).
Implicit Types (k : str -> caps -> option X).

(** Alternatives that fail or agree, and one that matches. *)
Lemma mt_foldl_alt l r s cs k x :
  Forall (fun r => mt n0 r s cs k = None \/ mt n0 r s cs k = Some x) (r :: l) ->
  Exists (fun r => mt n0 r s cs k = Some x) (r :: l) ->
  mt n0 (foldl RAlt r l) s cs k = Some x.
Proof.
  revert r. induction l as [|r' l IH]; intros r Hall Hex; cbn [foldl].
  - by apply Exists_cons in Hex as [?|?%Exists_nil].
  - apply Forall_cons in Hall as [Hr [Hr' Hl]%Forall_cons]. apply IH.
    + constructor; [|done]. cbn [mt]. destruct Hr as [-> | ->]; [done|by right].
    + apply Exists_cons in Hex as [Hex|[Hex|Hex]%Exists_cons]; [left|left|by right]; cbn [mt].
      * by rewrite Hex.
      * by destruct Hr as [-> | ->].
Qed.

Lemma mt_alts l s cs k x :
  Forall (fun r => mt n0 r s cs k = None \/ mt n0 r s cs k = Some x) l ->
  Exists (fun r => mt n0 r s cs k = Some x) l ->
  mt n0 (RAlts l) s cs k = Some x.
Proof. destruct l; [by intros _ ?%Exists_nil|apply mt_foldl_alt]. Qed.

End alternatives.

(** Text without a newline is spanned by the dot. *)
Lemma spans_dot s : LF ∉ s -> Forall (spans class_dot) s.
Proof.
  intros Hs. apply Forall_forall. intros c Hc. unfold spans, class_dot, class_not, rune_is.
  case_match.
  - apply negb_true_iff, Z.eqb_neq. intros ->%byte_val_inj. done.
  - intros r Hr. apply negb_true_iff, Z.eqb_neq. intros ->. revert Hr. vm_compute. done.
Qed.

(** The slash and the path after a name. *)
Definition url_rest : re := RSeq [RLit "/"%str; RGroup 2 (RStar true (RChr class_dot))].

Lemma mt_url_rest {X} n0 path cs (k : str -> caps -> option X) x :
  LF ∉ path -> k [] ((2%nat, (path, [])) :: cs) = Some x ->
  mt n0 url_rest ("/"%str ++ path) cs k = Some x.
Proof.
  intros Hp Hk. unfold url_rest, RSeq. cbn [foldr]. rewrite mt_cat, mt_lit_app by done.
  rewrite mt_cat, mt_group.
  pose proof (mt_star_class n0 class_dot path [] cs
    (fun s' cs' => mt n0 REps s' ((2%nat, (path, s')) :: cs') k) x) as E.
  rewrite app_nil_r in E. apply E; [by apply spans_dot|done|exact Hk].
Qed.

Lemma mt_name_none {X} n0 w s cs (k : str -> caps -> option X) (g : str -> nat * (str * str)) :
  forallb is_ascii w = true -> has_prefix (w ++ "/"%str) s = false ->
  mt n0 (RLit w) s cs (fun s' cs' => mt n0 url_rest s' (g s' :: cs') k) = None.
Proof.
  intros Hw Hs. rewrite mt_lit by done. destruct (has_prefix w s) eqn:E; [|done].
  apply has_prefix_spec in E as [t ->]. rewrite drop_app_length.
  unfold url_rest, RSeq. cbn [foldr]. rewrite mt_cat, mt_lit by done.
  destruct (has_prefix "/"%str t) eqn:Et; [|done].
  apply has_prefix_spec in Et as [u ->].
  by rewrite app_assoc, has_prefix_app in Hs.
Qed.

(** C31: the pattern built from the configured repositories reads back the
    repository and the path of a [/view/] URL, whatever order the sort leaves
    the names in, if no other configured name followed by a slash begins the
    URL. *)
Theorem getRepoPathFromURL_repo `{!GoSort} (repoNames : list str) (name path : str) :
  Forall (fun n => forallb is_ascii n = true) repoNames -> name ∈ repoNames -> LF ∉ path ->
  Forall (fun n => has_prefix (n ++ "/"%str) (name ++ "/"%str ++ path) = true -> n = name) repoNames ->
  getRepoPathFromURL (buildRepoRegex repoNames) (name ++ "/"%str ++ path) = Some (name, path).
Proof.
  intros Hascii Hin Hpath Huniq. rewrite Forall_forall in Hascii, Huniq.
  unfold getRepoPathFromURL, buildRepoRegex.
  set (names := go_sort _ repoNames).
  assert (forall n, n ∈ names <-> n ∈ repoNames) as Hnames.
  { intros n. subst names. by rewrite go_sort_perm. }
  rewrite decide_False by (intros E; apply Hnames in Hin; rewrite E in Hin; by apply elem_of_nil in Hin).
  set (m := Mtch (name ++ "/"%str ++ path) []
    [(2%nat, (path, [])); (1%nat, (name ++ "/"%str ++ path, "/"%str ++ path))]).
  assert (forall n0, mt n0 (RLit name) (name ++ "/"%str ++ path) []
    (fun s' cs' => mt n0 url_rest s' ((1%nat, (name ++ "/"%str ++ path, s')) :: cs')
      (fun s' cs => Some (Mtch (name ++ "/"%str ++ path) s' cs))) = Some m) as Hm.
  { intros n0. rewrite mt_lit_app by auto. by apply mt_url_rest. }
  unfold find. rewrite (search_here _ _ _ _ m); last first.
  { apply (mt_alts _ (RLit <$> names)).
    - apply Forall_fmap, Forall_forall. intros n Hn%Hnames. unfold compose.
      destruct (decide (n = name)) as [-> |Hne]; [right; apply Hm|left].
      exact (mt_name_none _ n _ [] (fun s' cs => Some (Mtch (name ++ "/"%str ++ path) s' cs))
        (fun s' => (1%nat, (name ++ "/"%str ++ path, s'))) (Hascii n Hn)
        (not_true_is_false _ (fun H' => Hne (Huniq n Hn H')))).
    - apply Exists_fmap, Exists_exists. exists name. split; [by apply Hnames|]. apply Hm. }
  unfold m, group, group_opt. cbn -[upto]. repeat (case_decide; try lia). cbn -[upto].
  rewrite upto_nil.
  change ("/"%char :: path) with ("/"%str ++ path). by rewrite upto_app.
Qed.

Lemma getRepoPathFromURL_repo_witness :
  getRepoPathFromURL (buildRepoRegex ["a/b"%str; "a/b/c"%str; "x.y/z"%str]) "a/b/src/m.go"%str
  = Some ("a/b"%str, "src/m.go"%str).
Proof.
  apply (getRepoPathFromURL_repo ["a/b"%str; "a/b/c"%str; "x.y/z"%str] "a/b"%str "src/m.go"%str).
  - repeat constructor.
  - apply list_elem_of_here.
  - apply (bool_decide_unpack _). vm_compute. exact I.
  - repeat constructor; vm_compute; discriminate.
Defined.

(** ** The two-level map *)
Definition lookup2 (m : parent_map) (parent repo : str) : option RepoConfig :=
  p ← m !! parent; p !! repo.

(** The names as the loop reads them. *)
Lemma add_repo_app repos parents parent repo :
  "/"%char ∉ parent ->
  add_repo repos parents (parent ++ "/"%str ++ repo) =
  Ok (<[parent := <[repo := default zero_RepoConfig (repos !! (parent ++ "/"%str ++ repo))]>
       (default ∅ (parents !! parent))]> parents).
Proof.
  intros Hp. unfold add_repo.
  assert (index_byte "/" (parent ++ "/"%str ++ repo) = Some (length parent)) as ->.
  { apply index_byte_spec. exists parent, repo. done. }
  cbn [deref mbind res_bind]. rewrite take_app_length.
  replace (drop (S (length parent)) (parent ++ "/"%str ++ repo)) with repo; [done|].
  rewrite drop_app_ge by lia. by replace (S (length parent) - length parent)%nat with 1%nat by lia.
Qed.

Lemma add_repo_no_slash repos parents name : "/"%char ∉ name -> add_repo repos parents name = Panic.
Proof. intros H. unfold add_repo. by apply index_byte_None in H as ->. Qed.

Lemma split_slash name : "/"%char ∈ name -> exists parent repo, name = parent ++ "/"%str ++ repo /\ "/"%char ∉ parent.
Proof.
  intros H. destruct (cut "/" name) as [[a b]|] eqn:E.
  - apply cut_Some in E as [-> Ha]. by exists a, b.
  - destruct (decide ("/"%char ∈ name)); [|done]. destruct (index_byte "/" name) as [i|] eqn:Ei.
    + apply index_byte_spec in Ei as (a & b & -> & Ha & _). by exists a, b.
    + by apply index_byte_None in Ei.
Qed.

Lemma slash_inj p r p' r' :
  "/"%char ∉ p -> "/"%char ∉ p' -> p ++ "/"%str ++ r = p' ++ "/"%str ++ r' -> p = p' /\ r = r'.
Proof.
  intros Hp Hp' E. pose proof (cut_app "/" p r Hp) as H1. pose proof (cut_app "/" p' r' Hp') as H2.
  simpl in E. rewrite E in H1. rewrite H1 in H2. by simplify_eq.
Qed.

(** What the loop has stored after the names [ns]. *)
Lemma build_lookup repos ns :
  Forall (fun n => "/"%char ∈ n) ns ->
  exists m, buildReposAndParents repos ns = Ok m /\
    forall parent repo, "/"%char ∉ parent ->
      lookup2 m parent repo =
      if decide (parent ++ "/"%str ++ repo ∈ ns)
      then Some (default zero_RepoConfig (repos !! (parent ++ "/"%str ++ repo))) else None.
Proof.
  unfold buildReposAndParents. induction ns as [|n ns IH] using rev_ind; intros Hall.
  - exists ∅. split; [done|]. intros. rewrite decide_False by (by intros ?%elem_of_nil).
    reflexivity.
  - apply Forall_app in Hall as [Hns [(p & r & -> & Hp)%split_slash _]%Forall_cons].
    destruct (IH Hns) as (m & Hm & Hl). rewrite foldM_app, Hm. cbn [mbind res_bind foldM].
    rewrite add_repo_app by done. cbn [mbind res_bind]. eexists; split; [done|].
    intros parent repo Hparent. specialize (Hl parent repo Hparent). revert Hl. unfold lookup2.
    destruct (decide (parent = p)) as [-> |Hne].
    + rewrite lookup_insert_eq. cbn [mbind option_bind].
      destruct (decide (repo = r)) as [-> |Hr].
      * intros _. rewrite lookup_insert_eq, decide_True; [done|apply elem_of_app; right; by apply list_elem_of_singleton].
      * rewrite lookup_insert_ne by done. intros Hl.
        transitivity (p ← m !! p; p !! repo); [by destruct (m !! p)|].
        etransitivity; [exact Hl|]. apply decide_ext. rewrite elem_of_app, list_elem_of_singleton.
        split; [tauto|]. intros [?|E]; [done|]. by apply slash_inj in E as [_ ?].
    + rewrite lookup_insert_ne by done. intros ->. apply decide_ext.
      rewrite elem_of_app, list_elem_of_singleton. split; [tauto|].
      intros [?|E]; [done|]. by apply slash_inj in E as [? _].
Qed.

Lemma load_repos_lookup cfg name :
  (load_repos cfg).1 !! name = last (filter (fun r => repo_Name r = name) cfg).
Proof.
  unfold load_repos. cbn [fst]. rewrite foldl_insert_lookup. by destruct (last _).
Qed.

Lemma last_filter_mem (cfg : list RepoConfig) name :
  name ∈ (repo_Name <$> cfg) -> is_Some (last (filter (fun r => repo_Name r = name) cfg)).
Proof.
  intros (r & -> & Hr)%list_elem_of_fmap. apply last_is_Some. intros E.
  assert (r ∈ filter (fun r' => repo_Name r' = repo_Name r) cfg) as H
    by (by apply list_elem_of_filter).
  rewrite E in H. by apply elem_of_nil in H.
Qed.

Lemma build_panic repos ns : Exists (fun n => "/"%char ∉ n) ns -> buildReposAndParents repos ns = Panic.
Proof.
  unfold buildReposAndParents. generalize (∅ : parent_map) as m.
  induction ns as [|n ns IH]; intros m H; [by apply Exists_nil in H|]. cbn [foldM].
  destruct (decide ("/"%char ∈ n)) as [(p & r & -> & Hp)%split_slash|Hn].
  - rewrite add_repo_app by done. cbn [mbind res_bind]. apply IH.
    apply Exists_cons in H as [H|H]; [|done]. exfalso. apply H. set_solver.
  - by rewrite add_repo_no_slash.
Qed.

Lemma build_find (cfg : list RepoConfig) :
  Forall (fun r => "/"%char ∈ repo_Name r) cfg ->
  exists m, buildReposAndParents (load_repos cfg).1 (load_repos cfg).2 = Ok m /\
    forall parent repo, "/"%char ∉ parent ->
      lookup2 m parent repo = last (filter (fun r => repo_Name r = parent ++ "/"%str ++ repo) cfg).
Proof.
  intros H. destruct (build_lookup (load_repos cfg).1 (load_repos cfg).2) as (m & Hm & Hl).
  { by apply Forall_fmap. }
  exists m. split; [done|]. intros parent repo Hp. rewrite Hl by done.
  rewrite load_repos_lookup. case_decide as Hin.
  - by destruct (last_filter_mem _ _ Hin) as [r ->].
  - symmetry. destruct (last _) as [r|] eqn:E; [|done]. exfalso. apply Hin.
    apply last_Some_elem_of, list_elem_of_filter in E as [<- E]. by apply list_elem_of_fmap_2.
Qed.

(** Of a configuration whose repository names all have a slash, the
    two-level map of the routes answers for every parent and name with the
    last repository configured as [parent/name], and with none if there is
    none; a single name without a slash makes the server panic when it
    starts. *)
Theorem buildReposAndParents_find (cfg : list RepoConfig) :
  (Forall (fun r => "/"%char ∈ repo_Name r) cfg ->
   exists m, buildReposAndParents (load_repos cfg).1 (load_repos cfg).2 = Ok m /\
     forall parent repo, "/"%char ∉ parent ->
       lookup2 m parent repo = last (filter (fun r => repo_Name r = parent ++ "/"%str ++ repo) cfg)) /\
  (Exists (fun r => "/"%char ∉ repo_Name r) cfg ->
   buildReposAndParents (load_repos cfg).1 (load_repos cfg).2 = Panic).
Proof.
  split; intros H; [by apply build_find|]. apply build_panic. by apply Exists_fmap.
Qed.

Lemma buildReposAndParents_find_witness :
  exists m, buildReposAndParents
      (load_repos [plain_repo "a/b"%str "/1"%str; plain_repo "a/c/d"%str "/2"%str]).1
      (load_repos [plain_repo "a/b"%str "/1"%str; plain_repo "a/c/d"%str "/2"%str]).2 = Ok m /\
    lookup2 m "a"%str "c/d"%str = Some (plain_repo "a/c/d"%str "/2"%str).
Proof.
  destruct (proj1 (buildReposAndParents_find
    [plain_repo "a/b"%str "/1"%str; plain_repo "a/c/d"%str "/2"%str])) as (m & Hm & Hl).
  - repeat constructor; apply (bool_decide_unpack _); vm_compute; exact I.
  - exists m. split; [exact Hm|]. rewrite Hl; [reflexivity|].
    apply (bool_decide_unpack _). vm_compute. exact I.
Defined.

(** ** Links to files *)
Lemma parse_rev_path_link rev path :
  ":"%char ∉ rev ->
  parse_rev_path (rev ++ ":"%str ++ path) =
  if decide (":"%char ∈ path) then ("HEAD"%str, []) else (rev, path).
Proof.
  intros Hrev. unfold parse_rev_path. change (rev ++ ":"%str ++ path) with (rev ++ ":"%char :: path).
  rewrite split_app_sep by done. destruct (decide (":"%char ∈ path)) as [Hp|Hp]; [|by rewrite split_nosep].
  apply list_elem_of_split in Hp as (a & b & ->).
  destruct (split ":" (a ++ ":"%char :: b)) as [|x [|y l]] eqn:E; [by apply split_not_nil in E| |done].
  pose proof (length_split ":" (a ++ ":"%char :: b)) as Hl. rewrite E in Hl. simpl in Hl.
  unfold count_byte in Hl. rewrite filter_app, length_app, filter_cons_True in Hl by done.
  simpl in Hl. lia.
Qed.

(** The link of a search result, [/experimental/repo/+/rev:path], opens
    that path at that revision ([HEAD] is resolved first); if the path has a
    colon, the page shows the root of the repository at [HEAD] instead. *)
Theorem ServeExperimental_link `{!GoSort} (git : list str -> option str) (exts : list str)
    (Tail : str -> str -> str) (newRepos : parent_map)
    (params : values) (rev path head : str) (repo : RepoConfig) :
  let url := "/experimental/"%str ++ repo_name params ++ "/+/"%str ++ rev ++ ":"%str ++ path in
  Tail "/experimental/:parent/:repo/+/"%str url = rev ++ ":"%str ++ path ->
  find_repo newRepos params = Some repo ->
  GitRevParseAbbrev git "HEAD"%str (repo_Path repo) = Some head ->
  ":"%char ∉ rev ->
  let page r p :=
    pg ← experimental_data git exts r head p (commit_to_load git params p r repo) repo;
    Ok (HttpOk pg) in
  ServeExperimental git exts Tail newRepos params url =
  if decide (":"%char ∈ path) then page head []
  else page (if decide (rev = "HEAD"%str) then head else rev) path.
Proof.
  intros url Htail Hrepo Hhead Hrev page. unfold ServeExperimental.
  rewrite Htail, parse_rev_path_link by done.
  case_decide; rewrite Hrepo, Hhead; [|done]. by rewrite decide_True.
Qed.

(** Whatever follows [/+/]. *)
Definition sample_tail (pattern url : str) : str :=
  match index "/+/"%str url with Some i => drop (i + 3) url | None => [] end.
Definition sample_params : values := {[ ":parent"%str := ["a"%str]; ":repo"%str := ["b"%str] ]}.
Definition sample_repos : parent_map := {[ "a"%str := {[ "b"%str := plain_repo "a/b"%str "/r"%str ]} ]}.
Definition sample_git (args : list str) : option str :=
  if decide (args = ["-C"%str; "/r"%str; "rev-parse"%str; "--abbrev-ref"%str; "HEAD"%str])
  then Some ("main"%str ++ [LF]) else None.

Lemma ServeExperimental_link_witness :
  ServeExperimental sample_git [] sample_tail sample_repos sample_params
    "/experimental/a/b/+/HEAD:x.go"%str
  = Ok (HttpOk (mkExpPage "main"%str "main"%str "main"%str "main"%str "x.go"%str "x.go"%str true None [] [])).
Proof.
  etransitivity.
  - apply (ServeExperimental_link sample_git [] sample_tail sample_repos sample_params
      "HEAD"%str "x.go"%str "main"%str (plain_repo "a/b"%str "/r"%str)); try reflexivity.
    apply (bool_decide_unpack _). vm_compute. exact I.
  - vm_compute. reflexivity.
Defined.
