(* ===== verification/Start.v ===== *)
(** * Starting the server: [New] and the pages without git in
    [server/server.go], [NewBackend] in [server/backend.go], and
    [cmd/livegrep/livegrep.go]

    Dialing and statsd are parameters.  What starting does to the world, the
    connections it opens and the polling goroutines it starts, is a list of
    events next to the result.  A request to the process goes through the
    multiplexer of [net/http], the wrappers of [server/middleware] and the
    multiplexer of [New]. *)
From S2P Require Import Prelude GoStrings GoMap GoJson Config GoRegexp GoPath Scanner GoSort Query Search Backend.
From S2P Require Import GoHttp Diff GitLog Blame GitShow DirTree Listing Templates Pages Server.

(** ** Backends *)
(** A backend that was made, with the state its polling starts from. *)
Inductive live := mkLive {
  lv_Id : str; lv_Addr : str; lv_State : BackendState; lv_Backup : option live; lv_IsBackup : bool;
}.

Inductive event := Dialed (addr : str) (max_size : Z) | Polling (id : str).
#[export] Instance event_eq_dec : EqDecision event.
Proof. solve_decision. Defined.

(** A computation with its events, those before an error or a panic included. *)
Definition L (A : Type) : Type := list event * res str A.
#[export] Instance L_ret : MRet L := fun A a => ([], Ok a).
#[export] Instance L_bind : MBind L := fun A B k m =>
  match m.2 with
  | Ok a => (m.1 ++ (k a).1, (k a).2)
  | Err e => (m.1, Err e)
  | Panic => (m.1, Panic)
  end.
Definition say (e : event) : L unit := ([e], Ok tt).
Definition pure {A} (r : res str A) : L A := ([], r).
(** The caller dereferences the result before it looks at the error. *)
Definition unchecked {A} (m : L A) : L A :=
  (m.1, match m.2 with Err _ => Panic | r => r end).

Section new.
Context `{!GoSort}.
(** The error of [grpc.Dial] for an address and a message size, if any. *)
Context (Dial : str -> Z -> option str).

Definition dial (addr : str) (size : Z) : L unit :=
  match Dial addr size with Some e => pure (Err e) | None => say (Dialed addr size) end.

Definition as_backup (b : live) : live := mkLive (lv_Id b) (lv_Addr b) (lv_State b) (lv_Backup b) true.

Fixpoint NewBackend (be : BackendConfig) : L live :=
  match be with
  | mkBackendConfig id addr size backup =>
      _ ← dial addr (if decide (size = 0) then 10485760 else size);
      bu ← (match backup with
            | Some b =>
                if decide (cb_Addr b = []) then mret None
                else bu ← unchecked (NewBackend b); _ ← say (Polling (lv_Id bu)); mret (Some (as_backup bu))
            | None => mret None
            end);
      mret (mkLive id addr (new_state id) bu false)
  end.

(** ** [New] *)
Inductive statsd_option := OptAddress (a : str) | OptPrefix (p : str) | OptTags (tags : list str) | OptFormat (f : str).
#[export] Instance statsd_option_eq_dec : EqDecision statsd_option.
Proof. solve_decision. Defined.

(** The options of the statsd client; no client without an address. *)
Definition statsd_options (cfg : StatsD) : res str (option (list statsd_option)) :=
  if decide (Address cfg = []) then Ok None
  else
    let args := OptAddress (Address cfg) :: (if decide (Config.Prefix cfg = []) then [] else [OptPrefix (Config.Prefix cfg)]) in
    tag ← deref (head (Config.Tags cfg));
    if decide (tag = []) then Ok (Some args)
    else if decide (TagsFormat cfg = "datadog"%str \/ TagsFormat cfg = "influxdb"%str)
    then Ok (Some (args ++ [OptTags (Config.Tags cfg); OptFormat (TagsFormat cfg)]))
    else Panic.

Record server := mkServer {
  sv_bk : gmap str live; sv_bkOrder : list str; sv_repos : gmap str RepoConfig;
  sv_newRepos : parent_map; sv_regex : re; sv_statsd : option (list statsd_option); sv_pages : site;
}.

Definition start_backend (s : gmap str live * list str) (bk : BackendConfig) : L (gmap str live * list str) :=
  be ← NewBackend bk;
  _ ← say (Polling (lv_Id be));
  mret (<[lv_Id be := be]> s.1, s.2 ++ [lv_Id be]).
Fixpoint start_backends (l : list BackendConfig) (s : gmap str live * list str) : L (gmap str live * list str) :=
  match l with
  | [] => mret s
  | bk :: l => s ← start_backend s bk; start_backends l s
  end.

(** [d]: the templates and the asset hashes.  [statsd_ok]: does [statsd.New] take
    the options? *)
Definition New (d : docroot) (statsd_ok : list statsd_option -> bool) (cfg : Config) : L server :=
  pages ← pure (match run_load (loadTemplates d) (mkSite ∅ ∅) with Ok s => Ok s | Err _ | Panic => Panic end);
  client ← pure (statsd_options (c_StatsD cfg));
  _ ← pure (match client with Some opts => if statsd_ok opts then Ok tt else Panic | None => Ok tt end);
  '(bk, bkOrder) ← (if c_FileviewerOnly cfg then mret (∅, []) else start_backends (c_Backends cfg) (∅, []));
  let '(repos, repoNames) := load_repos (c_Repositories cfg) in
  newRepos ← pure (match buildReposAndParents repos repoNames with
                   | Ok m => Ok m | Err _ | Panic => Panic end);
  mret (mkServer bk bkOrder repos newRepos (buildRepoRegex repoNames) client pages).
End new.

(** ** The handler of the process: [cmd/livegrep/livegrep.go] *)
Record livegrep_flags := mkLivegrepFlags {
  serveAddr : str; backendAddr : str; backupBackendAddr : str; fileviewerOnly : bool; docRoot : str;
  indexConfig : str; reload : bool; zoektRepoCache : str; args : list str;
}.

(** The configuration before any file is read; [getenv] is the environment. *)
Definition default_config (f : livegrep_flags) (docroot : str) (getenv : str -> str) : Config :=
  mkConfig docroot [] []
    (mkIAP (getenv "GOOGLE_IAP_PROJECT_ID"%str) (getenv "GOOGLE_IAP_PROJECT_NUMBER"%str)
       (getenv "GOOGLE_IAP_BACKEND_SERVICE_ID"%str))
    false
    [mkBackendConfig [] (backendAddr f) 0 (Some (mkBackendConfig "backup-idx"%str (backupBackendAddr f) 0 None))]
    (serveAddr f) [] [] [] (reload f)
    (mkStatsD (getenv "STATSD_ADDRESS"%str) (getenv "STATSD_PREFIX"%str)
       (split "," (getenv "STATSD_TAGS"%str)) (getenv "STATSD_TAGS_FORMAT"%str))
    50 zero_IndexConfig [] [] (zoektRepoCache f) (fileviewerOnly f).

(** [executable] is [os.Executable]. *)
Definition runfilesPath (executable : option str) (sourcePath : str) : option str :=
  programPath ← executable;
  Some (Join [programPath ++ ".runfiles"%str; "com_github_livegrep_livegrep"%str; sourcePath]).

(** [read] reads a file; [Err] is a fatal error.  The file of the last step is
    decoded into a pointer to the configuration, which a text [null] makes nil:
    the server then dereferences it. *)
Definition load_config (read : str -> option str) (executable : option str)
    (f : livegrep_flags) (getenv : str -> str) : res unit Config :=
  docroot ← or_err tt (if decide (docRoot f = []) then runfilesPath executable "web"%str else Some (docRoot f));
  let cfg := default_config f docroot getenv in
  cfg ← (if decide (indexConfig f = []) then Ok cfg
         else data ← or_err tt (read (indexConfig f));
              index ← or_err tt (Unmarshal dec_IndexConfig (c_IndexConfig cfg) data);
              Ok (set_IndexConfig index cfg));
  match args f with
  | [] => Ok cfg
  | arg :: _ =>
      data ← or_err tt (read arg);
      p ← or_err tt (Unmarshal (dec_ptr zero_Config dec_Config) (Some cfg) data);
      deref p
  end.

(** What [net/http/pprof] and [expvar] register when they are imported, and
    the handler of the program. *)
Inductive root_handler := Debug | App.
Definition DefaultServeMux : list (str * root_handler) :=
  [("/debug/vars"%str, Debug); ("/debug/pprof/"%str, Debug); ("/debug/pprof/cmdline"%str, Debug);
   ("/debug/pprof/profile"%str, Debug); ("/debug/pprof/symbol"%str, Debug); ("/debug/pprof/trace"%str, Debug);
   ("/"%str, App)].

(** [server.inner]: the assets and the routes. *)
Inductive inner_handler := Assets | Routes.
Definition inner_mux : list (str * inner_handler) := [("/assets/"%str, Assets); ("/"%str, Routes)].

(** The wrappers of [main], the last one outermost. *)
Definition wrap_handler (Validate : str -> str -> bool) (cfg : Config) (r : request) : wrapped :=
  let unwrap r := if c_ReverseProxy cfg then reverseProxyHandler r else Pass r in
  if ShouldEnableGoogleIAP (c_IAP cfg)
  then match iapHandler Validate (c_IAP cfg) r with Pass r => unwrap r | w => w end
  else unwrap r.

Inductive served :=
  | ServedDebug | ServedAssets (r : request) | ServedRoutes (r : request) | Refused
  | Moved (path : str) | MovedTo (scheme host : str) | Missing.

Definition serve (Validate : str -> str -> bool) (cfg : Config) (connect : bool) (r : request) : served :=
  match ServeMux DefaultServeMux connect (rq_Path r) with
  | Redirect p => Moved p
  | NotFound => Missing
  | Handled Debug => ServedDebug
  | Handled App =>
      match wrap_handler Validate cfg r with
      | Unauthorized => Refused
      | MovedPermanently scheme host => MovedTo scheme host
      | Pass r =>
          match ServeMux inner_mux connect (rq_Path r) with
          | Handled Assets => ServedAssets r
          | Handled Routes => ServedRoutes r
          | Redirect p => Moved p
          | NotFound => Missing
          end
      end
  end.

(** ** Pages about the backends, without git *)
Section pages.
Context `{!GoRange} (show_age : Z -> str).

(** A page: its template and its data. *)
Record search_page := mkSearchPage { sp_Backends : list live; SampleRepo : str }.

(** The first tree of each backend, until one has a name. *)
Definition ServeSearch (bk : gmap str live) (bkOrder : list str) : res unit search_page :=
  backends ← mapR (fun id => deref (bk !! id)) bkOrder;
  let firsts := omap (fun b => head (i_Trees (bs_I (lv_State b)))) backends in
  Ok (mkSearchPage backends (default [] (head (filter (.≠ []) (t_Name <$> firsts))))).

Definition status_of (conn : live -> connectivity) (b : live) : BackendStatus :=
  getStatus show_age (conn b) (lv_State b) (bu ← lv_Backup b; Some (lv_Id bu, conn bu, lv_State bu)).

(** The named backend, or any; a server without one dereferences nil. *)
Definition ServeBackendStatus (conn : live -> connectivity) (bk : gmap str live) (params : values)
    : res unit (http BackendStatus) :=
  let backendName := values_get params ":backend"%str in
  if decide (backendName = []) then
    b ← deref (snd <$> head (go_range bk)); Ok (HttpOk (status_of conn b))
  else Ok (match bk !! backendName with
           | None => HttpError 400
           | Some b => HttpOk (status_of conn b)
           end).

(** [BackendName] and [BaseURL] of the OpenSearch description. *)
Definition ServeOpensearch (bk : gmap str live) (ReverseProxy tls : bool) (r : request) : str * str :=
  (default [] (head (filter (.≠ []) ((fun p => i_Name (bs_I (lv_State p.2))) <$> go_range bk))),
   requestProtocol ReverseProxy tls (header_get r "X-Real-Proto"%str) ++ "://"%str ++ rq_Host r ++ "/"%str).

(** The rows of a search, or its error as a text. *)
Definition ServeRenderedSearchResults {A} (search : res unit (option A * Z * str * str)) : res unit (http (option A)) :=
  '(data, statusCode, errorMsg, errorMsgLong) ← search;
  Ok (if 200 <? statusCode then HttpError statusCode else HttpOk data).
End pages.

(** ** The routes of [New], in the order in which they are added *)
Inductive endpoint :=
  | EHealthZ | EHealthcheck | EStats | ESearch | EFile | EGitBlob | EGitShow | ESimpleGitLog | EDiff
  | EGitBlobRaw | EExperimental | EAbout | EAboutFileviewer | EHelp | EOpensearch | ERoot
  | EAPISearch | EBackendStatus | ERenderedSearchResults | EGitLsTreeRendered | EGitLogJson | EGitBlameJson
  | EGitLsTreeJson | ESyntaxHighlightedFileForZoekt | EGitLsTreeForZoekt | EGitLogForZoekt
  | EListAllBranchesForZoekt | EListAllTagsForZoekt | ETest.
#[export] Instance endpoint_eq_dec : EqDecision endpoint.
Proof. solve_decision. Defined.

Definition routes : list (str * endpoint) := [
  ("/healthz", EHealthZ); ("/debug/healthcheck", EHealthcheck); ("/debug/stats", EStats);
  ("/search/:backend", ESearch); ("/search/", ESearch); ("/view/", EFile);
  ("/delve/:parent/:repo/tree/:rev/", EGitBlob); ("/delve/:parent/:repo/blob/:rev/", EGitBlob);
  ("/delve/:parent/:repo/commit/:commitHash/", EGitShow); ("/delve/:parent/:repo/commits/:rev/", ESimpleGitLog);
  ("/delve/", EFile); ("/diff/:parent/:repo/:revA/:revB/", EDiff);
  ("/raw-blob/:parent/:repo/+/", EGitBlobRaw); ("/experimental/:parent/:repo/+/", EExperimental);
  ("/simple-git-log/", ESimpleGitLog); ("/git-show/", EGitShow); ("/about", EAbout);
  ("/about-fileviewer", EAboutFileviewer); ("/help", EHelp); ("/opensearch.xml", EOpensearch); ("/", ERoot);
  ("/api/v1/search/:backend", EAPISearch); ("/api/v1/search/", EAPISearch);
  ("/api/v1/bkstatus/:backend", EBackendStatus); ("/api/v1/bkstatus/", EBackendStatus);
  ("/api/v2/getRenderedSearchResults/:backend", ERenderedSearchResults);
  ("/api/v2/getRenderedSearchResults/", ERenderedSearchResults);
  ("/api/v2/getRenderedFileTree/:parent/:repo/:rev/", EGitLsTreeRendered);
  ("/api/v2/json/git-log/:parent/:repo/", EGitLogJson);
  ("/api/v2/json/git-blame/:parent/:repo/:rev/", EGitBlameJson);
  ("/api/v2/json/git-ls-tree/:parent/:repo/:rev/", EGitLsTreeJson);
  ("/api/v2/getSyntaxHighlightedFileForZoekt/:parent/:repo/+/", ESyntaxHighlightedFileForZoekt);
  ("/api/v2/getDirectoryTreeForZoekt/:parent/:repo/+/", EGitLsTreeForZoekt);
  ("/api/v2/getGitLogForZoekt/:parent/:repo/+/", EGitLogForZoekt);
  ("/api/v2/getAllBranchesForZoekt/:parent/:repo/+/", EListAllBranchesForZoekt);
  ("/api/v2/getAllTagsForZoekt/:parent/:repo/+/", EListAllTagsForZoekt);
  ("/api/v2/getDirectoryTreeForZoekt/", ETest)]%str.
