(* ===== verification/StartSpec.v ===== *)
(** * What starting the server promises

    A configuration whose connections can be opened gives a server that has
    every backend, polls every backend and every backup once, and finds every
    repository; and a request reaches the server behind the identity-aware
    proxy only with a token. *)
From S2P Require Import Prelude GoStrings Config GoRegexp GoPath Scanner GoSort GoMap Query Search Backend.
From S2P Require Import GoHttp Diff GitLog Blame GitShow DirTree Listing Templates Pages PagesSpec Server ServerSpec Start.

(** ** Backends *)
Section backends.
Context (Dial : str -> Z -> option str).

Definition max_size (size : Z) : Z := if decide (size = 0) then 10485760 else size.
(** The backup that is made: one with an address. *)
Definition backup_of (be : BackendConfig) : option BackendConfig :=
  match cb_Backup be with
  | Some b => if decide (cb_Addr b = []) then None else Some b
  | None => None
  end.

(** The reference: the connections of a backend are opened from the outside
    in, and backups are polled from the inside out. *)
Fixpoint dialable (be : BackendConfig) : Prop :=
  match be with
  | mkBackendConfig id addr size backup =>
      Dial addr (max_size size) = None /\
      match backup with Some b => cb_Addr b = [] \/ dialable b | None => True end
  end.
Fixpoint made (be : BackendConfig) : live :=
  match be with
  | mkBackendConfig id addr size backup =>
      mkLive id addr (new_state id)
        match backup with
        | Some b => if decide (cb_Addr b = []) then None else Some (as_backup (made b))
        | None => None
        end false
  end.
Fixpoint backend_events (be : BackendConfig) : list event :=
  match be with
  | mkBackendConfig id addr size backup =>
      Dialed addr (max_size size) ::
      match backup with
      | Some b => if decide (cb_Addr b = []) then [] else backend_events b ++ [Polling (cb_Id b)]
      | None => []
      end
  end.

Lemma made_id be : lv_Id (made be) = cb_Id be.
Proof. by destruct be. Qed.

Lemma NewBackend_ok : forall be, dialable be -> NewBackend Dial be = (backend_events be, Ok (made be)).
Proof.
  fix IH 1. intros [id addr size backup]. cbn [dialable NewBackend made backend_events].
  intros [Hd Hb]. unfold dial. fold (max_size size). rewrite Hd.
  destruct backup as [b|]; [|reflexivity]. case_decide as Ha; [reflexivity|].
  destruct Hb as [?|Hb]; [done|]. rewrite (IH b Hb).
  unfold unchecked, mbind, L_bind, say. cbn. by rewrite !made_id, app_nil_r.
Qed.

Lemma start_backends_ok l : forall s, Forall dialable l ->
  start_backends Dial l s =
  (l ≫= (fun be => backend_events be ++ [Polling (cb_Id be)]),
   Ok (foldl (fun m be => <[cb_Id be := made be]> m) s.1 l, s.2 ++ (cb_Id <$> l))).
Proof.
  induction l as [|be l IH]; intros s Hl; [destruct s; cbn; by rewrite app_nil_r|].
  apply Forall_cons in Hl as [Hbe Hl]. cbn [start_backends]. unfold start_backend.
  rewrite (NewBackend_ok be Hbe). unfold mbind, L_bind, say. cbn. rewrite IH by done. cbn.
  by rewrite made_id, <- (app_assoc s.2).
Qed.
End backends.

(** C22: with templates that parse, statsd options and connections in order, and names of
    repositories that have a slash, the server starts: the backends are listed
    as configured, a name finds the last backend configured under it, each
    backend and each backup with an address is dialed and polled, in order and
    nothing else, or none in the mode without search; and the two-level map
    finds the last repository of each name; and
    every page is there. *)
Theorem New_starts `{!GoSort} (Dial : str -> Z -> option str) (d : docroot) (statsd_ok : list statsd_option -> bool)
    (cfg : Config) (client : option (list statsd_option)) :
  loads d -> statsd_options (c_StatsD cfg) = Ok client ->
  (forall opts, client = Some opts -> statsd_ok opts = true) ->
  Forall (dialable Dial) (c_Backends cfg) ->
  Forall (fun r => "/"%char ∈ repo_Name r) (c_Repositories cfg) ->
  let backends := if c_FileviewerOnly cfg then [] else c_Backends cfg in
  exists s,
    New Dial d statsd_ok cfg = (backends ≫= (fun be => backend_events be ++ [Polling (cb_Id be)]), Ok s) /\
    sv_bkOrder s = cb_Id <$> backends /\
    (forall id, sv_bk s !! id = made <$> last (filter (fun be => cb_Id be = id) backends)) /\
    (forall parent repo, "/"%char ∉ parent -> lookup2 (sv_newRepos s) parent repo =
       last (filter (fun r => repo_Name r = parent ++ "/"%str ++ repo) (c_Repositories cfg))) /\
    sv_statsd s = client /\ st_Templates (sv_pages s) = template_names d.
Proof.
  intros Hl Hst Hok Hd Hr backends.
  destruct (build_find _ Hr) as (m & Hm & Hfind).
  assert (match client with Some o => if statsd_ok o then Ok tt else Panic | None => Ok tt end
          = (Ok tt : res str unit)) as Hc.
  { destruct client as [o|]; [|done]. by rewrite (Hok o eq_refl). }
  assert ((if c_FileviewerOnly cfg then mret (∅, []) else start_backends Dial (c_Backends cfg) (∅, [])) =
    (backends ≫= (fun be => backend_events be ++ [Polling (cb_Id be)]),
     Ok (foldl (fun m be => <[cb_Id be := made be]> m) ∅ backends, cb_Id <$> backends))) as Hb.
  { unfold backends. destruct (c_FileviewerOnly cfg); [done|]. by rewrite (start_backends_ok Dial). }
  destruct (loaded d (mkSite ∅ ∅) Hl) as (hashes & _ & Hload).
  pose proof (proj2 (run_load_store _ _ _) (conj Hl Hload)) as Hpages.
  unfold New, mbind, L_bind, pure. rewrite Hpages. cbn [fst snd app]. rewrite Hst. cbn [fst snd app]. rewrite Hc. cbn [fst snd app].
  cbv zeta. rewrite Hb. cbn [fst snd]. destruct (load_repos (c_Repositories cfg)) as [repos names].
  cbn [fst snd] in Hm |- *. rewrite Hm. cbn. rewrite app_nil_r.
  eexists. split; [reflexivity|]. cbn. split; [done|]. split; [|done].
  intros id. rewrite foldl_insert_lookup. by destruct (last _).
Qed.

(** ** Requests *)

(** What the multiplexer of the process sends to a handler of its own. *)
Definition debug_path (path : str) : Prop :=
  path = "/debug/vars"%str \/ has_prefix "/debug/pprof/"%str path = true.

Lemma pass_path Validate cfg r r' : wrap_handler Validate cfg r = Pass r' -> rq_Path r' = rq_Path r.
Proof.
  assert (forall r0, (if c_ReverseProxy cfg then reverseProxyHandler r0 else Pass r0) = Pass r' ->
                     rq_Path r' = rq_Path r0) as Hu.
  { intros r0. destruct (c_ReverseProxy cfg); [|congruence].
    unfold reverseProxyHandler. case_decide; [done|]. by intros [= <-]. }
  unfold wrap_handler, iapHandler. destruct (ShouldEnableGoogleIAP _); [|apply Hu].
  case_decide; [apply Hu|]. destruct (Validate _ _); [apply Hu|done].
Qed.
Lemma wrap_handler_pass Validate cfg r r' :
  ShouldEnableGoogleIAP (c_IAP cfg) = true -> wrap_handler Validate cfg r = Pass r' ->
  rq_Path r' = rq_Path r /\
  (rq_Path r = "/healthz"%str \/
   Validate (header_get r "X-Goog-Iap-Jwt-Assertion"%str) (iap_audience (c_IAP cfg)) = true).
Proof.
  intros He Hw. split; [exact (pass_path _ _ _ _ Hw)|]. unfold wrap_handler, iapHandler in Hw. rewrite He in Hw.
  case_decide; [by left|right]. by destruct (Validate _ _).
Qed.

(** A clean path of the debug handlers goes to them. *)
Lemma mux_debug (path : str) :
  debug_path path ->
  exists p, mux_match DefaultServeMux path = Some (p, Debug).
Proof.
  intros [->|Hp]; [by eexists|]. unfold mux_match.
  destruct (head (filter (fun p => p.1 = path) DefaultServeMux)) as [[p h]|] eqn:Eh.
  - exists p. destruct h; [done|]. apply head_Some_elem_of, list_elem_of_filter in Eh as [<- Hin].
    unfold DefaultServeMux in Hin. repeat (apply elem_of_cons in Hin as [E|Hin]; [by simplify_eq|]).
    by apply elem_of_nil in Hin.
  - apply has_prefix_spec in Hp as [rest ->]. eexists. reflexivity.
Qed.

(** None of them is sent to the same path with a slash. *)
Lemma debug_no_slash (path : str) : debug_path path -> (path ++ "/"%str) ∉ DefaultServeMux.*1.
Proof.
  unfold debug_path. intros Hp Hin. unfold DefaultServeMux in Hin. cbn [fmap list_fmap fst] in Hin.
  repeat (apply elem_of_cons in Hin as [E|Hin];
    [pose proof (f_equal last E) as El; rewrite last_snoc in El; try (vm_compute in El; discriminate El);
     apply (f_equal (@removelast ascii)) in E; rewrite removelast_last in E; cbn in E; rewrite E in Hp;
     by destruct Hp as [H|H]; vm_compute in H|]).
  by apply elem_of_nil in Hin.
Qed.

(** C26: with the identity-aware proxy configured, a request that reaches the
    assets or the routes is the health check or brings a valid token; but the
    handlers that [net/http/pprof] and [expvar] register on the multiplexer of
    the process answer anyone. *)
Theorem serve_guard (Validate : str -> str -> bool) (cfg : Config) (connect : bool) (r : request) :
  ShouldEnableGoogleIAP (c_IAP cfg) = true ->
  (forall r', serve Validate cfg connect r = ServedAssets r' \/ serve Validate cfg connect r = ServedRoutes r' ->
     rq_Path r = "/healthz"%str \/
     Validate (header_get r "X-Goog-Iap-Jwt-Assertion"%str) (iap_audience (c_IAP cfg)) = true) /\
  (debug_path (rq_Path r) -> connect = true \/ cleanPath (rq_Path r) = rq_Path r ->
   serve Validate cfg connect r = ServedDebug).
Proof.
  intros He. split.
  - intros r' H. unfold serve in H.
    destruct (ServeMux DefaultServeMux connect (rq_Path r)) as [[]| |]; [naive_solver| |naive_solver..].
    destruct (wrap_handler Validate cfg r) as [r0| |] eqn:Ew; [|naive_solver..].
    by apply wrap_handler_pass in Ew as [_ ?].
  - intros Hp Hc. unfold serve, ServeMux.
    destruct (mux_debug _ Hp) as [p Hm].
    assert ((if connect then rq_Path r else cleanPath (rq_Path r)) = rq_Path r) as ->.
    { destruct connect; [done|]. by destruct Hc. }
    rewrite (bool_decide_false (rq_Path r <> rq_Path r)) by auto. rewrite Hm.
    assert (to_slash DefaultServeMux (rq_Path r) = false) as ->; [|done].
    apply bool_decide_eq_false. intros (_ & _ & Hin & _). by apply (debug_no_slash _ Hp).
Qed.

Lemma New_starts_witness :
  let cfg := default_config (mkLivegrepFlags [] "localhost:9999"%str "backup:9999"%str false [] [] false [] []) [] (fun _ => []) in
  exists s,
    New (fun _ _ => None) sample_docroot (fun _ => true) cfg =
      ([Dialed "localhost:9999"%str 10485760; Dialed "backup:9999"%str 10485760;
        Polling "backup-idx"%str; Polling []], Ok s) /\ sv_bkOrder s = [[]].
Proof.
  destruct (New_starts (fun _ _ => None) sample_docroot (fun _ => true)
    (default_config (mkLivegrepFlags [] "localhost:9999"%str "backup:9999"%str false [] [] false [] []) [] (fun _ => [])) None)
    as (s & Hs & Ho & _).
  - by_decide.
  - reflexivity.
  - discriminate.
  - apply Forall_singleton. cbn. split; [done|]. right. done.
  - apply Forall_nil_2.
  - exists s. split; [exact Hs|exact Ho].
Defined.

Definition sample_iap : Config :=
  mkConfig [] [] [] (mkIAP "p"%str "1"%str []) true [] [] [] [] [] false zero_StatsD 50 zero_IndexConfig [] [] [] true.
Definition sample_request (path : str) : request := mkRequest path "host"%str "1.2.3.4"%str ∅.
Lemma serve_guard_witness :
  serve (fun _ _ => false) sample_iap false (sample_request "/debug/pprof/heap"%str) = ServedDebug.
Proof.
  apply (serve_guard (fun _ _ => false) sample_iap false (sample_request "/debug/pprof/heap"%str)).
  - reflexivity.
  - right. reflexivity.
  - right. reflexivity.
Defined.
Example serve_refused :
  serve (fun _ _ => false) sample_iap false (sample_request "/search/"%str) = Refused.
Proof. reflexivity. Qed.
