(* ===== verification/LoadConfig.v ===== *)
(** * Flags, environment and files

    The configuration of the server starts from the flags and the environment,
    and a file changes what it names and nothing else.  What a file says of a
    configuration ([is_config]) is stated over the members of its objects, apart
    from the decoders. *)
From S2P Require Import Prelude GoStrings GoMap GoJson GoJsonSpec Config Search Backend Start StartSpec ConfigSpec.

(** Does an object have a key for the field? *)
Definition named (names : list str) (l : list (str * json)) (name : str) : bool :=
  existsb (fun p => bool_decide (resolve names p.1 = Some name)) l.
Lemma dec_key_absent {B} names l name (d : dec B) old :
  named names l name = false -> dec_key names l name d old = Some old.
Proof.
  revert old. induction l as [|[k v] l IH]; intros old H; [done|]. cbn in H.
  apply orb_false_iff in H as [H Hl]. cbn [dec_key]. rewrite decide_False by by apply bool_decide_eq_false in H.
  by apply IH.
Qed.
Lemma dec_key_ext {B} names l name (d d' : dec B) old :
  (forall p b, p ∈ l -> d b p.2 = d' b p.2) -> dec_key names l name d old = dec_key names l name d' old.
Proof.
  revert old. induction l as [|[k v] l IH]; intros old H; [done|]. cbn [dec_key].
  pose proof (H (k, v) old ltac:(left)) as E. cbn [snd] in E. rewrite E. destruct (if decide _ then _ else _) as [b|]; [|done]. apply IH.
  intros p b' Hp. apply H. by right.
Qed.

(** ** The depth of the backups *)
Lemma nesting_member (l : list (str * json)) p : p ∈ l -> (nesting p.2 < nesting (JObj l))%nat.
Proof.
  intros H. cbn [nesting]. apply le_n_S. induction l as [|q l IH]; [by apply elem_of_nil in H|].
  apply elem_of_cons in H as [-> |H]; cbn; [lia|]. specialize (IH H). lia.
Qed.
Lemma dec_ptr_ext {A} zero (d d' : dec A) old v :
  (forall b, d b v = d' b v) -> dec_ptr zero d old v = dec_ptr zero d' old v.
Proof. intros H. unfold dec_ptr. by rewrite H. Qed.

Lemma dec_Backend_enough n m v : (nesting v < n)%nat -> (nesting v < m)%nat ->
  forall old, dec_Backend_n n old v = dec_Backend_n m old v.
Proof.
  revert m v. induction n as [|n IH]; intros [|m] v Hn Hm old; [lia..|]. cbn [dec_Backend_n].
  unfold dec_Backend_with, dec_struct. destruct v as [| | | | |l]; try done. cbv beta zeta.
  rewrite (dec_key_ext _ _ _ (dec_ptr zero_Backend (dec_Backend_n n)) (dec_ptr zero_Backend (dec_Backend_n m)));
    [done|].
  intros p b Hp%nesting_member. apply dec_ptr_ext, IH; lia.
Qed.
(** The equation of the recursive type. *)
Lemma dec_Backend_eq old v : dec_Backend old v = dec_Backend_with dec_Backend old v.
Proof.
  unfold dec_Backend at 1. cbn [dec_Backend_n]. unfold dec_Backend_with, dec_struct.
  destruct v as [| | | | |l]; try done. cbv beta zeta.
  rewrite (dec_key_ext _ l "backup_addr"%str (dec_ptr zero_Backend (dec_Backend_n (nesting (JObj l))))
    (dec_ptr zero_Backend dec_Backend)); [done|].
  intros p b Hp%nesting_member. apply dec_ptr_ext. intros b'. apply dec_Backend_enough; lia.
Qed.

(** ** What a file leaves alone *)
Definition without_args (f : livegrep_flags) : livegrep_flags :=
  mkLivegrepFlags (serveAddr f) (backendAddr f) (backupBackendAddr f) (fileviewerOnly f) (docRoot f) (indexConfig f)
    (reload f) (zoektRepoCache f) [].

(** A field and whether it is the same in two configurations. *)
Definition fields (c c' : Config) : list (str * Prop) := [
  ("docroot", c_DocRoot c = c_DocRoot c'); ("feedback", c_Feedback c = c_Feedback c');
  ("google_analytics_id", c_GoogleAnalyticsId c = c_GoogleAnalyticsId c');
  ("google_iap_config", c_IAP c = c_IAP c'); ("reverse_proxy", c_ReverseProxy c = c_ReverseProxy c');
  ("backends", c_Backends c = c_Backends c'); ("listen", c_Listen c = c_Listen c');
  ("header_html", c_HeaderHTML c = c_HeaderHTML c'); ("footer_html", c_FooterHTML c = c_FooterHTML c');
  ("sentry", c_Sentry c = c_Sentry c'); ("reload", c_Reload c = c_Reload c'); ("statsd", c_StatsD c = c_StatsD c');
  ("default_max_matches", c_DefaultMaxMatches c = c_DefaultMaxMatches c');
  ("index_config", c_IndexConfig c = c_IndexConfig c');
  ("default_search_repos", c_DefaultSearchRepos c = c_DefaultSearchRepos c');
  ("file_links", c_LinkConfigs c = c_LinkConfigs c'); ("ZoektRepoCache", c_ZoektRepoCache c = c_ZoektRepoCache c');
  ("FileviewerOnly", c_FileviewerOnly c = c_FileviewerOnly c')]%str.

Lemma bind_Some_inv {A B} (m : option A) (k : A -> option B) b : m ≫= k = Some b -> exists a, m = Some a /\ k a = Some b.
Proof. destruct m as [a|]; [|done]. by exists a. Qed.
Ltac inv_dec H :=
  repeat (apply bind_Some_inv in H as (? & ? & H)).

(** The members of an object, decoded over a configuration. *)
Lemma dec_Config_fields l c c' : dec_Config c (JObj l) = Some c' ->
  Forall (fun p => named Config_fields l p.1 = false -> p.2) (fields c' c) /\
  dec_key Config_fields l "backends"%str (dec_slice zero_Backend dec_Backend) (c_Backends c) = Some (c_Backends c').
Proof.
  intros H. cbn [dec_Config dec_struct] in H. cbv zeta in H. inv_dec H. injection H as <-. split; [|done].
  unfold fields. rewrite !Forall_cons, Forall_nil. cbn [fst snd]. split_and!; [..|done]; intros Hn;
    match goal with E : dec_key _ _ ?name _ ?old = Some ?x |- _ => rewrite (dec_key_absent _ _ name) in E by exact Hn;
      injection E as <-; reflexivity end.
Qed.

(** ** What a file says *)
(** No member of the list names the field, in any letter case. *)
Definition absent (name : str) (l : list (str * json)) : Prop := Forall (fun p => fold_key p.1 <> fold_key name) l.
#[export] Instance absent_dec name l : Decision (absent name l).
Proof. unfold absent. apply _. Defined.
(** The last member that names the field, where there is one, has a value with [P]. *)
Definition member (name : str) (P : json -> Prop) (l : list (str * json)) : Prop :=
  forall l1 k v l2, l = l1 ++ (k, v) :: l2 -> fold_key k = fold_key name -> absent name l2 -> P v.
(** A value that stands for an object with these members; [null] says nothing. *)
Definition holds (fs : list (str * (json -> Prop))) (v : json) : Prop :=
  match v with JObj l => Forall (fun f => member f.1 f.2 l) fs | JNull => True | _ => False end.
Definition is_str (x : str) (v : json) : Prop := match v with JStr s => x = s | JNull => True | _ => False end.
Definition is_bool (x : bool) (v : json) : Prop := match v with JBool b => x = b | JNull => True | _ => False end.
Definition is_int (bits z : Z) (v : json) : Prop :=
  match v with JNum lit => forall n, in_signed bits n -> lit = Itoa n -> z = n | JNull => True | _ => False end.
Definition is_list {A} (P : A -> json -> Prop) (l : list A) (v : json) : Prop :=
  match v with JArr vs => Forall2 P l vs | JNull => l = [] | _ => False end.
Definition is_ptr {A} (P : A -> json -> Prop) (o : option A) (v : json) : Prop :=
  match o with Some a => v <> JNull /\ P a v | None => v = JNull end.
Definition is_single (name x : str) : json -> Prop := holds [(name, is_str x)].
(** The keys of a map are exact. *)
Definition is_map (m : gmap str str) (v : json) : Prop :=
  match v with
  | JObj l => forall l1 k s l2, l = l1 ++ (k, JStr s) :: l2 -> k ∉ l2.*1 -> m !! k = Some s
  | JNull => m = ∅ | _ => False
  end.

Fixpoint is_backend (b : BackendConfig) (v : json) : Prop :=
  match b with
  | mkBackendConfig id addr size backup =>
      holds [("id"%str, is_str id); ("addr"%str, is_str addr); ("maxMessageSize"%str, is_int 64 size);
             ("backup_addr"%str, is_ptr is_backend backup)] v
  end.
Definition is_statsd (s : StatsD) : json -> Prop :=
  holds [("address", is_str (Address s)); ("prefix", is_str (Prefix s)); ("tags", is_list is_str (Tags s));
         ("tags_format", is_str (TagsFormat s))]%str.
Definition is_iap (c : GoogleIAPConfig) : json -> Prop :=
  holds [("project_id", is_str (ProjectID c)); ("project_number", is_str (ProjectNumber c));
         ("backend_service_id", is_str (BackendServiceID c))]%str.
Definition is_repo (r : RepoConfig) : json -> Prop :=
  holds [("path", is_str (repo_Path r)); ("name", is_str (repo_Name r)); ("revisions", is_list is_str (repo_Revisions r));
         ("metadata", is_map (repo_Metadata r)); ("walk_submodules", is_bool (repo_WalkSubmodules r))]%str.
Definition is_index (c : IndexConfig) : json -> Prop :=
  holds [("name", is_str (ic_Name c)); ("repositories", is_list is_repo (ic_Repositories c))]%str.
Definition is_link (c : LinkConfig) : json -> Prop :=
  holds [("label", is_str (Label c)); ("url_template", is_str (UrlTemplate c));
         ("whitelist_pattern", is_str (WhitelistPattern c))]%str.
(** The configuration has what the file says. *)
Definition is_config (c : Config) : json -> Prop :=
  holds [("docroot", is_str (c_DocRoot c)); ("feedback", is_single "mailto" (c_Feedback c));
    ("google_analytics_id", is_str (c_GoogleAnalyticsId c)); ("google_iap_config", is_iap (c_IAP c));
    ("reverse_proxy", is_bool (c_ReverseProxy c)); ("backends", is_list is_backend (c_Backends c));
    ("listen", is_str (c_Listen c)); ("header_html", is_str (c_HeaderHTML c)); ("footer_html", is_str (c_FooterHTML c));
    ("sentry", is_single "uri" (c_Sentry c)); ("reload", is_bool (c_Reload c)); ("statsd", is_statsd (c_StatsD c));
    ("default_max_matches", is_int 32 (c_DefaultMaxMatches c)); ("index_config", is_index (c_IndexConfig c));
    ("default_search_repos", is_list is_str (c_DefaultSearchRepos c)); ("file_links", is_list is_link (c_LinkConfigs c));
    ("ZoektRepoCache", is_str (c_ZoektRepoCache c)); ("FileviewerOnly", is_bool (c_FileviewerOnly c))]%str.

Lemma resolve_fold names k name : resolve names k = Some name -> fold_key k = fold_key name.
Proof.
  unfold resolve. case_decide; [by intros [= ->]|]. intros E. destruct (filter _ names) as [|n l] eqn:Ef; [done|].
  cbn in E. injection E as ->.
  assert (name ∈ filter (fun n => fold_key n = fold_key k) names) as Hn%list_elem_of_filter by (rewrite Ef; left).
  by destruct Hn as [-> _].
Qed.
Lemma fold_resolve names k name : NoDup (fold_key <$> names) -> name ∈ names -> fold_key k = fold_key name ->
  resolve names k = Some name.
Proof.
  intros Hd Hn Hk. assert (forall n, n ∈ names -> fold_key n = fold_key name -> n = name) as Hu.
  { clear Hk. induction names as [|m names IH]; [by apply elem_of_nil in Hn|]. cbn in Hd.
    apply NoDup_cons in Hd as [Hm Hd]. intros n Hn' E. apply elem_of_cons in Hn, Hn'.
    destruct Hn as [->|Hn], Hn' as [->|Hn']; [done|..|by apply IH];
      destruct Hm; [rewrite <- E|rewrite E]; by apply list_elem_of_fmap_2. }
  unfold resolve. case_decide as Hin; [by rewrite (Hu k)|].
  assert (name ∈ filter (fun n => fold_key n = fold_key k) names) as Hf by by apply list_elem_of_filter.
  destruct (filter _ names) as [|n l] eqn:Ef; [by apply elem_of_nil in Hf|].
  assert (n ∈ filter (fun n => fold_key n = fold_key k) names) as Hn2%list_elem_of_filter by (rewrite Ef; left).
  destruct Hn2 as [E Hn2]. cbn. by rewrite (Hu n) by congruence.
Qed.
Lemma absent_named names l name : absent name l -> named names l name = false.
Proof.
  unfold named. intros H. induction H as [|p l Hp H IH]; [done|]. cbn [existsb]. rewrite IH, orb_false_r. apply bool_decide_eq_false.
  by intros E%resolve_fold.
Qed.
Lemma dec_key_member {B} names l name (d : dec B) (P : B -> json -> Prop) old new :
  bool_decide (NoDup (fold_key <$> names) /\ name ∈ names) = true -> (forall o v b, d o v = Some b -> P b v) ->
  dec_key names l name d old = Some new -> member name (P new) l.
Proof.
  intros [Hd Hn]%bool_decide_eq_true HP E l1 k v l2 -> Hk H2. rewrite dec_key_app in E.
  apply bind_Some_inv in E as (mid & _ & E). cbn [dec_key] in E. rewrite decide_True in E by by apply fold_resolve.
  apply bind_Some_inv in E as (b & Eb & E). rewrite (dec_key_absent _ l2) in E by by apply absent_named.
  injection E as <-. by eapply HP.
Qed.

(** A decoder gives what the value says. *)
Definition says {A} (d : dec A) (P : A -> json -> Prop) : Prop := forall old v b, d old v = Some b -> P b v.
Lemma says_all {A} (d : dec A) P : says d P -> forall old v b, d old v = Some b -> P b v.
Proof. done. Qed.
Lemma says_str : says dec_str is_str.
Proof. intros old v x E. destruct v; try discriminate E; [exact I|by injection E]. Qed.
Lemma says_bool : says dec_bool is_bool.
Proof. intros old v x E. destruct v; try discriminate E; [exact I|by injection E]. Qed.
Lemma says_int bits : says (dec_int bits) (is_int bits).
Proof.
  intros old v x E. destruct v as [| |lit| | |]; try discriminate E; [exact I|]. intros n Hn ->.
  rewrite (dec_int_Itoa bits old n Hn) in E. by injection E.
Qed.
Lemma says_slice {A} (zero : A) d P : says d P -> says (dec_slice zero d) (is_list P).
Proof.
  intros Hd old v l E. destruct v as [| | | |vs|]; try discriminate E; [by injection E|]. cbn in *. revert old l E. induction vs as [|v vs IH]; intros old l E; [by injection E as <-|].
  cbn [dec_elements] in E. apply bind_Some_inv in E as (a & Ha & E). apply bind_Some_inv in E as (rest & Hr & [= <-]).
  constructor; [by eapply Hd|by eapply IH].
Qed.
Lemma dec_entries_other m m' l k : dec_entries m l = Some m' -> k ∉ l.*1 -> m' !! k = m !! k.
Proof.
  revert m. induction l as [|[k' v] l IH]; intros m; [by intros [= ->]|]. cbn. intros (m1 & E & H)%bind_Some_inv Hk.
  apply bind_Some_inv in E as (x & _ & [= <-]). apply not_elem_of_cons in Hk as [Hk Hl].
  rewrite (IH _ H Hl). by apply lookup_insert_ne.
Qed.
Lemma says_map : says dec_map is_map.
Proof.
  intros old v m E. destruct v as [| | | | |l]; try discriminate E; [by injection E|]. cbn in *. intros l1 k s l2 -> Hk. rewrite dec_entries_app in E.
  apply bind_Some_inv in E as (m1 & _ & E). cbn in E. rewrite (dec_entries_other _ _ _ _ E Hk). apply lookup_insert_eq.
Qed.
Lemma says_ptr {A} (zero : A) d P : says d P -> says (dec_ptr zero d) (is_ptr P).
Proof.
  intros Hd old v o E. unfold dec_ptr in E. destruct v; [by injection E as <-|..]; apply fmap_Some in E as (a & E & ->);
    (split; [done|by eapply Hd]).
Qed.
Create HintDb says discriminated.
#[export] Hint Resolve says_str says_bool says_int says_slice says_map says_ptr : says.
(** The fields of a struct, one by one. *)
Ltac says_struct :=
  let old := fresh "old" in let v := fresh "v" in let x := fresh "x" in let H := fresh "H" in
  intros old v x H; destruct v; try discriminate H; [first [exact I|by destruct x]|];
  cbn [dec_struct] in H; cbv zeta in H; inv_dec H; injection H as <-;
  hnf; rewrite ?Forall_cons, ?Forall_nil; cbn [fst snd]; split_and?; try done;
  (eapply dec_key_member; [|apply says_all|eassumption]; [vm_compute; reflexivity|auto with says]).
Lemma says_single name : says (dec_single name) (is_single name).
Proof.
  intros old v x E. destruct v as [| | | | |l]; try discriminate E; [exact I|]. cbn in *. rewrite Forall_singleton. cbn [fst snd].
  eapply dec_key_member; [|apply says_all, says_str|exact E]. apply bool_decide_eq_true.
  split; [apply NoDup_singleton|by apply list_elem_of_singleton].
Qed.
#[export] Hint Resolve says_single : says.
Lemma says_backend : says dec_Backend is_backend.
Proof.
  assert (forall n, says (dec_Backend_n n) is_backend) as H; [|intros old v b E; by eapply H].
  induction n as [|n IH]; [done|]. cbn [dec_Backend_n]. unfold dec_Backend_with. says_struct.
Qed.
Lemma says_statsd : says dec_StatsD is_statsd.
Proof. says_struct. Qed.
Lemma says_iap : says dec_IAP is_iap.
Proof. says_struct. Qed.
Lemma says_repo : says dec_RepoConfig is_repo.
Proof. says_struct. Qed.
Lemma says_link : says dec_LinkConfig is_link.
Proof. says_struct. Qed.
#[export] Hint Resolve says_backend says_statsd says_iap says_repo says_link : says.
Lemma says_index : says dec_IndexConfig is_index.
Proof. says_struct. Qed.
#[export] Hint Resolve says_index : says.
Lemma says_config : says dec_Config is_config.
Proof. says_struct. Qed.

Lemma dec_Backend_backup m old b :
  named Backend_fields m "backup_addr"%str = false -> dec_Backend old (JObj m) = Some b -> cb_Backup b = cb_Backup old.
Proof.
  intros Hm. rewrite dec_Backend_eq. unfold dec_Backend_with. cbn [dec_struct]. cbv zeta. intros H.
  inv_dec H. injection H as <-. cbn [cb_Backup].
  match goal with E : dec_key _ _ "backup_addr"%str _ _ = _ |- _ =>
    rewrite (dec_key_absent _ _ _ _ _ Hm) in E; by injection E as <- end.
Qed.

(** C30: a configuration file changes the fields that it names, in any letter
    case, and leaves the others as the flags, the environment and the index
    configuration set them.  For each of the 18 fields: where a member of the
    file names it, the configuration has what the last such member says, a
    string, a boolean, an integer in its range, a list element by element, and
    so on inside the structs (a [null] clears a list, a map and a pointer, and is
    not spoken of elsewhere); where none does, it is unchanged.  And the backend of the
    flags is not replaced but filled in: the first backend of a file has the
    backup of the flags unless the file gives it another. *)
Theorem load_config_merge (read : str -> option str) (executable : option str) (getenv : str -> str)
    (f : livegrep_flags) (arg text : str) (rest : list str) (l : list (str * json)) (cfg : Config) :
  args f = arg :: rest -> read arg = Some text -> parse_json text = Some (JObj l) ->
  load_config read executable f getenv = Ok cfg ->
  exists base,
    load_config read executable (without_args f) getenv = Ok base /\
    is_config cfg (JObj l) /\
    Forall (fun p => absent p.1 l -> p.2) (fields cfg base) /\
    (forall m l1 l2 vs, l = l1 ++ ("backends"%str, JArr (JObj m :: vs)) :: l2 ->
       absent "backends"%str l1 -> absent "backends"%str l2 -> absent "backup_addr"%str m ->
       cb_Backup <$> head (c_Backends cfg) =
         Some (Some (mkBackendConfig "backup-idx"%str (backupBackendAddr f) 0 None))).
Proof.
  intros Ha Hr Hp Hl. unfold load_config in *. cbn [without_args args docRoot indexConfig] in *. rewrite Ha in Hl.
  destruct (or_err tt (if decide (docRoot f = []) then _ else _)) as [docroot| |]; cbn [mbind res_bind] in *; [|done..].
  change (default_config (without_args f) docroot getenv) with (default_config f docroot getenv).
  set (base := if decide (indexConfig f = []) then _ else _) in *.
  assert (match base with Ok c => c_Backends c = c_Backends (default_config f docroot getenv) | _ => True end) as Hb.
  { unfold base. case_decide; [done|]. destruct (read (indexConfig f)) as [d|]; [|done]. cbn [or_err mbind res_bind].
    destruct (Unmarshal dec_IndexConfig _ d); done. }
  destruct base as [base'| |]; cbn [mbind res_bind] in *; [|done..]. exists base'. split; [done|].
  assert (dec_Config base' (JObj l) = Some cfg) as E.
  { unfold Unmarshal in Hl. rewrite Hr in Hl. cbn [or_err mbind res_bind] in Hl. rewrite Hp in Hl.
    change (Some (JObj l) ≫= ?k) with (k (JObj l)) in Hl. cbv beta in Hl. unfold dec_ptr in Hl. cbn [default] in Hl.
    change (id base') with base' in Hl.
    destruct (dec_Config base' (JObj l)) as [c|]; [|done]. by injection Hl as ->. }
  split; [by eapply says_config|]. destruct (dec_Config_fields _ _ _ E) as [Hf Hbk].
  split; [eapply Forall_impl; [exact Hf|]; intros q Hq Hn; by apply Hq, absent_named|].
  intros m l1 l2 vs -> H1%(absent_named Config_fields) H2%(absent_named Config_fields)
    Hm%(absent_named Backend_fields). rewrite Hb, dec_key_app in Hbk.
  rewrite (dec_key_absent _ l1 _ _ _ H1) in Hbk.
  cbn [mbind option_bind dec_key] in Hbk. rewrite decide_True in Hbk by (vm_compute; reflexivity).
  apply bind_Some_inv in Hbk as (bs & Hbs & Hbk). rewrite (dec_key_absent _ l2 _ _ _ H2) in Hbk. injection Hbk as <-.
  cbn [dec_slice default_config c_Backends dec_elements head tail] in Hbs.
  apply bind_Some_inv in Hbs as (b & Hbe & Hbs). apply bind_Some_inv in Hbs as (vs' & _ & Hbs). injection Hbs as <-.
  cbn. by rewrite (dec_Backend_backup _ _ _ Hm Hbe).
Qed.

(** ** [doc/examples/livegrep/server.json] *)
Definition server_json : str :=
  dq "{ 'backends': [ { 'id': 'livegrep', 'addr': 'localhost:9999' } ],
    'feedback': { 'mailto': 'nelhage@nelhage.com' },
    'listen': '0.0.0.0:8910' }"%str.
Definition sample_flags : livegrep_flags :=
  mkLivegrepFlags "127.0.0.1:8910"%str "localhost:9999"%str "standby:9999"%str false "web"%str [] true []
    ["server.json"%str].
Definition sample_backup : BackendConfig := mkBackendConfig "backup-idx"%str "standby:9999"%str 0 None.
Definition sample_config : Config :=
  mkConfig "web"%str "nelhage@nelhage.com"%str [] (mkIAP [] [] []) false
    [mkBackendConfig "livegrep"%str "localhost:9999"%str 0 (Some sample_backup)]
    "0.0.0.0:8910"%str [] [] [] true (mkStatsD [] [] [[]] []) 50 zero_IndexConfig [] [] [] false.
Example load_server_json :
  load_config (fun _ => Some server_json) None sample_flags (fun _ => []) = Ok sample_config.
Proof. vm_compute. reflexivity. Qed.

Lemma load_config_merge_witness :
  exists base,
    load_config (fun _ => Some server_json) None (without_args sample_flags) (fun _ => []) = Ok base /\
    c_Listen sample_config = "0.0.0.0:8910"%str /\ c_Reload sample_config = c_Reload base /\
    cb_Backup <$> head (c_Backends sample_config) = Some (Some sample_backup).
Proof.
  pose (m := [("id"%str, JStr "livegrep"%str); ("addr"%str, JStr "localhost:9999"%str)]).
  pose (l2 := [("feedback"%str, JObj [("mailto"%str, JStr "nelhage@nelhage.com"%str)]);
               ("listen"%str, JStr "0.0.0.0:8910"%str)]).
  destruct (load_config_merge (fun _ => Some server_json) None (fun _ => []) sample_flags "server.json"%str server_json
    [] (("backends"%str, JArr [JObj m]) :: l2) sample_config) as (base & Hb & Hc & Hf & Hbk).
  - reflexivity.
  - reflexivity.
  - vm_compute. reflexivity.
  - vm_compute. reflexivity.
  - exists base. split; [exact Hb|]. split_and!.
    + do 6 apply Forall_cons in Hc as [_ Hc]. apply Forall_cons in Hc as [H _].
      apply (H (("backends"%str, JArr [JObj m]) :: take 1 l2) "listen"%str (JStr "0.0.0.0:8910"%str) []);
        [reflexivity|reflexivity|constructor].
    + do 10 apply Forall_cons in Hf as [_ Hf]. apply Forall_cons in Hf as [H _]. apply H. by apply (bool_decide_unpack _).
    + apply (Hbk m [] l2 []); [reflexivity|by apply (bool_decide_unpack _)..].
Defined.
