(* ===== verification/Running.v ===== *)
(** * The running server: polling goroutines and the pages that read their state

    After [New] has started it, a server has one goroutine for each backend and
    each backup; each takes its turns on a state of its own, in any order.  The
    pages about the backends read these states between the turns. *)
From S2P Require Import Prelude GoStrings GoMap GoJson Config GoRegexp GoPath GoSort Query Search Backend Pages Server.
From S2P Require Import PagesSpec Start StartSpec.

(** ** The turns *)

(** The goroutine of a backend, or of its [n]th backup in depth. *)
Record turn_of := mkTurnOf { to_id : str; to_depth : nat; to_turn : turn }.

Definition set_State (st : BackendState) (b : live) : live :=
  mkLive (lv_Id b) (lv_Addr b) st (lv_Backup b) (lv_IsBackup b).
Definition set_Backup (bu : option live) (b : live) : live :=
  mkLive (lv_Id b) (lv_Addr b) (lv_State b) bu (lv_IsBackup b).

(** A turn of a goroutine that is not there is none. *)
Fixpoint poll_at (n : nat) (t : turn) (b : live) : res unit live :=
  match n with
  | O => st ← poll_step (lv_State b) t; Ok (set_State st b)
  | S n => match lv_Backup b with
           | None => Ok b
           | Some bu => bu ← poll_at n t bu; Ok (set_Backup (Some bu) b)
           end
  end.
Definition system_turn (bk : gmap str live) (e : turn_of) : res unit (gmap str live) :=
  match bk !! to_id e with
  | None => Ok bk
  | Some b => b ← poll_at (to_depth e) (to_turn e) b; Ok (<[to_id e := b]> bk)
  end.
(** The server after some turns; a panic ends the process. *)
Definition run_turns (events : list turn_of) (bk : gmap str live) : res unit (gmap str live) :=
  foldM system_turn events bk.
Definition set_bk (bk : gmap str live) (s : server) : server :=
  mkServer bk (sv_bkOrder s) (sv_repos s) (sv_newRepos s) (sv_regex s) (sv_statsd s) (sv_pages s).

(** ** What is true of every server *)

(** A backend and its backups, down to the last. *)
Fixpoint live_ok (backup : bool) (b : live) : Prop :=
  match b with
  | mkLive id addr st bu is_backup =>
      is_backup = backup /\ match bu with Some bu => lv_Addr bu <> [] /\ live_ok true bu | None => True end
  end.

Record well_formed (s : server) : Prop := mkWellFormed {
  wf_order : forall id, id ∈ sv_bkOrder s <-> is_Some (sv_bk s !! id);
  wf_backends : forall id b, sv_bk s !! id = Some b -> lv_Id b = id /\ live_ok false b;
}.

Fixpoint backup_at (n : nat) (b : live) : option live :=
  match n with O => Some b | S n => bu ← lv_Backup b; backup_at n bu end.
(** The turns of one goroutine. *)
Definition turns_of (id : str) (n : nat) (events : list turn_of) : list turn :=
  to_turn <$> filter (fun e => to_id e = id /\ to_depth e = n) events.

Lemma live_ok_eq backup b : live_ok backup b <->
  lv_IsBackup b = backup /\ match lv_Backup b with Some bu => lv_Addr bu <> [] /\ live_ok true bu | None => True end.
Proof. by destruct b. Qed.

(** What a turn leaves alone. *)
Lemma poll_at_same n t b b' : poll_at n t b = Ok b' ->
  lv_Id b' = lv_Id b /\ lv_Addr b' = lv_Addr b /\ lv_IsBackup b' = lv_IsBackup b.
Proof.
  destruct n as [|n]; cbn [poll_at].
  - destruct (poll_step _ t); cbn [mbind res_bind]; [|done..]. by intros [= <-].
  - destruct (lv_Backup b) as [bu|]; [|by intros [= <-]].
    destruct (poll_at n t bu); cbn [mbind res_bind]; [|done..]. by intros [= <-].
Qed.
Lemma poll_at_ok n t backup b b' : poll_at n t b = Ok b' -> live_ok backup b -> live_ok backup b'.
Proof.
  revert backup b b'. induction n as [|n IH]; intros backup b b'; cbn [poll_at].
  - destruct (poll_step _ t); cbn [mbind res_bind]; [|done..]. intros [= <-]. by rewrite !live_ok_eq.
  - destruct (lv_Backup b) as [bu|] eqn:Eb; [|by intros [= <-]].
    destruct (poll_at n t bu) as [bu'| |] eqn:E; cbn [mbind res_bind]; [|done..]. intros [= <-].
    rewrite !live_ok_eq. cbn [set_Backup lv_IsBackup lv_Backup]. rewrite Eb. intros (? & Ha & Hok).
    destruct (poll_at_same _ _ _ _ E) as (_ & -> & _). split_and!; [done..|by eapply IH].
Qed.

(** A turn moves the state of its own goroutine only. *)
Lemma poll_at_states n t b b' m bm : poll_at n t b = Ok b' -> backup_at m b = Some bm ->
  exists bm', backup_at m b' = Some bm' /\ lv_Id bm' = lv_Id bm /\
    if decide (m = n) then poll_step (lv_State bm) t = Ok (lv_State bm') else lv_State bm' = lv_State bm.
Proof.
  revert b b' m. induction n as [|n IH]; intros b b' m; cbn [poll_at].
  - destruct (poll_step _ t) as [st| |] eqn:E; cbn [mbind res_bind]; [|done..]. intros [= <-].
    destruct m as [|m]; cbn [backup_at]; [intros [= <-]; by exists (set_State st b)|].
    intros Hm. exists bm. split_and!; [done..|]. by case_decide.
  - destruct (lv_Backup b) as [bu|] eqn:Eb; [|intros [= <-]].
    + destruct (poll_at n t bu) as [bu'| |] eqn:E; cbn [mbind res_bind]; [|done..]. intros [= <-].
      destruct m as [|m]; cbn [backup_at]; [intros [= <-]; by eexists|].
      rewrite Eb. cbn [mbind option_bind set_Backup lv_Backup]. intros Hm.
      destruct (IH _ _ _ E Hm) as (bm' & ? & ? & Hst). exists bm'. split_and!; [done..|].
      destruct (decide (m = n)), (decide (S m = S n)); congruence.
    + intros Hm. exists bm. split_and!; [done..|]. case_decide as Hn; [|done]. subst m. cbn in Hm. by rewrite Eb in Hm.
Qed.

Lemma turns_of_cons id n e events :
  turns_of id n (e :: events) = (if decide (to_id e = id /\ to_depth e = n) then [to_turn e] else []) ++ turns_of id n events.
Proof. unfold turns_of. rewrite filter_cons. by case_decide. Qed.

Lemma system_turn_state e bk bk' id b : system_turn bk e = Ok bk' -> bk !! id = Some b ->
  exists b', bk' !! id = Some b' /\ lv_Id b' = lv_Id b /\
    forall n bn, backup_at n b = Some bn -> exists bn', backup_at n b' = Some bn' /\ lv_Id bn' = lv_Id bn /\
      foldM poll_step (if decide (to_id e = id /\ to_depth e = n) then [to_turn e] else []) (lv_State bn) = Ok (lv_State bn').
Proof.
  unfold system_turn. intros Ht Hb. destruct (decide (to_id e = id)) as [<-|Hn].
  - rewrite Hb in Ht. destruct (poll_at (to_depth e) (to_turn e) b) as [b'| |] eqn:E; cbn [mbind res_bind] in Ht; [|done..].
    injection Ht as <-. exists b'. rewrite lookup_insert_eq. destruct (poll_at_same _ _ _ _ E) as (? & _ & _).
    split_and!; [done..|]. intros n bn Hn. destruct (poll_at_states _ _ _ _ _ _ E Hn) as (bn' & ? & ? & Hst).
    exists bn'. split_and!; [done..|]. destruct (decide (n = to_depth e)) as [->|Hd].
    + rewrite decide_True by done. cbn [foldM]. by rewrite Hst.
    + rewrite decide_False by (intros [_ ?]; congruence). cbn [foldM]. by rewrite Hst.
  - exists b. split_and!; [|done|].
    + destruct (bk !! to_id e) as [b0|]; [|by injection Ht as <-].
      destruct (poll_at _ _ b0); cbn [mbind res_bind] in Ht; [|done..]. injection Ht as <-. by rewrite lookup_insert_ne.
    + intros n bn Hbn. exists bn. split_and!; [done..|]. by rewrite decide_False by (intros [? _]; done).
Qed.
Lemma system_turn_dom e bk bk' id : system_turn bk e = Ok bk' -> is_Some (bk' !! id) <-> is_Some (bk !! id).
Proof.
  unfold system_turn. destruct (bk !! to_id e) as [b|] eqn:Eb; [|by intros [= <-]].
  destruct (poll_at _ _ b); cbn [mbind res_bind]; [|done..]. intros [= <-]. rewrite lookup_insert_is_Some'.
  split; [intros [<-|?]; [by rewrite Eb|done]|by right].
Qed.

(** While the server runs, whatever the order of the turns, each backend
    and each backup is in the state that its own turns alone lead to; the
    backends stay those that were started, with their names. *)
Lemma run_turns_states (events : list turn_of) (bk bk' : gmap str live) :
  run_turns events bk = Ok bk' ->
  (forall id, is_Some (bk' !! id) <-> is_Some (bk !! id)) /\
  forall id b, bk !! id = Some b -> exists b', bk' !! id = Some b' /\ lv_Id b' = lv_Id b /\
    forall n bn, backup_at n b = Some bn -> exists bn', backup_at n b' = Some bn' /\ lv_Id bn' = lv_Id bn /\
      foldM poll_step (turns_of id n events) (lv_State bn) = Ok (lv_State bn').
Proof.
  unfold run_turns. revert bk. induction events as [|e events IH]; intros bk Hrun; cbn [foldM] in Hrun.
  { injection Hrun as <-. split; [done|]. intros id b Hb. exists b. split_and!; [done..|]. intros n bn Hn. by exists bn. }
  destruct (system_turn bk e) as [bk1| |] eqn:E; cbn [mbind res_bind] in Hrun; [|done..].
  destruct (IH bk1 Hrun) as [Hd Hst]. split.
  { intros id. rewrite Hd. by eapply system_turn_dom. }
  intros id b Hb. destruct (system_turn_state _ _ _ _ _ E Hb) as (b1 & Hb1 & Hid1 & H1).
  destruct (Hst _ _ Hb1) as (b' & Hb' & Hid' & H'). exists b'. split_and!; [done|congruence|].
  intros n bn Hn. destruct (H1 _ _ Hn) as (bn1 & Hn1 & Hi1 & Hs1). destruct (H' _ _ Hn1) as (bn' & Hn' & Hi' & Hs').
  exists bn'. split_and!; [done|congruence|]. rewrite turns_of_cons, foldM_app, Hs1. cbn [mbind res_bind]. exact Hs'.
Qed.

(** ** Started and running *)
Section started.
Context `{GS : !GoSort} (Dial : str -> Z -> option str).

Lemma L_bind_ok {A B} (m : L A) (k : A -> L B) b : (m ≫= k).2 = Ok b -> exists a, m.2 = Ok a /\ (k a).2 = Ok b.
Proof using. unfold mbind, L_bind. destruct m.2 as [a| |]; [|done..]. by exists a. Qed.

Lemma NewBackend_live : forall be b, (NewBackend Dial be).2 = Ok b ->
  lv_Id b = cb_Id be /\ lv_Addr b = cb_Addr be /\ live_ok false b.
Proof using.
  fix IH 1. intros [id addr size backup] b. cbn [NewBackend]. intros (? & _ & H)%L_bind_ok.
  apply L_bind_ok in H as (bu & Hbu & [= <-]). cbn [lv_Id lv_Addr cb_Id cb_Addr]. split_and!; [done..|]. rewrite live_ok_eq.
  cbn [lv_IsBackup lv_Backup]. split; [done|]. destruct backup as [be'|]; [|by injection Hbu as <-].
  case_decide as Ha; [by injection Hbu as <-|].
  apply L_bind_ok in Hbu as (b' & Hb' & Hbu). apply L_bind_ok in Hbu as (? & _ & [= <-]).
  assert ((NewBackend Dial be').2 = Ok b') as Hb''.
  { unfold unchecked in Hb'. cbn in Hb'. by destruct ((NewBackend Dial be').2). }
  destruct (IH be' b' Hb'') as (_ & Haddr & Hok). unfold as_backup. cbn [lv_Addr]. rewrite Haddr. split; [done|].
  rewrite live_ok_eq in Hok. rewrite live_ok_eq. cbn [lv_IsBackup lv_Backup]. by destruct Hok.
Qed.

Definition started_ok (s : gmap str live * list str) : Prop :=
  (forall id, id ∈ s.2 <-> is_Some (s.1 !! id)) /\ (forall id b, s.1 !! id = Some b -> lv_Id b = id /\ live_ok false b).
Lemma start_backends_inv l : forall s s', started_ok s -> (start_backends Dial l s).2 = Ok s' -> started_ok s'.
Proof using.
  induction l as [|be l IH]; intros s s' Hs; cbn [start_backends]; [by intros [= <-]|].
  intros (s1 & Hs1 & H)%L_bind_ok. apply (IH s1); [|done]. unfold start_backend in Hs1.
  apply L_bind_ok in Hs1 as (b & Hb & Hs1). apply L_bind_ok in Hs1 as (? & _ & [= <-]).
  destruct (NewBackend_live _ _ Hb) as (_ & _ & Hok), Hs as [Ho Hk]. split; cbn [fst snd].
  - intros id. rewrite elem_of_app, list_elem_of_singleton, Ho, lookup_insert_is_Some'. intuition congruence.
  - intros id b' [[<- <-]|[_ Hb']]%lookup_insert_Some; [done|by apply Hk].
Qed.

Lemma New_well_formed d statsd_ok cfg s : (New Dial d statsd_ok cfg).2 = Ok s -> well_formed s.
Proof using.
  unfold New. intros (pages & _ & H)%L_bind_ok. apply L_bind_ok in H as (client & _ & H).
  apply L_bind_ok in H as (? & _ & H). apply L_bind_ok in H as ([bk order] & Hbk & H).
  destruct (load_repos _) as [repos names]. apply L_bind_ok in H as (newRepos & _ & [= <-]).
  assert (started_ok (bk, order)) as [Ho Hb].
  { assert (started_ok (∅, [])) as H0.
    { split; cbn [fst snd]; [|by intros id b ?%lookup_empty_Some].
      intros id. rewrite lookup_empty. split; [by intros ?%elem_of_nil|by intros []]. }
    destruct (c_FileviewerOnly cfg); [by injection Hbk as <- <-|]. by eapply start_backends_inv. }
  by split.
Qed.
End started.

Lemma well_formed_turn e s bk' : well_formed s -> system_turn (sv_bk s) e = Ok bk' -> well_formed (set_bk bk' s).
Proof.
  intros [Ho Hb] Ht. split; cbn [set_bk sv_bkOrder sv_bk].
  - intros id. rewrite Ho. symmetry. by eapply system_turn_dom.
  - intros id b' Hb'. unfold system_turn in Ht. destruct (sv_bk s !! to_id e) as [b|] eqn:E.
    + destruct (poll_at (to_depth e) (to_turn e) b) as [b1| |] eqn:Ep; cbn [mbind res_bind] in Ht; [|done..].
      injection Ht as <-. apply lookup_insert_Some in Hb' as [[<- <-]|[_ Hb']]; [|by apply Hb].
      destruct (Hb _ _ E) as [Hid Hok]. destruct (poll_at_same _ _ _ _ Ep) as (-> & _ & _).
      split; [done|by eapply poll_at_ok].
    + injection Ht as <-. by apply Hb.
Qed.
Lemma well_formed_turns events s bk' : well_formed s -> run_turns events (sv_bk s) = Ok bk' -> well_formed (set_bk bk' s).
Proof.
  unfold run_turns. revert s. induction events as [|e events IH]; intros s Hs Hr; cbn [foldM] in Hr.
  { injection Hr as <-. by destruct s. }
  destruct (system_turn (sv_bk s) e) as [bk1| |] eqn:E; cbn [mbind res_bind] in Hr; [|done..].
  exact (IH (set_bk bk1 s) (well_formed_turn _ _ _ Hs E) Hr).
Qed.

Lemma well_formed_search s : well_formed s ->
  exists page, ServeSearch (sv_bk s) (sv_bkOrder s) = Ok page /\ lv_Id <$> sp_Backends page = sv_bkOrder s.
Proof.
  intros [Ho Hb]. unfold ServeSearch.
  assert (exists l, mapR (fun id => deref (sv_bk s !! id)) (sv_bkOrder s) = (Ok l : res unit _) /\
    lv_Id <$> l = sv_bkOrder s) as (l & -> & Hl).
  { assert (Forall (fun id => is_Some (sv_bk s !! id)) (sv_bkOrder s)) as Hf by (apply Forall_forall; intros id; apply Ho).
    clear -Hf Hb. induction Hf as [|id order [b E] _ (l & Hl & E')]; [by exists []|].
    exists (b :: l). cbn [mapR]. rewrite E. cbn [deref mbind res_bind]. rewrite Hl. cbn. split; [done|].
    by rewrite (proj1 (Hb _ _ E)), E'. }
  cbn [mbind res_bind]. by eexists.
Qed.

(** C24: every server that starts, and whatever the turns of its goroutines
    since: the order of the backends names exactly the backends there are, each
    under its own name, and backups, however deep, are marked as such and have
    an address.  So the search page shows all backends and the status of a
    backend that the configuration names is shown, without a nil dereference. *)
Theorem running_well_formed `{!GoSort} (Dial : str -> Z -> option str) (d : docroot)
    (statsd_ok : list statsd_option -> bool) (cfg : Config) (s : server) (events : list turn_of) (bk : gmap str live) :
  (New Dial d statsd_ok cfg).2 = Ok s -> run_turns events (sv_bk s) = Ok bk ->
  well_formed (set_bk bk s) /\
  (exists page, ServeSearch bk (sv_bkOrder s) = Ok page /\ lv_Id <$> sp_Backends page = sv_bkOrder s) /\
  (forall (show_age : Z -> str) (conn : live -> connectivity) (id : str), id ∈ sv_bkOrder s -> id <> [] ->
     exists b, bk !! id = Some b /\
       ServeBackendStatus show_age conn bk {[ ":backend"%str := [id] ]} = Ok (HttpOk (status_of show_age conn b))).
Proof.
  intros Hn Hr. pose proof (well_formed_turns _ _ _ (New_well_formed _ _ _ _ _ Hn) Hr) as Hw. split; [done|].
  split; [exact (well_formed_search _ Hw)|]. destruct Hw as [Ho Hb]. cbn [set_bk sv_bkOrder sv_bk] in *.
  intros show_age conn id Hid Hne. apply Ho in Hid as [b E]. exists b. split; [done|]. unfold ServeBackendStatus, values_get.
    rewrite lookup_singleton_eq. cbn. rewrite decide_False by done. by rewrite E.
Qed.

(** ** Health *)
Lemma healthy_iff `{GR : !GoRange} (bk : gmap str BackendState) :
  ServeHealthcheck bk = None <-> forall id st, bk !! id = Some st -> i_IndexTime (bs_I st) <> zero_time.
Proof.
  unfold ServeHealthcheck. rewrite fmap_None. unfold IsZero. split.
  - intros H id st Hst Hz. apply head_None in H. assert ((id, st) ∈ filter (fun p => (i_IndexTime (bs_I p.2) =? zero_time) = true) (go_range bk)) as Hin.
    { apply list_elem_of_filter. split; [by apply Z.eqb_eq|]. rewrite go_range_perm. by apply elem_of_map_to_list. }
    rewrite H in Hin. by apply elem_of_nil in Hin.
  - intros H. apply head_None. destruct (filter _ (go_range bk)) as [|[id st] l] eqn:E; [done|exfalso].
    assert ((id, st) ∈ filter (fun p => (i_IndexTime (bs_I p.2) =? zero_time) = true) (go_range bk)) as Hin by (rewrite E; by left).
    apply list_elem_of_filter in Hin as [Hz%Z.eqb_eq Hin]. rewrite go_range_perm in Hin.
    apply elem_of_map_to_list in Hin. by eapply H.
Qed.
Definition reports_time (t : turn) : Prop :=
  match fullInfo t with RpcOk info => si_IndexTime info <> zero_time | RpcErr _ _ => True end.
Lemma poll_healthy (st : BackendState) ts st' : Forall reports_time ts -> i_IndexTime (bs_I st) <> zero_time ->
  foldM poll_step ts st = Ok st' -> i_IndexTime (bs_I st') <> zero_time.
Proof.
  intros Hts. revert st. induction Hts as [|t ts Ht _ IH]; intros st Hst; cbn [foldM]; [by intros [= <-]|].
  destruct (poll_step st t) as [st1| |] eqn:E; cbn [mbind res_bind]; [|done..]. apply IH. clear IH.
  unfold poll_step in E. destruct (quickInfo t) as [n|]; [|by destruct (_ || _); injection E as <-].
  destruct (negb _ || _); cbn [mbind res_bind] in E; [|by injection E as <-].
  unfold getInfo, reports_time in *. destruct (fullInfo t) as [info|]; cbn [mbind res_bind] in E; [|by injection E as <-].
  unfold refresh in E. destruct (if decide (si_Trees info = []) then _ else _); cbn [mbind res_bind] in E; [|done..].
  by injection E as <-.
Qed.

(** The health check asks for an index that was reported at some time: once
    it passes it passes for ever, backends that are down included. *)
Lemma running_healthy `{GR : !GoRange} (events : list turn_of) (bk bk' : gmap str live) :
  run_turns events bk = Ok bk' -> Forall (fun e => reports_time (to_turn e)) events ->
  ServeHealthcheck (lv_State <$> bk) = None -> ServeHealthcheck (lv_State <$> bk') = None.
Proof.
  rewrite !healthy_iff. intros Hr Ht Hh id st Hst. rewrite lookup_fmap in Hst.
  destruct (run_turns_states _ _ _ Hr) as [Hd Hs]. destruct (bk' !! id) as [b'|] eqn:E; [|done].
  injection Hst as <-. destruct (proj1 (Hd id)) as [b Hb]; [by rewrite E|].
  destruct (Hs _ _ Hb) as (b1 & Hb1 & _ & Hn). assert (b1 = b') as -> by congruence.
  destruct (Hn 0%nat b eq_refl) as (b2 & [= ->] & _ & Hp). eapply poll_healthy; [|eapply (Hh id); by rewrite lookup_fmap, Hb|exact Hp].
  unfold turns_of. apply Forall_fmap, Forall_forall. intros e [_ He]%list_elem_of_filter. by eapply Forall_forall in Ht.
Qed.

(** ** Availability *)
(** Nothing has been polled yet. *)
Fixpoint fresh (b : live) : Prop :=
  match b with
  | mkLive id addr st bu is_backup =>
      st = new_state id /\ match bu with Some bu => fresh bu | None => True end
  end.
Lemma fresh_eq b : fresh b <->
  lv_State b = new_state (lv_Id b) /\ match lv_Backup b with Some bu => fresh bu | None => True end.
Proof. by destruct b. Qed.
Lemma fresh_at n b bn : fresh b -> backup_at n b = Some bn -> lv_State bn = new_state (lv_Id bn).
Proof.
  revert b. induction n as [|n IH]; intros b; rewrite fresh_eq; intros [Hs Hb]; cbn [backup_at]; [by intros [= <-]|].
  destruct (lv_Backup b) as [bu|]; [|done]. by apply IH.
Qed.
Section availability.
Context `{GS : !GoSort} (Dial : str -> Z -> option str).
Lemma NewBackend_fresh : forall be b, (NewBackend Dial be).2 = Ok b -> fresh b.
Proof using.
  fix IH 1. intros [id addr size backup] b. cbn [NewBackend]. intros (? & _ & H)%L_bind_ok.
  apply L_bind_ok in H as (bu & Hbu & [= <-]). cbn [fresh]. split; [done|]. destruct backup as [be'|]; [|by injection Hbu as <-].
  case_decide as Ha; [by injection Hbu as <-|].
  apply L_bind_ok in Hbu as (b' & Hb' & Hbu). apply L_bind_ok in Hbu as (? & _ & [= <-]).
  assert ((NewBackend Dial be').2 = Ok b') as Hb''.
  { unfold unchecked in Hb'. cbn in Hb'. by destruct ((NewBackend Dial be').2). }
  pose proof (IH be' b' Hb'') as Hf. by destruct b'.
Qed.
Lemma New_fresh d statsd_ok cfg s id b : (New Dial d statsd_ok cfg).2 = Ok s -> sv_bk s !! id = Some b -> fresh b.
Proof using.
  unfold New. intros (pages & _ & H)%L_bind_ok. apply L_bind_ok in H as (client & _ & H).
  apply L_bind_ok in H as (? & _ & H). apply L_bind_ok in H as ([bk order] & Hbk & H).
  destruct (load_repos _) as [repos names]. apply L_bind_ok in H as (newRepos & _ & [= <-]). cbn [sv_bk].
  assert (forall l s s', (forall id b, s.1 !! id = Some b -> fresh b) -> (start_backends Dial l s).2 = Ok s' ->
    forall id b, s'.1 !! id = Some b -> fresh b) as Hl.
  { clear. induction l as [|be l IH]; intros s s' Hs; cbn [start_backends]; [by intros [= <-]|].
    intros (s1 & Hs1 & H)%L_bind_ok. apply (IH s1 s'); [|done]. unfold start_backend in Hs1.
    apply L_bind_ok in Hs1 as (b & Hb & Hs1). apply L_bind_ok in Hs1 as (? & _ & [= <-]). cbn [fst].
    intros id b' [[_ <-]|[_ Hb']]%lookup_insert_Some; [by eapply NewBackend_fresh|by eapply Hs]. }
  assert (forall id b, (∅ : gmap str live) !! id = Some b -> fresh b) as H0 by by intros ? ? ?%lookup_empty_Some.
  destruct (c_FileviewerOnly cfg); [by injection Hbk as <- <-; apply H0|].
  by apply (Hl _ (∅, []) (bk, order) H0 Hbk).
Qed.
End availability.

(** C23: in a running server each backend, and each backup, is up after a turn
    of its own that reached it; otherwise it is down since the first of the
    failed turns since it was last reached, or since the server started, with
    the code of that failure; the turns of the others make no difference. *)
Theorem running_availability `{!GoSort} (Dial : str -> Z -> option str) (d : docroot)
    (statsd_ok : list statsd_option -> bool) (cfg : Config) (s : server) (events : list turn_of) (bk : gmap str live)
    (id : str) (b : live) (n : nat) (bn : live) (pre fails : list turn) :
  (New Dial d statsd_ok cfg).2 = Ok s -> run_turns events (sv_bk s) = Ok bk ->
  sv_bk s !! id = Some b -> backup_at n b = Some bn -> turns_of id n events = pre ++ fails ->
  (forall t, last pre = Some t -> ~ failed t) -> Forall failed fails -> Forall (fun t => now t <> zero_time) fails ->
  exists b' bn', bk !! id = Some b' /\ backup_at n b' = Some bn' /\ lv_Id bn' = lv_Id bn /\
    bs_Up (lv_State bn') = match fails, pre with
                           | t :: _, _ => mkAvail false (now t) (down_code t)
                           | [], [] => mkAvail false zero_time 0
                           | [], _ => mkAvail true zero_time 0
                           end.
Proof.
  intros Hn Hr Hb Hbn Ht Hpre Hf Hnow. destruct (run_turns_states _ _ _ Hr) as [_ Hs].
  destruct (Hs _ _ Hb) as (b' & Hb' & _ & Hst). destruct (Hst _ _ Hbn) as (bn' & Hbn' & Hid & Hp).
  exists b', bn'. split_and!; [done..|]. rewrite (fresh_at _ _ _ (New_fresh _ _ _ _ _ _ _ Hn Hb) Hbn), Ht in Hp.
  by apply (poll_availability (lv_Id bn)).
Qed.

(** ** Witnesses *)
Definition sample_cfg : Config :=
  mkConfig [] [] [] (mkIAP [] [] []) false
    [mkBackendConfig "main"%str "localhost:9999"%str 0 (Some (mkBackendConfig "backup-idx"%str "standby:9999"%str 0 None))]
    [] [] [] [] false (mkStatsD [] [] [[]] []) 50 zero_IndexConfig [] [] [] false.
Definition sample_events : list turn_of :=
  [mkTurnOf "main"%str 0 sample_up; mkTurnOf "main"%str 1 (sample_down 14 1700000200);
   mkTurnOf "main"%str 0 (sample_down 4 1700000300); mkTurnOf "main"%str 1 sample_up].
Definition sample_New : L server := New (fun _ _ => None) sample_docroot (fun _ => true) sample_cfg.

(** It starts, runs these turns, and has a backend of that name. *)
Definition sample_runs : bool :=
  match sample_New.2 with
  | Ok s => match run_turns sample_events (sv_bk s), sv_bk s !! "main"%str with Ok _, Some _ => true | _, _ => false end
  | _ => false
  end.
Lemma sample_run : exists s bk b,
  sample_New.2 = Ok s /\ run_turns sample_events (sv_bk s) = Ok bk /\ sv_bk s !! "main"%str = Some b.
Proof.
  assert (sample_runs = true) as H by (vm_compute; reflexivity). unfold sample_runs in H.
  destruct sample_New.2 as [s| |] eqn:Es; [|discriminate H..].
  destruct (run_turns sample_events (sv_bk s)) as [bk| |] eqn:Er; [|discriminate H..].
  destruct (sv_bk s !! "main"%str) as [b|] eqn:Eb; [|discriminate H]. by exists s, bk, b.
Qed.
Lemma running_well_formed_witness :
  exists s bk page, sample_New.2 = Ok s /\ run_turns sample_events (sv_bk s) = Ok bk /\
    ServeSearch bk (sv_bkOrder s) = Ok page /\ lv_Id <$> sp_Backends page = sv_bkOrder s.
Proof.
  destruct sample_run as (s & bk & b & Es & Er & _).
  destruct (running_well_formed (fun _ _ => None) sample_docroot (fun _ => true) sample_cfg s sample_events bk Es Er)
    as (_ & (page & Hp & Hids) & _).
  by exists s, bk, page.
Defined.
Lemma running_availability_witness :
  exists s bk b', sample_New.2 = Ok s /\ run_turns sample_events (sv_bk s) = Ok bk /\ bk !! "main"%str = Some b' /\
    bs_Up (lv_State b') = mkAvail false 1700000300 4.
Proof.
  destruct sample_run as (s & bk & b & Es & Er & Eb).
  destruct (running_availability (fun _ _ => None) sample_docroot (fun _ => true) sample_cfg s sample_events bk
    "main"%str b 0%nat b [sample_up] [sample_down 4 1700000300] Es Er Eb) as (b' & bn' & Hb' & Hbn & _ & Hup).
  - reflexivity.
  - reflexivity.
  - intros t [= <-]. by_decide.
  - by_decide.
  - by_decide.
  - exists s, bk, b'. injection Hbn as <-. by split_and!.
Defined.
