(* ===== verification/Routes.v ===== *)
(** * From a URL to its handler: the routes of [New] in [server/server.go]

    The package that matches the patterns, [bmizerany/pat], is not part of the
    repository: a class states what its documentation says.  A pattern is made
    of segments, literal or captured under a name, and may end in a slash; what
    it matches after that slash is its tail.  Patterns are tried in the order
    in which they are added, and one that ends in a slash adds a redirect for
    the path without it.  The links that the handlers put on their pages are
    followed through the routes. *)
From S2P Require Import Prelude GoStrings GoMap GoUrl GoJson Config GoRegexp GoPath Scanner GoSort Query Search Backend.
From S2P Require Import GoHttp Diff GitLog Blame GitShow DirTree Listing Templates Pages Server Start.

(** ** Patterns *)
Inductive seg := Lit (s : str) | Cap (name : str).
#[export] Instance seg_eq_dec : EqDecision seg.
Proof. solve_decision. Defined.
Record pattern := mkPattern { pt_segs : list seg; pt_slash : bool }.
#[export] Instance pattern_eq_dec : EqDecision pattern.
Proof. solve_decision. Defined.

Definition seg_text (s : seg) : str := match s with Lit s => s | Cap name => ":"%char :: name end.
Definition pattern_text (p : pattern) : str :=
  (pt_segs p ≫= fun s => "/"%char :: seg_text s) ++ (if pt_slash p then "/"%str else []).

(** A literal is not empty and has no colon; a name consists of letters and
    digits. *)
Definition seg_ok (s : seg) : bool :=
  match s with
  | Lit s => bool_decide (s <> [] /\ ":"%char ∉ s /\ "/"%char ∉ s)
  | Cap name => bool_decide (name <> []) && forallb (fun c => is_letter c || is_digit c) name
  end.
Definition pattern_ok (p : pattern) : bool := forallb seg_ok (pt_segs p).

Definition seg_of (s : str) : seg := match s with ":"%char :: name => Cap name | _ => Lit s end.
(** The pattern of a text that begins with a slash. *)
Definition parse_pattern (text : str) : pattern :=
  let segs := tail (split "/" text) in
  if decide (last segs = Some []) then mkPattern (seg_of <$> removelast segs) true
  else mkPattern (seg_of <$> segs) false.

(** The captures, and the segments after the final slash. *)
Fixpoint seg_match (ps : list seg) (slash : bool) (segs : list str) : option (list (str * str) * list str) :=
  match ps, segs with
  | [], [] => if slash then None else Some ([], [])
  | [], _ => if slash then Some ([], segs) else None
  | Lit s :: ps, x :: segs => if decide (x = s) then seg_match ps slash segs else None
  | Cap name :: ps, x :: segs => '(caps, rest) ← seg_match ps slash segs; Some ((name, x) :: caps, rest)
  | _ :: _, [] => None
  end.
(** The pattern of the root matches the root alone. *)
Definition match_segs (p : pattern) (segs : list str) : option (list (str * str) * list str) :=
  if decide (pt_segs p = [] /\ segs <> [[]]) then None else seg_match (pt_segs p) (pt_slash p) segs.

(** Bytes that a path has as they are, without an escape. *)
Definition plain_path (path : str) : bool :=
  forallb (fun c => unreserved c || bool_decide (c ∈ ("/:@"%str : str))) path.

(** What the documentation of the package promises: [pat_match] is the captures
    of a pattern in a path, [pat_Tail] the function [Tail].  A capture at the end
    of a pattern may match an empty segment, or not. *)
Class Pat := {
  pat_match : str -> str -> option (list (str * str));
  pat_Tail : str -> str -> str;
  pat_match_some p path segs caps rest :
    pattern_ok p = true -> plain_path path = true -> split "/" path = [] :: segs ->
    (pt_slash p = true \/ last segs <> Some []) ->
    match_segs p segs = Some (caps, rest) -> pat_match (pattern_text p) path = Some caps;
  pat_match_maybe p path segs caps rest :
    pattern_ok p = true -> plain_path path = true -> split "/" path = [] :: segs ->
    match_segs p segs = Some (caps, rest) -> pat_match (pattern_text p) path ∈ [Some caps; None];
  pat_match_none p path segs :
    pattern_ok p = true -> plain_path path = true -> split "/" path = [] :: segs ->
    match_segs p segs = None -> pat_match (pattern_text p) path = None;
  pat_Tail_doc p path segs caps rest :
    pattern_ok p = true -> plain_path path = true -> split "/" path = [] :: segs -> pt_slash p = true ->
    match_segs p segs = Some (caps, rest) -> pat_Tail (pattern_text p) path = join "/"%str rest;
}.

(** ** Dispatch *)
Inductive target := To (e : endpoint) | AddSlash.
#[export] Instance target_eq_dec : EqDecision target.
Proof. solve_decision. Defined.

(** A pattern that is there already is not added again. *)
Definition add_route (l : list (str * target)) (text : str) (t : target) : list (str * target) :=
  if decide (text ∈ l.*1) then l else l ++ [(text, t)].
Definition without_slash (text : str) : option str :=
  if has_suffix "/"%str text then Some (removelast text) else None.
Definition m_Add (l : list (str * target)) (r : str * endpoint) : list (str * target) :=
  let l := add_route l r.1 (To r.2) in
  match without_slash r.1 with Some text => add_route l text AddSlash | None => l end.
Definition registered : list (str * target) := foldl m_Add [] routes.

Section dispatch.
Context `{!Pat}.
(** A GET request: the first pattern that matches. *)
Fixpoint dispatch_in (l : list (str * target)) (path : str) : option (target * list (str * str)) :=
  match l with
  | [] => None
  | (text, t) :: l => match pat_match text path with Some caps => Some (t, caps) | None => dispatch_in l path end
  end.
Definition dispatch (path : str) : option (target * list (str * str)) := dispatch_in registered path.

(** The parameters a handler reads: the captures come before those of the
    query. *)
Definition route_params (caps : list (str * str)) (query : values) : values :=
  union_with (fun a b => Some (a ++ b)) (list_to_map ((fun p => (":"%char :: p.1, [p.2])) <$> caps)) query.
End dispatch.

(** ** The patterns of the program *)
Definition registered_patterns : list (pattern * target) := (fun r => (parse_pattern r.1, r.2)) <$> registered.
Lemma registered_texts : registered = (fun r => (pattern_text r.1, r.2)) <$> registered_patterns.
Proof. vm_compute. reflexivity. Qed.
Lemma registered_ok : Forall (fun r => pattern_ok r.1 = true) registered_patterns.
Proof. apply Forall_forall. intros r Hr. pose proof (bool_decide_unpack (Forall (fun r => pattern_ok r.1 = true) registered_patterns) ltac:(vm_compute; exact I)) as H. by eapply Forall_forall in H. Qed.
Example registered_count : length routes = 37%nat /\ length registered = 63%nat.
Proof. vm_compute. done. Qed.


(** What the first pattern that matches the segments of a path can be: one,
    where the documentation decides it. *)
Fixpoint candidates (l : list (pattern * target)) (segs : list str) : list (option (target * list (str * str))) :=
  match l with
  | [] => [None]
  | (p, t) :: l =>
      match match_segs p segs with
      | Some (caps, _) =>
          Some (t, caps) :: (if pt_slash p || negb (bool_decide (last segs = Some [])) then [] else candidates l segs)
      | None => candidates l segs
      end
  end.

Section links.
Context `{PAT : !Pat, GS : !GoSort, GR : !GoRange}.

Lemma dispatch_segs path segs : plain_path path = true -> split "/" path = [] :: segs ->
  dispatch path ∈ candidates registered_patterns segs.
Proof using.
  intros Hp Hs. unfold dispatch. rewrite registered_texts. pose proof registered_ok as Hok. revert Hok.
  generalize registered_patterns. induction 1 as [|[p t] l Hr _ IH]; [by left|].
  cbn [fmap list_fmap dispatch_in candidates fst snd]. cbn [fst] in Hr. destruct (match_segs p segs) as [[caps rest]|] eqn:Em.
  - destruct (pt_slash p || _) eqn:El.
    + rewrite (pat_match_some p path segs caps rest); [by left|done..| |done]. apply orb_true_iff in El as [El|El]; [by left|right].
      by apply negb_true_iff, bool_decide_eq_false in El.
    + pose proof (pat_match_maybe p path segs caps rest Hr Hp Hs Em) as Hm. rewrite !elem_of_cons, elem_of_nil in Hm.
      destruct Hm as [->|[->|[]]]; [by left|right; exact IH].
  - rewrite (pat_match_none p path segs) by done. exact IH.
Qed.
Lemma dispatch_only path segs r : plain_path path = true -> split "/" path = [] :: segs ->
  candidates registered_patterns segs = [r] -> dispatch path = r.
Proof using. intros Hp Hs Hc. pose proof (dispatch_segs path segs Hp Hs) as H. rewrite Hc in H. by apply list_elem_of_singleton. Qed.

Lemma values_param caps query key x :
  (list_to_map ((fun p => (":"%char :: p.1, [p.2])) <$> caps) : values) !! key = Some [x] ->
  values_get (route_params caps query) key = x.
Proof using.
  intros H. unfold values_get, route_params. rewrite lookup_union_with, H. by destruct (query !! key).
Qed.
Lemma values_query caps query key :
  (list_to_map ((fun p => (":"%char :: p.1, [p.2])) <$> caps) : values) !! key = None ->
  values_get (route_params caps query) key = values_get query key.
Proof using.
  intros H. unfold values_get, route_params. rewrite lookup_union_with, H. by destruct (query !! key).
Qed.

Context (parent repo rev path : str).
Context (Hparent : "/"%char ∉ parent) (Hrepo : "/"%char ∉ repo) (Hrev : "/"%char ∉ rev).
Context (Hplain : plain_path (parent ++ repo ++ rev ++ path) = true).

Definition delve_url (kind : str) : str :=
  "/delve/"%str ++ parent ++ "/"%str ++ repo ++ "/"%str ++ kind ++ "/"%str ++ rev ++ "/"%str ++ path.
Definition delve_caps : list (str * str) := [("parent"%str, parent); ("repo"%str, repo); ("rev"%str, rev)].

Lemma delve_split kind : "/"%char ∉ kind ->
  split "/" (delve_url kind) = [] :: "delve"%str :: parent :: repo :: kind :: rev :: split "/" path.
Proof using Hparent Hrepo Hrev.
  intros Hk. change (delve_url kind) with ([] ++ "/"%char :: "delve"%str ++ "/"%char :: parent ++ "/"%char :: repo
    ++ "/"%char :: kind ++ "/"%char :: rev ++ "/"%char :: path).
  by rewrite !split_app_sep by (done || by_decide).
Qed.
Lemma delve_plain kind : plain_path kind = true -> plain_path (delve_url kind) = true.
Proof using Hplain.
  unfold delve_url, plain_path in *. rewrite !forallb_app in *. intros Hk.
  apply andb_true_iff in Hplain as [-> H]. apply andb_true_iff in H as [-> H]. apply andb_true_iff in H as [-> ->].
  by rewrite Hk.
Qed.

(** What the routes make of these URLs; [x :: rest] are the segments of the
    path of the file. *)
Lemma delve_routes x rest :
  let route kind := candidates registered_patterns ("delve"%str :: parent :: repo :: kind :: rev :: x :: rest) in
  route "blob"%str = [Some (To EGitBlob, delve_caps)] /\ route "tree"%str = [Some (To EGitBlob, delve_caps)] /\
  route "commits"%str = [Some (To ESimpleGitLog, delve_caps)].
Proof using. vm_compute. split_and!; reflexivity. Qed.

Lemma delve_dispatch kind e : kind ∈ ["blob"; "tree"; "commits"]%str ->
  (forall x rest, candidates registered_patterns ("delve"%str :: parent :: repo :: kind :: rev :: x :: rest)
    = [Some (To e, delve_caps)]) -> dispatch (delve_url kind) = Some (To e, delve_caps).
Proof using Hparent Hrepo Hrev Hplain.
  intros Hk He. assert ("/"%char ∉ kind /\ plain_path kind = true) as [Hk1 Hk2].
  { repeat (apply elem_of_cons in Hk as [->|Hk]; [by split; [by_decide|vm_compute]|]). by apply elem_of_nil in Hk. }
  apply (dispatch_only _ _ _ (delve_plain kind Hk2) (delve_split kind Hk1)).
  destruct (split "/" path) as [|x rest] eqn:E; [by apply split_not_nil in E|apply He].
Qed.

Definition delve_pattern (kind : str) : pattern :=
  mkPattern [Lit "delve"%str; Cap "parent"%str; Cap "repo"%str; Lit kind; Cap "rev"%str] true.
Lemma delve_tail kind text : text = pattern_text (delve_pattern kind) -> pattern_ok (delve_pattern kind) = true ->
  plain_path kind = true -> "/"%char ∉ kind ->
  pat_Tail text (delve_url kind) = path.
Proof using Hparent Hrepo Hrev Hplain.
  intros -> Hok Hk Hk'. rewrite (pat_Tail_doc (delve_pattern kind) (delve_url kind) _ delve_caps (split "/" path) Hok (delve_plain kind Hk) (delve_split kind Hk') eq_refl).
  - apply join_split.
  - unfold match_segs. rewrite decide_False by (intros [? _]; done). cbn [delve_pattern pt_segs pt_slash seg_match].
    rewrite !decide_True by done. destruct (split "/" path) eqn:E; [by apply split_not_nil in E|]. done.
Qed.

Lemma delve_param query :
  values_get (route_params delve_caps query) ":parent"%str = parent /\
  values_get (route_params delve_caps query) ":repo"%str = repo /\
  values_get (route_params delve_caps query) ":rev"%str = rev /\
  values_get (route_params delve_caps query) "firstParent"%str = values_get query "firstParent"%str.
Proof using.
  split_and!; [apply values_param|apply values_param|apply values_param|apply values_query]; reflexivity.
Qed.

(** What the handler answers for a file or a directory, and for a log. *)
Definition file_answer (git : list str -> option str) (exts : list str) (newRepos : parent_map)
    (params : values) : res unit (http file_page) :=
  match p ← newRepos !! parent; p !! repo with
  | None => Ok (HttpError 500)
  | Some r => or_page 500 (BuildFileData git exts path r rev) (file_links params rev path)
  end.

Lemma delve_file kind : kind = "blob"%str \/ kind = "tree"%str ->
  dispatch (delve_url kind) = Some (To EGitBlob, delve_caps) /\
  forall git exts newRepos query,
    let params := route_params delve_caps query in
    ServeGitBlob git exts pat_Tail newRepos params (delve_url kind) = file_answer git exts newRepos params.
Proof using Hparent Hrepo Hrev Hplain.
  intros Hkind. split.
  - destruct Hkind as [->| ->]; (apply delve_dispatch; [by_decide|]); intros x rest.
    + exact (proj1 (delve_routes x rest)).
    + exact (proj1 (proj2 (delve_routes x rest))).
  - intros git exts newRepos query params.
    destruct (delve_param query) as (Ep & Er & Erev & _). fold params in Ep, Er, Erev.
    unfold ServeGitBlob. assert (blob_path pat_Tail params (delve_url kind) = path) as ->.
    { assert (delve params "/tree/"%str = "/delve/"%str ++ parent ++ "/"%str ++ repo ++ "/tree/"%str) as E.
      { unfold delve, repo_name. rewrite Ep, Er. by rewrite <- !app_assoc. }
      unfold blob_path. rewrite E. destruct Hkind as [->| ->].
      - destruct (has_prefix _ _) eqn:Hp; [exfalso|apply (delve_tail "blob"%str); (done || by_decide)].
        apply has_prefix_spec in Hp as [rest Hp]. unfold delve_url in Hp. rewrite <- !app_assoc in Hp.
        by do 4 apply app_inv_head in Hp.
      - destruct (has_prefix _ _) eqn:Hp; [apply (delve_tail "tree"%str); (done || by_decide)|exfalso].
        assert (has_prefix ("/delve/"%str ++ parent ++ "/"%str ++ repo ++ "/tree/"%str) (delve_url "tree"%str) = true) as Hp'.
        { apply has_prefix_spec. exists (rev ++ "/"%str ++ path). unfold delve_url. by rewrite <- !app_assoc. }
        congruence. }
    unfold find_repo. rewrite Ep, Er, Erev. done.
Qed.

Definition log_answer (git : list str -> option str) (repos : gmap str RepoConfig) : res unit (http log_page) :=
  let name := parent ++ "/"%str ++ repo in
  if decide (repos = ∅) then Ok (HttpError 404)
  else match repos !! name with
       | None => Ok (HttpError 404)
       | Some r => or_page 500 (BuildSimpleGitLogData git path rev r)
                     (fun data => Ok (HttpOk (mkLogPage data ("/delve/"%str ++ name))))
       end.

Lemma delve_log :
  dispatch (delve_url "commits"%str) = Some (To ESimpleGitLog, delve_caps) /\
  forall git repos query, values_get query "firstParent"%str = [] ->
    ServeSimpleGitLog git pat_Tail repos (route_params delve_caps query) (delve_url "commits"%str) = log_answer git repos.
Proof using Hparent Hrepo Hrev Hplain.
  split.
  - apply delve_dispatch; [by_decide|]. intros x rest. exact (proj2 (proj2 (delve_routes x rest))).
  - intros git repos query Hf. destruct (delve_param query) as (Ep & Er & Erev & Efirst).
    unfold ServeSimpleGitLog. rewrite (delve_tail "commits"%str) by (reflexivity || by_decide).
    rewrite Efirst, Hf, decide_True by done. unfold with_repo, repo_name, log_answer. by rewrite Ep, Er, Erev.
Qed.
End links.

(** ** The links of a page *)
Section pages.
Context `{PAT : !Pat, GS : !GoSort, GR : !GoRange}.
Context (parent repo : str).

(** A link that leads to a file or directory: whatever the query behind it, its
    handler reads the repository, the revision and the path out of it. *)
Definition leads_file (link rev path : str) : Prop :=
  exists caps, dispatch link = Some (To EGitBlob, caps) /\
    forall git exts newRepos query,
      let params := route_params caps query in
      repo_name params = parent ++ "/"%str ++ repo /\
      ServeGitBlob git exts pat_Tail newRepos params link = file_answer parent repo rev path git exts newRepos params.
(** A link that leads to the log of a file or directory. *)
Definition leads_log (link rev path : str) : Prop :=
  exists caps, dispatch link = Some (To ESimpleGitLog, caps) /\
    forall git repos query, values_get query "firstParent"%str = [] ->
      ServeSimpleGitLog git pat_Tail repos (route_params caps query) link = log_answer parent repo rev path git repos.

(** A piece of a URL that needs no escape and has no slash. *)
Definition plain_seg (x : str) : Prop := "/"%char ∉ x /\ plain_path x = true.

Lemma plain_path_app a b : plain_path (a ++ b) = plain_path a && plain_path b.
Proof. apply forallb_app. Qed.

Section made.
Context (Hparent : plain_seg parent) (Hrepo : plain_seg repo).

Lemma leads_file_url rev path kind : kind = "blob"%str \/ kind = "tree"%str ->
  plain_seg rev -> plain_path path = true -> leads_file (delve_url parent repo rev path kind) rev path.
Proof using Hparent Hrepo.
  destruct Hparent as [Hp1 Hp2], Hrepo as [Hr1 Hr2]. intros Hk [Hv1 Hv2] Hpath.
  destruct (delve_file parent repo rev path Hp1 Hr1 Hv1) with (kind := kind) as [Hd Hs]; [|done|].
  { by rewrite !plain_path_app, Hp2, Hr2, Hv2, Hpath. }
  exists (delve_caps parent repo rev). split; [done|]. intros git exts newRepos query params.
  destruct (delve_param parent repo rev query) as (Ep & Er & _). fold params in Ep, Er.
  split; [unfold repo_name; by rewrite Ep, Er|]. apply Hs.
Qed.
Lemma leads_log_url rev path :
  plain_seg rev -> plain_path path = true -> leads_log (delve_url parent repo rev path "commits"%str) rev path.
Proof using Hparent Hrepo.
  destruct Hparent as [Hp1 Hp2], Hrepo as [Hr1 Hr2]. intros [Hv1 Hv2] Hpath.
  destruct (delve_log parent repo rev path Hp1 Hr1 Hv1) as [Hd Hs].
  { by rewrite !plain_path_app, Hp2, Hr2, Hv2, Hpath. }
  exists (delve_caps parent repo rev). by split.
Qed.

(** The links that [file_links] makes. *)
Lemma file_links_lead params rev path data page :
  repo_name params = parent ++ "/"%str ++ repo -> plain_seg rev -> plain_seg (CommitHash data) ->
  plain_path path = true -> file_links params rev path data = Ok (HttpOk page) ->
  fp_Data page = data /\ leads_log (fp_LogLink page) rev path /\
  (Permalink data <> [] -> leads_file (fp_Permalink page) (CommitHash data) path) /\
  (Permalink data = [] -> Headlink data <> [] -> leads_file (fp_Headlink page) "HEAD"%str path).
Proof using Hparent Hrepo.
  intros Hn Hrev Hh Hp H. unfold file_links in H.
  destruct (deref (last (fv_PathSegments data))) as [seg| |]; cbn [mbind res_bind] in H; [|done..].
  assert (forall rev kind, delve params ("/"%str ++ kind ++ "/"%str ++ rev ++ "/"%str ++ path) =
    delve_url parent repo rev path kind) as Hd.
  { intros v k. unfold delve, delve_url. rewrite Hn. by rewrite <- !app_assoc. }
  injection H as <-. cbn [fp_Data fp_LogLink fp_Permalink fp_Headlink]. split; [done|]. split_and!.
  - pose proof (leads_log_url rev path Hrev Hp) as L. rewrite <- Hd in L. exact L.
  - intros Hne. rewrite decide_False by done.
    pose proof (leads_file_url (CommitHash data) path "blob"%str (or_introl eq_refl) Hh Hp) as L.
    rewrite <- Hd in L. exact L.
  - intros Hpe Hne. rewrite decide_True by done.
    assert (plain_seg "HEAD"%str) as Hhead by (split; [by_decide|by vm_compute]).
    pose proof (leads_file_url "HEAD"%str path "blob"%str (or_introl eq_refl) Hhead Hp) as L.
    rewrite <- Hd in L. exact L.
Qed.

(** The link of an entry of a directory. *)
Definition entry_path (dir : str) (e : directoryListEntry) : str :=
  Join [clean_path dir; Clean (de_Name e)] ++ (if IsDir e then "/"%str else []).

Lemma viewUrl_leads full isDir : plain_path full = true ->
  leads_file (viewUrl (parent ++ "/"%str ++ repo) full isDir) "HEAD"%str full.
Proof using Hparent Hrepo.
  intros Hf. assert (viewUrl (parent ++ "/"%str ++ repo) full isDir =
    delve_url parent repo "HEAD"%str full (if isDir then "tree"%str else "blob"%str)) as ->.
  { unfold viewUrl, delve_url. rewrite <- !app_assoc. by destruct isDir. }
  apply leads_file_url; [by destruct isDir; auto| |done]. split; [by_decide|by vm_compute].
Qed.

Lemma entry_leads git dir te repoPath hash e :
  e = buildDirectoryListEntry git te (clean_path dir) (parent ++ "/"%str ++ repo) repoPath hash true ->
  plain_path (entry_path dir e) = true -> de_Path e = [] \/ leads_file (de_Path e) "HEAD"%str (entry_path dir e).
Proof using Hparent Hrepo.
  intros -> Hp. unfold buildDirectoryListEntry in *. case_decide; [by left|right].
  cbn [de_Path] in *. unfold entry_path in *. cbn [de_Name IsDir] in *. unfold getFileUrl.
  set (full := Join _) in *. set (b := bool_decide _) in *. destruct b.
  - assert (forall r, viewUrl r full true ++ "/"%str = viewUrl r (full ++ "/"%str) true) as ->
      by (intros r; unfold viewUrl; by rewrite <- !app_assoc).
    by apply viewUrl_leads.
  - rewrite !app_nil_r in *. by apply viewUrl_leads.
Qed.

(** The entries of a page are made from those of git. *)
Lemma page_entries git exts path r rev data dc :
  BuildFileData git exts path r rev = Ok data -> DirContent data = Some dc ->
  Forall (fun e => exists te, e = buildDirectoryListEntry git te (clean_path path) (repo_Name r) (repo_Path r)
                                    (CommitHash data) true) (Entries dc).
Proof using.
  intros H Hdc. unfold BuildFileData in H.
  destruct (resolve_commit git rev (repo_Path r)) as [hash| |]; cbn [mbind res_bind] in H; [|done..].
  destruct (object_content git path (repo_Name r) (repo_Path r) hash true (first_readme exts)) as [[fc od]| |] eqn:Eo;
    cbn [mbind res_bind] in H; [|done..].
  match type of H with (mbind _ ?x) = _ => destruct x as [pl| |] end; cbn [mbind res_bind] in H; [|done..].
  destruct (getFileNameAndPathFromContent fc od) as [[nn np]| |]; cbn [mbind res_bind] in H; [|done..].
  destruct (slice hash 0 8) as [short| |]; cbn [mbind res_bind] in H; [|done..].
  injection H as <-. cbn [DirContent CommitHash] in *. subst od.
  unfold object_content in Eo.
  destruct (gitObjectType _ _ _) as [ty|]; cbn [or_err mbind res_bind] in Eo; [|done].
  case_decide; [|case_decide; [|done]].
  - destruct (dir_content _ _ _ _ _ _ _ _ _) as [d| |] eqn:Ed; cbn [mbind res_bind] in Eo; [|done..].
    injection Eo as _ ->. unfold dir_content in Ed.
    destruct (gitListDir _ _ _) as [tes| |]; cbn [mbind res_bind] in Ed; [|done..]. injection Ed as <-.
    cbn [Entries]. apply Forall_forall. intros e He. rewrite go_sort_perm in He.
    apply list_elem_of_fmap in He as (te & -> & _). by exists te.
  - destruct (file_content _ _ _ _ _) as [f| |]; cbn [mbind res_bind] in Eo; done.
Qed.
End made.

(** The page of a file or directory: the handler that made it, and the revision
    and path it was asked for. *)
Definition page_of (git : list str -> option str) (exts : list str) (newRepos : parent_map) (params : values)
    (url rev path : str) (page : file_page) : Prop :=
  ServeGitBlob git exts pat_Tail newRepos params url = Ok (HttpOk page) /\
    rev = values_get params ":rev"%str /\ path = blob_path pat_Tail params url \/
  ServeGitBlobRaw git exts pat_Tail newRepos params url = Ok (HttpOk page) /\
    (rev, path) = parse_rev_path (pat_Tail "/raw-blob/:parent/:repo/+/"%str url).

End pages.

(** ** The documented behaviour can be had *)
Lemma seg_text_no_slash s : seg_ok s = true -> "/"%char ∉ seg_text s.
Proof.
  destruct s as [s|name]; cbn [seg_ok seg_text].
  - intros (_ & _ & ?)%bool_decide_eq_true. done.
  - intros [_ Hn]%andb_true_iff. rewrite forallb_forall in Hn. intros [E|Hin]%elem_of_cons; [done|].
    apply list_elem_of_In, Hn in Hin. discriminate Hin.
Qed.
Lemma split_pattern p : pattern_ok p = true ->
  split "/" (pattern_text p) = [] :: (seg_text <$> pt_segs p) ++ (if pt_slash p then [[]] else []).
Proof.
  destruct p as [segs slash]. unfold pattern_ok, pattern_text. cbn [pt_segs pt_slash]. intros Hok%forallb_Forall.
  assert (Forall (fun s => "/"%char ∉ seg_text s) segs) as Hs.
  { eapply Forall_impl; [exact Hok|]. intros s. apply seg_text_no_slash. }
  clear Hok. enough (forall w, "/"%char ∉ w ->
    split "/" (w ++ (segs ≫= (fun s => "/"%char :: seg_text s)) ++ (if slash then "/"%str else [])) =
    w :: (seg_text <$> segs) ++ (if slash then [[]] else [])) as H.
  { exact (H [] ltac:(by_decide)). }
  induction Hs as [|s segs Hs _ IH]; intros w Hw.
  - destruct slash; [|by rewrite app_nil_r, split_nosep]. exact (split_app_sep "/" w [] Hw).
  - rewrite list_bind_cons. cbn [app fmap list_fmap]. rewrite split_app_sep by done. rewrite <- app_assoc. by rewrite IH.
Qed.
Lemma seg_of_text s : seg_ok s = true -> seg_of (seg_text s) = s.
Proof.
  destruct s as [[|c s]|name]; [done| |done]. cbn [seg_ok seg_text].
  intros (_ & [Hc _]%not_elem_of_cons & _)%bool_decide_eq_true.
  unfold seg_of. by repeat (destruct c as [[] [] [] [] [] [] [] []]; try done).
Qed.
Lemma parse_text p : pattern_ok p = true -> parse_pattern (pattern_text p) = p.
Proof.
  intros Hok. unfold parse_pattern. rewrite split_pattern by done. cbn [tail]. destruct p as [segs slash]. cbn [pt_segs pt_slash].
  unfold pattern_ok in Hok. cbn [pt_segs] in Hok. apply forallb_Forall in Hok.
  assert (seg_of <$> (seg_text <$> segs) = segs) as Hsegs.
  { rewrite <- list_fmap_compose. rewrite <- (list_fmap_id segs) at 2. apply list_fmap_ext. intros i s Hi.
    apply seg_of_text. by eapply Forall_lookup_1 in Hok. }
  destruct slash.
  - rewrite last_snoc, decide_True by done. rewrite removelast_last. by rewrite Hsegs.
  - rewrite app_nil_r, decide_False, Hsegs; [done|]. rewrite fmap_last. destruct (last segs) as [s|] eqn:E; [|done].
    apply last_Some_elem_of in E. eapply Forall_forall in Hok; [|exact E]. cbn. intros [= Es]. by destruct s as [[]|].
Qed.

Section documented.
Definition doc_match (text path : str) : option (list (str * str) * list str) :=
  match split "/" path with
  | [] :: segs => match_segs (parse_pattern text) segs
  | _ => None
  end.
#[local] Instance documented : Pat.
Proof.
  refine {| pat_match text path := fst <$> doc_match text path;
            pat_Tail text path := from_option (fun r => join "/"%str r.2) [] (doc_match text path) |}.
  - intros p path segs caps rest Hok _ Hs _ Hm. unfold doc_match. by rewrite Hs, parse_text, Hm.
  - intros p path segs caps rest Hok _ Hs Hm. unfold doc_match. rewrite Hs, parse_text, Hm by done. by left.
  - intros p path segs Hok _ Hs Hm. unfold doc_match. by rewrite Hs, parse_text, Hm.
  - intros p path segs caps rest Hok _ Hs _ Hm. unfold doc_match. by rewrite Hs, parse_text, Hm.
Defined.

Definition sample_repo : RepoConfig := plain_repo "org/tool"%str "/repos/org/tool"%str.
Definition sample_newRepos : parent_map := {[ "org"%str := {[ "tool"%str := sample_repo ]} ]}.
(** No git command works. *)
Definition no_git (args : list str) : option str := None.
(** A directory with one file. *)
Definition sample_git (args : list str) : option str :=
  if decide (args !! 2%nat = Some "rev-parse"%str) then Some (replicate 40 "a"%char ++ [LF])
  else if decide (args !! 3%nat = Some "-t"%str) then Some ("tree"%str ++ [LF])
  else if decide (args !! 3%nat = Some "-p"%str) then Some ("100644 blob 1f"%str ++ [TAB] ++ "main.go"%str ++ [LF])
  else None.
Definition sample_delve : values := route_params (delve_caps "org"%str "tool"%str "HEAD"%str) ∅.
Definition sample_url : str := "/delve/org/tool/tree/HEAD/src"%str.

(** The links of the segments of a path, on every page of a file, go nowhere:
    they are built without a commit for a route that does not exist. *)
Example dead_crumbs :
  crumb_Path <$> getPathSegments ["src"; "main.go"]%str sample_repo =
    ["/org/tool/+/:src"; "/org/tool/+/:src/main.go"]%str /\
  dispatch "/org/tool/+/:src"%str = None.
Proof. vm_compute. done. Qed.

(** Three routes that the handlers cannot serve: [/delve/] goes to a handler
    that reads the path after [/view/], and the handlers of [/simple-git-log/]
    and [/git-show/] look for captures that their patterns do not have. *)
Example dead_routes :
  dispatch "/delve/org/tool/src/main.go"%str = Some (To EFile, []) /\
  ServeFile no_git [] pat_Tail {[ "org/tool"%str := sample_repo ]} (buildRepoRegex ["org/tool"%str]) ∅
    "/delve/org/tool/src/main.go"%str = Ok (HttpError 400) /\
  dispatch "/git-show/org/tool"%str = Some (To EGitShow, []) /\
  ServeGitShow (fun _ => None) {[ "org/tool"%str := sample_repo ]} ∅ = Ok (HttpError 404) /\
  dispatch "/simple-git-log/org/tool"%str = Some (To ESimpleGitLog, []) /\
  ServeSimpleGitLog no_git pat_Tail {[ "org/tool"%str := sample_repo ]} ∅ "/simple-git-log/org/tool"%str = Ok (HttpError 404).
Proof. vm_compute. done. Qed.
(** A path without its slash is redirected, and the root is itself only. *)
Example redirects :
  dispatch <$> ["/search"; "/search/livegrep"; "/"; "/nothing/here"; "/about"]%str =
  [Some (AddSlash, []); Some (To ESearch, [("backend"%str, "livegrep"%str)]); Some (To ERoot, []); None;
   Some (To EAbout, [])].
Proof. vm_compute. reflexivity. Qed.
End documented.
