(* ===== verification/Site.v ===== *)
(** * A request to the server, from the process to its answer

    The handlers of [server/server.go] and [server/api.go] behind the routes of
    [New] and the wrappers of [cmd/livegrep/livegrep.go]: what a GET request is
    answered by a server that was started, with the state its goroutines have
    left.  Where the configuration asks for it, every request loads the templates
    and the hashes of assets again before it goes on. *)
From S2P Require Import Prelude GoStrings GoMap GoUrl GoJson Config GoRegexp GoPath Scanner GoSort Query Search Api Backend.
From S2P Require Import GoHttp Diff GitLog Blame GitShow DirTree Listing Templates Pages Server PagesSpec Start.
From S2P Require Import Running Routes.

(** ** Pages *)
(** The data a page is made from, and the template that makes it. *)
Inductive page_data :=
  | IndexPage (d : search_page) | GitShowPage (d : GitShow) | LogPage (d : log_page)
  | PreviewPage (d : option SourceFileContent * option directoryContent) | RawPage (d : file_page)
  | BlobPage (d : file_page) | ViewPage (title : str) (d : FileViewerContext) | AboutPage | AboutFileviewerPage
  | DiffPage (d : diff_page) | ExperimentalPage (d : experimental_page) | ResultsPage (d : option ReplySearchV2).
Definition template_of (d : page_data) : str :=
  match d with
  | IndexPage _ => "index.html" | GitShowPage _ => "gitshowcommit.html" | LogPage _ => "simplegitlog.html"
  | PreviewPage _ | RawPage _ => "raw_blob_or_tree.html" | BlobPage _ | ViewPage _ _ => "fileview.html"
  | AboutPage => "about.html" | AboutFileviewerPage => "fileviewer_about.html" | DiffPage _ => "splitdiff.html"
  | ExperimentalPage _ => "experimental.html" | ResultsPage _ => "searchresults_partial.html"
  end%str.

(** What is written: [RNothing] is a page whose template is not there. *)
Inductive reply :=
  | RPage (d : page_data) (hashes : gmap str str) | RPart (d : log_page) | RNothing
  | RError (code : Z) | RText | RRedirect (code : Z) (path : str) | RAddSlash | RNotFound
  | ROk | RHello | RHealth (unhealthy : option str) | RStats (age : Z) | RStatus (d : BackendStatus)
  | ROpensearch (BackendName BaseURL : str) | RSearch (d : response ReplySearch)
  | RGitLog (d : GitLog) | RBlame (d : BlameResult) | RTree (d : store) | RTreeHtml (s : str) | RLsTree (s : str)
  | RRefs (l : list GitRef).

(** ** The outside of a server *)
Record world := mkWorld {
  w_docroot : docroot;      (** the files of the document root at the time of the request *)
  w_git : list str -> option str; w_git_pieces : list str -> option (list str); w_fuel : nat;
  w_exts : list str;
  w_conn : live -> connectivity; w_rpc : live -> Query -> rpc CodeSearchResult;
  w_elapsed : Z; w_now : Z; w_show_age : Z -> str; w_show_date : Z -> str; w_rpc_error : Z -> str -> str;
}.

Section site.
Context `{GS : !GoSort, GR : !GoRange, PAT : !Pat}.
Context (w : world) (cfg : Config) (s : server).

Fixpoint caller (b : live) : Search.Backend :=
  match b with
  | mkLive id addr st bu is_backup => mkBackend id (w_rpc w b) (match bu with Some bu => Some (caller bu) | None => None end)
  end.
Definition searcher : Search.server := Search.mkServer (caller <$> sv_bk s) (c_DefaultMaxMatches cfg).

Definition show (d : page_data) : reply :=
  match renderPage (sv_pages s) (template_of d) with Some hashes => RPage d hashes | None => RNothing end.
(** The log without the page around it. *)
Definition show_log (params : values) (d : log_page) : reply :=
  if decide (values_get params "partial"%str = "true"%str) then
    match renderPage (sv_pages s) "simplegitlogpaginated.html"%str with Some _ => RPart d | None => RNothing end
  else show (LogPage d).
Definition of_http {A} (k : A -> reply) (r : res unit (http A)) : res unit reply :=
  h ← r; Ok (match h with HttpError c => RError c | HttpText => RText | HttpOk a => k a end).
Abbreviation reply_of k r := (Some (of_http k r)).
Abbreviation reply_of' k r := (of_http k <$> r).

(** The handler of a route. *)
Definition handle (e : endpoint) (r : request) (tls : bool) (params : values) : option (res unit reply) :=
  let url := rq_Path r in let git := w_git w in let exts := w_exts w in let range := go_range in
  let repos := sv_repos s in let newRepos := sv_newRepos s in let cache := c_ZoektRepoCache cfg in
  match e with
  | EHealthZ => Some (Ok ROk)
  | EHealthcheck => Some (Ok (RHealth (ServeHealthcheck (lv_State <$> sv_bk s))))
  | EStats => Some (Ok (RStats (ServeStats (lv_State <$> sv_bk s) (w_now w))))
  | ESearch => Some (d ← ServeSearch (sv_bk s) (sv_bkOrder s); Ok (show (IndexPage d)))
  | EFile => reply_of (fun d => show (ViewPage d.1 d.2)) (ServeFile git exts pat_Tail repos (sv_regex s) params url)
  | EGitBlob => reply_of (fun d => show (BlobPage d)) (ServeGitBlob git exts pat_Tail newRepos params url)
  | EGitShow => reply_of (fun d => show (GitShowPage d)) (ServeGitShow (w_git_pieces w) repos params)
  | ESimpleGitLog => reply_of (show_log params) (ServeSimpleGitLog git pat_Tail repos params url)
  | EDiff => reply_of' (fun d => show (DiffPage d)) (ServeDiff git pat_Tail newRepos params url)
  | EGitBlobRaw => reply_of (fun d => show (RawPage d)) (ServeGitBlobRaw git exts pat_Tail newRepos params url)
  | EExperimental => reply_of (fun d => show (ExperimentalPage d)) (ServeExperimental git exts pat_Tail newRepos params url)
  | EAbout => Some (Ok (show AboutPage))
  | EAboutFileviewer => Some (Ok (show AboutFileviewerPage))
  | EHelp | ERoot => Some (Ok (RRedirect 303 "/search"%str))
  | EOpensearch => let d := ServeOpensearch (sv_bk s) (c_ReverseProxy cfg) tls r in Some (Ok (ROpensearch d.1 d.2))
  | EAPISearch => Some (d ← ServeAPISearch (w_elapsed w) (w_rpc_error w) searcher params; Ok (RSearch d))
  | EBackendStatus => reply_of RStatus (ServeBackendStatus (w_show_age w) (w_conn w) (sv_bk s) params)
  | ERenderedSearchResults => reply_of (fun d => show (ResultsPage d)) (ServeRenderedSearchResults
      (ServerSideAPISearchV2 (w_elapsed w) (w_show_age w) (w_show_date w) (w_rpc_error w) searcher params))
  | EGitLsTreeRendered => reply_of RTreeHtml (ServeGitLsTreeRendered git pat_Tail repos params url)
  | EGitLogJson => reply_of' RGitLog (ServeGitLogJson git repos params)
  | EGitBlameJson => reply_of' RBlame (ServeGitBlameJson git pat_Tail repos range (w_fuel w) params url)
  | EGitLsTreeJson => reply_of RTree (ServeGitLsTreeJson git pat_Tail repos params url)
  | ESyntaxHighlightedFileForZoekt =>
      reply_of (fun d => show (PreviewPage d)) (ServeSyntaxHighlightedFileForZoekt git exts pat_Tail cache params url)
  | EGitLsTreeForZoekt => reply_of RLsTree (ServeGitLsTreeForZoekt git pat_Tail cache params url)
  | EGitLogForZoekt => reply_of' RGitLog (ServeGitLogForZoekt git pat_Tail cache params url)
  | EListAllBranchesForZoekt => reply_of RRefs (ServeListAllBranchesForZoekt git cache params)
  | EListAllTagsForZoekt => reply_of RRefs (ServeListAllTagsForZoekt git cache params)
  | ETest => Some (Ok RHello)
  end.

(** The routes: a GET request, and the parameters of its URL. *)
Definition handle_route (r : request) (tls : bool) (query : values) : option (res unit reply) :=
  match dispatch (rq_Path r) with
  | None => Some (Ok RNotFound)
  | Some (AddSlash, _) => Some (Ok RAddSlash)
  | Some (To e, caps) => handle e r tls (route_params caps query)
  end.
End site.

Section process.
Context `{GS : !GoSort, GR : !GoRange, PAT : !Pat}.
Context (w : world) (cfg : Config) (s : server).

Definition set_pages (pages : site) (s : server) : server :=
  mkServer (sv_bk s) (sv_bkOrder s) (sv_repos s) (sv_newRepos s) (sv_regex s) (sv_statsd s) pages.

(** [reloadHandler] in front of the routes, with [reload] set: the templates are
    loaded again, from what the document root is now, before the request is
    routed.  A panic of the load ends the request.  This is one request: others
    that load at the same time are in [Pages]. *)
Definition routed (r : request) (tls : bool) (query : values) : option (res unit reply) :=
  if c_Reload cfg then
    match run_load (loadTemplates (w_docroot w)) (sv_pages s) with
    | Ok pages => handle_route w cfg (set_pages pages s) r tls query
    | Err _ | Panic => Some Panic
    end
  else handle_route w cfg s r tls query.

(** The process: an answer of its own, or that of a route. *)
Definition process (Validate : str -> str -> bool) (r : request) (tls : bool) (query : values)
    : served + option (res unit reply) :=
  match serve Validate cfg false r with
  | ServedRoutes r => inr (routed r tls query)
  | other => inl other
  end.
End process.
