(* ===== verification/Composite.v ===== *)
(** * Composite queries: [cmd/lgiap/main.go]

    Several searches run at once, their results are put together in the order
    in which they arrive, and filtered in place.  [doQuery] stands for a search
    over the network: the text of the reply, or an error. *)
From S2P Require Import Prelude GoChan GoStrings GoSort GoMap GoJson Query Search Api.

(** ** Orders compared field by field *)
Definition on {A B} (f : A -> B) (less : B -> B -> bool) (a b : A) : bool := less (f a) (f b).
Definition lex {A} (less1 less2 : A -> A -> bool) (a b : A) : bool :=
  if less1 a b then true else if less1 b a then false else less2 a b.

#[export] Instance on_weak {A B} (f : A -> B) less : StrictWeak less -> StrictWeak (on f less).
Proof.
  intros H. split; unfold on; intros *; [apply less_irrefl|apply less_trans|apply less_incomp].
Qed.

(** What a strict weak order says of three elements, each test destructed. *)
Lemma weak_asym {A} (less : A -> A -> bool) `{!StrictWeak less} x y : less x y = true -> less y x = false.
Proof.
  intros H. destruct (less y x) eqn:E; [|done].
  pose proof (less_trans _ _ _ H E) as H'. by rewrite less_irrefl in H'.
Qed.
Ltac weak_cases less x y z :=
  pose proof (less_trans (less := less) x y z); pose proof (less_trans (less := less) y z x);
  pose proof (less_trans (less := less) z x y); pose proof (less_trans (less := less) x z y);
  pose proof (less_trans (less := less) y x z); pose proof (less_trans (less := less) z y x);
  pose proof (less_incomp (less := less) x y z); pose proof (less_incomp (less := less) y z x);
  pose proof (less_incomp (less := less) z x y); pose proof (less_incomp (less := less) x z y);
  pose proof (less_incomp (less := less) y x z); pose proof (less_incomp (less := less) z y x);
  pose proof (weak_asym less x y); pose proof (weak_asym less y z); pose proof (weak_asym less x z);
  destruct (less x y), (less y x), (less y z), (less z y), (less x z), (less z x); try (intuition congruence).

#[export] Instance lex_weak {A} (less1 less2 : A -> A -> bool) :
  StrictWeak less1 -> StrictWeak less2 -> StrictWeak (lex less1 less2).
Proof.
  intros H1 H2. split; unfold lex.
  - intros x. by rewrite !less_irrefl.
  - intros x y z. pose proof (less_trans (less := less2) x y z). weak_cases less1 x y z.
  - intros x y z. pose proof (less_incomp (less := less2) x y z). weak_cases less1 x y z.
Qed.

#[export] Instance ltb_weak : StrictWeak Z.ltb.
Proof. split; intros *; rewrite ?Z.ltb_lt, ?Z.ltb_ge; lia. Qed.

(** ** The composition *)
Record queryExpression := mkExpression { Query : str; Operator : str }.
(** Tree, version and path. *)
Definition exclusionKey : Type := str * str * str.
Record composition := mkComposition {
  Queries : list (option queryExpression); ExcludeFiles : list exclusionKey;
  VersionAware : bool; MaxMatches : Z;
}.

Definition dec_queryExpression : dec queryExpression :=
  dec_struct (fun l q => let names := ["query"; "operator"]%str in
    query ← dec_key names l "query"%str dec_str (Query q);
    operator ← dec_key names l "operator"%str dec_str (Operator q);
    Some (mkExpression query operator)).
Definition dec_exclusionKey : dec exclusionKey :=
  dec_struct (fun l k => let names := ["tree"; "version"; "path"]%str in
    tree ← dec_key names l "tree"%str dec_str k.1.1;
    version ← dec_key names l "version"%str dec_str k.1.2;
    path ← dec_key names l "path"%str dec_str k.2;
    Some (tree, version, path)).
Definition zero_composition : composition := mkComposition [] [] false 0.
Definition dec_composition : dec composition :=
  dec_struct (fun l c => let names := ["queries"; "exclude_files"; "version_aware"; "max_matches"]%str in
    queries ← dec_key names l "queries"%str
                (dec_slice None (dec_ptr (mkExpression [] []) dec_queryExpression)) (Queries c);
    files ← dec_key names l "exclude_files"%str (dec_slice ([], [], []) dec_exclusionKey) (ExcludeFiles c);
    aware ← dec_key names l "version_aware"%str dec_bool (VersionAware c);
    matches ← dec_key names l "max_matches"%str (dec_int 64) (MaxMatches c);
    Some (mkComposition queries files aware matches)).

Inductive CompositeErr :=
  | UnknownOperator (op : str) | DuplicateMaxMatches | QueryFailed (msg : str) | BadReply.

Definition knownOperators : list str := [[]; "include"%str; "exclude_by_file"%str; "exclude_by_repo"%str].

(** The loop over the queries that were read; [null] is a nil pointer. *)
Definition prepare (maxMatches : Z) (q : option queryExpression) : res CompositeErr queryExpression :=
  q ← deref q;
  if negb (bool_decide (Operator q ∈ knownOperators)) then Err (UnknownOperator (Operator q))
  else if decide (maxMatches = 0%Z) then Ok q
  else if contains (Query q) "max_matches:"%str then Err DuplicateMaxMatches
  else Ok (mkExpression (Query q ++ " max_matches:"%str ++ Itoa maxMatches) (Operator q)).

(** ** Putting the results together *)
Section results.
Context (versionAware : bool).

Definition version_of (v : str) : str := if versionAware then v else [].
Definition makeExcludedFileKey (res : Result) : exclusionKey :=
  (r_Tree res, version_of (r_Version res), r_Path res).
Definition makeExcludedRepoKey (res : Result) : exclusionKey :=
  (r_Tree res, version_of (r_Version res), []).
Definition dedupeKey : Type := str * str * str * Z.
Definition makeDedupeKey (res : Result) : dedupeKey :=
  (r_Tree res, version_of (r_Version res), r_Path res, r_LineNumber res).

(** A result of a reply is a pointer. *)
Record gathered := mkGathered {
  allFound : list (option Result); excludedFiles : gset exclusionKey; excludedRepos : gset exclusionKey;
}.
Definition gather (g : gathered) (r : str * list (option Result)) : res CompositeErr gathered :=
  let '(op, results) := r in
  if decide (op = [] \/ op = "include"%str)
  then Ok (mkGathered (allFound g ++ results) (excludedFiles g) (excludedRepos g))
  else if decide (op = "exclude_by_file"%str)
  then rs ← mapR deref results;
       Ok (mkGathered (allFound g) (excludedFiles g ∪ list_to_set (makeExcludedFileKey <$> rs)) (excludedRepos g))
  else if decide (op = "exclude_by_repo"%str)
  then rs ← mapR deref results;
       Ok (mkGathered (allFound g) (excludedFiles g) (excludedRepos g ∪ list_to_set (makeExcludedRepoKey <$> rs)))
  else Panic.

(** The loop that filters [allFound] in place: the slice is read at the index
    of the iteration and written at the number of keys seen so far. *)
Fixpoint compact (n i : nat) (files repos : gset exclusionKey) (arr : list Result) (seen : gset dedupeKey)
    : res CompositeErr (list Result * gset dedupeKey) :=
  match n with
  | O => Ok (arr, seen)
  | S n =>
      found ← deref (arr !! i);
      if bool_decide (makeExcludedFileKey found ∈ files) || bool_decide (makeExcludedRepoKey found ∈ repos)
         || bool_decide (makeDedupeKey found ∈ seen)
      then compact n (S i) files repos arr seen
      else _ ← deref (arr !! size seen);
           compact n (S i) files repos (<[size seen := found]> arr) ({[makeDedupeKey found]} ∪ seen)
  end.

(** The comparison of [formatResults]. *)
Definition format_less : Result -> Result -> bool :=
  lex (on r_Tree str_ltb) (lex (on r_Path str_ltb)
    (if versionAware then lex (on r_Version str_ltb) (on r_LineNumber Z.ltb) else on r_LineNumber Z.ltb)).
Definition formatResults `{!GoSort} (results : list Result) : list Result := go_sort format_less results.

(** Before and after the replies, in the order in which they arrived.  The
    filtering loop dereferences every result that was found. *)
Definition gather_init (exclude : list exclusionKey) : gathered := mkGathered [] (list_to_set exclude) ∅.
Definition finish `{!GoSort} (g : gathered) : res CompositeErr (list Result) :=
  found ← mapR deref (allFound g);
  '(arr, seen) ← compact (length found) 0 (excludedFiles g) (excludedRepos g) found ∅;
  Ok (formatResults (take (size seen) arr)).
Definition combine `{!GoSort} (exclude : list exclusionKey) (replies : list (str * list (option Result)))
    : res CompositeErr (list Result) :=
  g ← foldM gather replies (gather_init exclude); finish g.
End results.

Section query.
Context `{!GoSort}.
(** [formatResults] of pointers: a single one is not compared, and a nil one
    is printed as it is. *)
Definition format_pointers (results : list (option Result)) : res CompositeErr (list (option Result)) :=
  if decide (length results < 2)%nat then Ok results
  else rs ← mapR deref results; Ok (Some <$> formatResults false rs).

(** The reply to a single query from the command line. *)
Definition query (text : str) : res CompositeErr (list (option Result)) :=
  reply ← or_err BadReply (Decode dec_ReplySearch zero_ReplySearch text);
  format_pointers (ri_Results reply).
End query.

Section composite.
Context `{!GoSort} (doQuery : str -> str + str).

(** The goroutine of a query, and the loop that receives its result. *)
Definition receive (q : queryExpression) : res CompositeErr (str * str) :=
  match doQuery (Query q) with inl e => Err (QueryFailed e) | inr text => Ok (Operator q, text) end.
Definition read_reply (r : str * str) : res CompositeErr (str * list (option Result)) :=
  reply ← or_err BadReply (Decode dec_ReplySearch zero_ReplySearch r.2); Ok (r.1, ri_Results reply).
Definition read_gather (versionAware : bool) (g : gathered) (r : str * str) : res CompositeErr gathered :=
  r ← read_reply r; gather versionAware g r.

(** The queries, in the order in which they end, and what is made of their
    replies. *)
Definition searched (c : composition) (arrived : list queryExpression) : res CompositeErr (list Result) :=
  texts ← mapR receive arrived;
  g ← foldM (read_gather (VersionAware c)) texts (gather_init (ExcludeFiles c));
  finish (VersionAware c) g.

(** [arrival] is that order. *)
Definition compositeQuery (arrival : list queryExpression -> list queryExpression) (c : composition)
    : res CompositeErr (list Result) :=
  qs ← mapR (prepare (MaxMatches c)) (Queries c); searched c (arrival qs).

End composite.

(** The encoded results of a composite query. *)
Definition enc_results (results : list Result) : str := Encode_stream (JArr (enc_Result <$> results)).
