(* ===== verification/CompositeSpec.v ===== *)
(** * What a composite query promises

    The loop that filters in place keeps the first result of every key that is
    not excluded; the output does not depend on the order in which the queries
    end, up to the fields that are not part of a key. *)
From S2P Require Import Prelude GoChan GoStrings GoSort GoMap GoJson GoJsonSpec Query Search Api Composite.

Section results.
Context (versionAware : bool).
Abbreviation key := (makeDedupeKey versionAware).

(** Exclusion is a matter of the key. *)
Definition file_of (k : dedupeKey) : exclusionKey := (k.1.1.1, k.1.1.2, k.1.2).
Definition repo_of (k : dedupeKey) : exclusionKey := (k.1.1.1, k.1.1.2, []).
Definition dropped (files repos : gset exclusionKey) (k : dedupeKey) : Prop :=
  file_of k ∈ files \/ repo_of k ∈ repos.

(** The reference: the first result of each key, in order. *)
Fixpoint firsts (files repos : gset exclusionKey) (l : list Result) (seen : gset dedupeKey) : list Result :=
  match l with
  | [] => []
  | r :: l =>
      if decide (dropped files repos (key r) \/ key r ∈ seen) then firsts files repos l seen
      else r :: firsts files repos l ({[key r]} ∪ seen)
  end.

Lemma compact_firsts files repos l n i arr seen :
  length arr = length l -> (i + n = length l)%nat -> (size seen <= i)%nat -> drop i arr = drop i l ->
  exists arr' seen', compact versionAware n i files repos arr seen = Ok (arr', seen') /\
    take (size seen') arr' = take (size seen) arr ++ firsts files repos (drop i l) seen.
Proof.
  revert i arr seen. induction n as [|n IH]; intros i arr seen Hlen Hi Hs Hd.
  - exists arr, seen. split; [done|]. rewrite drop_ge by lia. by rewrite app_nil_r.
  - destruct (lookup_lt_is_Some_2 l i) as [r Hr]; [lia|].
    assert (arr !! i = Some r) as Ha.
    { pose proof (lookup_drop arr i 0) as E1. pose proof (lookup_drop l i 0) as E2.
      rewrite Hd, E2, !Nat.add_0_r in E1. by rewrite <- E1. }
    cbn [compact]. rewrite Ha. cbn [deref mbind res_bind].
    rewrite (drop_S l r i Hr). cbn [firsts].
    assert (bool_decide (makeExcludedFileKey versionAware r ∈ files)
      || bool_decide (makeExcludedRepoKey versionAware r ∈ repos) || bool_decide (key r ∈ seen)
      = bool_decide (dropped files repos (key r) \/ key r ∈ seen)) as ->.
    { unfold dropped, file_of, repo_of, makeExcludedFileKey, makeExcludedRepoKey, makeDedupeKey. cbn.
      repeat case_bool_decide; tauto || done. }
    assert (drop (S i) arr = drop (S i) l) as Hd'.
    { pose proof (f_equal (drop 1) Hd) as E. rewrite !drop_drop in E.
      by replace (S i) with (i + 1)%nat by lia. }
    destruct (decide _) as [Hdrop|Hkeep].
    + rewrite bool_decide_true by done. apply IH; [done|lia|lia|done].
    + rewrite bool_decide_false by done.
      destruct (lookup_lt_is_Some_2 arr (size seen)) as [x ->]; [lia|]. cbn [deref mbind res_bind].
      assert (size ({[key r]} ∪ seen : gset _) = S (size seen)) as Hsize.
      { rewrite size_union by set_solver. by rewrite size_singleton. }
      destruct (IH (S i) (<[size seen := r]> arr) ({[key r]} ∪ seen)) as (arr' & seen' & Hc & Ht).
      * by rewrite length_insert.
      * lia.
      * lia.
      * rewrite drop_insert_lt by lia. done.
      * exists arr', seen'. split; [done|]. rewrite Ht, Hsize.
        rewrite take_S_r with (x := r) by (apply list_lookup_insert_eq; lia).
        rewrite take_insert_ge by lia. by rewrite <- app_assoc.
Qed.

(** The keys of the reference, each once. *)
Lemma firsts_keys files repos l seen :
  NoDup (key <$> firsts files repos l seen) /\
  (forall k, k ∈ key <$> firsts files repos l seen <->
     k ∈ key <$> l /\ ~ dropped files repos k /\ k ∉ seen).
Proof.
  revert seen. induction l as [|r l IH]; intros seen; cbn [firsts fmap list_fmap].
  - split; [constructor|]. intros k. split; [by intros ?%elem_of_nil|by intros [?%elem_of_nil _]].
  - destruct (decide _) as [Hd|Hd].
    + destruct (IH seen) as [Hnd Hk]. split; [done|]. intros k. rewrite Hk, elem_of_cons.
      split; [tauto|]. intros ([-> |] & ? & ?); [by destruct Hd|done].
    + destruct (IH ({[key r]} ∪ seen)) as [Hnd Hk]. cbn [fmap list_fmap]. split.
      * constructor; [|done]. rewrite Hk, elem_of_union, elem_of_singleton. tauto.
      * intros k. rewrite !elem_of_cons, Hk, elem_of_union, elem_of_singleton.
        destruct (decide (k = key r)) as [-> |]; tauto.
Qed.

Lemma firsts_sub files repos l seen r : r ∈ firsts files repos l seen -> r ∈ l.
Proof.
  revert seen. induction l as [|r' l IH]; intros seen; cbn [firsts]; [done|].
  destruct (decide _); rewrite !elem_of_cons; [eauto|]. intros [-> |?]; eauto.
Qed.

(** ** The comparison is that of the keys *)
Definition key_less (a b : dedupeKey) : bool :=
  lex (on (fun k : dedupeKey => k.1.1.1) str_ltb) (lex (on (fun k : dedupeKey => k.1.2) str_ltb)
    (lex (on (fun k : dedupeKey => k.1.1.2) str_ltb) (on snd Z.ltb))) a b.
#[export] Instance key_less_weak : StrictWeak key_less.
Proof. unfold key_less. apply _. Qed.

Lemma format_less_key a b : format_less versionAware a b = key_less (key a) (key b).
Proof.
  unfold format_less, key_less, makeDedupeKey, version_of, lex, on. cbn.
  destruct versionAware; [done|]. by rewrite !str_ltb_irrefl.
Qed.

#[export] Instance format_less_weak : StrictWeak (format_less versionAware).
Proof. unfold format_less. destruct versionAware; apply _. Qed.

Lemma key_less_total a b : key_less a b = false -> key_less b a = false -> a = b.
Proof.
  destruct a as [[[t v] p] n], b as [[[t' v'] p'] n']. unfold key_less, lex, on. cbn.
  intros H1 H2.
  destruct (str_ltb_total t t') as [<- |[H|H]]; [|rewrite ?H, ?(str_ltb_asym _ _ H) in *; done..].
  rewrite !str_ltb_irrefl in *.
  destruct (str_ltb_total p p') as [<- |[H|H]]; [|rewrite ?H, ?(str_ltb_asym _ _ H) in *; done..].
  rewrite !str_ltb_irrefl in *.
  destruct (str_ltb_total v v') as [<- |[H|H]]; [|rewrite ?H, ?(str_ltb_asym _ _ H) in *; done..].
  rewrite !str_ltb_irrefl in *. apply Z.ltb_ge in H1, H2. f_equal. lia.
Qed.

Lemma sorted_keys l :
  StronglySorted (before (format_less versionAware)) l -> StronglySorted (before key_less) (key <$> l).
Proof.
  induction 1 as [|r l Hl IH Hr]; cbn; constructor; [done|]. apply Forall_fmap.
  eapply Forall_impl; [exact Hr|]. intros r'. unfold before. cbn. by rewrite format_less_key.
Qed.

(** ** What the replies ask for *)
Definition includes (op : str) : Prop := op = [] \/ op = "include"%str.
Definition asked (replies : list (str * list Result)) (P : str -> Prop) (r : Result) : Prop :=
  exists op rs, (op, rs) ∈ replies /\ P op /\ r ∈ rs.
Definition excluded (exclude : list exclusionKey) (replies : list (str * list Result)) (k : dedupeKey) : Prop :=
  file_of k ∈ exclude \/
  (exists r, asked replies (.= "exclude_by_file"%str) r /\ file_of k = file_of (key r)) \/
  (exists r, asked replies (.= "exclude_by_repo"%str) r /\ repo_of k = repo_of (key r)).

(** Replies without nil results. *)
Definition some_all (r : str * list Result) : str * list (option Result) := (r.1, Some <$> r.2).
Lemma mapR_deref_some {E A} (l : list A) : mapR (E:=E) deref (Some <$> l) = Ok l.
Proof using. induction l as [|a l IH]; [done|]. cbn. by rewrite IH. Qed.
Lemma mapR_deref_inv {E A} (l : list (option A)) rs : mapR (E:=E) deref l = Ok rs -> l = Some <$> rs.
Proof using.
  revert rs. induction l as [|[a|] l IH]; intros rs H; cbn in H; inv_ok; [done|]. cbn. by rewrite (IH _ eq_refl).
Qed.

Lemma all_some {A} (l : list (option A)) : Forall is_Some l -> exists l', l = Some <$> l'.
Proof using. induction 1 as [|o l [a ->] _ [l' ->]]; [by exists []|by exists (a :: l')]. Qed.

Definition gather_ok (g0 g : gathered) (replies : list (str * list Result)) : Prop :=
  (forall o, o ∈ allFound g <-> o ∈ allFound g0 \/ exists r, o = Some r /\ asked replies includes r) /\
  (forall k, k ∈ excludedFiles g <-> k ∈ excludedFiles g0 \/
     exists r, asked replies (.= "exclude_by_file"%str) r /\ k = file_of (key r)) /\
  (forall k, k ∈ excludedRepos g <-> k ∈ excludedRepos g0 \/
     exists r, asked replies (.= "exclude_by_repo"%str) r /\ k = repo_of (key r)).

Lemma asked_cons P op rs replies r :
  asked ((op, rs) :: replies) P r <-> (P op /\ r ∈ rs) \/ asked replies P r.
Proof.
  unfold asked. split.
  - intros (op' & rs' & [[= -> ->]|Hin]%elem_of_cons & HP & Hr); [by left|right; by exists op', rs'].
  - intros [[HP Hr]|(op' & rs' & Hin & HP & Hr)]; [by exists op, rs; split; [left|]|].
    by exists op', rs'; split; [right|].
Qed.

Lemma asked_nil P r : asked [] P r <-> False.
Proof. split; [|done]. by intros (? & ? & ?%elem_of_nil & _). Qed.

Lemma gather_ok_nil g : gather_ok g g [].
Proof.
  unfold gather_ok. split_and!; intros; setoid_rewrite asked_nil; naive_solver.
Qed.

(** One reply, before the others. *)
Lemma gather_ok_step g0 g1 g op rs replies :
  gather_ok g0 g1 [(op, rs)] -> gather_ok g1 g replies -> gather_ok g0 g ((op, rs) :: replies).
Proof.
  intros (F1 & X1 & R1) (F2 & X2 & R2). unfold gather_ok.
  split_and!; intros.
  - rewrite F2, F1. setoid_rewrite asked_cons. setoid_rewrite asked_nil. naive_solver.
  - rewrite X2, X1. setoid_rewrite asked_cons. setoid_rewrite asked_nil. naive_solver.
  - rewrite R2, R1. setoid_rewrite asked_cons. setoid_rewrite asked_nil. naive_solver.
Qed.

Lemma gather_one g0 op rs :
  op ∈ knownOperators -> exists g, gather versionAware g0 (some_all (op, rs)) = Ok g /\ gather_ok g0 g [(op, rs)].
Proof.
  intros Hop. unfold gather, some_all, gather_ok. cbn [fst snd]. rewrite !mapR_deref_some. setoid_rewrite asked_cons. setoid_rewrite asked_nil.
  destruct (decide (op = [] \/ op = "include"%str)) as [Hi|Hi].
  { eexists. split; [done|]. cbn. assert (op <> "exclude_by_file"%str /\ op <> "exclude_by_repo"%str) as []
      by (by destruct Hi as [-> | ->]).
    split_and!; intros; [rewrite elem_of_app, list_elem_of_fmap; unfold includes; naive_solver|split; [by left|]..];
      intros [|(r & [[-> ?]|[]] & ?)]; done. }
  destruct (decide (op = "exclude_by_file"%str)) as [-> |Hf].
  { eexists. split; [done|]. cbn. split_and!; intros; [unfold includes; naive_solver| |split; [by left|intros [|(r & [[? ?]|[]] & ?)]; done]].
    rewrite elem_of_union, elem_of_list_to_set, list_elem_of_fmap. naive_solver. }
  destruct (decide (op = "exclude_by_repo"%str)) as [-> |Hr].
  { eexists. split; [done|]. cbn. split_and!; intros; [unfold includes; naive_solver|split; [by left|intros [|(r & [[? ?]|[]] & ?)]; done]|].
    rewrite elem_of_union, elem_of_list_to_set, list_elem_of_fmap. naive_solver. }
  exfalso. unfold knownOperators in Hop. rewrite !elem_of_cons, elem_of_nil in Hop. tauto.
Qed.

Lemma gather_all replies g0 :
  Forall (fun p => p.1 ∈ knownOperators) replies ->
  exists g, foldM (gather versionAware) (some_all <$> replies) g0 = Ok g /\ gather_ok g0 g replies.
Proof.
  revert g0. induction replies as [|[op rs] replies IH]; intros g0 Hall.
  - exists g0. split; [done|apply gather_ok_nil].
  - apply Forall_cons in Hall as [Hop Hall].
    destruct (gather_one g0 op rs Hop) as (g1 & Hg1 & Hok1). destruct (IH g1 Hall) as (g & Hg & Hok).
    exists g. split; [|by eapply gather_ok_step]. cbn [fmap list_fmap foldM]. by rewrite Hg1.
Qed.

(** ** The output *)
Definition output_ok (exclude : list exclusionKey) (replies : list (str * list Result)) (out : list Result)
    : Prop :=
  NoDup (key <$> out) /\ StronglySorted (before key_less) (key <$> out) /\
  (forall r, r ∈ out -> asked replies includes r) /\
  (forall k, k ∈ key <$> out <->
     (exists r, asked replies includes r /\ key r = k) /\ ~ excluded exclude replies k).

Lemma combine_ok `{!GoSort} exclude replies :
  Forall (fun p => p.1 ∈ knownOperators) replies ->
  exists out, combine versionAware exclude (some_all <$> replies) = Ok out /\ output_ok exclude replies out.
Proof.
  intros Hall. unfold combine.
  destruct (gather_all replies (gather_init exclude) Hall) as (g & Hg & F & X & R).
  rewrite Hg. cbn [mbind res_bind]. unfold finish.
  destruct (all_some (allFound g)) as [found Hfound].
  { apply Forall_forall. intros o Ho. apply F in Ho as [?%elem_of_nil|(r & -> & _)]; [done|by eexists]. }
  rewrite Hfound, mapR_deref_some. cbn [mbind res_bind].
  assert (forall r, r ∈ found <-> asked replies includes r) as F'.
  { intros r. specialize (F (Some r)). rewrite Hfound, list_elem_of_fmap in F. cbn [gather_init allFound] in F.
    rewrite elem_of_nil in F. naive_solver. }
  destruct (compact_firsts (excludedFiles g) (excludedRepos g) found (length found) 0
    found ∅) as (arr & seen & Hc & Ht); [done|lia|by rewrite size_empty|done|].
  rewrite Hc. cbn [mbind res_bind]. eexists. split; [done|].
  rewrite size_empty in Ht. cbn [take drop app] in Ht. rewrite Ht. unfold formatResults.
  set (kept := firsts _ _ _ _). destruct (firsts_keys (excludedFiles g) (excludedRepos g) found ∅)
    as [Hnd Hk]. fold kept in Hnd, Hk.
  pose proof (go_sort_perm (format_less versionAware) kept) as Hperm. split_and!.
  - by rewrite Hperm.
  - apply sorted_keys, go_sort_sorted, _.
  - intros r Hr. rewrite Hperm in Hr. by apply firsts_sub, F' in Hr.
  - intros k. rewrite Hperm. unfold kept. rewrite Hk, list_elem_of_fmap. unfold dropped, excluded. rewrite X, R.
    cbn. rewrite elem_of_list_to_set.
    assert ((exists y, k = key y /\ y ∈ found) <-> exists r, asked replies includes r /\ key r = k) as ->.
    { split; intros (r & H1 & H2); exists r.
      - by apply F' in H2.
      - split; [done|]. by apply F'. }
    rewrite !elem_of_empty. tauto.
Qed.
End results.

(** ** The order of arrival *)
Lemma mapR_perm {E A B} (f : A -> res E B) l l' ys :
  l ≡ₚ l' -> mapR f l = Ok ys -> exists ys', mapR f l' = Ok ys' /\ ys ≡ₚ ys'.
Proof.
  intros Hp. revert ys. induction Hp as [|x l l' _ IH|x y l|l1 l2 l3 _ IH1 _ IH2]; intros ys H.
  - by exists ys.
  - cbn in H |- *. destruct (f x) as [z| |]; cbn in H |- *; [|done..].
    destruct (mapR f l) as [zs| |]; cbn in H; [|done..]. inv_ok.
    destruct (IH zs eq_refl) as (zs' & -> & Hz). exists (z :: zs'). split; [done|by f_equiv].
  - cbn in H |- *. destruct (f x) as [a| |]; cbn in H |- *; [| by destruct (f y)..].
    destruct (f y) as [b| |]; cbn in H |- *; [|done..].
    destruct (mapR f l) as [zs| |]; cbn in H |- *; [|done..]. inv_ok. exists (a :: b :: zs).
    split; [done|]. apply Permutation_swap.
  - destruct (IH1 ys H) as (ys1 & H1 & P1). destruct (IH2 ys1 H1) as (ys2 & H2 & P2).
    exists ys2. split; [done|]. by rewrite P1.
Qed.

Lemma asked_perm replies replies' P r : replies ≡ₚ replies' -> asked replies P r <-> asked replies' P r.
Proof. intros Hp. unfold asked. by setoid_rewrite Hp. Qed.

(** The output of a permutation of the replies has the same keys. *)
Lemma output_keys aware exclude replies replies' out out' :
  replies ≡ₚ replies' -> output_ok aware exclude replies out -> output_ok aware exclude replies' out' ->
  makeDedupeKey aware <$> out = makeDedupeKey aware <$> out'.
Proof.
  intros Hp (Hnd & Hs & _ & Hk) (Hnd' & Hs' & _ & Hk').
  apply (sorted_unique key_less); [intros; by apply key_less_total|done|done|].
  apply NoDup_Permutation; [done|done|]. intros k. rewrite Hk, Hk'. unfold excluded.
  setoid_rewrite (asked_perm _ _ _ _ Hp). done.
Qed.

Lemma output_ok_perm aware exclude replies replies' out :
  replies ≡ₚ replies' -> output_ok aware exclude replies out -> output_ok aware exclude replies' out.
Proof.
  intros Hp (Hnd & Hs & Hr & Hk). split_and!; [done|done| |].
  - intros r ?%Hr. by rewrite <- (asked_perm _ _ _ _ Hp).
  - intros k. rewrite Hk. unfold excluded. by setoid_rewrite (asked_perm _ _ _ _ Hp).
Qed.

(** Only known operators reach the combination. *)
Lemma prepared_known n qs qs' :
  mapR (prepare n) qs = Ok qs' -> Forall (fun q => Operator q ∈ knownOperators) qs'.
Proof.
  apply (mapR_Forall _ (fun _ => True)); [|by apply Forall_true].
  intros o q _. unfold prepare. destruct o as [q'|]; cbn; [|done].
  case_bool_decide; cbn; [|done]. repeat case_match; intros; by inv_ok.
Qed.

Lemma replies_known doQuery qs texts replies :
  Forall (fun q => Operator q ∈ knownOperators) qs ->
  mapR (receive doQuery) qs = Ok texts -> mapR read_reply texts = Ok replies ->
  Forall (fun p => p.1 ∈ knownOperators) replies.
Proof.
  intros Hq Ht Hr.
  assert (Forall (fun p : str * str => p.1 ∈ knownOperators) texts) as Htexts.
  { eapply mapR_Forall; [|exact Hq|exact Ht]. intros q p Hop. unfold receive.
    destruct (doQuery (Query q)); intros; by inv_ok. }
  eapply mapR_Forall; [|exact Htexts|exact Hr]. intros q p Hop. unfold read_reply.
  destruct (Decode _ _ q.2); cbn; intros; by inv_ok.
Qed.

(** Replies are decoded one after the other, each before it is used. *)
Lemma read_gather_split aware texts g g' :
  foldM (read_gather aware) texts g = Ok g' <->
  exists replies, mapR read_reply texts = Ok replies /\ foldM (gather aware) replies g = Ok g'.
Proof.
  revert g. induction texts as [|t texts IH]; intros g; cbn [foldM mapR].
  - split; [intros H; by exists []|]. by intros (? & [= <-] & ?).
  - change (read_gather aware g t) with (r ← read_reply t; gather aware g r).
    destruct (read_reply t) as [r| |]; cbn [mbind res_bind];
      [|by split; [done|intros (? & ? & _)]..].
    destruct (gather aware g r) as [g1|e|] eqn:Eg; cbn [mbind res_bind].
    + rewrite IH. split.
      * intros (rs & -> & H). exists (r :: rs). cbn. by rewrite Eg.
      * intros (rs & H1 & H2). destruct (mapR read_reply texts) as [rs'| |]; cbn in H1; [|done..].
        injection H1 as <-. cbn in H2. rewrite Eg in H2. by exists rs'.
    + split; [done|]. intros (rs & H1 & H2). destruct (mapR read_reply texts) as [rs'| |]; cbn in H1; [|done..].
      injection H1 as <-. cbn in H2. by rewrite Eg in H2.
    + split; [done|]. intros (rs & H1 & H2). destruct (mapR read_reply texts) as [rs'| |]; cbn in H1; [|done..].
      injection H1 as <-. cbn in H2. by rewrite Eg in H2.
Qed.

(** Replies that were combined have no nil result. *)
Lemma gather_some aware g op os g1 :
  gather aware g (op, os) = Ok g1 ->
  exists l, allFound g1 = allFound g ++ l /\ (Forall is_Some l -> exists rs, os = Some <$> rs).
Proof.
  unfold gather. repeat case_decide; try done.
  - intros [= <-]. exists os. split; [done|]. apply all_some.
  - destruct (mapR deref os) as [rs| |] eqn:E; cbn; [|done..]. intros [= <-]. exists []. rewrite app_nil_r.
    split; [done|]. intros _. exists rs. by apply mapR_deref_inv in E.
  - destruct (mapR deref os) as [rs| |] eqn:E; cbn; [|done..]. intros [= <-]. exists []. rewrite app_nil_r.
    split; [done|]. intros _. exists rs. by apply mapR_deref_inv in E.
Qed.
Lemma combined_some aware replies g g' :
  foldM (gather aware) replies g = Ok g' -> Forall is_Some (allFound g') ->
  exists l, allFound g' = allFound g ++ l /\ exists rs, replies = some_all <$> rs.
Proof.
  revert g. induction replies as [|[op os] replies IH]; intros g H Hall; cbn [foldM] in H.
  - injection H as <-. exists []. rewrite app_nil_r. split; [done|]. by exists [].
  - destruct (gather aware g (op, os)) as [g1| |] eqn:E; cbn [mbind res_bind] in H; [|done..].
    destruct (IH g1 H Hall) as (l & Hl & rs & ->). apply gather_some in E as (l1 & E1 & Hs).
    rewrite Hl, E1, !Forall_app in Hall. destruct Hs as [rs1 ->]; [tauto|].
    exists (l1 ++ l). split; [by rewrite Hl, E1, app_assoc|]. by exists ((op, rs1) :: rs).
Qed.
Lemma finish_some `{!GoSort} aware g out : finish aware g = Ok out -> Forall is_Some (allFound g).
Proof.
  unfold finish. destruct (mapR deref (allFound g)) as [found| |] eqn:E; cbn; [|done..]. intros _.
  apply mapR_deref_inv in E as ->. apply Forall_fmap, Forall_forall. intros r _. by eexists.
Qed.

(** The output of a composite query, for replies to known operators: each
    key (tree, path, line, and version if versions count) once, in order; a key
    is there exactly if an including query found it and neither the list of
    exclusions, nor an excluding query by file or by repository, excludes it;
    and the filtering in place loses and invents nothing. *)
Theorem combine_output `{!GoSort} (versionAware : bool) (exclude : list exclusionKey)
    (replies : list (str * list Result)) :
  Forall (fun p => p.1 ∈ knownOperators) replies ->
  exists out, combine versionAware exclude (some_all <$> replies) = Ok out /\
    NoDup (makeDedupeKey versionAware <$> out) /\
    StronglySorted (before key_less) (makeDedupeKey versionAware <$> out) /\
    (forall r, r ∈ out -> asked replies includes r) /\
    (forall k, k ∈ makeDedupeKey versionAware <$> out <->
       (exists r, asked replies includes r /\ makeDedupeKey versionAware r = k) /\
       ~ excluded versionAware exclude replies k).
Proof. apply combine_ok. Qed.

(** A composite query gives the same lines in the same order, in whatever
    order the searches end. *)
Theorem compositeQuery_order `{!GoSort} (doQuery : str -> str + str)
    (arrival arrival' : list queryExpression -> list queryExpression) (c : composition) (out : list Result) :
  (forall qs, arrival qs ≡ₚ qs) -> (forall qs, arrival' qs ≡ₚ qs) ->
  compositeQuery doQuery arrival c = Ok out ->
  exists out', compositeQuery doQuery arrival' c = Ok out' /\
    makeDedupeKey (VersionAware c) <$> out' = makeDedupeKey (VersionAware c) <$> out.
Proof.
  intros Ha Ha' Hrun. unfold compositeQuery, searched in *.
  destruct (mapR (prepare (MaxMatches c)) (Queries c)) as [qs| |] eqn:Eq; cbn in Hrun |- *; [|done..].
  destruct (mapR (receive doQuery) (arrival qs)) as [texts| |] eqn:Et; cbn in Hrun |- *; [|done..].
  destruct (foldM (read_gather _) texts _) as [g| |] eqn:Eg; cbn in Hrun |- *; [|done..].
  apply read_gather_split in Eg as (replies & Er & Eg).
  assert (arrival qs ≡ₚ arrival' qs) as Hp by (etransitivity; [apply Ha|symmetry; apply Ha']).
  destruct (mapR_perm _ _ _ _ Hp Et) as (texts' & -> & Pt). cbn.
  destruct (mapR_perm _ _ _ _ Pt Er) as (replies' & Er' & Pr).
  pose proof (prepared_known _ _ _ Eq) as Hops. rewrite <- (Ha qs) in Hops at 1.
  pose proof (replies_known _ _ _ _ Hops Et Er) as Hknown.
  destruct (combined_some _ _ _ _ Eg (finish_some _ _ _ Hrun)) as (_ & _ & rs & ->).
  assert (Forall (fun p => p.1 ∈ knownOperators) rs) as Hk by by rewrite Forall_fmap in Hknown.
  symmetry in Pr. apply Permutation_map_inv in Pr as (rs' & E' & Pr). change (map some_all rs') with (some_all <$> rs') in E'. subst replies'.
  destruct (combine_ok (VersionAware c) (ExcludeFiles c) rs Hk) as (o & Ho & Hok).
  destruct (combine_ok (VersionAware c) (ExcludeFiles c) rs') as (o' & Ho' & Hok'); [by rewrite <- Pr|].
  unfold combine in Ho, Ho'. rewrite Eg in Ho. cbn in Ho. rewrite Hrun in Ho. injection Ho as <-.
  destruct (foldM (gather (VersionAware c)) (some_all <$> rs') (gather_init (ExcludeFiles c))) as [g'| |] eqn:Eg';
    cbn in Ho'; [|done..].
  assert (foldM (read_gather (VersionAware c)) texts' (gather_init (ExcludeFiles c)) = Ok g') as ->
    by (apply read_gather_split; eauto).
  cbn. exists o'. split; [done|symmetry; by eapply output_keys].
Qed.

(** Two queries; the second excludes files. *)
Definition sample_result (tree path : str) (n : Z) : Result := mkResult tree [] path n [] [] [] [].
Definition sample_replies : list (str * list Result) :=
  [([], [sample_result "a/b"%str "y.go"%str 3; sample_result "a/b"%str "x.go"%str 2;
         sample_result "a/b"%str "y.go"%str 3]);
   ("exclude_by_file"%str, [sample_result "a/b"%str "x.go"%str 9])].
Lemma combine_output_witness :
  exists out, combine false [] (some_all <$> sample_replies) = Ok out /\
    NoDup (makeDedupeKey false <$> out) /\
    (makeDedupeKey false <$> out) = ([("a/b"%str, [], "y.go"%str, 3%Z)] : list dedupeKey).
Proof.
  destruct (combine_output false [] sample_replies) as (out & Hout & Hnd & _); [by_decide|].
  exists out. split; [exact Hout|]. split; [exact Hnd|].
  vm_compute in Hout. injection Hout as <-. reflexivity.
Defined.

Definition sample_composition : composition :=
  mkComposition [Some (mkExpression "foo"%str []); Some (mkExpression "bar"%str "include"%str)] [] false 50.
Definition sample_reply_text (q : str) : str + str :=
  inr (Encode_stream (enc_ReplySearch (mkReply zero_Stats [sample_result "a/b"%str q 1] [] [] "normal"%str))).
Lemma compositeQuery_order_witness :
  exists out', compositeQuery sample_reply_text reverse sample_composition = Ok out' /\
    makeDedupeKey false <$> out' =
    ([("a/b"%str, [], "bar max_matches:50"%str, 1%Z); ("a/b"%str, [], "foo max_matches:50"%str, 1%Z)] : list dedupeKey).
Proof.
  apply (compositeQuery_order sample_reply_text id reverse sample_composition
    [sample_result "a/b"%str "bar max_matches:50"%str 1; sample_result "a/b"%str "foo max_matches:50"%str 1]).
  - intros qs. reflexivity.
  - intros qs. apply reverse_Permutation.
  - vm_compute. reflexivity.
Defined.
