(* ===== verification/Iap.v ===== *)
(** * The identity-aware proxy of the client: the rest of [cmd/lgiap/main.go]

    [configure] stores credentials in a file, and every search first trades
    them for a token.  The state is the file system and the requests sent so
    far; the network is a parameter. *)
From S2P Require Import Prelude GoStrings GoPath GoSort GoMap GoJson GoJsonSpec Search Api.

Record iapCreds := mkCreds { ClientID : str; ClientSecret : str; RefreshToken : str; Audience : str }.
#[export] Instance iapCreds_eq_dec : EqDecision iapCreds.
Proof. solve_decision. Defined.

(** The file: the names of the fields are those of the struct. *)
Definition enc_iapCreds (c : iapCreds) : json :=
  JObj [("ClientID", JStr (ClientID c)); ("ClientSecret", JStr (ClientSecret c));
        ("RefreshToken", JStr (RefreshToken c)); ("Audience", JStr (Audience c))]%str.
Definition creds_file (c : iapCreds) : str := EncodeIndent_stream "  "%str (enc_iapCreds c).
Definition zero_creds : iapCreds := mkCreds [] [] [] [].
Definition dec_iapCreds : dec iapCreds :=
  dec_struct (fun l c => let names := ["ClientID"; "ClientSecret"; "RefreshToken"; "Audience"]%str in
    id ← dec_key names l "ClientID"%str dec_str (ClientID c);
    secret ← dec_key names l "ClientSecret"%str dec_str (ClientSecret c);
    token ← dec_key names l "RefreshToken"%str dec_str (RefreshToken c);
    audience ← dec_key names l "Audience"%str dec_str (Audience c);
    Some (mkCreds id secret token audience)).

(** A request: its method, its address with the query of the URL, its form and
    the header [Authorization]. *)
Record http_request := mkHttp { h_Method : str; h_URL : str; h_RawQuery : str; h_Form : values; h_Authorization : str }.
Record world := mkWorld { files : gmap str str; sent : list http_request }.

Inductive IapErr :=
  | ErrArgs | ErrCacheDir | ErrFile | ErrJSON | ErrTransport | ErrStatus (code : Z) (msg : str) | ErrBrowser | ErrTimeout.

Definition I (A : Type) : Type := world -> res IapErr A * world.
#[export] Instance I_ret : MRet I := fun A a w => (Ok a, w).
#[export] Instance I_bind : MBind I := fun A B k m w =>
  match m w with
  | (Ok a, w) => k a w
  | (Err e, w) => (Err e, w)
  | (Panic, w) => (Panic, w)
  end.
Definition give {A} (r : res IapErr A) : I A := fun w => (r, w).

Section iap.
Context `{!GoSort, !GoRange}.
(** The answer of a server: the status and the body; [None] if there is none. *)
Context (Do : http_request -> option (Z * str)) (StatusText : Z -> str).
Context (UserCacheDir : option str).

Definition send (r : http_request) : I (option (Z * str)) := fun w =>
  (Ok (Do r), mkWorld (files w) (sent w ++ [r])).

Definition require2xx (resp : option (Z * str)) : res IapErr str :=
  match resp with
  | None => Err ErrTransport
  | Some (code, body) =>
      if Z.quot code 100 =? 2 then Ok body
      else Err (ErrStatus code (if decide (body = []) then StatusText code else body))
  end.

Definition creds_path (cacheDir : str) : str := Join [cacheDir; "codesearch"%str; "iap-creds.json"%str].

Definition token_request (creds : iapCreds) : http_request :=
  mkHttp "POST"%str "https://oauth2.googleapis.com/token"%str []
    (list_to_map [("client_id"%str, [ClientID creds]); ("client_secret"%str, [ClientSecret creds]);
      ("refresh_token"%str, [RefreshToken creds]); ("grant_type"%str, ["refresh_token"%str]);
      ("audience"%str, [Audience creds])]) [].

Definition getIDToken : I str :=
  cacheDir ← give (or_err ErrCacheDir UserCacheDir);
  data ← (fun w => (or_err ErrFile (files w !! creds_path cacheDir), w));
  creds ← give (or_err ErrJSON (Decode dec_iapCreds zero_creds data));
  resp ← send (token_request creds);
  body ← give (require2xx resp);
  give (or_err ErrJSON (Decode (dec_single "id_token"%str) [] body)).

Definition search_request (idToken q : str) : http_request :=
  mkHttp "GET"%str "https://codesearch.nyt.net/api/v1/search"%str (Encode {[ "q"%str := [q] ]}) ∅
    ("Bearer "%str ++ idToken).
Definition doQuery (idToken q : str) : I str :=
  resp ← send (search_request idToken q);
  give (require2xx resp).

(** The search of [query], up to the reader of its reply. *)
Definition query_text (args : list str) : I str :=
  match args with
  | [] => give (Err ErrArgs)
  | _ => idToken ← getIDToken; doQuery idToken (join " "%str args)
  end.

(** [getRefreshToken]: a browser is sent to the page where the user agrees, and
    that page sends a code to the server the program opened at [srvrURL].
    [code] is what arrives in the time there is, if anything does. *)
Definition auth_url (clientID srvrURL : str) : str :=
  "https://accounts.google.com/o/oauth2/v2/auth?"%str ++
  Encode (list_to_map [("client_id"%str, [clientID]); ("response_type"%str, ["code"%str]);
    ("scope"%str, ["openid email"%str]); ("access_type"%str, ["offline"%str]); ("redirect_uri"%str, [srvrURL])]).
Definition code_request (clientID clientSecret code srvrURL : str) : http_request :=
  mkHttp "POST"%str "https://oauth2.googleapis.com/token"%str []
    (list_to_map [("client_id"%str, [clientID]); ("client_secret"%str, [clientSecret]); ("code"%str, [code]);
      ("grant_type"%str, ["authorization_code"%str]); ("redirect_uri"%str, [srvrURL])]) [].
Definition getRefreshToken (Listen : option str) (open : str -> bool) (code : option str) (clientID clientSecret : str) : I str :=
  srvrURL ← give (or_err ErrTransport Listen);
  _ ← give (if open (auth_url clientID srvrURL) then Ok tt else Err ErrBrowser);
  code ← give (or_err ErrTimeout code);
  resp ← send (code_request clientID clientSecret code srvrURL);
  body ← give (require2xx resp);
  give (or_err ErrJSON (Decode (dec_single "refresh_token"%str) [] body)).

(** [mkdir_ok]: is the directory there, or can it be made? *)
Definition configure (Listen : option str) (open : str -> bool) (code : option str) (mkdir_ok writable : bool)
    (clientID clientSecret iapClientID : str) : I unit :=
  if decide (clientID = [] \/ clientSecret = [] \/ iapClientID = []) then give (Err ErrArgs)
  else
    refreshToken ← getRefreshToken Listen open code clientID clientSecret;
    cacheDir ← give (or_err ErrCacheDir UserCacheDir);
    if negb (mkdir_ok && writable) then give (Err ErrFile)
    else fun w =>
      (Ok tt, mkWorld (<[creds_path cacheDir := creds_file (mkCreds clientID clientSecret refreshToken iapClientID)]> (files w))
                (sent w)).
End iap.

(** * What it promises *)

(** Secrets stay with the server of tokens, and tokens go to the search server
    only. *)
Definition discreet (r : http_request) : Prop :=
  (h_URL r = "https://oauth2.googleapis.com/token"%str /\ h_Authorization r = []) \/
  (h_URL r = "https://codesearch.nyt.net/api/v1/search"%str /\ h_Form r = ∅).

Section promises.
Context `{!GoSort, !GoRange}.
Context (Do : http_request -> option (Z * str)) (StatusText : Z -> str) (cacheDir : str).

(** Credentials whose bytes that are not UTF-8 were replaced. *)
Definition clean_creds (c : iapCreds) : iapCreds :=
  mkCreds (ToValidUTF8 (ClientID c)) (ToValidUTF8 (ClientSecret c)) (ToValidUTF8 (RefreshToken c))
    (ToValidUTF8 (Audience c)).
Lemma creds_file_read c : Decode dec_iapCreds zero_creds (creds_file c) = Some (clean_creds c).
Proof using.
  unfold creds_file. rewrite Decode_EncodeIndent; [|reflexivity|reflexivity|cbn; unfold maxNestingDepth; lia].
  dec_record.
Qed.

Lemma getIDToken_stored w creds :
  files w !! creds_path cacheDir = Some (creds_file creds) ->
  getIDToken Do StatusText (Some cacheDir) w =
  ((body ← require2xx StatusText (Do (token_request (clean_creds creds)));
    or_err ErrJSON (Decode (dec_single "id_token"%str) [] body)),
   mkWorld (files w) (sent w ++ [token_request (clean_creds creds)])).
Proof using.
  intros Hf. unfold getIDToken, give, send, mbind, I_bind. cbn [or_err]. rewrite Hf. cbn [or_err].
  rewrite creds_file_read. cbn [or_err]. by destruct (require2xx _ _).
Qed.

(** What the client makes of an answer: its body, if the status is from 200 to
    299. *)
Definition accepted (resp : option (Z * str)) : res IapErr str :=
  match resp with
  | None => Err ErrTransport
  | Some (code, body) =>
      if decide (200 <= code <= 299) then Ok body
      else Err (ErrStatus code (if decide (body = []) then StatusText code else body))
  end.
Lemma require2xx_accepted resp : require2xx StatusText resp = accepted resp.
Proof using.
  destruct resp as [[code body]|]; [|done]. cbn [require2xx accepted].
  assert (Z.quot code 100 = 2 <-> 200 <= code <= 299) as Hq.
  { split; [intros E; pose proof (Z.quot_rem' code 100); pose proof (Z.rem_bound_abs code 100 ltac:(lia));
      pose proof (Z.rem_bound_pos code 100 ltac:(lia) ltac:(lia)); lia|].
    intros ?. rewrite Z.quot_div_nonneg by lia. symmetry. apply Z.div_unique with (code - 200); lia. }
  destruct (Z.eqb_spec (Z.quot code 100) 2) as [E|E].
  - by rewrite (decide_True (P := 200 <= code <= 299)) by tauto.
  - by rewrite (decide_False (P := 200 <= code <= 299)) by tauto.
Qed.

(** The three requests, spelled out. *)
Definition token_server : str := "https://oauth2.googleapis.com/token"%str.
Definition search_server : str := "https://codesearch.nyt.net/api/v1/search"%str.
Definition the_code_request (clientID clientSecret code redirect : str) : http_request :=
  mkHttp "POST"%str token_server []
    (list_to_map [("client_id"%str, [clientID]); ("client_secret"%str, [clientSecret]); ("code"%str, [code]);
      ("grant_type"%str, ["authorization_code"%str]); ("redirect_uri"%str, [redirect])]) [].
Definition the_token_request (clientID clientSecret refresh audience : str) : http_request :=
  mkHttp "POST"%str token_server []
    (list_to_map [("client_id"%str, [clientID]); ("client_secret"%str, [clientSecret]);
      ("refresh_token"%str, [refresh]); ("grant_type"%str, ["refresh_token"%str]); ("audience"%str, [audience])]) [].


(** Whatever the servers answer, the client secret and the refresh token
    are only sent to the server of tokens, and the token for the proxy only to
    the search server. *)
Theorem query_discreet (args : list str) (w : world) (r : res IapErr str) (w' : world) :
  query_text Do StatusText (Some cacheDir) args w = (r, w') ->
  files w' = files w /\ exists l, sent w' = sent w ++ l /\ Forall discreet l.
Proof.
  unfold query_text, getIDToken, doQuery, give, send, mbind, I_bind. destruct args as [|a args].
  { intros [= _ <-]. split; [done|]. exists []. by rewrite app_nil_r. }
  cbn [or_err]. destruct (files w !! _) as [data|]; cbn [or_err].
  2:{ intros [= _ <-]. split; [done|]. exists []. by rewrite app_nil_r. }
  destruct (Decode dec_iapCreds zero_creds data) as [creds|]; cbn [or_err].
  2:{ intros [= _ <-]. split; [done|]. exists []. by rewrite app_nil_r. }
  assert (discreet (token_request creds)) as Ht by by left.
  destruct (require2xx _ _) as [b| |]; [destruct (Decode _ [] b) as [id|]|..]; cbn [or_err];
    intros [= _ <-]; (split; [done|]);
    try (exists [token_request creds]; by split; [|apply Forall_singleton]).
  exists [token_request creds; search_request id (join " "%str (a :: args))]. cbn [sent].
  split; [by rewrite <- app_assoc|]. apply Forall_cons. split; [done|]. apply Forall_singleton. by right.
Qed.
End promises.

(** ** A run *)
Definition sample_tokens : str :=
  Encode_stream (JObj [("id_token"%str, JStr "id-token"%str); ("refresh_token"%str, JStr "refresh"%str)]).
Definition sample_Do (r : http_request) : option (Z * str) :=
  Some (200, if decide (h_Method r = "POST"%str) then sample_tokens else h_Method r).
Definition sample_world : world := mkWorld ∅ [].

Definition stored_world : world :=
  mkWorld {[ creds_path "c"%str := creds_file (mkCreds "id"%str "secret"%str "r"%str "aud"%str) ]} [].
Lemma query_discreet_witness :
  let w' := (query_text sample_Do (fun _ => []) (Some "c"%str) ["foo"%str] stored_world).2 in
  length (sent w') = 2%nat /\ files w' = files stored_world /\
  exists l, sent w' = sent stored_world ++ l /\ Forall discreet l.
Proof.
  split; [vm_compute; reflexivity|].
  apply (query_discreet sample_Do (fun _ => []) "c"%str ["foo"%str] stored_world (Ok "GET"%str)).
  vm_compute. reflexivity.
Defined.
