(* ===== verification/LgIap.v ===== *)
(** * The whole of [cmd/lgiap/main.go]

    [main] dispatches on the arguments.  A composite query reads its
    composition, gets a token and sends a search for each of its queries, all
    at once: [launch] is the order in which the requests are sent and
    [arrival] the one in which their answers come.  The result is what is
    printed, or the error the program ends with. *)
From S2P Require Import Prelude GoChan GoStrings GoPath GoSort GoMap GoJson GoJsonSpec Search Api.
From S2P Require Import Composite CompositeSpec Iap.

Inductive LgErr := OfIap (e : IapErr) | OfComposite (e : CompositeErr).

Section main.
Context `{!GoSort, !GoRange}.
Context (Do : http_request -> option (Z * str)) (StatusText : Z -> str) (UserCacheDir : option str).
(** The text of an error; the environment; the parts of [configure] that are
    outside; can a temporary directory be made? *)
Context (show_err : IapErr -> str) (Getenv : str -> str).
Context (Listen : option str) (open : str -> bool) (code : option str) (mkdir_ok writable tmp_ok : bool).
Context (launch arrival : list queryExpression -> list queryExpression).

Definition outcome : Type := res LgErr str * world.
Definition ended {E A} (f : E -> LgErr) (r : res E A) (k : A -> res LgErr str) : res LgErr str :=
  match r with Ok a => k a | Err e => Err (f e) | Panic => Panic end.

(** A search with a token, as the goroutine of a query makes it. *)
Definition search_with (token q : str) : str + str :=
  match require2xx StatusText (Do (search_request token q)) with
  | Ok text => inr text | Err e => inl (show_err e) | Panic => inl []
  end.

Definition read_composition (path : str) (w : world) : res LgErr composition :=
  data ← or_err (OfIap ErrFile) (files w !! path);
  or_err (OfIap ErrJSON) (Decode dec_composition zero_composition data).

Definition run_composite (path : str) (w : world) : outcome :=
  match read_composition path w with
  | Err e => (Err e, w)
  | Panic => (Panic, w)
  | Ok c =>
      match mapR (prepare (MaxMatches c)) (Queries c) with
      | Err e => (Err (OfComposite e), w)
      | Panic => (Panic, w)
      | Ok qs =>
          match getIDToken Do StatusText UserCacheDir w with
          | (Err e, w) => (Err (OfIap e), w)
          | (Panic, w) => (Panic, w)
          | (Ok token, w) =>
              if negb tmp_ok then (Err (OfIap ErrFile), w)
              else (ended OfComposite (searched (search_with token) c (arrival qs)) (fun out => Ok (enc_results out)),
                    mkWorld (files w) (sent w ++ ((fun q => search_request token (Query q)) <$> launch qs)))
          end
      end
  end.

Definition run_query (args : list str) (w : world) : outcome :=
  let '(r, w) := query_text Do StatusText UserCacheDir args w in
  (ended OfIap r (fun text => ended OfComposite (query text)
     (fun out => Ok (Encode_stream (JArr (enc_ptr enc_Result <$> out))))), w).

Definition run_configure (w : world) : outcome :=
  let '(r, w) := configure Do StatusText UserCacheDir Listen open code mkdir_ok writable
                   (Getenv "CLIENT_ID"%str) (Getenv "CLIENT_SECRET"%str) (Getenv "IAP_CLIENT_ID"%str) w in
  (ended OfIap r (fun _ => Ok []), w).

Definition lgiap_main (args : list str) (w : world) : outcome :=
  match args with
  | [arg] => if decide (arg = "configure"%str) then run_configure w else run_query args w
  | [arg; path] => if decide (arg = "composite"%str) then run_composite path w else run_query args w
  | _ => run_query args w
  end.
End main.

(** ** A composite query from its file to its output *)
Section composite.
Context `{!GoSort, !GoRange}.
Context (Do : http_request -> option (Z * str)) (StatusText : Z -> str) (cacheDir : str) (show_err : IapErr -> str).

(** The server answers every query of [qs], sent with [token], with the results
    that [found] lists for it. *)
Definition answers (token : str) (found : queryExpression -> list Result) (qs : list queryExpression) : Prop :=
  forall q, q ∈ qs -> exists reply, rs_Results reply = found q /\ int_Reply reply /\
    Do (search_request token (Query q)) = Some (200%Z, Encode_stream (enc_ReplySearch reply)).
Definition replies_of (found : queryExpression -> list Result) (qs : list queryExpression) : list (str * list Result) :=
  (fun q => (Operator q, clean_Result <$> found q)) <$> qs.

Lemma searched_texts token found qs :
  answers token found qs ->
  exists texts, mapR (receive (search_with Do StatusText show_err token)) qs = Ok texts /\
    mapR read_reply texts = Ok (some_all <$> replies_of found qs).
Proof using.
  induction qs as [|q qs IH]; intros Ha; [by exists []|].
  destruct (IH ltac:(intros q' Hq'; apply Ha; by right)) as (texts & Ht & Hr).
  destruct (Ha q ltac:(by left)) as (reply & Hf & Hi & HD). cbn [mapR].
  assert (receive (search_with Do StatusText show_err token) q
          = Ok (Operator q, Encode_stream (enc_ReplySearch reply))) as ->.
  { unfold receive, search_with. by rewrite HD. }
  cbn [mbind res_bind]. rewrite Ht. cbn [mbind res_bind].
  eexists. split; [reflexivity|]. cbn [mapR].
  assert (read_reply (Operator q, Encode_stream (enc_ReplySearch reply))
          = Ok (some_all (Operator q, clean_Result <$> found q))) as ->.
  { unfold read_reply, some_all. cbn [fst snd]. rewrite reply_received by done. cbn.
    by rewrite <- Hf, list_fmap_compose. }
  cbn [mbind res_bind]. by rewrite Hr.
Qed.

Lemma known_replies found qs :
  Forall (fun q => Operator q ∈ knownOperators) qs -> Forall (fun p => p.1 ∈ knownOperators) (replies_of found qs).
Proof using. intros Hk. unfold replies_of. by apply Forall_fmap. Qed.

(** C11: A composite query from its file to its output, whatever the order in
    which its searches are sent and in which they are answered: it gets one
    token, sends one search per query with it, and prints each line that an
    including query found and nothing excludes, once, in the order of
    repository, path and line, as JSON. *)
Theorem run_composite_output (launch arrival : list queryExpression -> list queryExpression)
    (path : str) (w w' : world) (c : composition) (qs : list queryExpression) (token : str)
    (found : queryExpression -> list Result) :
  (forall l, launch l ≡ₚ l) -> (forall l, arrival l ≡ₚ l) ->
  read_composition path w = Ok c ->
  mapR (prepare (MaxMatches c)) (Queries c) = Ok qs ->
  getIDToken Do StatusText (Some cacheDir) w = (Ok token, w') ->
  answers token found qs ->
  exists out w'',
    run_composite Do StatusText (Some cacheDir) show_err true launch arrival path w = (Ok (enc_results out), w'') /\
    (exists searches, sent w'' = sent w' ++ searches /\
       searches ≡ₚ ((fun q => search_request token (Query q)) <$> qs)) /\
    output_ok (VersionAware c) (ExcludeFiles c) (replies_of found qs) out.
Proof using.
  intros Hl Ha Hc Hq Ht Hans. unfold run_composite. rewrite Hc, Hq, Ht. cbn [negb].
  assert (answers token found (arrival qs)) as Hans'.
  { intros q Hin. apply Hans. by rewrite <- (Ha qs). }
  destruct (searched_texts token found (arrival qs) Hans') as (texts & Et & Er).
  pose proof (prepared_known _ _ _ Hq) as Hknown.
  assert (Forall (fun q => Operator q ∈ knownOperators) (arrival qs)) as Hknown' by by rewrite (Ha qs).
  destruct (combine_ok (VersionAware c) (ExcludeFiles c) (replies_of found (arrival qs))
    (known_replies found _ Hknown')) as (out & Ho & Hok).
  assert (searched (search_with Do StatusText show_err token) c (arrival qs) = Ok out) as ->.
  { unfold searched. rewrite Et. cbn [mbind res_bind]. unfold combine in Ho.
    destruct (foldM (gather (VersionAware c)) _ _) as [g| |] eqn:Eg; cbn [mbind res_bind] in Ho; [|done..].
    assert (foldM (read_gather (VersionAware c)) texts (gather_init (ExcludeFiles c)) = Ok g) as ->
      by (apply read_gather_split; eauto). done. }
  exists out. eexists. split; [reflexivity|]. split.
  - eexists. split; [reflexivity|]. by rewrite (Hl qs).
  - eapply output_ok_perm; [|exact Hok]. unfold replies_of. by rewrite (Ha qs).
Qed.
End composite.

(** ** A run: two queries, the second excludes files *)
Definition sample_text : str :=
  dq "{'queries': [{'query': 'foo'}, {'query': 'bar', 'operator': 'exclude_by_file'}], 'max_matches': 50}"%str.
Definition sample_start : world :=
  mkWorld (<["q.json"%str := sample_text]> (files stored_world)) [].
Definition sample_qs : list queryExpression :=
  [mkExpression "foo max_matches:50"%str []; mkExpression "bar max_matches:50"%str "exclude_by_file"%str].
Definition sample_line (path line : str) (n : Z) : Result := mkResult "a/b"%str "HEAD"%str path n [] [] [] line.
Definition sample_found (q : queryExpression) : list Result :=
  if decide (Operator q = []) then [sample_line "y.go"%str "foo"%str 3; sample_line "x.go"%str "foo bar"%str 2]
  else [sample_line "x.go"%str "foo bar"%str 2].
Definition sample_answer (q : queryExpression) : str :=
  Encode_stream (enc_ReplySearch (mkReply zero_Stats (sample_found q) [] [] "normal"%str)).
Definition sample_net (r : http_request) : option (Z * str) :=
  if decide (h_Method r = "POST"%str)
  then Some (200%Z, Encode_stream (JObj [("id_token"%str, JStr "token"%str)]))
  else q ← head (filter (fun q => h_RawQuery (search_request "token"%str (Query q)) = h_RawQuery r) sample_qs);
       Some (200%Z, sample_answer q).

Lemma run_composite_output_witness :
  exists out w'',
    run_composite sample_net (fun _ => []) (Some "c"%str) (fun _ => []) true reverse reverse "q.json"%str sample_start
      = (Ok (enc_results out), w'') /\
    output_ok false [] (replies_of sample_found sample_qs) out /\
    enc_results out = enc_results [sample_line "y.go"%str "foo"%str 3].
Proof.
  assert ((run_composite sample_net (fun _ => []) (Some "c"%str) (fun _ => []) true reverse reverse "q.json"%str
    sample_start).1 = Ok (enc_results [sample_line "y.go"%str "foo"%str 3])) as E by (vm_compute; reflexivity).
  destruct (run_composite_output sample_net (fun _ => []) "c"%str (fun _ => []) reverse reverse "q.json"%str sample_start
    (mkWorld (files sample_start) [token_request (mkCreds "id"%str "secret"%str "r"%str "aud"%str)])
    (mkComposition [Some (mkExpression "foo"%str []); Some (mkExpression "bar"%str "exclude_by_file"%str)] [] false 50)
    sample_qs "token"%str sample_found) as (out & w'' & Hrun & _ & Hok).
  - intros l. apply reverse_Permutation.
  - intros l. apply reverse_Permutation.
  - vm_compute. reflexivity.
  - vm_compute. reflexivity.
  - vm_compute. reflexivity.
  - intros q Hq. exists (mkReply zero_Stats (sample_found q) [] [] "normal"%str). split; [reflexivity|].
    unfold sample_qs in Hq. apply elem_of_cons in Hq as [-> |Hq]; [|apply list_elem_of_singleton in Hq as ->].
    + split; [by_decide|vm_compute; reflexivity].
    + split; [by_decide|vm_compute; reflexivity].
  - exists out, w''. split; [exact Hrun|]. split; [exact Hok|]. rewrite Hrun in E. by injection E.
Defined.
