(* ===== verification/Fetch.v ===== *)
(** * Updating the repositories: [cmd/livegrep-fetch-reindex/main.go]

    [checkoutRepos] hands the configured repositories to a pool of workers
    over channels.  It is a step relation over a state that has the main
    goroutine, the workers and the channels; every interleaving of the program
    is a sequence of its steps. *)
From S2P Require Import Prelude GoStrings GoRegexp GoPath GoChan.

(** ** [checkoutRepos] and [checkoutWorker] *)
Section pool.
Context {E : Type} {Edec : EqDecision E}.
(** How many workers there are, how many repositories, and how the update of
    each ends in this run: with [nil] or with an error. *)
Context (flagNumWorkers : nat) (repos : nat) (checkoutOne : nat -> option E).

Inductive worker :=
  | Select                 (** at the [select] over [c] and [stop] *)
  | Running (r : nat)      (** in [checkoutOne(r)] *)
  | Failing (e : E)        (** at [errc <- err] *)
  | Exited.

Inductive main_pc :=
  | Sending (i : nat)      (** at the [select] of iteration [i], or after the last *)
  | Closing (err : option E)
  | Waiting (err : option E)   (** in [wg.Wait] *)
  | Returned (err : option E).

#[export] Instance worker_eq_dec : EqDecision worker.
Proof using Edec. solve_decision. Defined.

Record pool := mkPool {
  main : main_pc; workers : list worker;
  errc : list E; stop : bool; repoc_closed : bool;
  checked : list nat;      (** the repositories whose update has ended *)
}.

Definition pool_init : pool := mkPool (Sending 0) (replicate flagNumWorkers Select) [] false false [].

Inductive pool_step : pool -> pool -> Prop :=
  | send_repo i w ws ec st rc ch :
      (i < repos)%nat -> ws !! w = Some Select ->
      pool_step (mkPool (Sending i) ws ec st rc ch)
                (mkPool (Sending (S i)) (<[w := Running i]> ws) ec st rc ch)
  | recv_err i e ws ec st rc ch :
      (i < repos)%nat ->
      pool_step (mkPool (Sending i) ws (e :: ec) st rc ch)
                (mkPool (Closing (Some e)) ws ec true rc ch)
  | all_sent ws ec st rc ch :
      pool_step (mkPool (Sending repos) ws ec st rc ch)
                (mkPool (Closing None) ws ec st rc ch)
  | close_repoc err ws ec st rc ch :
      pool_step (mkPool (Closing err) ws ec st rc ch)
                (mkPool (Waiting err) ws ec st true ch)
  | worker_ok m w r ws ec st rc ch :
      ws !! w = Some (Running r) -> checkoutOne r = None ->
      pool_step (mkPool m ws ec st rc ch)
                (mkPool m (<[w := Select]> ws) ec st rc (r :: ch))
  | worker_fail m w r e ws ec st rc ch :
      ws !! w = Some (Running r) -> checkoutOne r = Some e ->
      pool_step (mkPool m ws ec st rc ch)
                (mkPool m (<[w := Failing e]> ws) ec st rc (r :: ch))
  | send_err m w e ws ec st rc ch :
      ws !! w = Some (Failing e) -> (length ec < flagNumWorkers)%nat ->
      pool_step (mkPool m ws ec st rc ch)
                (mkPool m (<[w := Select]> ws) (ec ++ [e]) st rc ch)
  | worker_stop m w ws ec rc ch :
      ws !! w = Some Select ->
      pool_step (mkPool m ws ec true rc ch)
                (mkPool m (<[w := Exited]> ws) ec true rc ch)
  | worker_closed m w ws ec st ch :
      ws !! w = Some Select ->
      pool_step (mkPool m ws ec st true ch)
                (mkPool m (<[w := Exited]> ws) ec st true ch)
  | wait_done err ws ec st rc ch :
      Forall (fun w => w = Exited) ws ->
      pool_step (mkPool (Waiting err) ws ec st rc ch)
                (mkPool (Returned (match ec with e :: _ => Some e | [] => err end))
                        ws (tail ec) st rc ch).

#[local] Hint Constructors pool_step : core.

(** ** Invariants *)
Definition is_running (w : worker) : option nat := match w with Running r => Some r | _ => None end.
Definition is_failing (w : worker) : option E := match w with Failing e => Some e | _ => None end.
Definition main_err (m : main_pc) : option E :=
  match m with Sending _ => None | Closing err | Waiting err | Returned err => err end.
(** How many repositories have been handed out. *)
Definition sent_ok (m : main_pc) (sent : nat) : Prop :=
  (sent <= repos)%nat /\
  match m with
  | Sending i => sent = i
  | Closing None | Waiting None => sent = repos
  | _ => True
  end.
Definition flags_ok (s : pool) : Prop :=
  match main s with
  | Sending _ => stop s = false /\ repoc_closed s = false /\ Forall (fun w => w <> Exited) (workers s)
  | Closing _ => True
  | Waiting _ => repoc_closed s = true
  | Returned _ => Forall (fun w => w = Exited) (workers s)
  end.

(** Before [checkoutRepos] returns, each repository that was handed out is
    with a worker or done, and each error is on its way. *)
Definition accounts_ok (s : pool) : Prop :=
  exists sent,
    sent_ok (main s) sent /\
    omap is_running (workers s) ++ checked s ≡ₚ seq 0 sent /\
    omap is_failing (workers s) ++ option_list (main_err (main s)) ++ errc s
      ≡ₚ omap checkoutOne (checked s).

(** Afterwards: [nil] if every repository was updated, or else the error of
    one of them. *)
Definition outcome_ok (s : pool) (err : option E) : Prop :=
  match err with
  | None => checked s ≡ₚ seq 0 repos /\ forall r, (r < repos)%nat -> checkoutOne r = None
  | Some e => exists r, (r < repos)%nat /\ checkoutOne r = Some e
  end.
Definition pool_inv (s : pool) : Prop :=
  length (workers s) = flagNumWorkers /\ flags_ok s /\
  match main s with Returned err => outcome_ok s err | _ => accounts_ok s end.

Lemma omap_all_exited {A} (f : worker -> option A) ws :
  f Exited = None -> Forall (fun w => w = Exited) ws -> omap f ws = [].
Proof. intros Hf. induction 1 as [|w ws -> _ IH]; simpl; [done|]. by rewrite Hf. Qed.

Lemma omap_replicate_select {A} (f : worker -> option A) n :
  f Select = None -> omap f (replicate n Select) = [].
Proof. intros Hf. induction n as [|n IH]; simpl; [done|]. by rewrite Hf. Qed.

Lemma pool_inv_init : pool_inv pool_init.
Proof.
  split; [cbn; by rewrite length_replicate|split].
  { cbn. repeat split. by apply Forall_replicate. }
  exists 0%nat. unfold sent_ok. cbn. rewrite !omap_replicate_select by done.
  repeat split; simpl; lia || done.
Qed.

(** The accounts after a worker has moved: what it holds has gone to the other
    lists, or come from them. *)
Lemma accounts_worker m w x y ws ec ec' st st' rc rc' ch ch' :
  ws !! w = Some x ->
  option_list (is_running y) ++ ch' ≡ₚ option_list (is_running x) ++ ch ->
  option_list (is_failing y) ++ ec' ++ omap checkoutOne ch
    ≡ₚ option_list (is_failing x) ++ ec ++ omap checkoutOne ch' ->
  accounts_ok (mkPool m ws ec st rc ch) ->
  accounts_ok (mkPool m (<[w := y]> ws) ec' st' rc' ch').
Proof using Edec.
  intros Hw Hr Hf (sent & Hs & Hrun & Hfail). exists sent. split; [done|]. cbn in *. split.
  - apply perm_sum. intros f. pose proof (sum_omap_insert f is_running ws w x y Hw). perm_with f.
  - apply perm_sum. intros f. pose proof (sum_omap_insert f is_failing ws w x y Hw). perm_with f.
Qed.

Lemma checked_bound sent l ch r : l ++ ch ≡ₚ seq 0 sent -> r ∈ ch -> (r < sent)%nat.
Proof.
  intros H Hr. assert (r ∈ seq 0 sent) as Hin by (rewrite <- H; apply elem_of_app; by right).
  apply elem_of_seq in Hin. lia.
Qed.

(** Every error on its way is that of a repository. *)
Lemma accounts_error s e :
  accounts_ok s -> e ∈ option_list (main_err (main s)) ++ errc s -> outcome_ok s (Some e).
Proof.
  intros (sent & [Hs _] & Hrun & Hfail) He.
  assert (e ∈ omap checkoutOne (checked s)) as (r & Hr & Hc)%list_elem_of_omap.
  { rewrite <- Hfail. apply elem_of_app. by right. }
  exists r. split; [|done]. pose proof (checked_bound _ _ _ _ Hrun Hr). lia.
Qed.

Lemma accounts_nil s :
  main s = Waiting None -> Forall (fun w => w = Exited) (workers s) -> errc s = [] ->
  accounts_ok s -> outcome_ok s None.
Proof.
  intros Hm Hw Hec (sent & [_ Hs] & Hrun & Hfail). rewrite Hm in Hs, Hfail. cbn in Hs. subst.
  rewrite !omap_all_exited in * by done. rewrite Hec in Hfail. cbn in Hrun, Hfail.
  split; [done|]. intros r Hr. apply Permutation_nil_l in Hfail.
  assert (r ∈ checked s) as Hin by (rewrite Hrun; apply elem_of_seq; lia).
  destruct (checkoutOne r) as [e|] eqn:Er; [|done]. exfalso.
  assert (e ∈ omap checkoutOne (checked s)) as H by (apply list_elem_of_omap; eauto).
  rewrite <- Hfail in H. by apply elem_of_nil in H.
Qed.

(** The accounts of a state after a step of the main goroutine. *)
Lemma accounts_main m m' ws ec ec' st st' rc rc' ch :
  (forall sent, sent_ok m sent -> sent_ok m' sent) ->
  option_list (main_err m') ++ ec' ≡ₚ option_list (main_err m) ++ ec ->
  accounts_ok (mkPool m ws ec st rc ch) -> accounts_ok (mkPool m' ws ec' st' rc' ch).
Proof.
  intros Hm He (sent & Hs & Hrun & Hfail). exists sent. cbn in *. split; [by apply Hm|].
  split; [done|]. by rewrite He.
Qed.

(** Flags after a worker has moved. *)
Lemma flags_worker m w y ws ec ec' st rc ch ch' :
  (y = Exited -> match m with Sending _ => False | _ => True end) ->
  (forall x, ws !! w = Some x -> x <> Exited) -> is_Some (ws !! w) ->
  flags_ok (mkPool m ws ec st rc ch) -> flags_ok (mkPool m (<[w := y]> ws) ec' st rc ch').
Proof.
  intros Hy Hx [x Hw]. unfold flags_ok. cbn. destruct m; [| done | done|].
  - intros (? & ? & ?). split; [done|]. split; [done|]. apply Forall_insert; [done|]. intros E1; by apply Hy in E1.
  - intros Hall. rewrite Forall_lookup in Hall. exfalso. by eapply Hx, Hall.
Qed.

Lemma pool_inv_worker m w x y ws ec ec' st rc ch ch' :
  ws !! w = Some x -> x <> Exited ->
  (y = Exited -> match m with Sending _ => False | _ => True end) ->
  option_list (is_running y) ++ ch' ≡ₚ option_list (is_running x) ++ ch ->
  option_list (is_failing y) ++ ec' ++ omap checkoutOne ch
    ≡ₚ option_list (is_failing x) ++ ec ++ omap checkoutOne ch' ->
  pool_inv (mkPool m ws ec st rc ch) -> pool_inv (mkPool m (<[w := y]> ws) ec' st rc ch').
Proof using Edec.
  intros Hw Hx Hy Hr Hf (Hlen & Hflags & Hacc). split; [by cbn; rewrite length_insert|].
  assert (match m with Returned _ => False | _ => True end) as Hm.
  { destruct m; try done. cbn in Hflags. rewrite Forall_lookup in Hflags. by apply Hflags in Hw. }
  split.
  - eapply flags_worker; [done| |by eexists|done]. intros x' Hx'. by simplify_eq.
  - cbn in *. destruct m; try done; by eapply accounts_worker.
Qed.

Lemma pool_inv_step s s' : pool_inv s -> pool_step s s' -> pool_inv s'.
Proof using Edec.
  intros Hinv Hstep. destruct Hstep.
  - destruct Hinv as (Hlen & (? & ? & ?) & sent & [Hs Hs'] & Hrun & Hfail). cbn in *. subst.
    split; [by cbn; rewrite length_insert|].
    split; [split; [done|split; [done|by apply Forall_insert]]|].
    exists (S i). split; [by split; [lia|]|]. cbn.
    pose proof (seq_S i 0) as Eseq. cbn in Eseq. rewrite Eseq. split.
    + apply perm_sum. intros f. pose proof (sum_omap_insert f is_running ws w _ (Running i) H0). perm_with f.
    + apply perm_sum. intros f. pose proof (sum_omap_insert f is_failing ws w _ (Running i) H0). perm_with f.
  - destruct Hinv as (Hlen & _ & Hacc). split; [done|]. split; [done|].
    apply (accounts_main (Sending i) _ _ (e :: ec) _ st _ rc); [unfold sent_ok; tauto|done|exact Hacc].
  - destruct Hinv as (Hlen & _ & Hacc). split; [done|]. split; [done|].
    apply (accounts_main (Sending repos) _ _ ec _ st _ rc); [unfold sent_ok; tauto|done|exact Hacc].
  - destruct Hinv as (Hlen & _ & Hacc). split; [done|]. split; [done|].
    apply (accounts_main (Closing err) _ _ ec _ st _ rc); [unfold sent_ok; tauto|done|exact Hacc].
  - eapply pool_inv_worker; [done|done|done| | |done]; cbn; [done|]. by rewrite H0.
  - eapply pool_inv_worker; [done|done|done| | |done]; cbn; [done|]. rewrite H0. perm.
  - eapply pool_inv_worker; [done|done|done| | |done]; cbn; [done|]. perm.
  - eapply pool_inv_worker; [done|done| | | |done]; cbn; [|done|done].
    destruct m; [|done..]. destruct Hinv as (_ & (? & _) & _). done.
  - eapply pool_inv_worker; [done|done| | | |done]; cbn; [|done|done].
    destruct m; [|done..]. destruct Hinv as (_ & (_ & ? & _) & _). done.
  - destruct Hinv as (Hlen & _ & Hacc). split; [done|]. split; [done|]. cbn [main workers] in *.
    destruct ec as [|e ec].
    + destruct err as [e|].
      * eapply (accounts_error (mkPool (Waiting (Some e)) _ _ _ _ _)); [exact Hacc|]. by left.
      * by eapply (accounts_nil (mkPool (Waiting None) _ _ _ _ _)).
    + eapply (accounts_error (mkPool (Waiting err) _ _ _ _ _)); [exact Hacc|].
      apply elem_of_app. right. by left.
Qed.
End pool.

Arguments worker : clear implicits.
Arguments main_pc : clear implicits.
Arguments pool : clear implicits.
