(* ===== verification/FetchSpec.v ===== *)
(** * What the pool of workers promises

    [checkoutRepos] implements "update every repository, and return [nil] or
    the error of one": for every interleaving, and without ever blocking if
    there are no more failing repositories than workers.  With one more it can
    block for ever. *)
From S2P Require Import Prelude GoChan Fetch.

Section pool.
Context {E : Type} {Edec : EqDecision E}.
Context (N n : nat) (co : nat -> option E).
Abbreviation step := (pool_step N n co).

Lemma omap_seq_le sent l ch :
  (sent <= n)%nat -> l ++ ch ≡ₚ seq 0 sent ->
  (length (omap co ch) <= length (omap co (seq 0 n)))%nat.
Proof.
  intros Hs H. assert (omap co (l ++ ch) ≡ₚ omap co (seq 0 sent)) as Hp by (by rewrite H).
  rewrite omap_app in Hp. apply Permutation_length in Hp. rewrite length_app in Hp.
  replace n with (sent + (n - sent))%nat by lia. rewrite seq_app, omap_app, length_app. lia.
Qed.

(** There is room for the error of a worker that has one. *)
Lemma room_for_error s w e :
  (length (omap co (seq 0 n)) <= N)%nat -> accounts_ok n co s ->
  workers s !! w = Some (Failing e) -> (length (errc s) < N)%nat.
Proof.
  intros HN (sent & [Hs _] & Hrun & Hfail) Hw. pose proof (omap_seq_le _ _ _ Hs Hrun).
  apply Permutation_length in Hfail. rewrite !length_app in Hfail.
  assert (e ∈ omap is_failing (workers s)) as He by (by eapply omap_lookup_elem).
  destruct (omap is_failing (workers s)); [by apply elem_of_nil in He|]. simpl in Hfail. lia.
Qed.

(** A worker that has not exited can move, unless it waits for the main
    goroutine. *)
Lemma worker_moves s w x :
  (length (omap co (seq 0 n)) <= N)%nat -> accounts_ok n co s ->
  workers s !! w = Some x -> x <> Exited -> x <> Select -> red step s.
Proof.
  intros HN Hacc Hw Hx Hx'. destruct s as [m ws ec st rc ch]. cbn in *.
  destruct x as [|r|e|]; [done| | |done].
  - destruct (co r) as [e|] eqn:Er; eexists; [by eapply worker_fail|by eapply worker_ok].
  - eexists. eapply send_err; [done|]. by eapply (room_for_error (mkPool m ws ec st rc ch)).
Qed.

Lemma pool_progress s :
  (0 < N)%nat -> (length (omap co (seq 0 n)) <= N)%nat -> pool_inv N n co s ->
  (exists err, main s = Returned err) \/ red step s.
Proof using Edec.
  intros HN0 HN (Hlen & Hflags & Hacc). destruct s as [m ws ec st rc ch]. cbn in *.
  destruct m as [i|err|err|err]; [..|by left; eexists]; right.
  - destruct Hacc as (sent & [Hs Hs'] & Hrest). cbn in *. subst sent.
    destruct (decide (i = n)) as [-> |Hn]; [eexists; apply all_sent|].
    destruct ws as [|w ws]; [simpl in Hlen; lia|]. destruct Hflags as (_ & _ & Hex).
    apply Forall_cons in Hex as [Hw _]. destruct (decide (w = Select)) as [-> |Hsel].
    + eexists. apply (send_repo _ _ _ _ 0); [lia|done].
    + eapply (worker_moves (mkPool _ (w :: ws) _ _ _ _) 0); [done| |done..].
      by exists i.
  - eexists. apply close_repoc.
  - cbn in Hflags. subst rc. destruct (goroutine_dec (fun w => w = Exited) ws) as [Hall|(w & x & Hw & Hx)].
    + eexists. by apply wait_done.
    + destruct (decide (x = Select)) as [-> |Hsel]; [eexists; by eapply worker_closed|].
      by eapply (worker_moves (mkPool _ ws _ _ _ _)).
Qed.

(** What a worker, and the main goroutine, still have to do. *)
Definition work (w : worker E) : nat :=
  match w with Select => 1 | Running _ => 3 | Failing _ => 2 | Exited => 0 end.
Definition main_work (m : main_pc E) : nat :=
  match m with
  | Sending i => 3 + 3 * (n - i)
  | Closing _ => 2 | Waiting _ => 1 | Returned _ => 0
  end.
Definition total_work (s : pool E) : nat := main_work (main s) + sum_list_with work (workers s).

Lemma pool_work s s' : pool_inv N n co s -> step s s' -> (total_work s' < total_work s)%nat.
Proof.
  intros (_ & _ & Hacc) Hs. unfold total_work. destruct Hs; cbn [main workers main_work] in *;
    try match goal with H : ?ws !! ?w = Some ?x |- context [<[_ := ?y]> ?ws] =>
      pose proof (sum_list_insert work ws w x y H) end; cbn [work] in *; lia.
Qed.
End pool.

(** ** A pool that blocks *)
Section deadlock.
Context {E : Type} {Edec : EqDecision E} (N : nat) (co : nat -> option E).
Context (Hfail : forall r, (r <= N)%nat -> is_Some (co r)).
Abbreviation step := (pool_step N (S N) co).

(** The main goroutine hands out [k] repositories to the first worker rather
    than receive the errors, which stay in the buffer. *)
Lemma fill_buffer ws k :
  (k <= N)%nat -> exists ec ch, length ec = k /\
    rtc step (mkPool (Sending 0) (Select :: ws) [] false false [])
             (mkPool (Sending k) (Select :: ws) ec false false ch).
Proof using Hfail.
  induction k as [|k IH]; intros Hk; [by exists [], []|].
  destruct IH as (ec & ch & Hec & Hr); [lia|].
  destruct (Hfail k) as [e He]; [lia|].
  exists (ec ++ [e]), (k :: ch). split; [rewrite length_app; simpl; lia|].
  etransitivity; [exact Hr|].
  eapply rtc_l; [by apply (send_repo _ _ _ _ 0); [lia|]|]. simpl.
  eapply rtc_l; [by apply (worker_fail _ _ _ _ 0 k e)|]. simpl.
  eapply rtc_l; [by apply (send_err _ _ _ _ 0 e); [|simpl; lia]|]. done.
Qed.

(** The idle workers leave once the channel is closed. *)
Lemma idle_exit m pre k ec ch :
  rtc step (mkPool m (pre ++ replicate k Select) ec false true ch)
           (mkPool m (pre ++ replicate k Exited) ec false true ch).
Proof.
  revert pre. induction k as [|k IH]; intros pre; [done|]. simpl.
  eapply rtc_l; [apply (worker_closed _ _ _ _ (length pre)); by rewrite list_lookup_middle|].
  rewrite insert_app_r_alt, Nat.sub_diag by done. simpl.
  rewrite !(cons_middle Exited), !app_assoc. apply IH.
Qed.
End deadlock.

(** C12: whatever the interleaving, when [checkoutRepos] returns [nil], every
    repository has been checked out exactly once and without an error; when it
    returns an error, it is the error of one of the repositories. *)
Theorem checkoutRepos_result {E} `{!EqDecision E} (flagNumWorkers repos : nat)
    (checkoutOne : nat -> option E) (s : pool E) (err : option E) :
  rtc (pool_step flagNumWorkers repos checkoutOne) (pool_init flagNumWorkers) s ->
  main s = Returned err ->
  match err with
  | None => checked s ≡ₚ seq 0 repos /\ forall r, (r < repos)%nat -> checkoutOne r = None
  | Some e => exists r, (r < repos)%nat /\ checkoutOne r = Some e
  end.
Proof.
  intros Hr Hm. assert (pool_inv flagNumWorkers repos checkoutOne s) as (_ & _ & H).
  { eapply rtc_inv; [apply pool_inv_step|apply pool_inv_init|done]. }
  by rewrite Hm in H.
Qed.

(** C19: with at least one worker and at most as many failing repositories as
    workers, every run of [checkoutRepos] ends with a return: no interleaving
    blocks or goes on for ever. *)
Theorem checkoutRepos_returns {E} `{!EqDecision E} (flagNumWorkers repos : nat)
    (checkoutOne : nat -> option E) :
  (0 < flagNumWorkers)%nat ->
  (length (omap checkoutOne (seq 0 repos)) <= flagNumWorkers)%nat ->
  always_ends (pool_step flagNumWorkers repos checkoutOne)
    (fun s => exists err, main s = Returned err) (pool_init flagNumWorkers).
Proof.
  intros HN Hfail. eapply (always_ends_intro _ (pool_inv flagNumWorkers repos checkoutOne)).
  - apply pool_inv_step.
  - apply pool_work.
  - intros s. by apply pool_progress.
  - apply pool_inv_init.
Qed.

(** If all repositories fail and there is one more of them than workers, a
    run reaches a state in which nothing can move: the buffer of errors is
    full, a worker waits to send another error, and [checkoutRepos] waits for
    that worker. *)
Theorem checkoutRepos_blocks {E} `{!EqDecision E} (flagNumWorkers : nat) (checkoutOne : nat -> option E) :
  (0 < flagNumWorkers)%nat -> (forall r, (r <= flagNumWorkers)%nat -> is_Some (checkoutOne r)) ->
  exists s,
    rtc (pool_step flagNumWorkers (S flagNumWorkers) checkoutOne) (pool_init flagNumWorkers) s /\
    nf (pool_step flagNumWorkers (S flagNumWorkers) checkoutOne) s /\
    main s = Waiting None.
Proof.
  intros HN Hfail. destruct flagNumWorkers as [|N]; [lia|].
  destruct (fill_buffer (S N) checkoutOne Hfail (replicate N Select) (S N)) as (ec & ch & Hec & Hr); [done|].
  destruct (Hfail (S N)) as [e He]; [done|].
  exists (mkPool (Waiting None) (Failing e :: replicate N Exited) ec false true (S N :: ch)).
  split; [|split; [|done]].
  - etransitivity; [exact Hr|].
    eapply rtc_l; [by apply (send_repo _ _ _ _ 0); [lia|]|]. simpl.
    eapply rtc_l; [by apply (worker_fail _ _ _ _ 0 (S N) e)|]. simpl.
    eapply rtc_l; [apply all_sent|]. eapply rtc_l; [apply close_repoc|].
    apply (idle_exit _ _ _ [Failing e]).
  - intros [s' Hs]. inversion Hs; subst;
      try match goal with H : (_ :: replicate _ _) !! ?w = Some _ |- _ =>
        destruct w as [|w]; simpl in H; [simplify_eq; lia|apply lookup_replicate_1 in H as [? _]; done] end.
    match goal with H : Forall _ _ |- _ => apply Forall_cons in H as [H _]; done end.
Qed.

(** A run with one worker and one repository. *)
Lemma checkoutRepos_result_witness :
  exists s, rtc (pool_step 1 1 (fun _ => @None str)) (pool_init 1) s /\ main s = Returned None /\
    checked s ≡ₚ [0%nat].
Proof.
  set (co := fun _ : nat => @None str).
  assert (rtc (pool_step 1 1 co) (pool_init 1)
            (mkPool (Returned None) [Exited] [] false true [0%nat])) as Hr.
  { eapply rtc_l; [apply (send_repo _ _ _ _ 0); [lia|reflexivity]|]. simpl.
    eapply rtc_l; [apply (worker_ok _ _ _ _ 0 0); reflexivity|]. simpl.
    eapply rtc_l; [apply all_sent|]. eapply rtc_l; [apply close_repoc|].
    eapply rtc_l; [apply (worker_closed _ _ _ _ 0); reflexivity|]. simpl.
    eapply rtc_l; [apply wait_done; repeat constructor|]. apply rtc_refl. }
  eexists. split; [exact Hr|]. split; [reflexivity|].
  exact (proj1 (checkoutRepos_result 1 1 co _ None Hr eq_refl)).
Defined.

Lemma checkoutRepos_returns_witness :
  always_ends (pool_step 8 3 (fun r => if decide (r = 1)%nat then Some "denied"%str else None))
    (fun s => exists err, main s = Returned err) (pool_init 8).
Proof. apply checkoutRepos_returns; [lia|vm_compute; lia]. Defined.

Lemma checkoutRepos_blocks_witness :
  exists s, rtc (pool_step 8 9 (fun _ => Some "denied"%str)) (pool_init 8) s /\
    nf (pool_step 8 9 (fun _ => Some "denied"%str)) s /\ main s = Waiting None.
Proof. apply (checkoutRepos_blocks 8); [lia|intros r _; eexists; reflexivity]. Defined.
