(* ===== verification/Checkout.v ===== *)
(** * Updating one repository: [checkoutOne] of [cmd/livegrep-fetch-reindex/main.go]

    The commands run on a world [W] of which the program knows nothing but
    what they print: [git], the file system and the environment are parameters
    of the section.  A step is a function of the world into a result and the
    next world. *)
From S2P Require Import Prelude GoStrings Config GoRegexp.

(** What an error is about: no remote (line 292), a command that failed
    (284), the credentials (242, 261, 298), a file (308), the answer to
    [ls-remote] (378). *)
Inductive CheckoutErr := ErrNoRemote | ErrCommand | ErrCredentials | ErrFiles | ErrRemoteHead.
#[export] Instance CheckoutErr_eq_dec : EqDecision CheckoutErr.
Proof. solve_decision. Defined.

(** A [git] command: its arguments, and the user and the password in its
    environment. *)
Record cmd := mkCmd { c_args : list str; c_user : str; c_password : str }.
Definition plain (args : list str) : cmd := mkCmd args [] [].

(** How a command ends: [err == nil], an [*exec.ExitError], or another error. *)
Inductive exit := Success (out : str) | ExitError (out : str) | NotRun.

(** [strings.Trim] with an ASCII cut set. *)
Fixpoint drop_bytes (f : ascii -> bool) (s : str) : str :=
  match s with [] => [] | c :: t => if f c then drop_bytes f t else s end.
Definition Trim (cutset s : str) : str :=
  let f c := bool_decide (c ∈ cutset) in
  reverse (drop_bytes f (reverse (drop_bytes f s))).

(** "ref:", the name after any space, and "HEAD" after any space. *)
Definition remoteHeadRefExtractorReg : re :=
  RSeq [RLit "ref:"%str; RStar true (RChr class_s); RGroup 1 (RStar true (RChr (class_not class_s)));
        RStar true (RChr class_s); RLit "HEAD"%str].

Section checkout.
Context {W : Type}.
Context (git : cmd -> W -> exit * W) (TempFile : W -> option str * W) (Pipe : W -> bool * W)
  (Getenv : str -> str) (RemoveAll MkdirAll : str -> W -> bool * W).

Definition M (A : Type) : Type := W -> res CheckoutErr A * W.
#[export] Instance M_ret : MRet M := fun A a w => (Ok a, w).
#[export] Instance M_bind : MBind M := fun A B k m w =>
  match m w with
  | (Ok a, w) => k a w
  | (Err e, w) => (Err e, w)
  | (Panic, w) => (Panic, w)
  end.
Definition throw {A} (e : CheckoutErr) : M A := fun w => (Err e, w).
Definition lift {A} (r : res CheckoutErr A) : M A := fun w => (r, w).
(** A call whose failure is an error. *)
Definition must (e : CheckoutErr) (f : W -> bool * W) : M unit := fun w =>
  let '(ok, w) := f w in (if ok then Ok () else Err e, w).
Definition run (c : cmd) : M exit := fun w => let '(e, w) := git c w in (Ok e, w).
Definition run_ok (c : cmd) : M str :=
  e ← run c; match e with Success out => mret out | _ => throw ErrCommand end.

(** The loop of [callGitInternal]: up to [n] more attempts. *)
Fixpoint attempts (n : nat) (c : cmd) : M str :=
  match n with
  | O => throw ErrCommand
  | S n =>
      _ ← (if decide (c_password c = []) then mret () else must ErrCredentials Pipe);
      e ← run c;
      match e with Success out => mret out | _ => attempts n c end
  end.

Definition callGitInternal (args : list str) (username password : str) (returnOutput : bool) : M str :=
  args ← (if decide (username = [] /\ password = []) then mret args
          else fun w => match TempFile w with
                        | (Some f, w) => (Ok (["-c"%str; "credential.helper="%str ++ f] ++ args), w)
                        | (None, w) => (Err ErrCredentials, w)
                        end);
  out ← attempts 3 (mkCmd args username password);
  mret (if returnOutput then out else []).
Definition callGit (args : list str) (username password : str) : M unit :=
  _ ← callGitInternal args username password false; mret ().
Definition callGetGetOutput (args : list str) (username password : str) : M str :=
  callGitInternal args username password true.

(** The two functions of an [errgroup]: both run, in either order, and the
    error of the one that failed first is returned. *)
Definition both {A B} (first : bool) (a : M A) (b : M B) : M (A * B) :=
  if first then fun w =>
    let '(ra, w) := a w in let '(rb, w) := b w in ((x ← ra; y ← rb; Ok (x, y)), w)
  else fun w =>
    let '(rb, w) := b w in let '(ra, w) := a w in ((y ← rb; x ← ra; Ok (x, y)), w).

Definition depth_args (o : option CloneOptions) : list str :=
  match o with
  | Some o => if decide (Depth o = 0) then [] else ["--depth="%str ++ Itoa (Depth o)]
  | None => []
  end.
Definition credentials (o : option CloneOptions) : str * str :=
  match o with Some o => (Username o, Getenv (PasswordEnv o)) | None => ([], []) end.

(** A repository that is not there yet, or is not bare, is cloned. *)
Definition clone (r : RepoSpec) (remote : str) : M unit :=
  let '(username, password) := credentials (rs_CloneOptions r) in
  _ ← must ErrFiles (RemoveAll (rs_Path r));
  _ ← must ErrFiles (MkdirAll (rs_Path r));
  callGit (["clone"%str; "--mirror"%str] ++ depth_args (rs_CloneOptions r) ++ [remote; rs_Path r])
    username password.

(** Set the local head to that of the remote. *)
Definition update_head (r : RepoSpec) (remoteOut : str) : M unit :=
  let remoteOutClean := TrimSpace remoteOut in
  if decide (remoteOutClean = []) then mret ()
  else
    currHeadOut ← run_ok (plain ["--git-dir"%str; rs_Path r; "symbolic-ref"%str; "HEAD"%str]);
    let currHead := TrimSpace currHeadOut in
    match find remoteHeadRefExtractorReg remoteOutClean with
    | None => throw ErrRemoteHead
    | Some submatches =>
        let remoteHead := TrimSpace (group submatches 1) in
        if decide (currHead = remoteHead) then mret ()
        else _ ← run_ok (plain ["--git-dir"%str; rs_Path r; "symbolic-ref"%str; "HEAD"%str; remoteHead]);
             mret ()
    end.

Definition fetch (first : bool) (r : RepoSpec) (remote : str) : M unit :=
  let '(username, password) := credentials (rs_CloneOptions r) in
  _ ← run_ok (plain ["-C"%str; rs_Path r; "remote"%str; "set-url"%str; "origin"%str; remote]);
  '(_, remoteOut) ← both first
    (callGit (["--git-dir"%str; rs_Path r; "fetch"%str; "-p"%str] ++ depth_args (rs_CloneOptions r))
       username password)
    (callGetGetOutput ["--git-dir"%str; rs_Path r; "ls-remote"%str; "--symref"%str; "origin"%str; "HEAD"%str]
       username password);
  update_head r remoteOut.

Definition checkoutOne (first : bool) (r : RepoSpec) : M unit :=
  md ← lift (deref (rs_Metadata r));
  let remote := Remote md in
  if decide (remote = []) then throw ErrNoRemote
  else
    e ← run (plain ["-C"%str; rs_Path r; "rev-parse"%str; "--is-bare-repository"%str]);
    match e with
    | NotRun => throw ErrCommand
    | Success out | ExitError out =>
        if decide (Trim (" "%char :: [LF]) out = "true"%str)
        then fetch first r remote else clone r remote
    end.
End checkout.
