(* ===== verification/CheckoutSpec.v ===== *)
(** * What an update promises: the local HEAD follows the remote one

    What git documents of the three commands that matter is an interface;
    [checkoutOne] is proved against it. *)
From S2P Require Import Prelude GoStrings Config GoRegexp Checkout.

Definition TAB : ascii := "009"%char.

(** What [git ls-remote --symref origin HEAD] prints. *)
Definition symref_output (ref oid : str) : str :=
  "ref: "%str ++ ref ++ [TAB] ++ "HEAD"%str ++ [LF] ++ oid ++ [TAB] ++ "HEAD"%str ++ [LF].

(** A name of a ref: ASCII, and no space in it. *)
Definition ref_name (ref : str) : Prop := ref <> [] /\ forallb plain_byte ref = true.

Lemma TrimSpace_newline s : ends_plain s -> TrimSpace (s ++ [LF]) = s.
Proof.
  intros [(c & Hc & Hpc) (d & Hd & Hpd)]. unfold TrimSpace.
  rewrite (trim_left_plain _ c) by (by destruct s). unfold trim_right_space.
  rewrite reverse_app, reverse_singleton, length_app, Nat.add_comm. cbn [length Nat.add app].
  assert (forall r, strip_space1 (reverse <$> space_encodings) (LF :: r) = Some r) as Hs.
  { intros r. reflexivity. }
  cbn [strip_spaces]. rewrite Hs.
  rewrite (strip_last_plain _ _ d) by done. apply reverse_involutive.
Qed.

Lemma plain_byte_facts c :
  plain_byte c = true -> is_ascii c = true /\ class_s (byte_val c) = false.
Proof.
  unfold plain_byte, is_ascii, class_s. intros [Ha Hs]%andb_true_iff. split; [done|].
  apply bool_decide_eq_false. apply negb_true_iff, bool_decide_eq_false in Hs. intros H. apply Hs.
  rewrite !elem_of_cons in *. tauto.
Qed.

Lemma spans_plain s : forallb plain_byte s = true -> Forall (spans (class_not class_s)) s.
Proof.
  rewrite forallb_forall. intros H. apply Forall_forall. intros c Hc.
  destruct (plain_byte_facts c) as [Ha Hs]; [by apply H, list_elem_of_In|].
  unfold spans, class_not. by rewrite Ha, Hs.
Qed.

(** The name is read out of that output. *)
Lemma find_symref ref rest :
  ref_name ref ->
  exists m, find remoteHeadRefExtractorReg ("ref: "%str ++ ref ++ [TAB] ++ "HEAD"%str ++ rest) = Some m /\
    group m 1 = ref.
Proof.
  intros [Hne Hplain]. set (tail := [TAB] ++ "HEAD"%str ++ rest).
  exists (Mtch ("ref: "%str ++ ref ++ tail) rest [(1%nat, (ref ++ tail, tail))]). split.
  - apply search_here. unfold match_at, remoteHeadRefExtractorReg, RSeq. cbn [foldr].
    rewrite mt_cat. change ("ref: "%str ++ ref ++ tail) with ("ref:"%str ++ " "%str ++ ref ++ tail).
    rewrite mt_lit_app by done. rewrite mt_cat.
    apply mt_star_class; [by repeat constructor| |].
    { destruct ref as [|c ref]; [done|]. apply andb_true_iff in Hplain as [Hc _].
      by apply plain_byte_facts in Hc. }
    rewrite mt_cat, mt_group. apply mt_star_class; [by apply spans_plain|done|].
    rewrite mt_cat. unfold tail. apply mt_star_class; [by repeat constructor|done|].
    rewrite mt_cat, mt_lit_app by done. done.
  - unfold group, group_opt. cbn -[upto]. rewrite decide_True by done. cbn -[upto].
    by rewrite upto_app.
Qed.

Lemma symref_plain ref oid :
  ref_name ref -> ends_plain ("ref: "%str ++ ref ++ [TAB] ++ "HEAD"%str ++ [LF] ++ oid ++ [TAB] ++ "HEAD"%str).
Proof.
  intros _. rewrite !app_assoc. apply ends_plain_app; [by exists "r"%char|by exists "D"%char].
Qed.

Lemma ends_plain_name ref : ref_name ref -> ends_plain ref.
Proof.
  intros [Hne Hplain]. split.
  - destruct ref as [|c ref]; [done|]. exists c. split; [done|].
    by apply andb_true_iff in Hplain as [? _].
  - destruct ref as [|c ref _] using rev_ind; [done|]. exists c. rewrite reverse_snoc. split; [done|].
    rewrite forallb_app in Hplain. apply andb_true_iff in Hplain as [_ Hc].
    simpl in Hc. by rewrite andb_true_r in Hc.
Qed.

Section head.
Context {W : Type}.
Context (git : cmd -> W -> exit * W) (TempFile : W -> option str * W) (Pipe : W -> bool * W)
  (Getenv : str -> str) (RemoveAll MkdirAll : str -> W -> bool * W).
Abbreviation M := (@M W).

Lemma bind_ok {A B} (m : M A) (k : A -> M B) w b w' :
  (m ≫= k) w = (Ok b, w') -> exists a w1, m w = (Ok a, w1) /\ k a w1 = (Ok b, w').
Proof. unfold mbind, M_bind. destruct (m w) as [[a|e|] w1]; [|done..]. eauto. Qed.

Lemma run_ok_inv c w out w' : run_ok git c w = (Ok out, w') -> git c w = (Success out, w').
Proof.
  intros (e & w1 & H1 & H2)%bind_ok. unfold run in H1. destruct (git c w) as [e' w2].
  simplify_eq. destruct e; inversion H2; by subst.
Qed.

(** A call that returns ran the command with success, at the last attempt. *)
Lemma attempts_ok n c w out w' :
  attempts git Pipe n c w = (Ok out, w') -> exists w1, git c w1 = (Success out, w').
Proof.
  revert w. induction n as [|n IH]; intros w H; [done|].
  apply bind_ok in H as (_ & w1 & _ & (e & w2 & H1 & H2)%bind_ok).
  unfold run in H1. destruct (git c w1) as [e' w3] eqn:E. simplify_eq.
  destruct e; [|by eapply IH..]. inversion H2; subst. by exists w1.
Qed.

Lemma callGetGetOutput_ok args user pass w out w' :
  callGetGetOutput git TempFile Pipe args user pass w = (Ok out, w') ->
  exists pre w1, git (mkCmd (pre ++ args) user pass) w1 = (Success out, w').
Proof.
  intros (args' & w1 & H1 & (o & w2 & [w3 H2]%attempts_ok & H3)%bind_ok)%bind_ok.
  inversion H3; subst. case_decide.
  - inversion H1; subst. by exists [], w3.
  - destruct (TempFile w) as [[f|] w4]; simplify_eq. by exists ["-c"%str; "credential.helper="%str ++ f], w3.
Qed.

Lemma both_ok {A B} first (a : M A) (b : M B) w x y w' :
  both first a b w = (Ok (x, y), w') -> exists w1 w2, b w1 = (Ok y, w2).
Proof.
  unfold both. destruct first.
  - destruct (a w) as [ra w1]. destruct (b w1) as [rb w2] eqn:Eb.
    destruct ra, rb; intros; simplify_eq/=. eauto.
  - destruct (b w) as [rb w1] eqn:Eb. destruct (a w1) as [ra w2].
    destruct ra, rb; intros; simplify_eq/=. eauto.
Qed.

(** What git documents of the commands: [symbolic-ref HEAD] prints the ref the
    HEAD of a repository names, or sets it, and [ls-remote --symref] prints
    that of the remote, if it has one. *)
Class GitRefs (head : str -> W -> str) (remote_ref : option str) : Prop := {
  read_head path w out w' :
    git (plain ["--git-dir"%str; path; "symbolic-ref"%str; "HEAD"%str]) w = (Success out, w') ->
    out = head path w' ++ [LF] /\ ref_name (head path w');
  write_head path ref w out w' :
    git (plain ["--git-dir"%str; path; "symbolic-ref"%str; "HEAD"%str; ref]) w = (Success out, w') ->
    head path w' = ref;
  remote_head pre path user pass w out w' :
    git (mkCmd (pre ++ ["--git-dir"%str; path; "ls-remote"%str; "--symref"%str; "origin"%str; "HEAD"%str])
               user pass) w = (Success out, w') ->
    exists oid, out = match remote_ref with Some ref => symref_output ref oid | None => [] end;
}.

Context (head : str -> W -> str) (remote_ref : option str) `{!GitRefs head remote_ref}.

Lemma update_head_ok r ref oid w w' :
  ref_name ref -> update_head git r (symref_output ref oid) w = (Ok (), w') ->
  head (rs_Path r) w' = ref.
Proof using GitRefs0 remote_ref.
  intros Href. unfold update_head.
  assert (TrimSpace (symref_output ref oid) =
    "ref: "%str ++ ref ++ [TAB] ++ "HEAD"%str ++ [LF] ++ oid ++ [TAB] ++ "HEAD"%str) as ->.
  { unfold symref_output. rewrite <- (TrimSpace_newline _ (symref_plain ref oid Href)). f_equal.
    by rewrite <- !app_assoc. }
  rewrite decide_False by done.
  intros (out & w1 & [-> Hname]%run_ok_inv%read_head & H2)%bind_ok.
  destruct (find_symref ref ([LF] ++ oid ++ [TAB] ++ "HEAD"%str) Href) as (m & Hm & Hg).
  rewrite Hm, Hg, (TrimSpace_newline _ (ends_plain_name _ Hname)),
    (TrimSpace_ends _ (ends_plain_name _ Href)) in H2.
  destruct (decide _) as [E|E].
  - inversion H2; by subst.
  - apply bind_ok in H2 as (o & w2 & H3%run_ok_inv%write_head & H4). inversion H4; by subst.
Qed.
End head.

(** C14: an update that succeeds on a repository that is there leaves its HEAD
    naming the same ref as the HEAD of the remote, whichever of the two
    concurrent commands ends first, and however often they are tried again. *)
Theorem checkoutOne_head {W} (git : cmd -> W -> exit * W) (TempFile : W -> option str * W)
    (Pipe : W -> bool * W) (Getenv : str -> str) (RemoveAll MkdirAll : str -> W -> bool * W)
    (head : str -> W -> str) (ref : str) (first : bool) (r : RepoSpec) (w w1 w' : W) :
  GitRefs git head (Some ref) -> ref_name ref ->
  git (plain ["-C"%str; rs_Path r; "rev-parse"%str; "--is-bare-repository"%str]) w
    = (Success ("true"%str ++ [LF]), w1) ->
  checkoutOne git TempFile Pipe Getenv RemoveAll MkdirAll first r w = (Ok (), w') ->
  head (rs_Path r) w' = ref.
Proof.
  intros Hgit Href Hbare (md & w2 & H1 & H2)%bind_ok. unfold lift in H1.
  destruct (rs_Metadata r) as [md'|]; simplify_eq/=. case_decide; [done|].
  apply bind_ok in H2 as (e & w3 & H3 & H4). unfold run in H3. rewrite Hbare in H3. simplify_eq.
  rewrite decide_True in H4 by by_decide. unfold fetch in H4.
  destruct (credentials Getenv (rs_CloneOptions r)) as [user pass].
  apply bind_ok in H4 as (o & w4 & _ & ([[] out] & w5 & H5 & H6)%bind_ok).
  apply both_ok in H5 as (w6 & w7 & (pre & w8 & (oid & ->)%(remote_head _ _ _))%callGetGetOutput_ok).
  by eapply update_head_ok.
Qed.

(** A git whose world is the HEAD of a repository. *)
#[export] Instance ref_name_dec ref : Decision (ref_name ref).
Proof. unfold ref_name. apply _. Defined.
Definition sample_git (c : cmd) (w : str) : exit * str :=
  if decide (take 2 (reverse (c_args c)) = ["HEAD"%str; "origin"%str])
  then (Success (symref_output "refs/heads/main"%str "0a1b"%str), w)
  else match drop 2 (c_args c) with
       | [command; _] =>
           if decide (command = "symbolic-ref"%str)
           then (if decide (ref_name w) then Success (w ++ [LF]) else ExitError [], w)
           else (Success ("true"%str ++ [LF]), w)
       | [command; _; ref] =>
           (Success [], if decide (command = "symbolic-ref"%str) then ref else w)
       | _ => (Success [], w)
       end.

Lemma sample_git_refs : GitRefs sample_git (fun _ w => w) (Some "refs/heads/main"%str).
Proof.
  split.
  - intros path w out w'. unfold sample_git. cbn [c_args plain]. rewrite decide_False by done. cbn.
    repeat case_decide; intros; by simplify_eq.
  - intros path ref w out w'. unfold sample_git. cbn [c_args plain]. rewrite decide_False by done. cbn.
    intros; by simplify_eq.
  - intros pre path user pass w out w'. unfold sample_git. cbn [c_args].
    rewrite reverse_app. rewrite decide_True by done. intros; simplify_eq. by eexists.
Qed.

Lemma checkoutOne_head_witness :
  (checkoutOne sample_git (fun w => (Some "f"%str, w)) (fun w => (true, w)) (fun _ => [])
     (fun _ w => (true, w)) (fun _ w => (true, w)) true
     (mkRepoSpec "/r"%str "a/b"%str ["HEAD"%str] (Some (mkRepoMetadata [] "git@h:a/b"%str [] [])) false None)
     "refs/heads/master"%str).2 = "refs/heads/main"%str.
Proof.
  apply (checkoutOne_head sample_git (fun w => (Some "f"%str, w)) (fun w => (true, w)) (fun _ => [])
     (fun _ w => (true, w)) (fun _ w => (true, w)) (fun _ w => w) "refs/heads/main"%str true
     (mkRepoSpec "/r"%str "a/b"%str ["HEAD"%str] (Some (mkRepoMetadata [] "git@h:a/b"%str [] [])) false None)
     "refs/heads/master"%str "refs/heads/master"%str).
  - exact sample_git_refs.
  - by_decide.
  - vm_compute. reflexivity.
  - vm_compute. reflexivity.
Defined.
