(* ===== verification/Reindex.v ===== *)
(** * The two reindexing programs: their command lines and their order of work

    [cmd/livegrep-github-reindex] writes a configuration and runs
    [cmd/livegrep-fetch-reindex], which updates the repositories and runs the
    indexer.  A program is the list of its actions; [perform] runs them until
    one fails. *)
From S2P Require Import Prelude GoStrings GoMap GoJson Config GoPath GoFlag Checkout.

(** ** [livegrep-fetch-reindex] *)
Definition fetch_flags : flags :=
  list_to_map [
    ("codesearch"%str, VString []); ("out"%str, VString "livegrep.idx"%str); ("revparse"%str, VBool true);
    ("skip-missing"%str, VBool false); ("reload-backend"%str, VString []); ("num-workers"%str, VInt 8);
    ("no-index"%str, VBool false); ("metrics-out"%str, VString []);
    ("send-metrics-to-statsd"%str, VBool false); ("statsd-address"%str, VString []);
    ("statsd-prefix"%str, VString [])].

(** What a program does, one action after the other; [Fatal] is an exit. *)
Inductive action :=
  | ReadConfig (path : str)
  | CheckoutRepos (workers : Z) (repos : list (option RepoSpec))
  | Run (binary : str) (args : list str)
  | Rename (old new : str)
  | Reload (backend : str)
  | Fatal.
#[export] Instance action_eq_dec : EqDecision action.
Proof. solve_decision. Defined.

(** The actions performed, the first that fails included. *)
Fixpoint perform (ok : action -> bool) (l : list action) : list action :=
  match l with
  | [] => []
  | a :: l => a :: if bool_decide (a <> Fatal) && ok a then perform ok l else []
  end.

(** [findCodesearch] and [findBinary]: the first candidate that is a file. *)
Section binaries.
Context (arg0 : str) (is_file : str -> bool).
Definition Dir (p : str) : str :=
  Clean (reverse (drop_bytes (fun c => negb (bool_decide (c = "/"%char))) (reverse p))).
Definition first_file (candidates : list str) (df : str) : str :=
  default df (head (filter (fun p => is_file p = true) candidates)).
Definition findCodesearch (given : str) : str :=
  if decide (given = [])
  then first_file [Join [Dir arg0; "codesearch"%str]; "bazel-bin/src/tools/codesearch"%str] "codesearch"%str
  else given.
(** [strings.Replace(s, old, new, -1)]; with an empty [old] between all runes. *)
Fixpoint replace_all (fuel : nat) (s old new : str) : str :=
  match fuel with
  | O => s
  | S fuel => match index old s with
              | Some i => take i s ++ new ++ replace_all fuel (drop (i + length old) s) old new
              | None => s
              end
  end.
Definition findBinary (name : str) : str :=
  first_file [Join [Dir arg0; name]; replace_all (S (length arg0)) arg0 (Base arg0) name] name.

Definition codesearch_args (fs : flags) (config tmp : str) : list str :=
  ["--debug=ui"%str; "--dump_index"%str; tmp; "--index_only"%str]
  ++ (if get_bool fs "revparse"%str then ["--revparse"%str] else [])
  ++ (if decide (get_string fs "metrics-out"%str = []) then []
      else ["--dump_metrics"%str; get_string fs "metrics-out"%str])
  ++ [config].

Definition export_metrics (fs : flags) : list action :=
  if decide (get_string fs "metrics-out"%str = []) then [Fatal]
  else [Run (findBinary "livegrep-metrics-exporter"%str)
          ["--statsd-address"%str; get_string fs "statsd-address"%str;
           "--statsd-prefix"%str; get_string fs "statsd-prefix"%str;
           "--metrics-out"%str; get_string fs "metrics-out"%str]].

(** [main], after the flags and the configuration. *)
Definition fetch_actions (fs : flags) (config : str) (spec : IndexSpec) : list action :=
  let index := get_string fs "out"%str in
  let tmp := index ++ ".tmp"%str in
  [CheckoutRepos (get_int fs "num-workers"%str) (Repositories spec)]
  ++ if get_bool fs "no-index"%str then []
     else [Run (findCodesearch (get_string fs "codesearch"%str)) (codesearch_args fs config tmp);
           Rename tmp index]
          ++ (if decide (get_string fs "reload-backend"%str = []) then []
              else [Reload (get_string fs "reload-backend"%str)])
          ++ (if get_bool fs "send-metrics-to-statsd"%str then export_metrics fs else []).

(** [read] reads a file. *)
Definition load_spec (read : str -> option str) (config : str) : option IndexSpec :=
  data ← read config; Unmarshal dec_IndexSpec zero_IndexSpec data.
Definition fetch_main (read : str -> option str) (args : list str) : list action :=
  match Parse fetch_flags args with
  | Some (fs, [config]) =>
      ReadConfig config ::
      match load_spec read config with Some spec => fetch_actions fs config spec | None => [Fatal] end
  | _ => [Fatal]
  end.
End binaries.

(** ** [livegrep-github-reindex] *)

(** Its flags, after [flag.Parse]. *)
Record github_flags := mkGithubFlags {
  flagCodesearch : str; flagFetchReindex : str; flagApiBaseUrl : str; flagGithubKey : str;
  flagRepoDir : str; flagIndexPath : str; flagRevision : str; flagUrlPattern : str; flagName : str;
  flagNumRepoUpdateWorkers : str; flagRevparse : bool; flagForks : bool; flagArchived : bool;
  flagHTTP : bool; flagHTTPUsername : str; flagDepth : Z; flagSkipMissing : bool;
  flagNoIndex : bool; flagOnlyWriteConfig : bool;
}.

(** [dynamicDefault]: the value that was set, or the default, computed. *)
Definition dynamicDefault_Get (val : str) (fn : str) : str := if decide (val = []) then fn else val.
Definition index_path (g : github_flags) : str :=
  dynamicDefault_Get (flagIndexPath g) (Join [flagRepoDir g; "livegrep.idx"%str]).

(** [-installation-token] sets two other flags. *)
Definition with_installation (installation : bool) (g : github_flags) : option github_flags :=
  if installation then
    if decide (flagGithubKey g = []) then None
    else Some (mkGithubFlags (flagCodesearch g) (flagFetchReindex g) (flagApiBaseUrl g) (flagGithubKey g)
      (flagRepoDir g) (flagIndexPath g) (flagRevision g) (flagUrlPattern g) (flagName g)
      (flagNumRepoUpdateWorkers g) (flagRevparse g) (flagForks g) (flagArchived g)
      true "x-access-token"%str (flagDepth g) (flagSkipMissing g) (flagNoIndex g) (flagOnlyWriteConfig g))
  else Some g.

Definition config_path (g : github_flags) : str := Join [flagRepoDir g; "livegrep.json"%str].

(** The command line of the program it runs. *)
Definition fetch_reindex_args (g : github_flags) : list str :=
  ["--out"%str; index_path g; "--codesearch"%str; flagCodesearch g;
   "--num-workers"%str; flagNumRepoUpdateWorkers g]
  ++ (if flagNoIndex g then ["--no-index"%str] else [])
  ++ (if flagRevparse g then ["--revparse"%str] else [])
  ++ (if flagSkipMissing g then ["--skip-missing"%str] else [])
  ++ [config_path g].

(** * What the command lines promise *)

(** The flags as the other program leaves them. *)
Definition passed_flags (g : github_flags) (workers : Z) : flags :=
  let fs := <["num-workers"%str := VInt workers]>
              (<["codesearch"%str := VString (flagCodesearch g)]>
                (<["out"%str := VString (index_path g)]> fetch_flags)) in
  let fs := if flagNoIndex g then <["no-index"%str := VBool true]> fs else fs in
  let fs := if flagRevparse g then <["revparse"%str := VBool true]> fs else fs in
  if flagSkipMissing g then <["skip-missing"%str := VBool true]> fs else fs.

Lemma Parse_passed g workers :
  ParseInt0 (flagNumRepoUpdateWorkers g) = Some workers ->
  flag_name (config_path g) = None -> config_path g <> "--"%str ->
  Parse fetch_flags (fetch_reindex_args g) = Some (passed_flags g workers, [config_path g]).
Proof.
  intros Hw Hc Hc'. unfold fetch_reindex_args, passed_flags. cbn [app].
  erewrite (Parse_value _ "out"%str) by (reflexivity || discriminate).
  erewrite (Parse_value _ "codesearch"%str) by (reflexivity || discriminate).
  erewrite (Parse_value _ "num-workers"%str);
    [|reflexivity|discriminate|reflexivity|reflexivity|reflexivity|cbn; by rewrite Hw].
  destruct (flagNoIndex g), (flagRevparse g), (flagSkipMissing g); cbn [app];
    repeat (erewrite Parse_switch by (reflexivity || discriminate)); by rewrite Parse_args.
Qed.

(** Run by the other program, the fetcher works on its configuration, its
    index, its workers and its indexer, and indexes unless told not to; but it
    always passes [--revparse] to the indexer, even if the other program was
    told not to: a missing switch leaves the default, which is on. *)
Theorem fetch_reindex_command (arg0 : str) (is_file : str -> bool) (read : str -> option str) (g : github_flags)
    (workers : Z) (spec : IndexSpec) :
  load_spec read (config_path g) = Some spec ->
  ParseInt0 (flagNumRepoUpdateWorkers g) = Some workers ->
  flag_name (config_path g) = None -> config_path g <> "--"%str ->
  fetch_main arg0 is_file read (fetch_reindex_args g) =
  [ReadConfig (config_path g); CheckoutRepos workers (Repositories spec)]
  ++ if flagNoIndex g then []
     else [Run (findCodesearch arg0 is_file (flagCodesearch g))
             ["--debug=ui"%str; "--dump_index"%str; index_path g ++ ".tmp"%str; "--index_only"%str;
              "--revparse"%str; config_path g];
           Rename (index_path g ++ ".tmp"%str) (index_path g)].
Proof.
  intros Hl Hw Hc Hc'. unfold fetch_main. rewrite (Parse_passed g workers), Hl by done.
  unfold passed_flags. destruct (flagNoIndex g), (flagRevparse g), (flagSkipMissing g); reflexivity.
Qed.

Definition sample_flags : github_flags :=
  mkGithubFlags [] [] [] "key"%str "repos"%str [] "HEAD"%str [] "idx"%str "8"%str false true false
    false "git"%str 0 false false false.
Definition sample_read (path : str) : option str := Some (dq "{'repositories': [null]}"%str).
Lemma fetch_reindex_command_witness :
  fetch_main "/bin/fetch"%str (fun _ => false) sample_read (fetch_reindex_args sample_flags) =
  [ReadConfig "repos/livegrep.json"%str; CheckoutRepos 8 [None];
   Run "codesearch"%str ["--debug=ui"%str; "--dump_index"%str; "repos/livegrep.idx.tmp"%str;
                         "--index_only"%str; "--revparse"%str; "repos/livegrep.json"%str];
   Rename "repos/livegrep.idx.tmp"%str "repos/livegrep.idx"%str].
Proof.
  etransitivity; [apply (fetch_reindex_command "/bin/fetch"%str (fun _ => false) sample_read sample_flags 8
    (mkIndexSpec [] [] [None]))|];
    vm_compute; solve [reflexivity|discriminate].
Defined.

(** What comes after an action that was performed with success. *)
Lemma perform_cons ok a l b :
  b ∈ perform ok (a :: l) -> b = a \/ (a <> Fatal /\ ok a = true /\ b ∈ perform ok l).
Proof.
  cbn [perform]. intros [-> |H]%elem_of_cons; [by left|right].
  case_bool_decide; [|by apply elem_of_nil in H]. destruct (ok a); [done|by apply elem_of_nil in H].
Qed.

Lemma perform_ok ok a l : a <> Fatal -> ok a = true -> perform ok (a :: l) = a :: perform ok l.
Proof. intros Ha Hok. cbn [perform]. by rewrite bool_decide_true, Hok. Qed.

(** The end of a run, after the index was replaced. *)
Definition after_rename (arg0 : str) (is_file : str -> bool) (fs : flags) : list action :=
  (if decide (get_string fs "reload-backend"%str = []) then []
   else [Reload (get_string fs "reload-backend"%str)])
  ++ (if get_bool fs "send-metrics-to-statsd"%str then export_metrics arg0 is_file fs else []).

Lemma after_rename_actions arg0 is_file ok fs a :
  a ∈ perform ok (after_rename arg0 is_file fs) ->
  match a with Rename _ _ | ReadConfig _ | CheckoutRepos _ _ => False | _ => True end.
Proof.
  intros H. assert (a ∈ after_rename arg0 is_file fs) as Hin.
  { revert H. generalize (after_rename arg0 is_file fs) as l. induction l as [|b l IH]; [done|].
    intros [-> |(_ & _ & H)]%perform_cons; [by left|right; auto]. }
  revert Hin. unfold after_rename, export_metrics. rewrite elem_of_app.
  intros [H'|H']; repeat case_decide; try destruct (get_bool _ _);
    try (by apply elem_of_nil in H'); apply list_elem_of_singleton in H' as ->; done.
Qed.

(** C29: the index in use is only replaced by one that the indexer wrote with
    success, after every repository was updated; and the backend is only told
    to reload once it was replaced. *)
Theorem fetch_order (arg0 : str) (is_file : str -> bool) (read : str -> option str) (ok : action -> bool)
    (args : list str) (a : action) :
  a ∈ perform ok (fetch_main arg0 is_file read args) ->
  match a with
  | Rename tmp index =>
      exists fs config spec,
        Parse fetch_flags args = Some (fs, [config]) /\ load_spec read config = Some spec /\
        tmp = index ++ ".tmp"%str /\
        ok (CheckoutRepos (get_int fs "num-workers"%str) (Repositories spec)) = true /\
        ok (Run (findCodesearch arg0 is_file (get_string fs "codesearch"%str))
              (codesearch_args fs config tmp)) = true
  | Reload _ => exists tmp index, Rename tmp index ∈ perform ok (fetch_main arg0 is_file read args) /\
                  ok (Rename tmp index) = true
  | _ => True
  end.
Proof.
  unfold fetch_main. destruct (Parse fetch_flags args) as [[fs [|config [|? ?]]]|] eqn:Ep;
    try (by intros [-> |(? & ? & ?%elem_of_nil)]%perform_cons).
  destruct (load_spec read config) as [spec|] eqn:El;
    [|by intros [-> |(_ & _ & [-> |(? & _)]%perform_cons)]%perform_cons].
  unfold fetch_actions. fold (after_rename arg0 is_file fs). cbn [app].
  set (index := get_string fs "out"%str). set (run := Run _ _).
  intros [-> |(_ & Hok1 & [-> |(_ & Hok2 & H)]%perform_cons)]%perform_cons; [done..|].
  destruct (get_bool fs "no-index"%str); [by apply elem_of_nil in H|].
  apply perform_cons in H as [-> |(_ & Hok3 & [-> |(_ & Hok4 & H)]%perform_cons)]; [done| |].
  - by exists fs, config, spec.
  - pose proof (after_rename_actions _ _ _ _ _ H). destruct a; try done.
    exists (index ++ ".tmp"%str), index. split; [|done].
    rewrite !perform_ok by done. do 3 right. by left.
Qed.

Lemma fetch_order_witness :
  exists fs config spec,
    Parse fetch_flags ["c.json"%str] = Some (fs, [config]) /\ load_spec sample_read config = Some spec /\
    "livegrep.idx.tmp"%str = "livegrep.idx"%str ++ ".tmp"%str /\ true = true /\ true = true.
Proof.
  apply (fetch_order "f"%str (fun _ => false) sample_read (fun _ => true) ["c.json"%str]
    (Rename "livegrep.idx.tmp"%str "livegrep.idx"%str)).
  by_decide.
Defined.
