(* ===== verification/Lg.v ===== *)
(** * The command line client: [cmd/lg/main.go]

    The address it asks, the query it sends, and the lines it prints.  The
    transport is a parameter, and so is [config.LoadConfig], which sets flags
    from a file.  The same query text is sent by [cmd/lgiap]. *)
From S2P Require Import Prelude GoStrings GoSort GoMap GoUrl GoJson GoJsonSpec GoFlag Query Search Api.

Definition lg_flags : flags :=
  list_to_map [("server"%str, VString "http://localhost:8910"%str); ("unix_socket"%str, VString []);
               ("show_version"%str, VBool false)].

(** [uri] before the query is put in. *)
Definition lg_server (server : str) : option URL :=
  if contains server ":"%str then GoUrl.Parse server
  else Some (mkURL "http"%str [] None server [] [] false [] [] []).

(** [uri.RawQuery] for the arguments of the command line, and [uri]. *)
Definition raw_query `{!GoSort, !GoRange} (args : list str) : str :=
  Encode {[ "q"%str := [join " "%str args] ]}.
Definition search_url `{!GoSort, !GoRange} (u : URL) (args : list str) : URL :=
  mkURL (u_Scheme u) (u_Opaque u) (u_User u) (u_Host u) "/api/v1/search/"%str (u_RawPath u)
    (u_ForceQuery u) (raw_query args) (u_Fragment u) (u_RawFragment u).

(** One result. *)
Definition result_line (showVersion : bool) (r : Result) : str :=
  (if decide (r_Tree r = []) then [] else r_Tree r ++ ":"%str)
  ++ (if showVersion && negb (bool_decide (r_Version r = [])) then r_Version r ++ ":"%str else [])
  ++ r_Path r ++ ":"%str ++ Itoa (r_LineNumber r) ++ ": "%str ++ r_Line r ++ [LF].

(** How it ends: with exit code 0, with a message and exit code 1, or with a
    nil dereference. *)
Inductive lg_end :=
  | Done | Usage | BadConfig | BadServer | NoAnswer | BadReply (status : Z) | Refused (code message : str) | Crash.

(** The loop over the results, which are pointers. *)
Fixpoint print_results (showVersion : bool) (l : list (option Result)) : str * lg_end :=
  match l with
  | [] => ([], Done)
  | Some r :: l => let '(out, e) := print_results showVersion l in (result_line showVersion r ++ out, e)
  | None :: _ => ([], Crash)
  end.

Section lg.
Context `{!GoSort, !GoRange}.
(** A request over a unix socket, or over TCP if its path is empty: the status
    and the body of the answer. *)
Context (Get : str -> str -> option (Z * str)).

(** The standard output, and how it ends, after the flags. *)
Definition lg_run (server unixSocket : str) (showVersion : bool) (args : list str) : str * lg_end :=
  if decide (args = []) then ([], Usage)
  else match lg_server server with
  | None => ([], BadServer)
  | Some u =>
      match Get unixSocket (String (search_url u args)) with
      | None => ([], NoAnswer)
      | Some (status, body) =>
          if negb (status =? 200) then
            ([], match Decode dec_ReplyError ([], []) body with
                 | Some (code, message) => Refused code message
                 | None => BadReply status
                 end)
          else match Decode dec_ReplySearch zero_ReplySearch body with
               | None => ([], BadReply status)
               | Some reply => print_results showVersion (ri_Results reply)
               end
      end
  end.

Definition lg_main (LoadConfig : flags -> option flags) (args : list str) : str * lg_end :=
  match LoadConfig lg_flags with
  | None => ([], BadConfig)
  | Some fs =>
      match GoFlag.Parse fs args with
      | None => ([], Usage)
      | Some (fs, args) =>
          lg_run (get_string fs "server"%str) (get_string fs "unix_socket"%str) (get_bool fs "show_version"%str) args
      end
  end.

(** ** What is typed is what is searched for *)

(** The parameters of a request that has the query, joined by spaces, and
    none of the others that a search reads. *)
Definition typed (args : list str) (params : values) : Prop :=
  params !! "q"%str = Some [join " "%str args] /\ values_get params ":backend"%str = [] /\
  Forall (fun k => params !! k = None) ["regex"; "line"; "file"; "repo"; "fold_case"]%str.
(** The arguments, escaped into a URL, come out of the request. *)
Lemma typed_raw (args : list str) : typed args (query_values (raw_query args)).
Proof using.
  unfold raw_query, typed, values_get. rewrite query_values_encode, lookup_singleton_eq. rewrite lookup_singleton_ne by discriminate.
  split_and!; [done..|]. repeat constructor; by apply lookup_singleton_ne.
Qed.
(** They are the query that the parser reads from that text. *)
Lemma query_received (args : list str) (params : values) (q : Query) (err : option QueryErr) :
  typed args params -> ParseQuery (join " "%str args) true = Some (q, err) ->
  extractQuery params = Ok (q, true, err).
Proof using.
  intros (Hp & _ & Hn) E. rewrite !Forall_cons in Hn. destruct Hn as (H1 & H2 & H3 & H4 & H5 & _).
  unfold extractQuery, first_param. rewrite Hp, H1, H2, H3, H4, H5. cbn [deref head mbind res_bind].
  rewrite (bool_decide_false (None = Some _)) by done. cbn [negb]. rewrite E. cbn. by destruct q.
Qed.

Lemma print_received showVersion l :
  print_results showVersion ((Some ∘ clean_Result) <$> l) = (l ≫= fun r => result_line showVersion (clean_Result r), Done).
Proof using. induction l as [|r l IH]; [done|]. cbn. by rewrite IH. Qed.

(** What the client shows for the answer of the server. *)
Definition shown (showVersion : bool) (resp : response ReplySearch) : str * lg_end :=
  match resp with
  | replyJSON _ reply => (rs_Results reply ≫= fun r => result_line showVersion (clean_Result r), Done)
  | writeError _ code message => ([], Refused (ToValidUTF8 code) (ToValidUTF8 message))
  end.
Lemma lg_run_shown server u unixSocket showVersion args resp :
  args <> [] -> lg_server server = Some u ->
  Get unixSocket (String (search_url u args)) = Some (http_response enc_ReplySearch resp) ->
  match resp with replyJSON status r => status = 200 /\ int_Reply r | writeError status _ _ => status <> 200 end ->
  lg_run server unixSocket showVersion args = shown showVersion resp.
Proof using.
  intros Ha Hu HG Hr. unfold lg_run. rewrite decide_False, Hu, HG by done. destruct resp as [status r|status code message].
  - destruct Hr as [-> Hr]. cbn [http_response Z.eqb Pos.eqb negb]. rewrite reply_received by done.
    cbn [received ri_Results]. apply print_received.
  - cbn [http_response]. rewrite (proj2 (Z.eqb_neq _ _)) by done. cbn [negb]. by rewrite error_received.
Qed.

Context (elapsed : Z) (rpc_error : Z -> str -> str).

(** Go's integers, in what a backend answers. *)
Definition int_Result (search : CodeSearchResult) : Prop :=
  Forall (fun r => in_signed 64 (sr_LineNumber r) /\ Forall int_pair (sr_Bounds r)) (cs_Results search) /\
  Forall (fun r => match pf_Bounds r with Some b => int_pair b | None => True end) (cs_FileResults search) /\
  Forall (fun r => match pt_Bounds r with Some b => int_pair b | None => True end) (cs_TreeResults search) /\
  match cs_Stats search with
  | Some s => Forall (in_signed 64) [ps_Re2Time s; ps_GitTime s; ps_SortTime s; ps_IndexTime s; ps_AnalyzeTime s;
                                     elapsed; ps_NumMatches s]
  | None => True
  end.

Lemma file_result_int {E} r f :
  match pf_Bounds r with Some b => int_pair b | None => True end -> @file_result E r = Ok f -> int_pair (fr_Bounds f).
Proof using. unfold file_result. destruct (pf_Bounds r) as [[]|]; cbn; [|done]. intros ? [= <-]. done. Qed.
Lemma tree_result_int {E} r t :
  match pt_Bounds r with Some b => int_pair b | None => True end -> @tree_result E r = Ok t -> int_pair (tr_Bounds t).
Proof using.
  unfold tree_result. destruct (pt_Bounds r) as [[]|], (pt_Metadata r); cbn; try done. intros ? [= <-]. done.
Qed.

(** A search has the numbers of the backend, and fails as the backend does. *)
Lemma doSearch_spec backend q :
  match doSearch elapsed backend q with
  | Ok r => exists search, bk_Search backend q = RpcOk search /\ rs_Results r = search_results (cs_Results search) /\
              (int_Result search -> int_Reply r)
  | Err e => bk_Search backend q = RpcErr e.1 e.2
  | Panic => True
  end.
Proof using.
  unfold doSearch. destruct (bk_Search backend q) as [search|code desc]; [|done].
  destruct (mapR file_result _) as [files|e|] eqn:Ef; cbn [mbind res_bind]; [| |done].
  2:{ exfalso. revert Ef. apply mapR_no_err. intros a e'. unfold file_result. by destruct (pf_Bounds a). }
  destruct (mapR tree_result _) as [trees|e|] eqn:Et; cbn [mbind res_bind]; [| |done].
  2:{ exfalso. revert Et. apply mapR_no_err. intros a e'. unfold tree_result.
      by destruct (pt_Bounds a), (pt_Metadata a). }
  unfold stats. destruct (cs_Stats search) as [st|] eqn:Est; cbn [mbind res_bind deref]; [|done].
  exists search. split_and!; [done..|]. intros (Hr & Hf & Ht & Hs). rewrite Est in Hs. split_and!; cbn.
  - unfold int_Stats. cbn. revert Hs. by rewrite !Forall_cons.
  - unfold search_results. rewrite go_sort_perm. apply Forall_fmap. eapply Forall_impl; [exact Hr|].
    intros x [? Hx]. split; [done|]. cbn. unfold convertBounds. apply Forall_fmap. eapply Forall_impl; [exact Hx|].
    by intros [].
  - eapply mapR_Forall; [|exact Hf|exact Ef]. intros a b. apply file_result_int.
  - eapply mapR_Forall; [|exact Ht|exact Et]. intros a b. apply tree_result_int.
Qed.

(** What a backend that answers always sends. *)
Definition complete_reply (search : CodeSearchResult) : Prop :=
  is_Some (cs_Stats search) /\ Forall (fun r => is_Some (pf_Bounds r)) (cs_FileResults search) /\
  Forall (fun r => is_Some (pt_Bounds r) /\ is_Some (pt_Metadata r)) (cs_TreeResults search).
Lemma doSearch_complete backend q : (forall search, bk_Search backend q = RpcOk search -> complete_reply search) ->
  doSearch elapsed backend q <> Panic.
Proof using.
  intros Hc. unfold doSearch. destruct (bk_Search backend q) as [search|]; [|done].
  destruct (Hc _ eq_refl) as ([st Hs] & Hf & Ht).
  destruct (mapR_total (E := Z * str) file_result (cs_FileResults search)) as [files ->].
  { eapply Forall_impl; [exact Hf|]. intros r [b Hb]. unfold file_result. rewrite Hb. by eexists. }
  destruct (mapR_total (E := Z * str) tree_result (cs_TreeResults search)) as [trees ->].
  { eapply Forall_impl; [exact Ht|]. intros r [[b Hb] [m Hm]]. unfold tree_result. rewrite Hb, Hm. by eexists. }
  cbn [mbind res_bind]. unfold stats. by rewrite Hs.
Qed.

(** The client prints what the handler finds for what was typed. *)
Lemma lg_prints (s : server) (params : values) (server unixSocket : str) (showVersion : bool) (args : list str) (u : URL)
    (backend : Backend) (q : Query) (err : option QueryErr) (resp : response ReplySearch) :
  args <> [] -> lg_server server = Some u -> typed args params ->
  ParseQuery (join " "%str args) true = Some (q, err) ->
  snd <$> head (go_range (s_bk s)) = Some backend ->
  ServeAPISearch elapsed rpc_error s params = Ok resp ->
  Get unixSocket (String (search_url u args)) = Some (http_response enc_ReplySearch resp) ->
  (forall search, bk_Search backend (with_default s q) = RpcOk search -> int_Result search) ->
  lg_run server unixSocket showVersion args =
  match err with
  | Some e => ([], Refused "bad_query"%str (ToValidUTF8 (query_error e)))
  | None =>
      if decide (Line q = []) then ([], Refused "bad_query"%str "You must specify a regex to match"%str)
      else match bk_Search backend (with_default s q) with
           | RpcOk search =>
               (search_results (cs_Results search) ≫= fun r => result_line showVersion (clean_Result r), Done)
           | RpcErr code desc =>
               if decide (code = InvalidArgument) then ([], Refused "query"%str (ToValidUTF8 desc))
               else ([], Refused "internal_error"%str (ToValidUTF8 ("Talking to backend: "%str ++ rpc_error code desc)))
           end
  end.
Proof using.
  intros Ha Hu Ht Hq Hb Hresp HG Hint.
  assert (getBackendFromQuery s params = ([], Some backend)) as Hgb.
  { destruct Ht as (_ & Hn & _). unfold getBackendFromQuery. rewrite Hn, decide_True by done. by rewrite Hb. }
  unfold ServeAPISearch in Hresp. rewrite Hgb, (query_received args params q err Ht Hq) in Hresp.
  rewrite (bool_decide_false ([] <> [])) in Hresp by auto. cbn [andb mbind res_bind deref] in Hresp.
  assert (forall status code message, status <> 200 -> resp = writeError status code message ->
    lg_run server unixSocket showVersion args = ([], Refused (ToValidUTF8 code) (ToValidUTF8 message))) as Herr.
  { intros status code message Hst ->. by rewrite (lg_run_shown server u unixSocket showVersion args _ Ha Hu HG). }
  destruct err as [e|]; [injection Hresp as <-; exact (Herr 400 _ _ ltac:(done) eq_refl)|].
  case_decide as Hl; [injection Hresp as <-; exact (Herr 400 _ _ ltac:(done) eq_refl)|].
  pose proof (doSearch_spec backend (with_default s q)) as Hs.
  destruct (doSearch elapsed backend (with_default s q)) as [r|e|]; [| |done]; injection Hresp as <-.
  - destruct Hs as (search & Eb & Er & Hr). rewrite Eb. specialize (Hint _ Eb).
    rewrite (lg_run_shown server u unixSocket showVersion args _ Ha Hu HG) by auto. cbn [shown]. by rewrite Er.
  - rewrite Hs. unfold writeQueryError in Herr. case_decide; [exact (Herr 400 _ _ ltac:(done) eq_refl)|exact (Herr 500 _ _ ltac:(done) eq_refl)].
Qed.
(** The handler answers. *)
Lemma ServeAPISearch_answers (s : server) (params : values) (args : list str) (backend : Backend) q err :
  typed args params -> ParseQuery (join " "%str args) true = Some (q, err) ->
  snd <$> head (go_range (s_bk s)) = Some backend ->
  (forall search, bk_Search backend (with_default s q) = RpcOk search -> complete_reply search) ->
  exists resp, ServeAPISearch elapsed rpc_error s params = Ok resp.
Proof using.
  intros Ht Hq Hb Hc. unfold ServeAPISearch. rewrite (query_received args params q err Ht Hq).
  destruct Ht as (_ & Hn & _). unfold getBackendFromQuery. rewrite Hn, decide_True, Hb by done.
  rewrite (bool_decide_false ([] <> [])) by auto. cbn [andb mbind res_bind deref].
  destruct err as [e|]; [by eexists|]. case_decide; [by eexists|].
  pose proof (doSearch_complete backend (with_default s q) Hc). destruct (doSearch _ _ _); [by eexists..|done].
Qed.
End lg.

#[export] Instance int_Result_dec elapsed search : Decision (int_Result elapsed search).
Proof.
  unfold int_Result. repeat apply and_dec; try apply _.
  - apply Forall_dec. intros x. destruct (pf_Bounds x); [unfold int_pair|]; apply _.
  - apply Forall_dec. intros x. destruct (pt_Bounds x); [unfold int_pair|]; apply _.
  - destruct (cs_Stats search); apply _.
Defined.

(** * Samples *)
Definition sample_found : CodeSearchResult :=
  mkPbResult (Some (mkPbStats 1 2 3 4 5 NONE 2))
    [mkSearchResult "b/r"%str "HEAD"%str "x.go"%str 12 [] [] [(0, 3)] "two <words>"%str 1;
     mkSearchResult "a/r"%str "HEAD"%str "y.go"%str 7 ["one"%str] [] [(1, 4)] (byte_of 233 :: " two words"%str) 1] [] [] 1700000000.
Definition sample_url : URL := mkURL "http"%str [] None "localhost:8910"%str [] [] false [] [] [].

(** A server given as [host:port] is a URL whose scheme is the host: the
    request has no host. *)
Example lg_host_port :
  (fun u => String (search_url u ["x"%str])) <$> lg_server "localhost:8910"%str = Some "localhost:8910?q=x"%str /\
  lg_server "10.0.0.1:8910"%str = None /\
  (fun u => String (search_url u ["x"%str])) <$> lg_server "grep.example.com"%str
  = Some "http://grep.example.com/api/v1/search/?q=x"%str.
Proof. vm_compute. done. Qed.
