(* ===== verification/SiteSpec.v ===== *)
(** * What the whole server promises

    Every page that a handler makes has its template, whatever the request and
    whatever the turns of the polling goroutines before it; the probe of a load
    balancer is answered without a token; and what is typed at the command line
    client comes out of the whole way: its URL, the wrappers of the process, the
    routes, the search, and the JSON of the answer. *)
From S2P Require Import Prelude GoStrings GoMap GoUrl GoJson GoJsonSpec Config GoRegexp GoPath Scanner GoSort Query Search Api Backend.
From S2P Require Import GoHttp Diff GitLog Blame GitShow DirTree Listing Templates Pages Server PagesSpec Start StartSpec.
From S2P Require Import Running Routes Lg Site.

(** The files of [web/templates]. *)
Definition web_templates : gset str := list_to_set
  ["about.html"; "experimental.html"; "fileview.html"; "fileviewer_about.html"; "gitshowcommit.html"; "index.html";
   "raw_blob_or_tree.html"; "searchresults_partial.html"; "simplegitlog.html"; "simplegitlogpaginated.html";
   "splitdiff.html"]%str.

Section site.
Context `{GS : !GoSort, GR : !GoRange, PAT : !Pat}.

Lemma New_pages (Dial : str -> Z -> option str) d statsd_ok cfg s :
  (New Dial d statsd_ok cfg).2 = Ok s -> st_Templates (sv_pages s) = template_names d.
Proof using.
  unfold New. intros (pages & Hp & H)%L_bind_ok. apply L_bind_ok in H as (client & _ & H).
  apply L_bind_ok in H as (? & _ & H). apply L_bind_ok in H as ([bk order] & Hbk & H).
  destruct (load_repos _) as [repos names]. apply L_bind_ok in H as (newRepos & _ & [= <-]). cbn [sv_pages].
  unfold pure in Hp. destruct (run_load (loadTemplates d) (mkSite ∅ ∅)) as [site| |] eqn:E; [|done..]. injection Hp as ->.
  apply run_load_store in E as [Hl <-]. by destruct (loaded d (mkSite ∅ ∅) Hl) as (m & _ & ->).
Qed.

Lemma start_backends_order (Dial : str -> Z -> option str) l : forall st st',
  (start_backends Dial l st).2 = Ok st' -> st'.2 = st.2 ++ (cb_Id <$> l).
Proof using.
  induction l as [|be l IH]; intros st st'; cbn [start_backends]; [intros [= <-]; by rewrite app_nil_r|].
  intros (s1 & Hs1 & H)%L_bind_ok. rewrite (IH _ _ H). unfold start_backend in Hs1.
  apply L_bind_ok in Hs1 as (b & Hb & Hs1). apply L_bind_ok in Hs1 as (? & _ & [= <-]).
  destruct (NewBackend_live _ _ _ Hb) as (-> & _ & _). cbn [snd]. by rewrite <- app_assoc.
Qed.
Lemma New_order (Dial : str -> Z -> option str) d statsd_ok cfg s :
  (New Dial d statsd_ok cfg).2 = Ok s ->
  sv_bkOrder s = if c_FileviewerOnly cfg then [] else cb_Id <$> c_Backends cfg.
Proof using.
  unfold New. intros (pages & _ & H)%L_bind_ok. apply L_bind_ok in H as (client & _ & H).
  apply L_bind_ok in H as (? & _ & H). apply L_bind_ok in H as ([bk order] & Hbk & H).
  destruct (load_repos _) as [repos names]. apply L_bind_ok in H as (newRepos & _ & [= <-]). cbn [sv_bkOrder].
  destruct (c_FileviewerOnly cfg); [by injection Hbk as <- <-|].
  by apply start_backends_order in Hbk.
Qed.

Section templates.
Context (w : world) (cfg : Config) (s : server) (Htemplates : web_templates ⊆ st_Templates (sv_pages s)).

Lemma renders name : name ∈ web_templates -> is_Some (renderPage (sv_pages s) name).
Proof using Htemplates. intros Hn. unfold renderPage. rewrite decide_True by (by apply Htemplates). by eexists. Qed.
Lemma show_page d : exists hashes, show s d = RPage d hashes.
Proof using Htemplates.
  unfold show. destruct (renders (template_of d)) as [hashes ->]; [|by exists hashes].
  destruct d; by_decide.
Qed.
Lemma show_some d : show s d <> RNothing.
Proof using Htemplates. by destruct (show_page d) as [hashes ->]. Qed.
Lemma show_log_some params d : show_log s params d <> RNothing.
Proof using Htemplates.
  unfold show_log. case_decide; [|apply show_some].
  by destruct (renders "simplegitlogpaginated.html"%str ltac:(by_decide)) as [? ->].
Qed.
Lemma of_http_some {A} (k : A -> reply) r : (forall a, k a <> RNothing) -> of_http k r <> Ok RNothing.
Proof using. intros Hk. destruct r as [[c| |a]|e|]; cbn; congruence. Qed.
Lemma of_http_some' {A} (k : A -> reply) (r : option (res unit (http A))) :
  (forall a, k a <> RNothing) -> of_http k <$> r <> Some (Ok RNothing).
Proof using. intros Hk. destruct r as [r|]; [|done]. cbn. intros [= H]. by eapply of_http_some. Qed.
Lemma handle_some e r tls params : handle w cfg s e r tls params <> Some (Ok RNothing).
Proof using Htemplates.
  destruct e; cbn [handle]; try done;
    try (by apply of_http_some'; intros a; first [apply show_some|done]);
    try (intros [= H]; revert H; by apply of_http_some; intros a; first [apply show_some|apply show_log_some|done]).
  - intros [= H]. destruct (ServeSearch _ _); cbn in H; [|done..]. injection H. apply show_some.
  - intros [= H]. revert H. apply show_some.
  - intros [= H]. revert H. apply show_some.
  - intros [= H]. by destruct (ServeAPISearch _ _ _ _).
Qed.
End templates.

Lemma search_dispatch : exists caps, dispatch "/search/"%str = Some (To ESearch, caps).
Proof using.
  pose proof (dispatch_segs "/search/"%str ["search"; []]%str eq_refl eq_refl) as H.
  assert (candidates registered_patterns ["search"; []]%str = [Some (To ESearch, [("backend"%str, [])]); Some (To ESearch, [])]) as E
    by (vm_compute; reflexivity).
  rewrite E, !elem_of_cons, elem_of_nil in H. destruct H as [->|[->|[]]]; by eexists.
Qed.

(** A reload that does not panic leaves the templates of the document root. *)
Lemma routed_pages w cfg s r tls query :
  (c_Reload cfg = true -> loads (w_docroot w)) ->
  exists s', routed w cfg s r tls query = handle_route w cfg s' r tls query /\
    sv_bk s' = sv_bk s /\ sv_bkOrder s' = sv_bkOrder s /\
    st_Templates (sv_pages s') = if c_Reload cfg then template_names (w_docroot w) else st_Templates (sv_pages s).
Proof using.
  intros Hl. unfold routed. destruct (c_Reload cfg); [|by exists s].
  destruct (loaded _ (sv_pages s) (Hl eq_refl)) as (m & _ & Em).
  assert (run_load (loadTemplates (w_docroot w)) (sv_pages s) = Ok (mkSite (template_names (w_docroot w)) m)) as ->
    by (apply run_load_store; split; [by apply Hl|done]).
  by eexists (set_pages _ s).
Qed.
Lemma routed_panic w cfg s r tls query :
  c_Reload cfg = true -> ~ loads (w_docroot w) -> routed w cfg s r tls query = Some Panic.
Proof using.
  intros Hc Hl. unfold routed. rewrite Hc. destruct (run_load _ _) as [pages|e|] eqn:E; [|done..].
  by apply run_load_store in E as [? _].
Qed.

(** C16: a server that started, whatever the turns of its polling goroutines
    since, never answers with an empty page for want of a template, and its
    search page lists the backends that the configuration names, in its order
    (none for a file viewer only).  The templates of the repository must be in
    the document root: when the server starts, or with [reload] set, when the
    request comes, and the files there must load; and no other request loads
    them again while the page is made (with [reload] two requests at once can
    show an empty page). *)
Theorem pages_found (Dial : str -> Z -> option str) (d : docroot) (statsd_ok : list statsd_option -> bool)
    (cfg : Config) (s : server) (events : list turn_of) (bk : gmap str live) (w : world) (r : request) (tls : bool)
    (query : values) :
  (New Dial d statsd_ok cfg).2 = Ok s -> run_turns events (sv_bk s) = Ok bk ->
  (if c_Reload cfg then loads (w_docroot w) /\ web_templates ⊆ template_names (w_docroot w)
   else web_templates ⊆ template_names d) ->
  routed w cfg (set_bk bk s) r tls query <> Some (Ok RNothing) /\
  (rq_Path r = "/search/"%str -> exists page hashes,
     routed w cfg (set_bk bk s) r tls query = Some (Ok (RPage (IndexPage page) hashes)) /\
     lv_Id <$> sp_Backends page = if c_FileviewerOnly cfg then [] else cb_Id <$> c_Backends cfg).
Proof using.
  intros Hn Hr Ht. pose proof (well_formed_turns _ _ _ (New_well_formed _ _ _ _ _ Hn) Hr) as Hw.
  rewrite <- (New_order _ _ _ _ _ Hn).
  destruct (routed_pages w cfg (set_bk bk s) r tls query) as (s' & -> & Hbk & Hord & Hst);
    [intros Hc; rewrite Hc in Ht; apply Ht|].
  assert (web_templates ⊆ st_Templates (sv_pages s')) as Hp.
  { rewrite Hst. destruct (c_Reload cfg); [apply Ht|]. cbn. by rewrite (New_pages _ _ _ _ _ Hn). }
  split.
  - unfold handle_route. destruct (dispatch _) as [[[e|] caps]|]; [|done..]. by apply handle_some.
  - intros Hpath. unfold handle_route. rewrite Hpath. destruct search_dispatch as [caps ->]. cbn [handle].
    rewrite Hbk, Hord. destruct (well_formed_search _ Hw) as (page & -> & Hids). cbn [mbind res_bind].
    destruct (show_page _ Hp (IndexPage page)) as [hashes ->]. by exists page, hashes.
Qed.

(** ** The command line client and the server *)

(** The answer to a search, on the wire. *)
Definition on_wire (a : served + option (res unit reply)) : option (Z * str) :=
  match a with inr (Some (Ok (RSearch resp))) => Some (http_response enc_ReplySearch resp) | _ => None end.

Lemma api_dispatch : exists caps, caps ∈ [[]; [("backend"%str, [])]] /\ dispatch "/api/v1/search/"%str = Some (To EAPISearch, caps).
Proof using.
  pose proof (dispatch_segs "/api/v1/search/"%str ["api"; "v1"; "search"; []]%str eq_refl eq_refl) as H.
  assert (candidates registered_patterns ["api"; "v1"; "search"; []]%str
    = [Some (To EAPISearch, [("backend"%str, [])]); Some (To EAPISearch, [])]) as E by (vm_compute; reflexivity).
  rewrite E, !elem_of_cons, elem_of_nil in H. destruct H as [->|[->|[]]].
  - exists [("backend"%str, [])]. split; [right; by left|done].
  - exists []. split; [by left|done].
Qed.
(** The captures do not change what a search reads. *)
Lemma typed_route (caps : list (str * str)) (args : list str) (query : values) : caps ∈ [[]; [("backend"%str, [])]] -> typed args query ->
  typed args (route_params caps query).
Proof using.
  intros Hc (Hq & Hb & Hn). assert (forall k, k <> ":backend"%str -> route_params caps query !! k = query !! k) as Hk.
  { intros k Hk. unfold route_params. rewrite lookup_union_with. rewrite !elem_of_cons, elem_of_nil in Hc.
    destruct Hc as [->|[->|[]]]; cbn; [|rewrite lookup_insert_ne by done]; rewrite lookup_empty; by destruct (query !! k). }
  split_and!.
  - by rewrite Hk.
  - rewrite !elem_of_cons, elem_of_nil in Hc. destruct Hc as [->|[->|[]]].
    + unfold values_get in *. unfold route_params. cbn [fmap list_fmap list_to_map foldr].
      rewrite lookup_union_with, lookup_empty. by destruct (query !! ":backend"%str).
    + by apply values_param.
  - rewrite !Forall_cons in *. destruct Hn as (? & ? & ? & ? & ? & ?). rewrite !Hk by done. done.
Qed.

(** C15: what is typed at the client is what the server searches for, and the
    client prints what it finds.  The arguments, joined by spaces, travel in the
    URL through the wrappers of the process, when these let the request pass, and
    through the routes to the search; the query goes to a backend of the server,
    whatever the turns of the goroutines since; the matches come back as JSON and
    are printed in the order of repository and path.  A query or a search that
    fails ends with the message of the error.  With [reload] set, a document root
    that does not load ends the request without an answer.  Bytes that are not
    UTF-8 are replaced on the way. *)
Theorem lg_over_the_wire (w : world) (cfg : Config) (s : server) (Validate : str -> str -> bool)
    (Get : str -> str -> option (Z * str)) (r r' : request) (server unixSocket : str) (showVersion : bool)
    (args : list str) (u : URL) (q : Query) (err : option QueryErr) (backend : Search.Backend) :
  args <> [] -> lg_server server = Some u ->
  rq_Path r = u_Path (search_url u args) -> wrap_handler Validate cfg r = Pass r' ->
  Get unixSocket (String (search_url u args)) =
    on_wire (process w cfg s Validate r false (query_values (u_RawQuery (search_url u args)))) ->
  ParseQuery (join " "%str args) true = Some (q, err) ->
  snd <$> head (go_range (caller w <$> sv_bk s)) = Some backend ->
  (forall search, bk_Search backend (with_default (searcher w cfg s) q) = RpcOk search ->
     complete_reply search /\ int_Result (w_elapsed w) search) ->
  lg_run Get server unixSocket showVersion args =
  if c_Reload cfg && negb (bool_decide (loads (w_docroot w))) then ([], NoAnswer)
  else match err with
  | Some e => ([], Lg.Refused "bad_query"%str (ToValidUTF8 (query_error e)))
  | None =>
      if decide (Line q = []) then ([], Lg.Refused "bad_query"%str "You must specify a regex to match"%str)
      else match bk_Search backend (with_default (searcher w cfg s) q) with
           | RpcOk search =>
               (search_results (cs_Results search) ≫= fun r => result_line showVersion (clean_Result r), Done)
           | RpcErr code desc =>
               if decide (code = InvalidArgument) then ([], Lg.Refused "query"%str (ToValidUTF8 desc))
               else ([], Lg.Refused "internal_error"%str (ToValidUTF8 ("Talking to backend: "%str ++ w_rpc_error w code desc)))
           end
  end.
Proof using.
  intros Ha Hu Hpath Hwrap HG Hq Hb Hc. change (u_Path (search_url u args)) with "/api/v1/search/"%str in Hpath.
  destruct api_dispatch as (caps & Hcaps & Hd).
  set (params := route_params caps (query_values (raw_query args))).
  assert (typed args params) as Ht by (apply typed_route; [done|apply typed_raw]).
  assert (rq_Path r' = rq_Path r) as Hr'.
  { apply (pass_path Validate cfg r r' Hwrap). }
  destruct (ServeAPISearch_answers (w_elapsed w) (w_rpc_error w) (searcher w cfg s) params args backend q err) as [resp Hresp];
    [done..|by intros search Hs; apply Hc|].
  assert (process w cfg s Validate r false (query_values (raw_query args)) =
    inr (routed w cfg s r' false (query_values (raw_query args)))) as Hproc.
  { unfold process, serve. rewrite Hpath. change (ServeMux DefaultServeMux false "/api/v1/search/"%str) with (Handled App).
    cbn match. rewrite Hwrap, Hr', Hpath. change (ServeMux inner_mux false "/api/v1/search/"%str) with (Handled Routes).
    done. }
  cbn [search_url u_RawQuery] in HG. rewrite Hproc in HG.
  destruct (c_Reload cfg && negb (bool_decide (loads (w_docroot w)))) eqn:Hl.
  { apply andb_true_iff in Hl as [Hl1 Hl2%negb_true_iff%bool_decide_eq_false].
    rewrite routed_panic in HG by done. unfold lg_run. by rewrite decide_False, Hu, HG. }
  destruct (routed_pages w cfg s r' false (query_values (raw_query args))) as (s' & Hrt & Hbk & _ & _).
  { intros Hrl. rewrite Hrl in Hl. by apply negb_false_iff, bool_decide_eq_true in Hl. }
  assert (searcher w cfg s' = searcher w cfg s) as Hsr by (unfold searcher; by rewrite Hbk).
  rewrite Hrt in HG. unfold handle_route in HG. rewrite Hr', Hpath, Hd in HG. cbn [handle] in HG. fold params in HG.
  rewrite Hsr, Hresp in HG.
  eapply lg_prints; [done..|exact Hb|exact Hresp|exact HG|].
  intros search Hs. by apply Hc.
Qed.
End site.

(** * Witnesses *)
Definition whole_docroot : docroot :=
  mkDocroot true ((fun name => ("web/templates/"%str ++ name, true)) <$> elements web_templates) true (Some []).
Definition sample_world : world :=
  mkWorld whole_docroot (fun _ => None) (fun _ => None) 0 [] (fun _ => Idle) (fun _ _ => RpcOk sample_found) 9 0
    (fun _ => []) (fun _ => []) (fun _ desc => desc).
Definition whole_config : Config :=
  default_config (mkLivegrepFlags [] "localhost:9999"%str [] false [] [] false [] []) [] (fun _ => []).
Definition whole_New : L Start.server := New (fun _ _ => None) whole_docroot (fun _ => true) whole_config.
Lemma whole_starts : exists s, whole_New.2 = Ok s.
Proof.
  assert ((match whole_New.2 with Ok _ => true | _ => false end) = true) as H by (vm_compute; reflexivity).
  destruct whole_New.2 as [s| |]; [by exists s|discriminate H..].
Qed.
Lemma pages_found_witness :
  exists s page hashes, whole_New.2 = Ok s /\
    routed (PAT := documented) sample_world whole_config (set_bk (sv_bk s) s) (sample_request "/search/"%str) false ∅
      = Some (Ok (RPage (IndexPage page) hashes)).
Proof.
  destruct whole_starts as [s Hs].
  destruct (pages_found (PAT := documented) (fun _ _ => None) whole_docroot (fun _ => true) whole_config s [] (sv_bk s)
    sample_world (sample_request "/search/"%str) false ∅ Hs eq_refl ltac:(by_decide)) as [_ H].
  destruct (H eq_refl) as (page & hashes & Hp & _). exists s, page, hashes. split; [exact Hs|exact Hp].
Defined.

Definition sample_server : Start.server :=
  mkServer {[ "b"%str := mkLive "b"%str "localhost:9999"%str (new_state "b"%str) None false ]} ["b"%str] ∅ ∅ REps None (mkSite ∅ ∅).
(** The client, connected to the server. *)
Definition sample_get (socket url : str) : option (Z * str) :=
  u ← GoUrl.Parse url;
  on_wire (process (PAT := documented) sample_world whole_config sample_server (fun _ _ => false)
    (sample_request (u_Path u)) false (query_values (u_RawQuery u))).
Lemma lg_over_the_wire_witness :
  lg_run sample_get "http://localhost:8910"%str [] false ["two"%str; "words"%str] =
  ("a/r:y.go:7: "%str ++ encode_rune 65533 ++ " two words"%str ++ [LF] ++ "b/r:x.go:12: two <words>"%str ++ [LF], Done).
Proof.
  rewrite (lg_over_the_wire (PAT := documented) sample_world whole_config sample_server (fun _ _ => false) sample_get
    (sample_request "/api/v1/search/"%str) (sample_request "/api/v1/search/"%str)
    "http://localhost:8910"%str [] false ["two"%str; "words"%str] sample_url
    (mkQuery "two words"%str [] [] [] true [] [] [] 0 false false) None
    (mkBackend "b"%str (fun _ => RpcOk sample_found) None)).
  - vm_compute. reflexivity.
  - discriminate.
  - vm_compute. reflexivity.
  - reflexivity.
  - vm_compute. reflexivity.
  - vm_compute. reflexivity.
  - vm_compute. reflexivity.
  - reflexivity.
  - intros search [= <-]. split; [split_and!; [by eexists|apply Forall_nil_2..]|by_decide].
Defined.
(** The client of [cmd/lgiap] leaves out the final slash, and is redirected. *)
Example lgiap_redirected :
  routed (PAT := documented) sample_world whole_config sample_server (sample_request "/api/v1/search"%str) false ∅ = Some (Ok RAddSlash).
Proof. vm_compute. reflexivity. Qed.
