(* ===== verification/GithubIndex.v ===== *)
(** * Collecting repositories from GitHub: [cmd/livegrep-github-reindex/main.go]

    The answers of the GitHub API are parameters.  The fetching of pages and of
    several organisations is concurrent: two step relations. *)
From S2P Require Import Prelude GoChan GoStrings GoMap GoUrl GoJson Config GoSort GoPath Checkout Reindex.

(** [github.Repository]: every field is a pointer. *)
Record Repository := mkRepository {
  FullName : option str; Fork : option bool; Archived : option bool;
  CloneURL : option str; SSHURL : option str; HTMLURL : option str;
}.
#[export] Instance Repository_eq_dec : EqDecision Repository.
Proof. solve_decision. Defined.

(** ** Choosing repositories *)

(** [loadIgnorelist]: the lines of the file; [None] if it cannot be read. *)
Definition loadIgnorelist (data : option str) : option (gset str) :=
  (fun s => list_to_set (split LF s)) <$> data.

Definition is_set (b : option bool) : bool := bool_decide (b = Some true).

Definition filter_repo (ignorelist : option (gset str)) (excludeForks excludeArchived : bool)
    (out : list Repository) (r : Repository) : res unit (list Repository) :=
  if excludeForks && is_set (Fork r) then name ← deref (FullName r); Ok out
  else if excludeArchived && is_set (Archived r) then name ← deref (FullName r); Ok out
  else match ignorelist with
       | Some l => name ← deref (FullName r);
                   Ok (if decide (name ∈ l) then out else out ++ [r])
       | None => Ok (out ++ [r])
       end.
Definition filterRepos (repos : list Repository) (ignorelist : option (gset str))
    (excludeForks excludeArchived : bool) : res unit (list Repository) :=
  foldM (filter_repo ignorelist excludeForks excludeArchived) repos [].

(** [ReposByName.Less]; the names are there when [sort_repos] compares. *)
Definition name_less (a b : Repository) : bool := str_ltb (default [] (FullName a)) (default [] (FullName b)).
(** Two or more repositories are compared by their names, each at least once. *)
Definition sort_repos `{!GoSort} (repos : list Repository) : res unit (list Repository) :=
  if bool_decide (2 <= length repos)%nat && negb (forallb (fun r => bool_decide (is_Some (FullName r))) repos)
  then Panic else Ok (go_sort name_less repos).

(** ** The configuration *)
Section config.
(** Does [git rev-parse --verify] find the revision in the directory? *)
Context (has_revision : str -> str -> bool) (g : github_flags).

Definition repo_spec (dir revision : str) (r : Repository) : res unit RepoSpec :=
  remote ← deref (if flagHTTP g then CloneURL r else SSHURL r);
  name ← deref (FullName r);
  html ← deref (HTMLURL r);
  Ok (mkRepoSpec (Join [dir; name]) name [revision]
        (Some (mkRepoMetadata (flagUrlPattern g) remote html [])) false
        (Some (mkCloneOptions (int32 (flagDepth g)) (flagHTTPUsername g)
                 (if decide (flagGithubKey g = []) then [] else "GITHUB_KEY"%str)))).

Definition add_spec (dir revision : str) (specs : list RepoSpec) (r : Repository) : res unit (list RepoSpec) :=
  skip ← (if flagSkipMissing g
          then name ← deref (FullName r); Ok (negb (has_revision (Join [dir; name]) revision))
          else Ok false);
  if skip : bool then Ok specs else spec ← repo_spec dir revision r; Ok (specs ++ [spec]).

Definition buildConfig (name dir : str) (repos : list Repository) (revision : str) : res unit IndexSpec :=
  specs ← foldM (add_spec dir revision) repos [];
  Ok (mkIndexSpec name [] (Some <$> specs)).
End config.

(** ** [main] *)

(** From the repositories loaded to the configuration written. *)
Definition make_config `{!GoSort} (has_revision : str -> str -> bool) (g : github_flags)
    (ignorelist : option (gset str)) (repos : list Repository) : res unit IndexSpec :=
  repos ← filterRepos repos ignorelist (negb (flagForks g)) (negb (flagArchived g));
  repos ← sort_repos repos;
  buildConfig has_revision g (flagName g) (flagRepoDir g) repos (flagRevision g).

(** [-repo], [-org] and [-user] can be given many times. *)
Definition stringList_Set (l : list str) (s : str) : list str := l ++ [s].

Inductive gh_action := GFatal | WriteConfig (file data : str) | RunFetch (binary : str) (args : list str).

Record gh_inputs := mkGhInputs {
  in_Blacklist : str; in_Repos : list str; in_Orgs : list str; in_Users : list str;
  in_Installation : bool; in_Ignorelist : str;
}.

(** [read] reads a file, [load] is [loadRepos] with
    the names asked for; a write or a run that fails ends the program. *)
Definition github_main `{!GoSort} (read : str -> option str)
    (load : list str -> list str -> list str -> option (list Repository))
    (has_revision : str -> str -> bool) (arg0 : str) (is_file : str -> bool)
    (i : gh_inputs) (g : github_flags) : res unit (list gh_action) :=
  if bool_decide (in_Blacklist i <> []) then Ok [GFatal]
  else if bool_decide (in_Repos i = [] /\ in_Orgs i = [] /\ in_Users i = []) then Ok [GFatal]
  else match with_installation (in_Installation i) g with
  | None => Ok [GFatal]
  | Some g =>
      match (if decide (in_Ignorelist i = []) then Some None else Some <$> loadIgnorelist (read (in_Ignorelist i))) with
      | None => Ok [GFatal]
      | Some ignorelist =>
          if bool_decide (flagApiBaseUrl g <> []) &&
             negb (has_suffix "/"%str (flagApiBaseUrl g) && bool_decide (is_Some (Parse (flagApiBaseUrl g)))) then Ok [GFatal]
          else match load (in_Repos i) (in_Orgs i) (in_Users i) with
          | None => Ok [GFatal]
          | Some repos =>
              config ← make_config has_revision g ignorelist repos;
              Ok (WriteConfig (config_path g) (index_text config)
                  :: if flagOnlyWriteConfig g then []
                     else [RunFetch (if decide (flagFetchReindex g = [])
                                     then findBinary arg0 is_file "livegrep-fetch-reindex"%str
                                     else flagFetchReindex g)
                                    (fetch_reindex_args g)])
          end
      end
  end.

(** ** The pages of a listing *)
Section pages.
Context {R : Type}.

(** The page a goroutine is for. *)
Inductive caller := Acquiring (page : nat) | Calling (page : nat) | Releasing (page : nat) | Called (page : nat).
Record paging := mkPaging {
  callers : list caller;
  semaphores : nat;          (** the tokens in the channel *)
  resStream : list nat;      (** the pages answered, in this order *)
}.

Context (concurrencyLimit pagesToCall : nat).

(** The first page has been fetched; a goroutine for each of the others. *)
Definition paging_init : paging := mkPaging (Acquiring <$> seq 2 pagesToCall) 0 [].

Inductive paging_step : paging -> paging -> Prop :=
  | acquire c p cs s str :
      cs !! c = Some (Acquiring p) -> (s < concurrencyLimit)%nat ->
      paging_step (mkPaging cs s str) (mkPaging (<[c := Calling p]> cs) (S s) str)
  | answer c p cs s str :
      cs !! c = Some (Calling p) ->
      paging_step (mkPaging cs s str) (mkPaging (<[c := Releasing p]> cs) s (str ++ [p]))
  | release c p cs s str :
      cs !! c = Some (Releasing p) ->
      paging_step (mkPaging cs (S s) str) (mkPaging (<[c := Called p]> cs) s str).

(** The loop over the stream, the error of the first page that has one
    included; [ListBy] is the answer of the API for a page. *)
Definition store_page {E} (ListBy : nat -> res E (list R)) (matrix : list (list R)) (page : nat)
    : res E (list (list R)) :=
  repos ← (ListBy page : res E (list R));
  _ ← deref (matrix !! (page - 1)%nat);
  Ok (<[(page - 1)%nat := repos]> matrix).
Definition collect {E} (ListBy : nat -> res E (list R)) (firstResult : list R) (stream : list nat)
    : res E (list R) :=
  matrix ← (foldM (store_page ListBy) stream (firstResult :: replicate pagesToCall []) : res E (list (list R)));
  Ok (concat matrix).
End pages.

(** [getOneRepo]: [Get] is the API call. *)
Definition getOneRepo {E R} (Get : str -> str -> res E R) (bad : E) (repo : str) : res E (list R) :=
  match splitn "/" 2 repo with
  | [owner; name] => r ← Get owner name; Ok [r]
  | _ => Err bad
  end.

(** [getOrgRepos] and [getUserRepos]: a listing without a page number, and the
    other pages if the answer speaks of more, answered in the order [stream]. *)
Definition getRepos {E R} (ListBy : nat -> res E (list R)) (FirstPage LastPage : nat) (stream : list nat)
    : res E (list R) :=
  repos ← ListBy 0%nat;
  if decide (FirstPage = LastPage) then Ok repos
  else collect (LastPage - 1) ListBy repos stream.

(** ** [loadRepos] and [runJobs] *)

(** The jobs: each name with the function that looks it up. *)
Definition load_jobs {J} (one org user : str -> J) (repos orgs users : list str) : list J :=
  (one <$> repos) ++ (org <$> orgs) ++ (user <$> users).
Section jobs.
Context {E R : Type}.
(** The jobs, by their position in the list, and what [get] returns for each. *)
Context (Workers jobs : nat) (get : nat -> E + list R).

Inductive runner := Taking | Getting (j : nat) | Offering (j : nat) | Gone.
Inductive collector := Ranging (out : list R) | Collected (result : E + list R).
Record loading := mkLoading {
  producer : option nat;        (** the next job it offers; [None] once it returned *)
  runners : list runner;
  repoc_open : bool; done_closed : bool;
  coll : collector;
  taken : list nat;             (** the jobs whose results were received *)
}.

Definition loading_init : loading :=
  mkLoading (Some 0%nat) (replicate Workers Taking) true false (Ranging []) [].

Inductive loading_step : loading -> loading -> Prop :=
  | give j w rs ro dn c tk :
      (j < jobs)%nat -> rs !! w = Some Taking ->
      loading_step (mkLoading (Some j) rs ro dn c tk)
                   (mkLoading (Some (S j)) (<[w := Getting j]> rs) ro dn c tk)
  | produced rs ro dn c tk :
      loading_step (mkLoading (Some jobs) rs ro dn c tk) (mkLoading None rs ro dn c tk)
  | producer_done j rs ro c tk :
      loading_step (mkLoading (Some j) rs ro true c tk) (mkLoading None rs ro true c tk)
  | get_result p w j rs ro dn c tk :
      rs !! w = Some (Getting j) ->
      loading_step (mkLoading p rs ro dn c tk) (mkLoading p (<[w := Offering j]> rs) ro dn c tk)
  | no_more_jobs w rs ro dn c tk :
      rs !! w = Some Taking ->
      loading_step (mkLoading None rs ro dn c tk) (mkLoading None (<[w := Gone]> rs) ro dn c tk)
  | taking_done p w rs ro c tk :
      rs !! w = Some Taking ->
      loading_step (mkLoading p rs ro true c tk) (mkLoading p (<[w := Gone]> rs) ro true c tk)
  | offering_done p w j rs ro c tk :
      rs !! w = Some (Offering j) ->
      loading_step (mkLoading p rs ro true c tk) (mkLoading p (<[w := Gone]> rs) ro true c tk)
  | receive p w j repos rs ro dn out tk :
      rs !! w = Some (Offering j) -> get j = inr repos ->
      loading_step (mkLoading p rs ro dn (Ranging out) tk)
                   (mkLoading p (<[w := Taking]> rs) ro dn (Ranging (out ++ repos)) (j :: tk))
  | receive_err p w j e rs ro dn out tk :
      rs !! w = Some (Offering j) -> get j = inl e ->
      loading_step (mkLoading p rs ro dn (Ranging out) tk)
                   (mkLoading p (<[w := Taking]> rs) ro true (Collected (inl e)) (j :: tk))
  | close_results p rs dn c tk :
      Forall (fun r => r = Gone) rs ->
      loading_step (mkLoading p rs true dn c tk) (mkLoading p rs false dn c tk)
  | ranged p rs dn out tk :
      loading_step (mkLoading p rs false dn (Ranging out) tk)
                   (mkLoading p rs false dn (Collected (inr out)) tk).
End jobs.
Arguments collector : clear implicits.
Arguments loading : clear implicits.
