(* ===== verification/GithubIndexSpec.v ===== *)
(** * What collecting the repositories promises

    Pages come back in any order and are put together in their own; the pool
    of [loadRepos] returns what its jobs found, and leaves no goroutine behind. *)
From S2P Require Import Prelude GoChan GoStrings Config GoSort GoPath Checkout Reindex GithubIndex.

(** ** Pages *)
Section pages.
Context {R : Type} (limit n : nat).

Definition page_of (c : caller) : nat :=
  match c with Acquiring p | Calling p | Releasing p | Called p => p end.
(** Has it a token; is it in a call of the API; has it answered? *)
Definition has_token (c : caller) : nat := match c with Calling _ | Releasing _ => 1 | _ => 0 end.
Definition in_call (c : caller) : nat := match c with Calling _ => 1 | _ => 0 end.
Definition answered (c : caller) : option nat :=
  match c with Releasing p | Called p => Some p | _ => None end.
Definition caller_work (c : caller) : nat :=
  match c with Acquiring _ => 3 | Calling _ => 2 | Releasing _ => 1 | Called _ => 0 end.
Definition called (c : caller) : Prop := match c with Called _ => True | _ => False end.
#[export] Instance called_dec c : Decision (called c).
Proof. destruct c; apply _. Defined.

Definition paging_inv (s : paging) : Prop :=
  page_of <$> callers s = seq 2 n /\
  sum_list_with has_token (callers s) = semaphores s /\ (semaphores s <= limit)%nat /\
  omap answered (callers s) ≡ₚ resStream s.

Lemma paging_init_inv : paging_inv (paging_init n).
Proof.
  unfold paging_init, paging_inv. cbn [callers semaphores resStream]. generalize 2%nat as k.
  intros k. split; [|split; [|split; [lia|]]].
  - rewrite <- list_fmap_compose. apply list_fmap_id.
  - revert k. induction n as [|m IH]; intros k; cbn; [done|apply IH].
  - revert k. induction n as [|m IH]; intros k; cbn; [done|apply IH].
Qed.

(** A caller moves on, for the same page. *)
Lemma callers_move (cs : list caller) (c : nat) x y :
  cs !! c = Some x -> page_of y = page_of x -> page_of <$> <[c := y]> cs = page_of <$> cs.
Proof.
  intros Hc Hp. rewrite list_fmap_insert, Hp. apply list_insert_id.
  by rewrite list_lookup_fmap, Hc.
Qed.

Lemma paging_inv_step s s' : paging_inv s -> paging_step limit s s' -> paging_inv s'.
Proof.
  intros (Hpages & Hsem & Hle & Hstr) Hs. unfold paging_inv in *.
  destruct Hs; cbn [callers semaphores resStream] in *;
    match goal with H : ?l !! ?i = Some ?x |- context [<[?i := ?y]> ?l] =>
      pose proof (sum_list_insert has_token l i x y H); cbn [has_token] in *;
      (split; [by rewrite (callers_move l i x y)|]); (split; [lia|]); (split; [lia|]);
      apply perm_sum; intros f; pose proof (sum_omap_insert f answered l i x y H); perm_with f
    end.
Qed.

Lemma paging_work s s' :
  paging_inv s -> paging_step limit s s' ->
  (sum_list_with caller_work (callers s') < sum_list_with caller_work (callers s))%nat.
Proof.
  intros _ Hs. destruct Hs; cbn [callers];
    match goal with H : ?l !! ?i = Some ?x |- context [<[?i := ?y]> ?l] =>
      pose proof (sum_list_insert caller_work l i x y H) end; cbn [caller_work] in *; lia.
Qed.

Lemma sum_zero (f : caller -> nat) cs : Forall (fun c => f c = 0%nat) cs -> sum_list_with f cs = 0%nat.
Proof. induction 1; simpl; lia. Qed.
Lemma sum_lookup_le (f : caller -> nat) cs i c : cs !! i = Some c -> (f c <= sum_list_with f cs)%nat.
Proof. revert i. induction cs as [|d cs IH]; intros [|i] H; simplify_eq/=; [lia|]. apply IH in H. lia. Qed.

Lemma paging_progress s :
  (0 < limit)%nat -> paging_inv s -> Forall called (callers s) \/ red (paging_step limit) s.
Proof.
  intros Hlimit (Hpages & Hsem & Hle & Hstr). destruct s as [cs k str]. cbn in *.
  destruct (goroutine_dec (fun c => has_token c = 0%nat) cs) as [Hnone|(i & c & Hi & Hc)].
  - destruct (goroutine_dec called cs) as [|(i & c & Hi & Hc)]; [by left|right].
    rewrite sum_zero in Hsem by done. subst. rewrite Forall_lookup in Hnone. apply Hnone in Hi as Hi'.
    destruct c; [|done..|by destruct Hc]. eexists. by eapply acquire.
  - right. pose proof (sum_lookup_le has_token cs i c Hi). destruct c; [done| | |done].
    + eexists. by eapply answer.
    + cbn in *. destruct k as [|k]; [lia|]. eexists. by eapply release.
Qed.

(** ** Putting the pages together *)
Context {E : Type} (ListBy : nat -> res E (list R)) (first : list R).

Definition matrix_after (pages : nat -> list R) (seen : list nat) : list (list R) :=
  first :: ((fun p => if decide (p ∈ seen) then pages p else []) <$> seq 2 n).

Lemma store_page_seen pages seen p :
  p ∈ seq 2 n -> ListBy p = Ok (pages p) ->
  store_page ListBy (matrix_after pages seen) p = Ok (matrix_after pages (p :: seen)).
Proof.
  intros Hp Hl. apply elem_of_seq in Hp. unfold store_page. rewrite Hl. cbn [mbind res_bind].
  destruct p as [|[|p]]; [lia..|]. replace (S (S p) - 1)%nat with (S p) by lia. unfold matrix_after.
  set (l := _ <$> seq 2 n).
  change ((first :: l) !! S p) with (l !! p).
  change (<[S p := pages (S (S p))]> (first :: l)) with (first :: <[p := pages (S (S p))]> l). subst l.
  assert (seq 2 n !! p = Some (2 + p)%nat) as Hlook by (apply lookup_seq; lia).
  rewrite list_lookup_fmap, Hlook. cbn. do 2 f_equal. apply list_eq. intros i.
  destruct (decide (i = p)) as [-> |Hi].
  - rewrite list_lookup_insert_eq by (rewrite length_fmap, length_seq; lia).
    rewrite list_lookup_fmap, Hlook. cbn. rewrite decide_True; [done|by left].
  - rewrite list_lookup_insert_ne, !list_lookup_fmap by done.
    destruct (seq 2 n !! i) as [q|] eqn:Eq; [|done]. cbn. f_equal.
    apply lookup_seq in Eq as [-> ?]. apply decide_ext. rewrite elem_of_cons.
    split; [tauto|]. intros [?|]; [lia|done].
Qed.
Lemma store_pages pages str seen :
  Forall (fun p => p ∈ seq 2 n /\ ListBy p = Ok (pages p)) str ->
  foldM (store_page ListBy) str (matrix_after pages seen) = Ok (matrix_after pages (reverse str ++ seen)).
Proof.
  revert seen. induction str as [|p str IH]; intros seen H; [done|].
  apply Forall_cons in H as [[Hp Hl] H]. cbn [foldM]. rewrite store_page_seen by done.
  cbn [mbind res_bind]. by rewrite IH, reverse_cons, <- app_assoc.
Qed.

Lemma matrix_start pages : matrix_after pages [] = first :: replicate n [].
Proof.
  unfold matrix_after. f_equal. generalize 2%nat as k. induction n as [|m IH]; intros k; [done|].
  cbn. f_equal. apply IH.
Qed.

Lemma collect_pages pages str :
  str ≡ₚ seq 2 n -> (forall p, p ∈ seq 2 n -> ListBy p = Ok (pages p)) ->
  collect n ListBy first str = Ok (first ++ concat (pages <$> seq 2 n)).
Proof.
  intros Hstr Hpages. unfold collect. rewrite <- (matrix_start pages), store_pages.
  - cbn. do 3 f_equal. apply list_fmap_ext. intros i p Hp. cbn. rewrite decide_True; [done|].
    rewrite app_nil_r, elem_of_reverse, Hstr. by eapply list_elem_of_lookup_2.
  - apply Forall_forall. intros p Hp. rewrite Hstr in Hp. auto.
Qed.

(** A page with an error makes the whole an error of a page. *)
Lemma collect_error str p e :
  (forall p, ListBy p <> Panic) -> str ≡ₚ seq 2 n -> p ∈ seq 2 n -> ListBy p = Err e ->
  exists q e', q ∈ seq 2 n /\ ListBy q = Err e' /\ collect n ListBy first str = Err e'.
Proof.
  intros Hpanic Hstr Hp He.
  assert (forall str matrix, length matrix = S n -> Forall (fun q => q ∈ seq 2 n) str -> p ∈ str ->
    exists q e', q ∈ seq 2 n /\ ListBy q = Err e' /\ foldM (store_page ListBy) str matrix = Err e') as H.
  { clear str Hstr. induction str as [|q str IH]; intros matrix Hm Hall Hin; [by apply elem_of_nil in Hin|].
    apply Forall_cons in Hall as [Hq Hall]. cbn [foldM].
    assert (store_page ListBy matrix q = match ListBy q with
      | Ok repos => Ok (<[(q - 1)%nat := repos]> matrix) | Err e => Err e | Panic => Panic end) as ->.
    { unfold store_page. destruct (ListBy q); [|done..]. apply elem_of_seq in Hq.
      by destruct (lookup_lt_is_Some_2 matrix (q - 1)) as [x ->]; [lia|]. }
    destruct (ListBy q) as [repos|e'|] eqn:Eq; cbn [mbind res_bind];
      [|by exists q, e'|by apply Hpanic in Eq].
    apply IH; [by rewrite length_insert|done|].
    apply elem_of_cons in Hin as [<- |]; [congruence|done]. }
  destruct (H str (first :: replicate n [])) as (q & e' & Hq & Hl & Hc).
  - simpl. by rewrite length_replicate.
  - apply Forall_forall. intros q Hq. by rewrite <- Hstr.
  - by rewrite Hstr.
  - exists q, e'. split; [done|]. split; [done|]. unfold collect. by rewrite Hc.
Qed.
End pages.

(** C18: fetching the pages of a listing, with a positive limit: at no time are
    more calls of the API under way than the limit; every run ends, with every
    page answered; and, in whatever order they were, the result is the
    repositories in the order of the pages, or the error of a page if one
    failed. *)
Theorem callGitHubConcurrently_pages {E R} (concurrencyLimit pagesToCall : nat)
    (ListBy : nat -> res E (list R)) (firstResult : list R) :
  (0 < concurrencyLimit)%nat -> (forall p, ListBy p <> Panic) ->
  (forall s, rtc (paging_step concurrencyLimit) (paging_init pagesToCall) s ->
     (sum_list_with in_call (callers s) <= concurrencyLimit)%nat) /\
  always_ends (paging_step concurrencyLimit)
    (fun s =>
       (forall pages, (forall p, p ∈ seq 2 pagesToCall -> ListBy p = Ok (pages p)) ->
          collect pagesToCall ListBy firstResult (resStream s)
          = Ok (firstResult ++ concat (pages <$> seq 2 pagesToCall))) /\
       (forall p e, p ∈ seq 2 pagesToCall -> ListBy p = Err e ->
          exists q e', q ∈ seq 2 pagesToCall /\ ListBy q = Err e' /\
            collect pagesToCall ListBy firstResult (resStream s) = Err e'))
    (paging_init pagesToCall).
Proof.
  intros Hlimit Hpanic. split.
  - intros s Hs. assert (paging_inv concurrencyLimit pagesToCall s) as (_ & Hsem & Hle & _).
    { eapply rtc_inv; [apply paging_inv_step|apply paging_init_inv|done]. }
    transitivity (semaphores s); [|done]. rewrite <- Hsem.
    generalize (callers s) as cs. induction cs as [|[] cs IH]; simpl; lia.
  - eapply (always_ends_intro _ (paging_inv concurrencyLimit pagesToCall));
      [apply paging_inv_step|apply paging_work| |apply paging_init_inv].
    intros s Hinv. destruct (paging_progress _ _ _ Hlimit Hinv) as [Hall|]; [left|by right].
    assert (resStream s ≡ₚ seq 2 pagesToCall) as Hstr.
    { destruct Hinv as (Hpages & _ & _ & <-). rewrite <- Hpages.
      revert Hall. clear. generalize (callers s) as cs. induction 1 as [|[] cs Hc _ IH]; cbn; try done.
      by constructor. }
    split; [intros; by apply collect_pages|intros; by eapply collect_error].
Qed.

Lemma callGitHubConcurrently_pages_witness :
  always_ends (paging_step 2)
    (fun s => collect 3 (fun p => @Ok str _ [p]) [1%nat] (resStream s) = Ok [1%nat; 2%nat; 3%nat; 4%nat])
    (paging_init 3).
Proof.
  destruct (callGitHubConcurrently_pages 2 3 (fun p => @Ok str _ [p]) [1%nat]) as [_ [Hsn H]];
    [lia|discriminate|].
  split; [exact Hsn|]. intros s Hr Hnf.
  exact (proj1 (H s Hr Hnf) (fun p => [p]) (fun _ _ => eq_refl)).
Defined.

(** ** The pool of jobs *)
Section jobs.
Context {E R : Type} (Workers jobs : nat) (get : nat -> E + list R).

#[export] Instance runner_eq_dec : EqDecision runner.
Proof. solve_decision. Defined.

(** The job a goroutine has, and what a job found. *)
Definition job_of (r : runner) : option nat :=
  match r with Getting j | Offering j => Some j | _ => None end.
Definition found (j : nat) : list R := match get j with inr repos => repos | inl _ => [] end.
Definition job_ok (j : nat) : Prop := exists repos, get j = inr repos.

Definition runner_work (r : runner) : nat :=
  match r with Taking => 1 | Getting _ => 4 | Offering _ => 3 | Gone => 0 end.
Definition loading_work (s : loading E R) : nat :=
  match producer s with Some j => 1 + 4 * (jobs - j) | None => 0 end
  + sum_list_with runner_work (runners s)
  + (if repoc_open s then 1 else 0) + match coll s with Ranging _ => 1 | Collected _ => 0 end.

(** Which jobs have been given out, and who has them; once [done] is closed,
    some may have been dropped. *)
Definition given_ok (s : loading E R) : Prop :=
  exists sent dropped, (sent <= jobs)%nat /\
    omap job_of (runners s) ++ taken s ++ dropped ≡ₚ seq 0 sent /\
    (done_closed s = false -> dropped = []) /\
    match producer s with
    | Some j => sent = j /\ (done_closed s = false -> Forall (fun r => r <> Gone) (runners s))
    | None => done_closed s = false -> sent = jobs
    end.
Definition coll_ok (s : loading E R) : Prop :=
  match coll s with
  | Ranging out => done_closed s = false /\ Forall job_ok (taken s) /\ out ≡ₚ concat (found <$> taken s)
  | Collected (inl e) => done_closed s = true /\ exists j, (j < jobs)%nat /\ get j = inl e
  | Collected (inr out) => repoc_open s = false /\ done_closed s = false /\
      (forall j, (j < jobs)%nat -> job_ok j) /\ out ≡ₚ concat (found <$> seq 0 jobs)
  end.
Definition loading_inv (s : loading E R) : Prop :=
  length (runners s) = Workers /\ given_ok s /\ coll_ok s /\
  (repoc_open s = false -> Forall (fun r => r = Gone) (runners s)).

Lemma loading_init_inv : loading_inv (loading_init Workers).
Proof.
  unfold loading_inv, loading_init. cbn. split; [by rewrite length_replicate|]. split; [|done].
  exists 0%nat, []. cbn. split; [lia|]. split; [|by split; [|split; [|intros _; apply Forall_replicate]]].
  rewrite app_nil_r. generalize Workers as n. induction n; cbn; done.
Qed.

(** A runner that has not left cannot be found once the results are closed. *)
Lemma not_gone rs w r :
  rs !! w = Some r -> r <> Gone -> Forall (fun r => r = Gone) rs -> False.
Proof. intros Hw Hr Hall. rewrite Forall_lookup in Hall. by apply Hall in Hw. Qed.

Lemma given_runner p w x y rs ro ro' dn dn' c c' tk tk' lost :
  rs !! w = Some x -> (dn' = false -> dn = false /\ lost = []) -> (p <> None -> dn' = false -> y <> Gone) ->
  option_list (job_of y) ++ tk' ++ lost ≡ₚ option_list (job_of x) ++ tk ->
  given_ok (mkLoading p rs ro dn c tk) -> given_ok (mkLoading p (<[w := y]> rs) ro' dn' c' tk').
Proof.
  intros Hw Hdn Hy Hj (sent & dropped & Hle & Hp & Hdrop & Hprod). exists sent, (lost ++ dropped). cbn in *.
  split; [done|]. split; [|split].
  - apply perm_sum. intros f. pose proof (sum_omap_insert f job_of rs w x y Hw). perm_with f.
  - by intros [-> ->]%Hdn; apply Hdrop.
  - destruct p as [j|]; [|by intros [? _]%Hdn; apply Hprod]. destruct Hprod as [-> Hgone]. split; [done|].
    intros Hdn'. apply Forall_insert; [by apply Hgone, Hdn|auto].
Qed.

(** A step of one runner that changes neither the results nor the flags. *)
Lemma inv_runner p w x y rs ro dn c tk lost :
  rs !! w = Some x -> x <> Gone -> (dn = false -> lost = []) -> (p <> None -> dn = false -> y <> Gone) ->
  option_list (job_of y) ++ lost ≡ₚ option_list (job_of x) ->
  loading_inv (mkLoading p rs ro dn c tk) -> loading_inv (mkLoading p (<[w := y]> rs) ro dn c tk).
Proof.
  intros Hw Hx Hl Hy Hj (Hlen & Hgiven & Hcoll & Hopen). split; [cbn; by rewrite length_insert|].
  split; [|split; [done|]].
  - apply (given_runner p w x y rs ro _ dn _ c _ tk _ lost); [done|auto|done| |done]. perm.
  - cbn in *. intros Hro. exfalso. by eapply not_gone, Hopen.
Qed.

(** A runner with a job has one of the jobs. *)
Lemma job_bound s w r j :
  given_ok s -> runners s !! w = Some r -> job_of r = Some j -> (j < jobs)%nat.
Proof.
  intros (sent & dropped & Hle & Hp & _) Hw Hj.
  assert (j ∈ seq 0 sent) as ?%elem_of_seq; [|lia].
  rewrite <- Hp. apply elem_of_app. left. by eapply omap_lookup_elem.
Qed.

Lemma inv_give j w rs ro dn c tk :
  (j < jobs)%nat -> rs !! w = Some Taking ->
  loading_inv (mkLoading (Some j) rs ro dn c tk) ->
  loading_inv (mkLoading (Some (S j)) (<[w := Getting j]> rs) ro dn c tk).
Proof.
  intros Hj Hw (Hlen & (sent & dropped & Hle & Hp & Hdrop & -> & Hgone) & Hcoll & Hopen).
  split; [cbn; by rewrite length_insert|]. split; [|split; [done|]].
  - exists (S j), dropped. cbn in *. split; [lia|]. split; [|split; [done|]].
    + pose proof (seq_S j 0) as Eseq. cbn in Eseq. rewrite Eseq. apply perm_sum. intros f.
      pose proof (sum_omap_insert f job_of rs w _ (Getting j) Hw). perm_with f.
    + split; [done|]. intros Hdn. apply Forall_insert; auto.
  - cbn in *. intros Hro. exfalso. by eapply not_gone, Hopen.
Qed.

Lemma concat_found j tk repos out :
  get j = inr repos -> out ≡ₚ concat (found <$> tk) -> out ++ repos ≡ₚ concat (found <$> j :: tk).
Proof.
  intros Hj ->. cbn. unfold found at 2. rewrite Hj. apply Permutation_app_comm.
Qed.

Lemma inv_receive p w j repos rs ro dn out tk :
  rs !! w = Some (Offering j) -> get j = inr repos ->
  loading_inv (mkLoading p rs ro dn (Ranging out) tk) ->
  loading_inv (mkLoading p (<[w := Taking]> rs) ro dn (Ranging (out ++ repos)) (j :: tk)).
Proof.
  intros Hw Hj (Hlen & Hgiven & (Hdn & Hok & Hout) & Hopen). split; [cbn; by rewrite length_insert|].
  split; [|split].
  - apply (given_runner p w (Offering j) _ rs ro _ dn _ (Ranging out) _ tk _ []);
      [done|by auto|done|cbn; by rewrite app_nil_r|done].
  - split; [done|]. split; [constructor; [by exists repos|done]|]. by apply concat_found.
  - cbn in *. intros Hro. exfalso. by eapply not_gone, Hopen.
Qed.

Lemma inv_receive_err p w j e rs ro dn out tk :
  rs !! w = Some (Offering j) -> get j = inl e ->
  loading_inv (mkLoading p rs ro dn (Ranging out) tk) ->
  loading_inv (mkLoading p (<[w := Taking]> rs) ro true (Collected (inl e)) (j :: tk)).
Proof.
  intros Hw Hj (Hlen & Hgiven & _ & Hopen). split; [cbn; by rewrite length_insert|].
  split; [|split].
  - apply (given_runner p w (Offering j) _ rs ro _ dn _ (Ranging out) _ tk _ []);
      [done|by auto|done|cbn; by rewrite app_nil_r|done].
  - split; [done|]. exists j. split; [|done]. by eapply job_bound.
  - cbn in *. intros Hro. exfalso. by eapply not_gone, Hopen.
Qed.

(** When everyone has left and [done] is open, every job was taken. *)
Lemma all_taken p rs ro c tk :
  (0 < Workers)%nat -> loading_inv (mkLoading p rs ro false c tk) ->
  Forall (fun r => r = Gone) rs -> p = None /\ tk ≡ₚ seq 0 jobs.
Proof.
  intros HW (Hlen & (sent & dropped & Hle & Hp & Hdrop & Hprod) & _) Hgone. cbn in *.
  assert (omap job_of rs = []) as Hrs by (clear -Hgone; induction Hgone as [|r rs -> _ IH]; done).
  rewrite Hrs, Hdrop, app_nil_r in Hp by done.
  destruct p as [j|]; [|by rewrite <- Hprod].
  destruct Hprod as [_ Hn]. destruct rs as [|r rs]; [simpl in Hlen; lia|].
  apply Forall_cons in Hgone as [-> _]. specialize (Hn eq_refl). by apply Forall_cons in Hn as [? _].
Qed.

Lemma loading_inv_step s s' :
  (0 < Workers)%nat -> loading_inv s -> loading_step jobs get s s' -> loading_inv s'.
Proof.
  intros HW Hinv Hs. destruct Hs.
  - by apply inv_give.
  - destruct Hinv as (Hlen & (sent & dropped & Hle & Hp & Hdrop & -> & Hgone) & Hrest).
    split; [done|]. split; [|done]. by exists jobs, dropped.
  - destruct Hinv as (Hlen & (sent & dropped & Hle & Hp & Hdrop & Hprod) & Hrest).
    split; [done|]. split; [|done]. by exists sent, dropped.
  - by eapply (inv_runner _ _ _ _ _ _ _ _ _ []).
  - by eapply (inv_runner _ _ _ _ _ _ _ _ _ []).
  - by eapply (inv_runner _ _ _ _ _ _ _ _ _ []).
  - by eapply (inv_runner _ _ _ _ _ _ _ _ _ [j]).
  - by apply inv_receive.
  - by eapply inv_receive_err.
  - destruct Hinv as (Hlen & Hgiven & Hcoll & Hopen). split; [done|]. split; [done|]. split; [|done].
    unfold coll_ok in *. cbn in *. destruct c as [|[|]]; [done..|]. by destruct Hcoll.
  - pose proof Hinv as (Hlen & Hgiven & (Hdn & Hok & Hout) & Hopen). cbn in *. subst dn.
    destruct (all_taken p rs false (Ranging out) tk) as [_ Htk]; [done|done|by apply Hopen|].
    split; [done|]. split; [done|]. split; [|done]. split; [done|]. split; [done|]. split.
    + intros j Hj. rewrite Forall_forall in Hok. apply Hok. rewrite Htk. apply elem_of_seq. lia.
    + rewrite Hout. by rewrite Htk.
Qed.
Lemma loading_step_work s s' :
  loading_inv s -> loading_step jobs get s s' -> (loading_work s' < loading_work s)%nat.
Proof.
  intros _ Hs. unfold loading_work. destruct Hs; cbn [producer runners repoc_open coll];
    try match goal with H : ?l !! ?i = Some ?x |- context [<[?i := ?y]> ?l] =>
      pose proof (sum_list_insert runner_work l i x y H) end; cbn [runner_work] in *; lia.
Qed.

(** The state every run ends in: nobody is left. *)
Definition all_gone (s : loading E R) : Prop :=
  producer s = None /\ Forall (fun r => r = Gone) (runners s) /\ repoc_open s = false /\
  exists result, coll s = Collected result.

Lemma offering_moves p w j rs ro dn c tk :
  rs !! w = Some (Offering j) -> loading_inv (mkLoading p rs ro dn c tk) ->
  red (loading_step jobs get) (mkLoading p rs ro dn c tk).
Proof.
  intros Hw (_ & _ & Hcoll & Hopen). cbn in *. destruct dn; [eexists; by eapply offering_done|].
  destruct c as [out|[e|out]].
  - destruct (get j) as [e|repos] eqn:Eg; eexists; [by eapply receive_err|by eapply receive].
  - by destruct Hcoll.
  - destruct Hcoll as [Hro _]. exfalso. by eapply not_gone, Hopen.
Qed.

Lemma loading_progress s :
  (0 < Workers)%nat -> loading_inv s -> all_gone s \/ red (loading_step jobs get) s.
Proof.
  intros HW Hinv. destruct s as [p rs ro dn c tk].
  destruct (goroutine_dec (fun r => r = Gone) rs) as [Hgone|(w & r & Hw & Hr)].
  - destruct p as [j|].
    + right. destruct dn; [eexists; apply producer_done|].
      destruct (all_taken _ _ _ _ _ HW Hinv Hgone) as [? _]. done.
    + destruct ro; [right; eexists; by apply close_results|].
      destruct c as [out|result]; [right; eexists; apply ranged|].
      left. split; [done|]. split; [done|]. split; [done|by eexists].
  - right. destruct r as [|j|j|]; [|eexists; by eapply get_result|by eapply offering_moves|done].
    destruct p as [j|]; [|eexists; by eapply no_more_jobs].
    destruct Hinv as (_ & (sent & dropped & Hle & _ & _ & -> & _) & _).
    destruct (decide (j = jobs)) as [-> |Hj]; [eexists; apply produced|].
    eexists. by apply give; [lia|].
Qed.
End jobs.

(** C13: [loadRepos] returns in every run, whatever the order in which jobs are
    taken, answered and received, and every goroutine it started ends: it
    returns the repositories all its jobs found, in some order, or the error of
    a job that failed. *)
Theorem loadRepos_result {E R} (Workers jobs : nat) (get : nat -> E + list R) :
  (0 < Workers)%nat ->
  always_ends (loading_step jobs get)
    (fun s => producer s = None /\ Forall (fun r => r = Gone) (runners s) /\
       exists result, coll s = Collected result /\
         match result with
         | inr out => exists repos, (forall j, (j < jobs)%nat -> get j = inr (repos j)) /\
                        out ≡ₚ concat (repos <$> seq 0 jobs)
         | inl e => exists j, (j < jobs)%nat /\ get j = inl e
         end)
    (loading_init Workers).
Proof.
  intros HW.
  assert (forall s, loading_inv Workers jobs get s -> all_gone s -> coll_ok jobs get s) as Hfinal
    by (intros s (_ & _ & H & _) _; exact H).
  eapply (always_ends_intro _ (loading_inv Workers jobs get)).
  - intros s s'. by apply loading_inv_step.
  - apply loading_step_work.
  - intros s Hinv. destruct (loading_progress _ _ _ _ HW Hinv) as [Hgone|]; [left|by right].
    specialize (Hfinal s Hinv Hgone). destruct Hgone as (Hp & Hall & _ & [result Hres]).
    split; [done|]. split; [done|]. exists result. split; [done|].
    unfold coll_ok in Hfinal. rewrite Hres in Hfinal. destruct result as [e|out].
    + by destruct Hfinal.
    + destruct Hfinal as (_ & _ & Hok & Hout). exists (found get). split; [|done].
      intros j [repos Hj]%Hok. unfold found. by rewrite Hj.
  - apply loading_init_inv.
Qed.

Lemma loadRepos_result_witness :
  always_ends (loading_step 2 (fun j => @inr str _ [j]))
    (fun s => exists out, coll s = Collected (inr out) /\ out ≡ₚ [0%nat; 1%nat]) (loading_init 8).
Proof.
  destruct (loadRepos_result 8 2 (fun j => @inr str _ [j])) as [Hsn H]; [lia|].
  split; [exact Hsn|]. intros s Hr Hnf.
  destruct (H s Hr Hnf) as (_ & _ & [e|out] & Hres & Hok).
  - destruct Hok as (j & _ & Hj). discriminate Hj.
  - exists out. split; [exact Hres|]. destruct Hok as (repos & Hj & ->). cbn.
    pose proof (Hj 0%nat ltac:(lia)) as H0. pose proof (Hj 1%nat ltac:(lia)) as H1.
    injection H0 as <-. injection H1 as <-. reflexivity.
Defined.
