(* ===== verification/GithubConfigSpec.v ===== *)
(** * What the configuration promises: every repository that is wanted, once,
    in the order of the names

    One program writes the file, and two read it: the fetcher and the server. *)
From S2P Require Import Prelude GoStrings GoJson GoJsonSpec Config ConfigSpec GoSort GoMap GoPath GoFlag Checkout Start.
From S2P Require Import Reindex GithubIndex.

(** The fields the API always fills. *)
Definition complete (r : Repository) : Prop :=
  is_Some (FullName r) /\ is_Some (CloneURL r) /\ is_Some (SSHURL r) /\ is_Some (HTMLURL r).
Definition name_of (r : Repository) : str := default [] (FullName r).

Section config.
Context (g : github_flags) (ignorelist : option (gset str)).

(** Neither an unwanted fork, nor archived, nor ignored. *)
Definition kept (r : Repository) : Prop :=
  ~ (flagForks g = false /\ Fork r = Some true) /\ ~ (flagArchived g = false /\ Archived r = Some true) /\
  match ignorelist with Some l => name_of r ∉ l | None => True end.
#[export] Instance kept_dec r : Decision (kept r).
Proof. unfold kept. destruct ignorelist; apply _. Defined.

(** What is written for a repository. *)
Definition spec_of (r : Repository) : RepoSpec :=
  mkRepoSpec (Join [flagRepoDir g; name_of r]) (name_of r) [flagRevision g]
    (Some (mkRepoMetadata (flagUrlPattern g)
       (default [] (if flagHTTP g then CloneURL r else SSHURL r)) (default [] (HTMLURL r)) [])) false
    (Some (mkCloneOptions (int32 (flagDepth g)) (flagHTTPUsername g)
       (if decide (flagGithubKey g = []) then [] else "GITHUB_KEY"%str))).

Lemma filterRepos_ok repos out :
  Forall complete repos ->
  foldM (filter_repo ignorelist (negb (flagForks g)) (negb (flagArchived g))) repos out = Ok (out ++ filter kept repos).
Proof.
  revert out. induction repos as [|r repos IH]; intros out Hc; [by rewrite app_nil_r|].
  apply Forall_cons in Hc as [([n Hn] & _) Hc]. cbn [foldM].
  assert (filter_repo ignorelist (negb (flagForks g)) (negb (flagArchived g)) out r
          = Ok (if decide (kept r) then out ++ [r] else out)) as ->.
  { destruct (decide (kept r)) as [Hk|Hk]; unfold kept, name_of in Hk; rewrite Hn in Hk; cbn in Hk;
      unfold filter_repo, is_set; rewrite Hn; cbn [deref mbind res_bind];
      destruct (flagForks g), (flagArchived g), ignorelist; cbn [negb andb];
      repeat (case_bool_decide || case_decide); try done; exfalso; intuition congruence. }
  cbn [mbind res_bind]. rewrite IH by done. rewrite filter_cons.
  case_decide; [by rewrite <- app_assoc|done].
Qed.

(** Is a revision in a directory? *)
Context (has_revision : str -> str -> bool).
(** The revision is there, if that was asked. *)
Definition present (r : Repository) : Prop :=
  flagSkipMissing g = true -> has_revision (Join [flagRepoDir g; name_of r]) (flagRevision g) = true.
#[export] Instance present_dec r : Decision (present r).
Proof. unfold present. apply _. Defined.

Lemma specs_ok repos out :
  Forall complete repos ->
  foldM (add_spec has_revision g (flagRepoDir g) (flagRevision g)) repos out = Ok (out ++ (spec_of <$> filter present repos)).
Proof.
  revert out. induction repos as [|r repos IH]; intros out Hc; [by rewrite app_nil_r|].
  apply Forall_cons in Hc as [([n Hn] & [c Hcl] & [s Hs] & [h Hh]) Hc]. cbn [foldM].
  assert (add_spec has_revision g (flagRepoDir g) (flagRevision g) out r
          = Ok (if decide (present r) then out ++ [spec_of r] else out)) as ->.
  { destruct (decide (present r)) as [Hp|Hp]; unfold present, name_of in Hp; rewrite Hn in Hp; cbn in Hp;
      unfold add_spec, repo_spec, spec_of, name_of; rewrite Hn, Hcl, Hs, Hh; cbn [deref mbind res_bind default];
      destruct (flagSkipMissing g), (flagHTTP g); cbn [mbind res_bind deref from_option id];
      try (destruct (has_revision _ _); cbn [negb]); try done; exfalso; naive_solver. }
  cbn [mbind res_bind]. rewrite IH by done. rewrite filter_cons.
  case_decide; [by rewrite <- app_assoc|done].
Qed.
End config.


#[export] Instance name_less_weak : StrictWeak name_less.
Proof.
  split; unfold name_less; intros *; [apply less_irrefl|apply less_trans|apply less_incomp].
Qed.

(** From what GitHub returned, the configuration has one entry for each
    repository that is neither an unwanted fork, nor archived, nor ignored, and
    has the revision if that was asked, in the order of the names; each entry
    names the repository, its directory and the address to clone it from. *)
Lemma make_config_repositories `{!GoSort} (has_revision : str -> str -> bool) (g : github_flags)
    (ignorelist : option (gset str)) (repos : list Repository) :
  Forall complete repos ->
  exists sorted,
    make_config has_revision g ignorelist repos = Ok (mkIndexSpec (flagName g) [] (Some <$> (spec_of g <$> sorted))) /\
    sorted ≡ₚ filter (fun r => kept g ignorelist r /\ present g has_revision r) repos /\
    StronglySorted (before str_ltb) (name_of <$> sorted).
Proof.
  intros Hc. unfold make_config, filterRepos. rewrite filterRepos_ok by done. cbn [mbind res_bind app].
  set (wanted := filter (kept g ignorelist) repos).
  assert (Forall complete wanted) as Hw.
  { apply Forall_forall. intros r [_ Hr]%list_elem_of_filter. by eapply Forall_forall in Hc. }
  assert (sort_repos wanted = Ok (go_sort name_less wanted)) as ->.
  { unfold sort_repos. replace (forallb _ wanted) with true; [by rewrite andb_false_r|].
    symmetry. apply forallb_forall. intros r Hr%list_elem_of_In. apply bool_decide_eq_true.
    eapply Forall_forall in Hw as [? _]; done. }
  cbn [mbind res_bind]. unfold buildConfig. rewrite specs_ok by by rewrite go_sort_perm. cbn [mbind res_bind app].
  eexists. split; [reflexivity|]. split.
  - rewrite go_sort_perm. unfold wanted. rewrite list_filter_filter.
    rewrite (list_filter_iff _ (fun r => kept g ignorelist r /\ present g has_revision r)); [done|]. tauto.
  - eapply StronglySorted_fmap, filter_sorted, go_sort_sorted, _. intros x y. done.
Qed.

Definition sample_repository (name : str) (archived : bool) : Repository :=
  mkRepository (Some name) (Some false) (Some archived) (Some "https"%str) (Some "ssh"%str) (Some "html"%str).
Definition sample_repositories : list Repository :=
  [sample_repository "b/x"%str false; sample_repository "c/y"%str true; sample_repository "a/z"%str false].

(** ** The three programs *)
Definition wanted (read : str -> option str) (has_revision : str -> str -> bool) (i : gh_inputs) (g : github_flags)
    (r : Repository) : Prop :=
  kept g (if decide (in_Ignorelist i = []) then None else loadIgnorelist (read (in_Ignorelist i))) r /\
  present g has_revision r.
#[export] Instance wanted_dec read has_revision i g r : Decision (wanted read has_revision i g r).
Proof. unfold wanted. apply _. Defined.

Lemma github_main_writes `{!GoSort} read load has_revision arg0 is_file i g g' repos file data rest :
  Forall complete repos -> load (in_Repos i) (in_Orgs i) (in_Users i) = Some repos ->
  with_installation (in_Installation i) g = Some g' ->
  github_main read load has_revision arg0 is_file i g = Ok (WriteConfig file data :: rest) ->
  exists sorted,
    sorted ≡ₚ filter (wanted read has_revision i g') repos /\
    StronglySorted (before str_ltb) (name_of <$> sorted) /\
    file = config_path g' /\
    data = index_text (mkIndexSpec (flagName g') [] (Some <$> (spec_of g' <$> sorted))) /\
    (flagOnlyWriteConfig g' = false -> exists binary, rest = [RunFetch binary (fetch_reindex_args g')]).
Proof.
  intros Hc Hl Hg Hm. unfold github_main in Hm. rewrite Hg, Hl in Hm.
  do 2 (case_bool_decide; [done|]). unfold wanted.
  set (ignore := if decide (in_Ignorelist i = []) then None else loadIgnorelist (read (in_Ignorelist i))).
  replace (if decide (in_Ignorelist i = []) then Some None else Some <$> loadIgnorelist (read (in_Ignorelist i)))
    with (if bool_decide (in_Ignorelist i <> [] /\ ignore = None) then None else Some ignore) in Hm.
  2:{ unfold ignore. destruct (decide (in_Ignorelist i = [])) as [->|Hi]; [done|].
      destruct (loadIgnorelist (read (in_Ignorelist i))) as [l|].
      - by rewrite bool_decide_false by (by intros []).
      - by rewrite bool_decide_true. }
  case_bool_decide; [done|]. destruct (_ && _); [done|].
  destruct (make_config_repositories has_revision g' ignore repos Hc) as (sorted & Es & Hp & Hs).
  rewrite Es in Hm. cbn [mbind res_bind] in Hm. injection Hm as <- <- <-.
  exists sorted. split_and!; [exact Hp|done..|]. intros ->. by eexists.
Qed.

Lemma passed_workers g workers : get_int (passed_flags g workers) "num-workers"%str = workers.
Proof. unfold passed_flags. by destruct (flagNoIndex g), (flagRevparse g), (flagSkipMissing g). Qed.
Lemma spec_of_int g r : int_RepoSpec (spec_of g r).
Proof. apply int32_range. Qed.
Lemma index_read_back g sorted :
  let spec := mkIndexSpec (flagName g) [] (Some <$> (spec_of g <$> sorted)) in
  Unmarshal dec_IndexSpec zero_IndexSpec (index_text spec)
    = Some (mkIndexSpec (ToValidUTF8 (flagName g)) [] (Some <$> (clean_RepoSpec <$> (spec_of g <$> sorted)))) /\
  Unmarshal dec_IndexConfig zero_IndexConfig (index_text spec)
    = Some (mkIndexConfig (ToValidUTF8 (flagName g)) (repo_config_of <$> (spec_of g <$> sorted))).
Proof.
  intros spec. split.
  - rewrite fetch_reads.
    + unfold clean_IndexSpec, spec. cbn. by rewrite <- !list_fmap_compose.
    + apply Forall_fmap, Forall_fmap, Forall_forall. intros r _. apply spec_of_int.
  - rewrite server_reads.
    + unfold index_config_of, spec. cbn. by rewrite <- !list_fmap_compose.
    + apply Forall_fmap, Forall_fmap, Forall_forall. intros r _ Hr. by apply Hr.
Qed.

(** C27: from what GitHub returned, the program writes a file with one entry
    for each repository that is neither an unwanted fork, nor archived, nor
    ignored, and has the revision if that was asked, in the order of the names.
    The fetcher it starts reads the file and updates exactly those
    repositories, and a server that is given the file offers exactly those
    names, directories and metadata. *)
Theorem index_file_agreed `{!GoSort} (read read' : str -> option str)
    (load : list str -> list str -> list str -> option (list Repository)) (has_revision : str -> str -> bool)
    (arg0 : str) (is_file : str -> bool) (i : gh_inputs) (g g' : github_flags) (repos : list Repository)
    (file data : str) (rest : list gh_action) (workers : Z) :
  Forall complete repos -> load (in_Repos i) (in_Orgs i) (in_Users i) = Some repos ->
  with_installation (in_Installation i) g = Some g' ->
  github_main read load has_revision arg0 is_file i g = Ok (WriteConfig file data :: rest) ->
  read' file = Some data ->
  ParseInt0 (flagNumRepoUpdateWorkers g') = Some workers -> flag_name file = None -> file <> "--"%str ->
  exists sorted,
    sorted ≡ₚ filter (wanted read has_revision i g') repos /\ StronglySorted (before str_ltb) (name_of <$> sorted) /\
    (flagOnlyWriteConfig g' = false -> exists binary args indexing, rest = [RunFetch binary args] /\
       fetch_main arg0 is_file read' args =
       [ReadConfig file; CheckoutRepos workers (Some <$> (clean_RepoSpec <$> (spec_of g' <$> sorted)))] ++ indexing) /\
    (forall f executable getenv, docRoot f <> [] -> file <> [] -> indexConfig f = file -> args f = [] ->
       exists cfg, load_config read' executable f getenv = Ok cfg /\
         c_Repositories cfg = repo_config_of <$> (spec_of g' <$> sorted)).
Proof.
  intros Hc Hl Hg Hm Hr Hw Hn Hd.
  destruct (github_main_writes _ _ _ _ _ _ _ _ _ _ _ _ Hc Hl Hg Hm) as (sorted & Hp & Hs & -> & -> & Hrun).
  destruct (index_read_back g' sorted) as [Hfetch Hserver]. exists sorted. split_and!; [done..| |].
  - intros Ho. destruct (Hrun Ho) as [binary ->]. exists binary, (fetch_reindex_args g'). eexists. split; [done|].
    unfold fetch_main. rewrite (Parse_passed g' workers) by done. unfold load_spec. rewrite Hr. cbn [mbind option_bind].
    rewrite Hfetch. unfold fetch_actions. cbn [Repositories app]. rewrite passed_workers. reflexivity.
  - intros f executable getenv Hroot Hfile Hconfig Hargs. unfold load_config. rewrite Hargs, Hconfig, Hr.
    rewrite !decide_False by done. cbn [or_err mbind res_bind]. cbn [default_config c_IndexConfig].
    rewrite Hserver. cbn [or_err mbind res_bind]. rewrite decide_False by done.
    by eexists.
Qed.

Definition sample_inputs : gh_inputs := mkGhInputs [] [] ["org"%str] [] true [].
Definition sample_load (repos orgs users : list str) : option (list Repository) := Some sample_repositories.
(** What the program writes, of which the file is read later. *)
Definition sample_installed : github_flags := default sample_flags (with_installation true sample_flags).
Definition sample_index : str :=
  index_text (mkIndexSpec "idx"%str []
    [Some (spec_of sample_installed (sample_repository "a/z"%str false));
     Some (spec_of sample_installed (sample_repository "b/x"%str false))]).
Lemma index_file_agreed_witness :
  exists sorted,
    sorted ≡ₚ [sample_repository "b/x"%str false; sample_repository "a/z"%str false] /\
    StronglySorted (before str_ltb) (name_of <$> sorted) /\
    exists indexing,
      fetch_main "x"%str (fun _ => false) (fun _ => Some sample_index) (fetch_reindex_args sample_installed) =
      [ReadConfig "repos/livegrep.json"%str;
       CheckoutRepos 8 (Some <$> (clean_RepoSpec <$> (spec_of sample_installed <$> sorted)))] ++ indexing.
Proof.
  destruct (index_file_agreed (fun _ => None) (fun _ => Some sample_index) sample_load (fun _ _ => true) "x"%str
    (fun _ => false) sample_inputs sample_flags sample_installed sample_repositories "repos/livegrep.json"%str
    sample_index
    [RunFetch (findBinary "x"%str (fun _ => false) "livegrep-fetch-reindex"%str) (fetch_reindex_args sample_installed)] 8)
    as (sorted & Hp & Hs & Hrun & _).
  - repeat constructor; by eexists.
  - done.
  - done.
  - vm_compute. reflexivity.
  - done.
  - vm_compute. reflexivity.
  - vm_compute. reflexivity.
  - vm_compute. discriminate.
  - destruct (Hrun eq_refl) as (binary & args & indexing & E & Hf). injection E as _ <-.
    exists sorted. split; [exact Hp|]. split; [exact Hs|]. exists indexing. exact Hf.
Defined.
