(* ===== verification/Metrics.v ===== *)
(** * The metrics exporter: [cmd/livegrep-metrics-exporter]

    It reads the file that the indexer writes at the end of a run
    ([src/src/lib/metrics.cc]) with three regular expressions and sends what it
    finds to statsd, as doubles.  A run is the list of what it sends, and whether it
    ended without a fatal error. *)
From S2P Require Import Prelude GoStrings GoRegexp GoSort GoMap GoTime.

(** ** The file: [metric::dump_all_to_file] *)

(** [metrics] in the order of the map of the indexer, by name. *)
Definition dump_line (p : str * Z) : str := p.1 ++ " "%str ++ Itoa p.2 ++ [LF].
Definition dump_all_to_file (metrics : list (str * Z)) (elapsedSec elapsedUSec : Z) : str :=
  "repository indexed in "%str ++ Itoa elapsedSec ++ "."%str ++ pad6 elapsedUSec ++ "s"%str ++ [LF]
  ++ "== begin metrics =="%str ++ [LF] ++ (metrics ≫= dump_line) ++ "== end metrics =="%str ++ [LF].

(** ** Reading it *)
Definition indexTimeToCompletePattern : re :=
  RSeq [RLit "repository"%str; RStar true (RChr class_s); RLit "indexed"%str; RStar true (RChr class_s);
        RLit "in"%str; RStar true (RChr class_s); RGroup 1 (RStar true (RChr class_dot))].
Definition class_name : Z -> bool := fun r => class_w r || rune_is "." r.
Definition metricPattern : re :=
  RSeq [RGroup 1 (RPlus (RChr class_name)); RChr class_s; RGroup 2 (RPlus (RChr class_d))].
Definition metricsDumpPattern : re :=
  RSeq [RLit "== begin metrics =="%str; RStar true (RChr class_s); RGroup 1 (RPlus (RChr class_any));
        RChr class_s; RLit "== end metrics =="%str].

(** What is sent.  The value of a gauge is a [float64] that holds an integer. *)
Inductive report := Timing (bucket : str) (ms : Z) | Gauge (bucket : str) (value : Z).
#[export] Instance report_eq_dec : EqDecision report.
Proof. solve_decision. Defined.

Definition read_metric (metrics : gmap str Z) (metricLine : str) : res unit (gmap str Z) :=
  metric ← or_err tt (find metricPattern metricLine);
  value ← or_err tt (Atoi (group metric 2));
  Ok (<[group metric 1 := value]> metrics).
Definition read_metrics (dump : str) : res unit (gmap str Z) := foldM read_metric (split LF dump) ∅.

(** [elapsed] is what the clock says of the export itself. *)
Definition export `{!GoRange} (metricsFile : str) (elapsed : Z) : list report * bool :=
  match find indexTimeToCompletePattern metricsFile ≫= fun m => ParseDuration (group m 1) with
  | None => ([], false)
  | Some timeToIndex =>
      let sent := [Timing "index.timeToIndex"%str (Milliseconds timeToIndex)] in
      match find metricsDumpPattern metricsFile with
      | None => (sent, false)
      | Some dump =>
          match read_metrics (group dump 1) with
          | Ok metrics =>
              (sent ++ ((fun p => Gauge p.1 (float64_of p.2)) <$> go_range metrics) ++ [Timing "export.duration"%str elapsed], true)
          | Err _ | Panic => (sent, false)
          end
      end
  end.

(** The checks of [init]. *)
Definition flags_given (metricsPath statsdAddr : str) : bool :=
  negb (bool_decide (metricsPath = [])) && negb (bool_decide (statsdAddr = [])).

(** [stringMapFlag]: [key=value], with exactly one equals sign. *)
Definition Set_ (values : gmap str str) (value : str) : option (gmap str str) :=
  match split "=" value with
  | [k; v] => Some (<[k := v]> values)
  | _ => None
  end.
Definition String_ `{!GoRange} (values : gmap str str) : str :=
  join ","%str ((fun p => p.1 ++ "="%str ++ p.2) <$> go_range values).

Example export_sample :
  export (dump_all_to_file [("index.bytes"%str, 123); ("index.files"%str, 4)] 12 345678) 5 =
  ([Timing "index.timeToIndex"%str 12345; Gauge "index.bytes"%str 123; Gauge "index.files"%str 4;
    Timing "export.duration"%str 5], true).
Proof. vm_compute. reflexivity. Qed.
Example export_rounds :
  export (dump_all_to_file [("index.bytes"%str, 2 ^ 53 + 1)] 12 345678) 5 =
  ([Timing "index.timeToIndex"%str 12345; Gauge "index.bytes"%str (2 ^ 53);
    Timing "export.duration"%str 5], true).
Proof. vm_compute. reflexivity. Qed.
Example export_negative :
  export (dump_all_to_file [("index.bytes"%str, -1)] 12 345678) 5 = ([Timing "index.timeToIndex"%str 12345], false).
Proof. vm_compute. reflexivity. Qed.
Example export_empty :
  export (dump_all_to_file [] 12 345678) 5 = ([Timing "index.timeToIndex"%str 12345], false).
Proof. vm_compute. reflexivity. Qed.
