(* ===== verification/MetricsSpec.v ===== *)
(** * What the exporter promises: what the indexer measured is what it sends *)
From S2P Require Import Prelude GoStrings GoRegexp GoSort GoMap GoTime Metrics.

(** The names the indexer uses: letters, digits, underscores and dots. *)
Definition name_char (c : ascii) : Prop := is_ascii c = true /\ class_name (byte_val c) = true.
Definition metric_name (n : str) : Prop := n <> [] /\ Forall name_char n.
Definition metric_ok (p : str * Z) : Prop := metric_name p.1 /\ 0 <= p.2 < 2 ^ 63.

(** ** Characters *)
Definition plain (c : ascii) : Prop := is_ascii c = true /\ c <> "="%char.

Lemma digit_facts c : is_digit c = true -> plain c /\ class_d (byte_val c) = true /\ c <> LF.
Proof.
  destruct c as [[] [] [] [] [] [] [] []]; intros H; (discriminate H || by vm_compute).
Qed.

Lemma digits_Forall (P : ascii -> Prop) s :
  forallb is_digit s = true -> (forall c, is_digit c = true -> P c) -> Forall P s.
Proof. rewrite forallb_forall, Forall_forall. intros H HP c Hc. by apply HP, H, list_elem_of_In. Qed.

Lemma name_facts c : name_char c -> plain c /\ class_s (byte_val c) = false /\ c <> LF.
Proof.
  destruct c as [[] [] [] [] [] [] [] []]; intros [H1 H2]; (discriminate H1 || discriminate H2 || by vm_compute).
Qed.

(** ** The lines of the dump *)
Definition line (p : str * Z) : str := p.1 ++ " "%str ++ Itoa p.2.

Lemma dump_line_app p s : dump_line p ++ s = line p ++ LF :: s.
Proof. unfold dump_line, line. by rewrite <- !app_assoc. Qed.

Lemma bind_tail l : LF :: (l ≫= dump_line) = ((line <$> l) ≫= fun w => LF :: w) ++ [LF].
Proof.
  induction l as [|p l IH]; [done|]. rewrite fmap_cons, !list_bind_cons, dump_line_app, IH.
  cbn [app]. by rewrite app_assoc.
Qed.

Lemma bind_lines l : l <> [] -> l ≫= dump_line = join [LF] (line <$> l) ++ [LF].
Proof.
  destruct l as [|p l]; [done|]. intros _.
  rewrite fmap_cons, join_cons, list_bind_cons, dump_line_app, bind_tail. by rewrite app_assoc.
Qed.

Lemma Itoa_nonneg n : 0 <= n -> Itoa n = uitoa n.
Proof. intros. unfold Itoa. by rewrite (proj2 (Z.ltb_ge n 0)) by lia. Qed.

Lemma line_chars p : metric_ok p -> Forall (fun c => is_ascii c = true /\ c <> LF) (line p).
Proof.
  intros [[_ Hn] Hv]. unfold line. rewrite Itoa_nonneg by lia. apply Forall_app. split.
  - eapply Forall_impl; [exact Hn|]. intros c [[? _] [_ ?]]%name_facts. done.
  - apply Forall_cons. split; [done|]. apply digits_Forall; [apply uitoa_digits; lia|].
    intros c [[? _] [_ ?]]%digit_facts. done.
Qed.

Lemma join_chars (P : ascii -> Prop) ls : Forall (Forall P) ls -> P LF -> Forall P (join [LF] ls).
Proof.
  intros Hls HLF. destruct Hls as [|w ls Hw Hls]; [done|]. rewrite join_cons. apply Forall_app. split; [done|].
  induction Hls as [|w' ls Hw' _ IH]; [done|]. rewrite list_bind_cons. cbn [app].
  apply Forall_cons. split; [done|]. apply Forall_app. done.
Qed.

(** ** The three patterns *)
Lemma find_metric p : metric_ok p ->
  exists m, find metricPattern (line p) = Some m /\ group m 1 = p.1 /\ group m 2 = uitoa p.2.
Proof.
  intros [[Hne Hn] Hv]. unfold line. rewrite Itoa_nonneg by lia. destruct p as [n v]. cbn [fst snd] in *.
  set (rest := " "%str ++ uitoa v).
  exists (Mtch (n ++ rest) [] [(2%nat, (uitoa v, [])); (1%nat, (n ++ rest, rest))]). split.
  - apply search_here. unfold match_at, metricPattern, RSeq. cbn [foldr].
    rewrite mt_cat, mt_group. apply mt_plus_class; [done| |done|].
    { eapply Forall_impl; [exact Hn|]. intros c [Ha Hc]. unfold spans. by rewrite Ha. }
    rewrite mt_cat. unfold rest. cbn [app]. rewrite mt_class_ascii by done. rewrite mt_cat, mt_group.
    apply mt_plus_end; [apply uitoa_not_nil|apply uitoa_spans; lia|reflexivity].
  - unfold group, group_opt. cbn -[upto uitoa].
    rewrite (decide_False (P := 2%nat = 1%nat)), !decide_True by done.
    cbn -[upto uitoa]. change (" "%char :: uitoa v) with rest. by rewrite upto_nil, upto_app.
Qed.

(** The text in front of the dump, and the dump. *)
Definition elapsed_text (sec us : Z) : str := Itoa sec ++ "."%str ++ pad6 us ++ "s"%str.
Definition dump_text (l : list (str * Z)) : str :=
  "== begin metrics =="%str ++ [LF] ++ (l ≫= dump_line) ++ "== end metrics =="%str ++ [LF].

Lemma dump_all_text l sec us :
  dump_all_to_file l sec us = "repository indexed in "%str ++ elapsed_text sec us ++ LF :: dump_text l.
Proof. unfold dump_all_to_file, elapsed_text, dump_text. by rewrite <- !app_assoc. Qed.

Lemma elapsed_plain sec us :
  0 <= sec -> 0 <= us -> Forall (fun c => plain c /\ c <> LF) (elapsed_text sec us).
Proof.
  intros Hs Hu. unfold elapsed_text. rewrite Itoa_nonneg by done.
  assert (forall s, forallb is_digit s = true -> Forall (fun c => plain c /\ c <> LF) s) as Hd.
  { intros s H. apply digits_Forall; [done|]. intros c [? [_ ?]]%digit_facts. done. }
  assert (forall c, plain c -> c <> LF -> Forall (fun c => plain c /\ c <> LF) [c]) as H1
    by (intros; by apply Forall_singleton).
  apply Forall_app. split; [by apply Hd, uitoa_digits|].
  apply Forall_app. split; [by apply H1; vm_compute|].
  apply Forall_app. split; [by apply Hd, pad6_digits|by apply H1; vm_compute].
Qed.

Lemma find_elapsed sec us rest :
  0 <= sec -> 0 <= us ->
  exists m, find indexTimeToCompletePattern ("repository indexed in "%str ++ elapsed_text sec us ++ LF :: rest) = Some m /\
    group m 1 = elapsed_text sec us.
Proof.
  intros Hs Hu. pose proof (elapsed_plain sec us Hs Hu) as Hp.
  set (text := elapsed_text sec us) in *.
  assert (stops class_s (text ++ LF :: rest)) as Hstop.
  { destruct (uitoa_no_sign sec Hs) as (c & t & E & Hd). unfold text, elapsed_text.
    rewrite Itoa_nonneg, E by done. destruct (digit_facts c Hd) as [[Ha _] _]. split; [done|].
    by destruct c as [[] [] [] [] [] [] [] []]. }
  exists (Mtch ("repository indexed in "%str ++ text ++ LF :: rest) (LF :: rest)
    [(1%nat, (text ++ LF :: rest, LF :: rest))]). split.
  - apply search_here. unfold match_at, indexTimeToCompletePattern, RSeq. cbn [foldr].
    change ("repository indexed in "%str ++ text ++ LF :: rest)
      with ("repository"%str ++ " "%str ++ "indexed"%str ++ " "%str ++ "in"%str ++ " "%str ++ text ++ LF :: rest).
    rewrite mt_cat, mt_lit_app by done. rewrite mt_cat.
    apply mt_star_class; [by repeat constructor|done|]. rewrite mt_cat, mt_lit_app by done. rewrite mt_cat.
    apply mt_star_class; [by repeat constructor|done|]. rewrite mt_cat, mt_lit_app by done. rewrite mt_cat.
    apply mt_star_class; [by repeat constructor|done|]. rewrite mt_cat, mt_group.
    apply mt_star_class; [|done|done]. eapply Forall_impl; [exact Hp|]. intros c [[Ha _] Hlf].
    unfold spans. rewrite Ha. by destruct c as [[] [] [] [] [] [] [] []].
  - unfold group, group_opt. cbn -[upto text]. rewrite decide_True by done. cbn -[upto text]. by rewrite upto_app.
Qed.

Definition dump_end : str := LF :: "== end metrics =="%str ++ [LF].

(** The rest of the pattern accepts at the end of the dump, and nowhere after. *)
Definition dump_rest : re := RSeq [RChr class_s; RLit "== end metrics =="%str].
Lemma dump_end_only {X} n0 (k : str -> caps -> option X) q1 q2 cs :
  dump_end = q1 ++ q2 -> q1 <> [] -> mt n0 dump_rest q2 cs k = None.
Proof.
  intros E Hne. destruct q1 as [|c q1]; [done|]. injection E as _ E.
  assert (q2 ∈ (fun i => drop i (tail dump_end)) <$> seq 0 20) as Hin.
  { apply list_elem_of_fmap. exists (length q1). cbn [dump_end tail app]. rewrite E. split; [by rewrite drop_app_length|].
    apply elem_of_seq. apply (f_equal length) in E. rewrite length_app in E. cbn in E. lia. }
  vm_compute in Hin. repeat (apply elem_of_cons in Hin as [->|Hin]; [reflexivity|]). by apply elem_of_nil in Hin.
Qed.

Lemma find_dump l sec us :
  l <> [] -> Forall metric_ok l -> 0 <= sec -> 0 <= us ->
  exists m, find metricsDumpPattern (dump_all_to_file l sec us) = Some m /\ group m 1 = join [LF] (line <$> l).
Proof.
  intros Hne Hl Hs Hu. pose proof (elapsed_plain sec us Hs Hu) as Hp.
  set (body := join [LF] (line <$> l)).
  assert (Forall (fun c => is_ascii c = true) body) as Hbody.
  { apply join_chars; [|done]. apply Forall_fmap. eapply Forall_impl; [exact Hl|]. intros p Hok.
    eapply Forall_impl; [by apply line_chars|]. by intros c [? _]. }
  assert (exists c t, body = c :: t /\ is_ascii c = true /\ class_s (byte_val c) = false) as (c & t & Eb & Hc & Hsp).
  { unfold body. destruct Hl as [|p l [[Hn Hch] _] _]; [done|]. rewrite fmap_cons, join_cons. unfold line.
    destruct p.1 as [|c n]; [done|]. apply Forall_cons in Hch as [[[Ha _] [Hs' _]]%name_facts _].
    by exists c, ((n ++ " "%str ++ Itoa p.2) ++ ((line <$> l) ≫= fun w => LF :: w)). }
  assert (dump_text l = "== begin metrics =="%str ++ [LF] ++ body ++ dump_end) as Ht.
  { unfold dump_text. rewrite bind_lines, <- app_assoc by done. reflexivity. }
  rewrite dump_all_text, Ht.
  exists (Mtch ("== begin metrics =="%str ++ [LF] ++ body ++ dump_end) [LF] [(1%nat, (body ++ dump_end, dump_end))]).
  split.
  - unfold find. set (tail := "== begin metrics =="%str ++ [LF] ++ body ++ dump_end).
    replace ("repository indexed in "%str ++ elapsed_text sec us ++ LF :: tail)
      with (("repository indexed in "%str ++ elapsed_text sec us ++ [LF]) ++ tail) by by rewrite <- !app_assoc.
    rewrite length_app at 1. unfold metricsDumpPattern, RSeq. cbn [foldr].
    change (RLit "== begin metrics =="%str) with (RLit ("="%char :: "= begin metrics =="%str)).
    rewrite search_skip_text; [|apply Forall_app; split|done].
    2:{ by repeat constructor. }
    2:{ apply Forall_app. split; [|by repeat constructor]. eapply Forall_impl; [exact Hp|]. by intros a [Ha _]. }
    apply search_here. unfold match_at. rewrite mt_cat. unfold tail. rewrite mt_lit_app by done.
    rewrite mt_cat. apply mt_star_class; [by repeat constructor|by rewrite Eb|].
    rewrite mt_cat, mt_group, Eb. cbn [app]. unfold RPlus. rewrite mt_cat, mt_class_ascii by done.
    apply mt_star_back.
    + apply Forall_app. split; [|by repeat constructor].
      rewrite Eb in Hbody. apply Forall_cons in Hbody as [_ Hbody]. eapply Forall_impl; [exact Hbody|]. done.
    + intros q1 q2 cs' E Hq. by apply (dump_end_only _ _ q1).
    + reflexivity.
  - unfold group, group_opt. cbn -[upto body dump_end]. rewrite decide_True by done.
    cbn -[upto body dump_end]. by rewrite upto_app.
Qed.

Lemma read_lines l : forall m,
  Forall metric_ok l -> foldM read_metric (line <$> l) m = Ok (foldl (fun m p => <[p.1 := p.2]> m) m l).
Proof.
  induction l as [|p l IH]; intros m Hl; [done|]. apply Forall_cons in Hl as [Hp Hl].
  rewrite fmap_cons. cbn [foldM foldl].
  assert (read_metric m (line p) = Ok (<[p.1 := p.2]> m)) as ->; [|by apply IH].
  unfold read_metric. destruct (find_metric p Hp) as (mm & -> & Hn & Hd). destruct Hp as [_ Hv].
  cbn [or_err mbind res_bind]. by rewrite Hd, Hn, Atoi_uitoa by lia.
Qed.

Lemma foldl_insert_list (l : list (str * Z)) :
  foldl (fun m p => <[p.1 := p.2]> m) (∅ : gmap str Z) l = list_to_map (reverse l).
Proof.
  induction l as [|[k v] l IH] using rev_ind; [done|]. rewrite foldl_app, reverse_app. cbn. by rewrite IH.
Qed.

(** C20: the exporter reads what the indexer writes: for metrics with the names
    the indexer uses and values from 0 to 2^63 - 1, in whatever order they are
    dumped, it sends the time of the run in milliseconds, one gauge per metric
    with its value as a [float64], and nothing else but its own duration.  The
    value sent is the metric's own up to 2^53, and above it is off by one part
    in 2^53 at most. *)
Theorem export_dump `{!GoRange} (metrics : gmap str Z) (l : list (str * Z)) (sec us elapsed : Z) :
  metrics <> ∅ -> l ≡ₚ map_to_list metrics -> Forall metric_ok l -> 0 <= sec < 2 ^ 31 -> 0 <= us < 10 ^ 6 ->
  exists gauges,
    export (dump_all_to_file l sec us) elapsed =
      ([Timing "index.timeToIndex"%str (sec * 1000 + us `div` 1000)]
       ++ ((fun p => Gauge p.1 p.2) <$> gauges) ++ [Timing "export.duration"%str elapsed], true) /\
    Forall2 (fun m g => g.1 = m.1 /\ (m.2 <= 2 ^ 53 -> g.2 = m.2) /\ 2 ^ 53 * Z.abs (g.2 - m.2) <= m.2)
      (go_range metrics) gauges.
Proof.
  intros Hne Hperm Hok Hs Hu.
  exists ((fun p => (p.1, float64_of p.2)) <$> go_range metrics). split.
  2:{ apply Forall2_fmap_r, Forall_Forall2_diag, Forall_forall. intros p Hp. cbn.
      rewrite go_range_perm, <- Hperm in Hp. rewrite Forall_forall in Hok. destruct (Hok p Hp) as [_ ?].
      split_and!; [done|intros; apply float64_of_exact; lia|apply float64_of_error; lia]. }
  rewrite <- list_fmap_compose.
  assert (l <> []) as Hl.
  { intros ->. apply Hne, map_to_list_empty_iff. by apply Permutation_nil. }
  unfold export. rewrite dump_all_text.
  destruct (find_elapsed sec us (dump_text l)) as (m & -> & Hm); [lia..|]. cbn [mbind option_bind].
  rewrite Hm. unfold elapsed_text. rewrite Itoa_nonneg, ParseDuration_seconds by lia.
  rewrite <- Itoa_nonneg by lia. fold (elapsed_text sec us). rewrite <- dump_all_text.
  destruct (find_dump l sec us Hl Hok) as (m' & -> & ->); [lia..|].
  unfold read_metrics. rewrite split_join; [|by destruct l|].
  2:{ apply Forall_fmap. eapply Forall_impl; [exact Hok|]. intros p Hp Hin. cbn in Hin.
      eapply Forall_forall in Hin; [|by apply line_chars]. by destruct Hin. }
  rewrite read_lines by done.
  rewrite foldl_insert_list. assert (list_to_map (reverse l) = metrics) as ->.
  { rewrite <- (list_to_map_to_list metrics). apply list_to_map_proper.
    - rewrite reverse_Permutation, Hperm. apply NoDup_fst_map_to_list.
    - by rewrite reverse_Permutation. }
  do 4 f_equal. unfold Milliseconds. rewrite Z.quot_div_nonneg by lia.
  pose proof (Z.div_mod us 1000 ltac:(lia)). pose proof (Z.mod_pos_bound us 1000 ltac:(lia)).
  symmetry. apply Z.div_unique with (us `mod` 1000 * 1000); lia.
Qed.

Lemma export_dump_witness :
  exists g, 2 ^ 53 * Z.abs (g - 4) <= 4 /\
  export (dump_all_to_file [("index.files"%str, 4)] 12 345678) 5 =
  ([Timing "index.timeToIndex"%str 12345; Gauge "index.files"%str g; Timing "export.duration"%str 5], true).
Proof.
  destruct (export_dump {[ "index.files"%str := 4 ]} [("index.files"%str, 4)] 12 345678 5)
    as (gauges & E & Hg).
  - discriminate.
  - by rewrite map_to_list_singleton.
  - apply Forall_singleton. split; [split; [discriminate|by repeat constructor]|by split].
  - by split.
  - by split.
  - assert (go_range ({[ "index.files"%str := 4 ]} : gmap str Z) = [("index.files"%str, 4)]) as Er
      by (apply Permutation_singleton_r; rewrite go_range_perm; by rewrite map_to_list_singleton).
    rewrite Er in Hg. apply Forall2_cons_inv_l in Hg as ([n g] & l' & (Hn & _ & Hv) & Hl & ->).
    apply Forall2_nil_inv_l in Hl as ->. cbn in Hn, Hv. subst n. exists g. split; [exact Hv|exact E].
Defined.
