(* ===== verification/Tools.v ===== *)
(** * The small programs: [cmd/livegrep-reload], which tells a backend to read
    its index again, and [web/cmd/build-web], which bundles the scripts and the
    style sheet of the pages

    Dialing and the call, and the bundler, are parameters. *)
From S2P Require Import Prelude GoStrings GoPath GoMap GoFlag.

(** ** Reloading a backend *)
Section reload.
(** The error of [grpc.Dial], and that of the call, which either fails at once
    while the backend is down or waits for it. *)
Context (Dial : str -> option str) (Reload : str -> bool -> option str).

(** [reloadBackend]; that of [cmd/livegrep-fetch-reindex] is the same, but waits. *)
Definition reloadBackend (failFast : bool) (addr : str) : option str :=
  match Dial addr with Some e => Some e | None => Reload addr failFast end.

(** [main]: the exit code and the message, unless the package [flag] ended the
    program. *)
Definition reload_main (args : list str) : option (Z * str) :=
  '(_, args) ← GoFlag.Parse ∅ args;
  Some match args with
       | [addr] => match reloadBackend true addr with
                   | None => (0, [])
                   | Some e => (1, "reload: "%str ++ e)
                   end
       | _ => (1, "You must provide a HOST:PORT to reload"%str)
       end.
End reload.

(** ** The bundles *)
Record bundle := mkBundle { EntryPoint : str; Outfile : str }.
#[export] Instance bundle_eq_dec : EqDecision bundle.
Proof. solve_decision. Defined.
Definition bundles (outDir : str) : list bundle := [
  mkBundle "web/src/entry.js"%str (Join [outDir; "htdocs"; "assets"; "js"; "bundle_new.js"]%str);
  mkBundle "web/src/fileview/fileview_v2.js"%str (Join [outDir; "htdocs"; "assets"; "js"; "fileview_v2.min.js"]%str);
  mkBundle "web/src/codesearch/codesearch.js"%str (Join [outDir; "htdocs"; "assets"; "js"; "codesearch.min.js"]%str);
  mkBundle "web/htdocs/assets/css/codesearch.css"%str (Join [outDir; "htdocs"; "assets"; "css"; "codesearch.min.css"]%str)].

Section build.
(** How many errors a build has. *)
Context (Build : bundle -> nat).

(** The builds that are made, and the exit code. *)
Fixpoint build_all (l : list bundle) : list bundle * Z :=
  match l with
  | [] => ([], 0)
  | b :: l => if decide (0 < Build b)%nat then ([b], 1) else let '(made, code) := build_all l in (b :: made, code)
  end.
Definition build_flags : flags := {[ "test"%str := VString [] ]}.
Definition build_main (args : list str) : option (list bundle * Z) :=
  '(fs, _) ← GoFlag.Parse build_flags args; Some (build_all (bundles (get_string fs "test"%str))).

(** The program succeeds if every build does, and stops at the first that
    does not. *)
Lemma build_all_spec l :
  match build_all l with
  | (made, 0) => made = l /\ Forall (fun b => Build b = 0%nat) l
  | (made, code) => code = 1 /\ exists pre b rest, l = pre ++ b :: rest /\ made = pre ++ [b] /\
                      Forall (fun b => Build b = 0%nat) pre /\ (0 < Build b)%nat
  end.
Proof using.
  induction l as [|b l IH]; [done|]. cbn [build_all]. case_decide as Hb; [split; [done|by exists [], b, l]|].
  assert (Build b = 0%nat) as Hb0 by lia. destruct (build_all l) as [made [|p|p]]; cbn.
  - destruct IH as [-> Hl]. split; [done|]. by constructor.
  - destruct IH as (Hc & pre & b' & rest & -> & -> & Hp & Hb'). split; [done|]. exists (b :: pre), b', rest.
    split_and!; [done..| |done]. by constructor.
  - by destruct IH.
Qed.
End build.

Example build_fails :
  build_main (fun b => if decide (EntryPoint b = "web/src/fileview/fileview_v2.js"%str) then 1%nat else 0%nat)
    ["-test"%str; "out"%str] = Some (take 2 (bundles "out"%str), 1) /\
  Outfile <$> bundles "out/"%str !! 3%nat = Some "out/htdocs/assets/css/codesearch.min.css"%str.
Proof. vm_compute. done. Qed.
Example reload_ends :
  reload_main (fun _ => None) (fun addr failFast => if failFast then Some "down"%str else None) ["localhost:9999"%str]
    = Some (1, "reload: down"%str) /\
  reload_main (fun _ => None) (fun _ _ => None) ["localhost:9999"%str] = Some (0, []) /\
  reload_main (fun _ => None) (fun _ _ => None) [] = Some (1, "You must provide a HOST:PORT to reload"%str).
Proof. vm_compute. done. Qed.
